(* ===== verification/_CoqProject ===== *)
-Q . S2P
Prelude.v
Types.v
Message.v
MixAll.v
Proto.v
RateLimiter.v
Route.v
Concurrency.v
NameServer.v
Http.v
Config.v
Providers.v
Codec.v
ClientManager.v
RemoteCalls.v
RouteCache.v
ClientImpl.v
RoutePath.v
ProcessQueue.v
ConsumeService.v
ConsumeThreads.v
Producer.v
SendPath.v
SendNode.v
ProducerFacade.v
Facade.v
PushConsumer.v
Delivery.v
ReceivePath.v
SettlePath.v
Node.v
PullConsumer.v
Waits.v
PullPath.v
ConsumerFacade.v
Admin.v
Tracing.v
Spans.v
OpenSSL.v
Examples.v
