(* ===== verification/Prelude.v ===== *)
(** * A model of the RocketMQ C++ client, and what makes it correct

    The program (src/api/rocketmq, src/src/main/cpp) is a messaging client.  A producer
    sends messages to the brokers of a topic; push and pull consumers receive them; a
    client manager owns the RPC clients and issues the remote calls; a scheduler and thread
    pools run the periodic work and the callbacks; a route table, filled from name servers,
    tells which brokers serve a topic.

    ** The files, from the ground up

    - Prelude (this file): machine integers, strings, [std::sort], shared tactics and hints.
    - Types: lifecycle states, error codes (api/rocketmq/ErrorCode.h,
      base/ErrorCategory.cpp), RPC status codes, the small enumerations of the API.
    - Message: [MQMessageQueue], [MQMessage]/[MQMessageExt] with their copy semantics,
      [MessageAccessor], [SendResult], [FilterExpression].
    - MixAll: constants, [validate], hexadecimal codec, [macAddress], [UniqueIdGenerator],
      [Histogram].
    - Proto: the wire messages, field by field, as the client fills or reads them.
    - RateLimiter: the partitioned token bucket of base/include/RateLimiter.h.
    - Route: addresses, brokers, partitions, [TopicRouteData], [TopicPublishInfo] (queue
      selection of a producer), [TopicAssignment], [selectBroker].
    - Concurrency: [SchedulerImpl], [ThreadPoolImpl], [CountdownLatch] as step machines.
    - NameServer: the class [NameServerResolver] with its static and dynamic instances,
      [TopAddressing], [HostInfo].
    - Http: [HttpClientImpl], and the dynamic resolver running over it.
    - Config: credentials and their providers, [ClientConfigImpl], [Signature::sign].
    - Providers: the class [CredentialsProvider] with its instances, the STS provider over
      HTTP, signing with the provider of the client.
    - Codec: body compression and digests, [wrapMessage], [processPopResult],
      [processPullResult], [processSendResponse].
    - ClientManager: invocation contexts, the mapping of every RPC completion to the
      caller's error code, the RPC client table, heartbeats and health checks against the
      class [Client], [ClientManagerFactory].
    - RemoteCalls: the remote operations as a whole: the caller, [RpcClientImpl], gRPC, the
      completion queue and its poller, the callback pool and [shutdown], interleaved.
    - RouteCache: the route table of [ClientImpl] with its coalesced inflight queries.
    - ClientImpl: lifecycle, endpoint isolation, heartbeats, access point, multiplexing;
      it is an instance of [Client].
    - RoutePath: the route table on top of the remote calls, with many calls under way.
    - ProcessQueue: [ProcessQueueImpl], the local cache of one queue.
    - ConsumeService: the standard and the FIFO consume services.
    - ConsumeThreads: the threads of a consume service: dispatcher, pool, rate limiters and
      their observer, [start] and [shutdown].
    - Producer: [ProducerImpl], the send callbacks, [TransactionImpl].
    - SendPath: one send on top of the remote calls; SendNode: many of them under way.
    - Facade, ProducerFacade: [DefaultMQProducer], the flavours of sending as the application
      sees them; its settings, [start] and [shutdown].
    - PushConsumer: [PushConsumerImpl] and [AsyncReceiveMessageCallback].
    - Delivery: the push consumer, the dispatcher and the tasks of the standard consume
      service interleaved.
    - ReceivePath: the push consumer on top of the remote calls.
    - SettlePath: ordered consumption on top of the remote calls.
    - Node: a consumer node: PushConsumer, the standard consume service and RemoteCalls, with
      many calls under way.
    - PullConsumer: [PullConsumerImpl], [AwaitPullCallback].
    - Waits: the callers that block on a condition variable until a callback has run.
    - PullPath: the pull consumer on top of the remote calls, with many calls under way.
    - ConsumerFacade: [DefaultMQPushConsumer] and [DefaultMQPullConsumer].
    - Admin: [LoggerImpl], the admin service, its server and its command-line client.
    - Tracing: [TracingUtility], and the exporter of spans with its polling thread.
    - Spans: the spans the producer and the standard consume service record of their work.
    - Examples: what the sample programs build for themselves.
    - OpenSSL: the shims for old versions of OpenSSL over an explicit heap, and the
      certificate check.

    ** How code becomes definitions

    A class is a module: its members are a record [t] (members keep their names), its
    methods are functions on it, constructors are [make].  A method that calls other
    objects (the client manager, the scheduler, an executor, a user callback) returns these
    calls as a list of effects, in the order of the code.  Where threads or callbacks
    interleave, the critical sections are the steps of a machine and the theorems quantify
    over all histories (SchedulerImpl, ThreadPoolImpl, RouteCache, RemoteCalls,
    ProcessQueueImpl, the FIFO service, ConsumeThreads, the receive cycles of PushConsumer,
    Delivery, Node, PullPath, RoutePath, SendNode, the admin server, the thread of the exporter, and,
    statement by statement, Waits).  Elsewhere a blocking operation returns once its callback
    has run; Waits shows which of them may miss it.  An error code is a value of [error_code]; an exception, a dereferenced null pointer or a remainder by zero is
    [None].  Machine integers are [Z] with the reduction of their width written out;
    container sizes are unbounded.  Hash tables are [gmap]/[gset]; their iteration order
    is that of [map_to_list].

    Parameters stand for code that is not here: zlib and OpenSSL, JSON and number parsing,
    [std::hash], gRPC (a completion is a status and a response), the clock, the host name,
    the network, httplib, the network interfaces, spdlog, the identifiers and spans of the
    tracing libraries, the application's listeners and offset store.  Hypotheses about them say
    what they document (inflate undoes deflate, a checksum is 32 bits wide, ...), and each
    theorem that has one is applied to a concrete instance by its witness.  The absl string
    helpers and containers have their documented meaning.  Log lines are left out.  The
    operations on the spans are in Spans, apart from the operations they accompany; their
    access key requires a credentials provider, which the theorems on sending and consuming
    assume.

    Fuel: [uncompress_loop] (one more than the calls of inflate the stream still takes),
    [submit_loop] (one more than the cached messages), [attempts] (the number of attempts),
    [selectBroker_loop] (one more than the partitions), [dec_digits] (the binary length),
    [SendNode.attempt] (the attempts left).  Each comes with a theorem that this is enough,
    for [selectBroker_loop] as long as the cursor does not overflow.

    ** What the theorems show

    - Sending: a send makes at most the configured number of attempts, over the chosen
      queues in turn, ends the caller's callback exactly once and always ends
      (Producer.send_retries); over the network it reports success exactly when one of its
      attempts came back accepted (SendPath.send_over_network), and with many sends under way
      each is answered at most once, by the answer of one of its calls, and while the
      manager runs no answer is dropped (SendNode.sends_over_network); messages of a group go to one queue
      (group_sticks), and a selector's choice is kept (selected_queue_used);
      a transaction ends at the broker whose attempt accepted the half message; a message decodes at the consumer to what
      was sent (message_survives).
    - Queue choice: writable master partitions only, distinct brokers, no isolated ones,
      fair over the list while the 32-bit cursor does not wrap (Route).
    - Receiving: the process queues are exactly the assigned ones, each with a receive
      request or timer at all times, and with only one unless a dropped queue is still held
      while it is assigned again, throttled exactly at its limits (PushConsumer); counters
      are exact, batches are first-in first-out, the broadcast offset never passes an
      unprocessed message (ProcessQueue); what a completed call leaves in the queue is
      exactly what the response holds intact and the filter accepts
      (ReceivePath.received_over_network).
    - Consuming: the standard service settles every message once and returns its quota;
      the FIFO service settles messages in order, one at a time (ConsumeService), and over the
      network each message the listener accepts, once (SettlePath.fifo_settles_over_network).
    - Delivery: every message received for a live queue is cached, in a task or settled,
      exactly once, with one call to the broker per settled message; a dispatch and the
      tasks of the pool settle everything (Delivery).  Over the network the same holds from
      the reports of the receive calls to the acknowledgements issued, which are one per
      message the filter rejected or the listener answered for, and no assigned queue is
      forgotten: Node refines Delivery.  These are for consumers that poll, in clustering
      mode and with a standard listener.
    - Shutdown of a consume service: it never hangs while the thresholds are positive, and
      nothing runs once it has returned (ConsumeThreads).
    - Pulling: every pull and offset query is answered once, with what came back for it, and
      no caller waits for ever while the manager runs (PullPath).
    - Waiting: a wait that tests under the lock always ends, and when the callback works under
      the lock too, with its result and without a dangling access (Waits.await_pull_exact);
      the other waits of the client may lose the signal or the result (Waits).
    - Routes: no caller of [getRouteFor] is lost or answered twice (RouteCache); over the
      network every caller is answered, with what a name server said (RoutePath).
    - Concurrency: a cancelled task never begins again once no thread is inside it, no task
      runs early, a pool runs what it accepted in order (Concurrency); a rate limiter grants
      no more than its permits unless a wake-up crosses into another slot (RateLimiter).
    - Remote calls: clients are created
      once and removed exactly when unused (ClientManager); no call is lost or reported
      twice in any interleaving, and while the manager runs every call is reported
      (RemoteCalls); requests are signed exactly when there are credentials (Config); bodies
      are accepted exactly when intact (Codec).
    - Configuration: what a push consumer and a producer are once they were configured and
      started, and when the start aborts or hangs (ConsumerFacade, ProducerFacade); the name
      servers after any refreshes, from what the connections brought (Http);
      the levels of the sinks and the level an administrator sets (Admin).
    - Administration: the server always has one call ready while its loop serves, answers
      each request once, and serves on while its responses can be sent.
    - Tracing: trace-parent headers are read back as printed and never overrun a buffer;
      the exporter rotates over its collectors and converts what it can; its thread completes
      every call.
    - Spans: every span the client starts is used between its start and its end only and
      ended once; the attempts of a send are chained in one trace; what the client does is not
      changed by them; the wait of a message is exported from the time it was decoded.
    - Samples: their limiter agrees with the library's, their counters lose nothing, and the
      executor of one of them repeats its last task for ever (Examples).
    - OpenSSL shims: a setter takes over exactly the numbers it is given and frees exactly
      those it replaces, or changes nothing (OpenSSL).
    - Encodings: unique identifiers and their form, hexadecimal, endpoints, access points.

    Lemmas named in the findings state what the code does where that is not what it
    seems to mean, e.g. ConsumeFifoMessageService.last_cached_message_dropped,
    Producer.async_send_ignores_group, RateLimiter.acquire_n_exceeds_request.

    ** Not modelled

    TLS certificates, which are constants (client/TlsHelper.cpp); the interceptor that logs calls; the abstract classes and mocks; the samples as far as
    they only call the facades.  The
    exceptions thrown to the application are the error codes they carry.  Memory management
    is modelled where behaviour depends on it (the weak and shared pointers to process
    queues, invocation contexts, server calls), not otherwise. *)

(** ** Shared prelude: machine integers, orders, strings and automation. *)

From Stdlib Require Export ZArith Lia Bool.
From Stdlib Require Import OrdersEx.
From Stdlib Require Ascii.
Export Ascii.AsciiSyntax.
#[global] Delimit Scope char_scope with char.
From stdpp Require Export base decidable gmap strings list sorting.

Declare Scope rmq_scope.
Delimit Scope rmq_scope with rmq.
Global Open Scope rmq_scope.
#[global] Open Scope Z_scope.

Create HintDb rmq.

(** ** Machine integers

    A [w]-bit unsigned value is a [Z] in [0 .. 2^w - 1]; every C++ operation
    that can leave the range is followed by the reduction below. *)

Definition u8 (z : Z) : Z := z mod 2 ^ 8.
Definition u16 (z : Z) : Z := z mod 2 ^ 16.
Definition u32 (z : Z) : Z := z mod 2 ^ 32.
Definition u64 (z : Z) : Z := z mod 2 ^ 64.

(** Conversion to a signed 32-bit integer (two's complement). *)
Definition i32 (z : Z) : Z := (z + 2 ^ 31) mod 2 ^ 32 - 2 ^ 31.

Lemma u32_range z : 0 <= u32 z < 2 ^ 32.
Proof. apply Z.mod_pos_bound; lia. Qed.

Lemma u64_range z : 0 <= u64 z < 2 ^ 64.
Proof. apply Z.mod_pos_bound; lia. Qed.

Lemma u32_small z : 0 <= z < 2 ^ 32 -> u32 z = z.
Proof. apply Z.mod_small. Qed.

Lemma u64_small z : 0 <= z < 2 ^ 64 -> u64 z = z.
Proof. apply Z.mod_small. Qed.

Lemma u32_idemp z : u32 (u32 z) = u32 z.
Proof. apply u32_small, u32_range. Qed.

Lemma i32_small z : - 2 ^ 31 <= z < 2 ^ 31 -> i32 z = z.
Proof. intros H. unfold i32. rewrite Z.mod_small; lia. Qed.

Lemma u32_add_l a b : u32 (u32 a + b) = u32 (a + b).
Proof. apply Zplus_mod_idemp_l. Qed.

Lemma u32_sub_l a b : u32 (u32 a - b) = u32 (a - b).
Proof. apply Zminus_mod_idemp_l. Qed.

Lemma u64_add_l a b : u64 (u64 a + b) = u64 (a + b).
Proof. apply Zplus_mod_idemp_l. Qed.

Lemma u64_sub_l a b : u64 (u64 a - b) = u64 (a - b).
Proof. apply Zminus_mod_idemp_l. Qed.

#[export] Hint Resolve u32_range u64_range : rmq.
#[export] Hint Rewrite u32_idemp u32_add_l u32_sub_l u64_add_l u64_sub_l : rmq.

(** [size_t] of a container, as the mathematical value (no container of the
    program reaches 2^64 elements). *)
Definition zlen {A} (l : list A) : Z := Z.of_nat (length l).

Lemma zlen_nonneg {A} (l : list A) : 0 <= zlen l.
Proof. unfold zlen. lia. Qed.

Lemma zlen_nil {A} : zlen (@nil A) = 0.
Proof. reflexivity. Qed.

Lemma zlen_cons {A} (x : A) l : zlen (x :: l) = zlen l + 1.
Proof. unfold zlen. cbn [length]. lia. Qed.

Lemma zlen_app {A} (l k : list A) : zlen (l ++ k) = zlen l + zlen k.
Proof. unfold zlen. rewrite length_app. lia. Qed.

Lemma zlen_pos {A} (l : list A) : l <> [] -> 0 < zlen l.
Proof. destruct l; [done|]. rewrite zlen_cons. pose proof (zlen_nonneg l). lia. Qed.

#[export] Hint Rewrite @zlen_nil @zlen_cons @zlen_app : rmq.
#[export] Hint Resolve zlen_nonneg : rmq.

(** Indexing [v\[i\]] with a non-negative machine index. *)
Definition at_ {A} (l : list A) (i : Z) : option A :=
  if decide (0 <= i) then l !! Z.to_nat i else None.

Lemma at_lt_is_Some {A} (l : list A) i : 0 <= i < zlen l -> is_Some (at_ l i).
Proof.
  intros H. unfold at_, zlen in *. rewrite decide_True by lia.
  apply lookup_lt_is_Some_2. lia.
Qed.

Lemma at_Some_elem {A} (l : list A) i x : at_ l i = Some x -> x ∈ l.
Proof.
  unfold at_. case_decide; [|done].
  intros H'. by eapply list_elem_of_lookup_2.
Qed.

(** Decide a property of every byte by computation. *)
Lemma byte_forall (P : Z -> bool) b :
  forallb P (seqZ 0 256) = true -> 0 <= b < 256 -> P b = true.
Proof.
  rewrite forallb_forall. intros H Hb. apply H. apply list_elem_of_In, elem_of_seqZ. lia.
Qed.

(** ** Strings *)

#[global] Arguments String.append !_ _ : simpl nomatch.

Definition str_empty (s : string) : bool :=
  match s with EmptyString => true | _ => false end.

Lemma str_empty_spec s : str_empty s = true <-> s = EmptyString.
Proof. destruct s; cbn; split; congruence. Qed.

(** [std::string::operator<]: lexicographic on bytes. *)
Definition str_ltb (a b : string) : bool := String.ltb a b.

(** [std::to_string] of an integer. *)
Definition digit_char (d : Z) : Ascii.ascii := Ascii.ascii_of_N (Z.to_N (48 + d)).
Definition char_digit (a : Ascii.ascii) : option Z :=
  let d := Z.of_N (Ascii.N_of_ascii a) - 48 in
  if (0 <=? d) && (d <=? 9) then Some d else None.

(** [fuel] bounds the number of digits. *)
Fixpoint dec_digits (fuel : nat) (z : Z) (acc : string) : string :=
  match fuel with
  | O => acc
  | S fuel' =>
      let acc := String (digit_char (z mod 10)) acc in
      if z <? 10 then acc else dec_digits fuel' (z / 10) acc
  end.

Definition dec_fuel (z : Z) : nat := S (Z.to_nat (Z.log2 z)).

Definition to_string (z : Z) : string :=
  if z <? 0 then String "-"%char (dec_digits (dec_fuel (- z)) (- z) "")
  else dec_digits (dec_fuel z) z "".

(** Reading a decimal back. *)
Fixpoint read_decimal (acc : Z) (s : string) : option Z :=
  match s with
  | EmptyString => Some acc
  | String a s' => d ← char_digit a; read_decimal (acc * 10 + d) s'
  end.

Lemma char_digit_char d : 0 <= d < 10 -> char_digit (digit_char d) = Some d.
Proof.
  intros H. assert (d = 0 \/ d = 1 \/ d = 2 \/ d = 3 \/ d = 4 \/ d = 5 \/ d = 6 \/ d = 7 \/ d = 8 \/ d = 9)
    as Hd by lia.
  by repeat destruct Hd as [->|Hd]; [..|rewrite Hd].
Qed.

Lemma read_dec_digits fuel z s :
  0 <= z < 2 ^ Z.of_nat fuel -> (0 < fuel)%nat -> read_decimal 0 (dec_digits fuel z s) = read_decimal z s.
Proof.
  revert z s. induction fuel as [|fuel IH]; intros z s Hz Hf; [lia|]. cbn [dec_digits].
  pose proof (Z.mod_pos_bound z 10 ltac:(lia)) as Hm. pose proof (Z.div_mod z 10 ltac:(lia)) as Hd.
  destruct (Z.ltb_spec z 10).
  - cbn [read_decimal]. rewrite char_digit_char by done. cbn. rewrite Z.mod_small by lia. done.
  - rewrite Nat2Z.inj_succ, Z.pow_succ_r in Hz by lia.
    destruct fuel as [|fuel]; [cbn in Hz; lia|].
    rewrite IH; [|split; [lia|apply Z.div_lt_upper_bound; lia]|lia].
    cbn [read_decimal]. rewrite char_digit_char by done. cbn. f_equal. lia.
Qed.

Lemma read_to_string z : 0 <= z -> read_decimal 0 (to_string z) = Some z.
Proof.
  intros Hz. unfold to_string. destruct (Z.ltb_spec z 0); [lia|]. rewrite read_dec_digits; [done| |].
  - unfold dec_fuel. rewrite Nat2Z.inj_succ. pose proof (Z.log2_nonneg z).
    rewrite Z2Nat.id by done. destruct (decide (z = 0)) as [->|]; [cbn; lia|].
    pose proof (Z.log2_spec z ltac:(lia)). lia.
  - unfold dec_fuel. lia.
Qed.

Lemma str_ltb_compare a b : str_ltb a b = match String.compare a b with Lt => true | _ => false end.
Proof. reflexivity. Qed.

Lemma string_compare_OT a b : String.compare a b = String_as_OT.compare a b.
Proof.
  revert b; induction a as [|x a IH]; intros [|y b]; cbn; [done..|].
  change (Ascii_as_OT.compare x y) with (Ascii.compare x y).
  by rewrite IH.
Qed.

Lemma str_ltb_lt a b : str_ltb a b = true <-> String_as_OT.lt a b.
Proof.
  unfold String_as_OT.lt. rewrite str_ltb_compare, string_compare_OT.
  split; [by destruct (String_as_OT.compare a b)|by intros ->].
Qed.

Lemma str_ltb_irrefl a : str_ltb a a = false.
Proof.
  apply not_true_is_false. rewrite str_ltb_lt. apply StrictOrder_Irreflexive.
Qed.

Lemma str_ltb_trans a b c : str_ltb a b = true -> str_ltb b c = true -> str_ltb a c = true.
Proof. rewrite !str_ltb_lt. by etransitivity. Qed.

Lemma str_ltb_asym a b : str_ltb a b = true -> str_ltb b a = false.
Proof.
  intros H. apply not_true_is_false. intros H'.
  pose proof (str_ltb_trans _ _ _ H H') as H2. by rewrite str_ltb_irrefl in H2.
Qed.

Lemma str_ltb_total a b : str_ltb a b = false -> str_ltb b a = false -> a = b.
Proof.
  rewrite !str_ltb_compare, (String.compare_antisym b a).
  destruct (String.compare a b) eqn:E; cbn; [|done..].
  intros _ _. by apply String.compare_eq_iff.
Qed.

(** A C string ends at the first zero byte. *)
Fixpoint c_str (s : string) : string :=
  match s with
  | EmptyString => ""
  | String a s' => if Ascii.eqb a Ascii.zero then "" else String a (c_str s')
  end.

(** [absl::StrSplit] on a single character: always at least one segment. *)
Fixpoint str_split (c : Ascii.ascii) (s : string) : list string :=
  match s with
  | EmptyString => [""%string]
  | String a s' =>
      if Ascii.eqb a c then ""%string :: str_split c s'
      else match str_split c s' with
           | seg :: segs => String a seg :: segs
           | [] => [String a ""]
           end
  end.

(** [absl::StrJoin] with a one-character separator. *)
Fixpoint str_join (c : Ascii.ascii) (l : list string) : string :=
  match l with
  | [] => ""
  | [x] => x
  | x :: l' => (x +:+ String c (str_join c l'))%string
  end.

Fixpoint str_forallb (p : Ascii.ascii -> bool) (s : string) : bool :=
  match s with EmptyString => true | String a s' => p a && str_forallb p s' end.

Lemma dec_digits_forallb (p : Ascii.ascii -> bool) fuel z s :
  (forall d, 0 <= d < 10 -> p (digit_char d) = true) -> str_forallb p s = true ->
  str_forallb p (dec_digits fuel z s) = true.
Proof.
  intros Hp. revert z s. induction fuel as [|fuel IH]; intros z s Hs; cbn [dec_digits]; [done|].
  assert (H : str_forallb p (String (digit_char (z mod 10)) s) = true).
  { cbn. rewrite Hp by (apply Z.mod_pos_bound; lia). done. }
  destruct (z <? 10); [done|]. by apply IH.
Qed.

(** A decimal contains no character that is not a digit. *)
Lemma to_string_without c z :
  0 <= z -> char_digit c = None -> str_forallb (fun a => negb (Ascii.eqb a c)) (to_string z) = true.
Proof.
  intros Hz Hc. unfold to_string. destruct (Z.ltb_spec z 0); [lia|].
  apply dec_digits_forallb; [|done]. intros d Hd.
  apply negb_true_iff, Ascii.eqb_neq. intros E. rewrite <- E, char_digit_char in Hc; done.
Qed.

Lemma str_split_nonempty c s : str_split c s <> [].
Proof. destruct s; cbn; [done|]. repeat case_match; done. Qed.

Lemma str_join_split c s : str_join c (str_split c s) = s.
Proof.
  induction s as [|a s IH]; cbn; [done|].
  destruct (Ascii.eqb_spec a c) as [->|].
  - destruct (str_split c s) eqn:E; [by apply str_split_nonempty in E|].
    rewrite <- IH. done.
  - destruct (str_split c s) as [|x [|y l]] eqn:E; [by apply str_split_nonempty in E|..];
      rewrite <- IH; done.
Qed.

Lemma str_app_nil_r s : (s +:+ "")%string = s.
Proof. induction s; cbn; congruence. Qed.

Lemma str_app_assoc a b c : ((a +:+ b) +:+ c)%string = (a +:+ (b +:+ c))%string.
Proof. induction a; cbn; congruence. Qed.

Lemma str_length_app a b : String.length (a +:+ b) = (String.length a + String.length b)%nat.
Proof. induction a; cbn; congruence. Qed.

(** A segment without the separator splits off the front. *)
Lemma str_split_app c x s :
  str_forallb (fun a => negb (Ascii.eqb a c)) x = true ->
  str_split c (x +:+ String c s) = x :: str_split c s.
Proof.
  induction x as [|a x IH]; cbn; intros H.
  - by rewrite Ascii.eqb_refl.
  - apply andb_true_iff in H as [Ha H]. apply negb_true_iff in Ha as ->.
    by rewrite (IH H).
Qed.

Lemma str_split_none c x :
  str_forallb (fun a => negb (Ascii.eqb a c)) x = true -> str_split c x = [x].
Proof.
  induction x as [|a x IH]; cbn; intros H; [done|].
  apply andb_true_iff in H as [Ha H]. apply negb_true_iff in Ha as ->.
  by rewrite (IH H).
Qed.

(** The last and the first choice of a list that grows at its end. *)
Lemma last_omap_snoc {A B} (f : A -> option B) l o :
  last (omap f (l ++ [o])) = match f o with Some x => Some x | None => last (omap f l) end.
Proof. rewrite omap_app, last_app. cbn. by destruct (f o). Qed.

Lemma head_omap_snoc {A B} (f : A -> option B) l o :
  head (omap f (l ++ [o])) = match head (omap f l) with Some x => Some x | None => f o end.
Proof. rewrite omap_app. destruct (omap f l); cbn; [by destruct (f o)|done]. Qed.

Lemma elem_of_delete {A} (l : list A) i x : x ∈ delete i l -> x ∈ l.
Proof. intros H. eapply elem_of_sublist; [exact H|apply sublist_delete]. Qed.

Lemma concat_perm {A} (l k : list (list A)) : l ≡ₚ k -> concat l ≡ₚ concat k.
Proof.
  induction 1 as [|x l k _ IH|x y l|l k j _ IH1 _ IH2]; cbn; [done|by rewrite IH| |by rewrite IH1].
  rewrite !app_assoc. by rewrite (Permutation_app_comm y x).
Qed.

(** ** Ordering and [std::sort]

    [std::sort] requires a strict weak ordering.  The class states what a
    comparator promises to it; the sorting itself is a merge sort, and the
    theorems about sorted data only use that the result is an ordered
    permutation of its input. *)

Class WeakOrder {A} (ltb : A -> A -> bool) : Prop := {
  wo_asym x y : ltb x y = true -> ltb y x = false;
  wo_trans x y z : ltb y x = false -> ltb z y = false -> ltb z x = false;
}.

Section std_sort.
Context {A : Type} (ltb : A -> A -> bool).

Definition not_after (x y : A) : Prop := ltb y x = false.

#[global] Instance not_after_dec x y : Decision (not_after x y).
Proof. unfold not_after. apply _. Defined.

Definition std_sort (l : list A) : list A := merge_sort not_after l.

Lemma std_sort_Permutation l : std_sort l ≡ₚ l.
Proof. apply merge_sort_Permutation. Qed.

Lemma elem_of_std_sort x l : x ∈ std_sort l <-> x ∈ l.
Proof. by rewrite std_sort_Permutation. Qed.

Lemma std_sort_sorted `{!WeakOrder ltb} l : StronglySorted not_after (std_sort l).
Proof.
  apply StronglySorted_merge_sort.
  - intros x y z. unfold not_after. apply wo_trans.
  - intros x y. unfold not_after. destruct (ltb y x) eqn:E; [|by left].
    right. by apply wo_asym.
Qed.

Lemma std_sort_length l : length (std_sort l) = length l.
Proof. by rewrite std_sort_Permutation. Qed.
End std_sort.

#[export] Instance str_ltb_weak_order : WeakOrder str_ltb.
Proof.
  split; [apply str_ltb_asym|]. intros x y z Hyx Hzy.
  destruct (str_ltb z x) eqn:Hzx; [exfalso|done].
  destruct (str_ltb x y) eqn:Hxy.
  - pose proof (str_ltb_trans _ _ _ Hzx Hxy). congruence.
  - pose proof (str_ltb_total _ _ Hyx Hxy). congruence.
Qed.

(** Lexicographic comparators: first on a string field, then on the rest. *)
Section lex.
Context {A : Type} (f : A -> string) (g : A -> A -> bool) `{!WeakOrder g}.

Definition lex_str (a b : A) : bool :=
  if negb (String.eqb (f a) (f b)) then str_ltb (f a) (f b) else g a b.

#[global] Instance lex_str_weak_order : WeakOrder lex_str.
Proof.
  unfold lex_str. split.
  - intros x y. rewrite (String.eqb_sym (f y)).
    destruct (String.eqb_spec (f x) (f y)) as [|]; cbn;
      [apply wo_asym|apply str_ltb_asym].
  - intros x y z.
    destruct (String.eqb_spec (f y) (f x)) as [Hyx|Hyx];
    destruct (String.eqb_spec (f z) (f y)) as [Hzy|Hzy];
    destruct (String.eqb_spec (f z) (f x)) as [Hzx|Hzx]; cbn; try congruence.
    + apply wo_trans.
    + intros H1 H2. rewrite Hzx in H2.
      by pose proof (str_ltb_total _ _ H1 H2).
    + apply (wo_trans (ltb:=str_ltb)).
Qed.

(** The same comparator written with two successive [<] tests. *)
Lemma lex_str_two_tests a b :
  (if str_ltb (f a) (f b) then true
   else if str_ltb (f b) (f a) then false else g a b) = lex_str a b.
Proof.
  unfold lex_str. destruct (String.eqb_spec (f a) (f b)) as [->|Hne]; cbn.
  - by rewrite str_ltb_irrefl.
  - destruct (str_ltb (f a) (f b)) eqn:E1; [done|].
    destruct (str_ltb (f b) (f a)) eqn:E2; [done|].
    by pose proof (str_ltb_total _ _ E1 E2).
Qed.
End lex.

#[export] Instance Zltb_weak_order {A} (f : A -> Z) : WeakOrder (fun a b => f a <? f b).
Proof. split; intros *; rewrite ?Z.ltb_lt, ?Z.ltb_ge; lia. Qed.

#[export] Instance const_false_weak_order {A} : WeakOrder (fun _ _ : A => false).
Proof. by split. Qed.

(** ** Tactics *)

(** Split the first [match]/[if] of the goal or of a hypothesis and clean up. *)
Ltac split_match :=
  match goal with
  | |- context [match ?x with _ => _ end] => destruct x eqn:?
  | H : context [match ?x with _ => _ end] |- _ => destruct x eqn:?
  end; simplify_eq/=.

Ltac split_matches := repeat split_match.

(** Normal form of machine-integer and length goals, then [lia]. *)
Ltac zsolve := autorewrite with rmq in *; lia.

(** ** Numbered objects with an owner: what the owners of a table are about *)
Section owned.
Context {O A : Type}.
Implicit Types (f : O -> option A) (m : gmap nat O).

Definition owned f m : list A := omap f (map snd (map_to_list m)).

Lemma owned_insert f m k o : m !! k = None -> owned f (<[k := o]> m) ≡ₚ owned f m ++ option_list (f o).
Proof.
  intros E. unfold owned. rewrite map_to_list_insert by done. cbn. destruct (f o); cbn; [|by rewrite app_nil_r].
  by rewrite <- Permutation_cons_append.
Qed.

Lemma owned_delete f m k o : m !! k = Some o -> owned f m ≡ₚ option_list (f o) ++ owned f (delete k m).
Proof. intros E. unfold owned. rewrite <- (map_to_list_delete m k o E). cbn. by destruct (f o). Qed.

Lemma owned_elem f m n : n ∈ owned f m -> exists j o, m !! j = Some o /\ f o = Some n.
Proof.
  unfold owned. rewrite list_elem_of_omap. intros (o & Ho & Hf). apply list_elem_of_fmap in Ho as ([j o'] & -> & Hin).
  exists j, o'. by rewrite <- elem_of_map_to_list.
Qed.
End owned.
