(* ===== verification/Types.v ===== *)
(** * Enumerations and error values shared by every component.

    The lifecycle [State] (api/rocketmq/State.h), [ErrorCode] with its
    [std::error_code] truth value and messages (api/rocketmq/ErrorCode.h,
    base/ErrorCategory.cpp), the status codes of google/rpc/code.proto and the
    small enumerations of the public API. *)

From S2P Require Import Prelude.

(** ** Lifecycle *)

Inductive State := CREATED | STARTING | STARTED | STOPPING | STOPPED.

#[export] Instance State_eq_dec : EqDecision State.
Proof. solve_decision. Defined.

(** [std::atomic<State>::compare_exchange_strong(expected, desired)]: the
    returned flag and the new value of the atomic. *)
Definition compare_exchange_strong (st expected desired : State) : bool * State :=
  if decide (st = expected) then (true, desired) else (false, st).

Definition state_rank (s : State) : Z :=
  match s with
  | CREATED => 0 | STARTING => 1 | STARTED => 2 | STOPPING => 3 | STOPPED => 4
  end.

(** ** Error codes *)

Inductive ErrorCode :=
  | Success | IllegalState | BadConfiguration | BadRequest | Unauthorized
  | Forbidden | NotFound | RequestTimeout | PayloadTooLarge
  | PreconditionRequired | TooManyRequest | HeaderFieldsTooLarge
  | UnavailableForLegalReasons | InternalServerError | NotImplemented
  | BadGateway | ServiceUnavailable | GatewayTimeout
  | ProtocolVersionNotSupported | InsufficientStorage.

#[export] Instance ErrorCode_eq_dec : EqDecision ErrorCode.
Proof. solve_decision. Defined.

Definition ErrorCode_value (e : ErrorCode) : Z :=
  match e with
  | Success => 0 | IllegalState => 1 | BadConfiguration => 300
  | BadRequest => 400 | Unauthorized => 401 | Forbidden => 403
  | NotFound => 404 | RequestTimeout => 408 | PayloadTooLarge => 413
  | PreconditionRequired => 428 | TooManyRequest => 429
  | HeaderFieldsTooLarge => 431 | UnavailableForLegalReasons => 451
  | InternalServerError => 500 | NotImplemented => 501 | BadGateway => 502
  | ServiceUnavailable => 503 | GatewayTimeout => 504
  | ProtocolVersionNotSupported => 505 | InsufficientStorage => 507
  end.

(** [make_error_code] and [std::error_code::operator bool]: an error is a
    non-zero value.  A default-constructed [std::error_code] is [Success]. *)
Definition error_code := ErrorCode.
Definition ec_bool (ec : error_code) : bool := negb (ErrorCode_value ec =? 0).

Lemma ec_bool_spec ec : ec_bool ec = true <-> ec <> Success.
Proof. destruct ec; cbn; split; congruence. Qed.

Lemma ec_bool_false ec : ec_bool ec = false <-> ec = Success.
Proof. destruct ec; cbn; split; congruence. Qed.

(** [ErrorCategory::message], on the integer the error code carries. *)
Definition ErrorCode_of_value (code : Z) : option ErrorCode :=
  match code with
  | 0 => Some Success | 1 => Some IllegalState | 300 => Some BadConfiguration
  | 400 => Some BadRequest | 401 => Some Unauthorized | 403 => Some Forbidden
  | 404 => Some NotFound | 408 => Some RequestTimeout
  | 413 => Some PayloadTooLarge | 428 => Some PreconditionRequired
  | 429 => Some TooManyRequest | 431 => Some HeaderFieldsTooLarge
  | 451 => Some UnavailableForLegalReasons | 500 => Some InternalServerError
  | 501 => Some NotImplemented | 502 => Some BadGateway
  | 503 => Some ServiceUnavailable | 504 => Some GatewayTimeout
  | 505 => Some ProtocolVersionNotSupported | 507 => Some InsufficientStorage
  | _ => None
  end.

Definition ErrorCategory_message (code : Z) : string :=
  match ErrorCode_of_value code with
  | Some Success => "Success"
  | Some IllegalState => "Client state illegal. Forgot to call start()?"
  | Some BadConfiguration => "Bad configuration."
  | Some BadRequest =>
      "Message is ill-formed. Check validity of your topic, tag, etc"
  | Some Unauthorized =>
      "Authentication failed. Possibly caused by invalid credentials."
  | Some Forbidden =>
      "Authenticated user does not have privilege to perform the requested action"
  | Some NotFound =>
      "Topic not found, which should be created through console or administration API before hand."
  | Some RequestTimeout =>
      "Timeout when connecting, reading from or writing to brokers."
  | Some PayloadTooLarge => "Message body is too large."
  | Some PreconditionRequired => "State of dependent procedure is not right"
  | Some TooManyRequest =>
      "Quota exchausted. The user has sent too many requests in a given amount of time."
  | Some UnavailableForLegalReasons =>
      "A server operator has received a legal demand to deny access to a resource or to a set of resources that includes the requested resource."
  | Some HeaderFieldsTooLarge =>
      "The server is unwilling to process the request because either an individual header field, or all the header fields collectively, are too large"
  | Some InternalServerError => "Server side interval error"
  | Some NotImplemented =>
      "The server either does not recognize the request method, or it lacks the ability to fulfil the request."
  | Some BadGateway =>
      "The server was acting as a gateway or proxy and received an invalid response from the upstream server."
  | Some ServiceUnavailable =>
      "The server cannot handle the request (because it is overloaded or down for maintenance). Generally, this is a temporary state."
  | Some GatewayTimeout =>
      "The server was acting as a gateway or proxy and did not receive a timely response from the upstream server."
  | Some ProtocolVersionNotSupported =>
      "The server does not support the protocol version used in the request."
  | Some InsufficientStorage =>
      "The server is unable to store the representation needed to complete the request."
  | None => "Not-Implemented"
  end.

Lemma ErrorCode_of_value_value e : ErrorCode_of_value (ErrorCode_value e) = Some e.
Proof. by destruct e. Qed.

(** ** google::rpc::Code

    An open protobuf enumeration: an integer outside the listed values reaches
    the client as itself ([Code_unrecognized]). *)

Inductive Code :=
  | OK | CANCELLED | UNKNOWN | INVALID_ARGUMENT | DEADLINE_EXCEEDED | NOT_FOUND
  | ALREADY_EXISTS | PERMISSION_DENIED | UNAUTHENTICATED | RESOURCE_EXHAUSTED
  | FAILED_PRECONDITION | ABORTED | OUT_OF_RANGE | UNIMPLEMENTED | INTERNAL
  | UNAVAILABLE | DATA_LOSS | Code_unrecognized (value : Z).

#[export] Instance Code_eq_dec : EqDecision Code.
Proof. solve_decision. Defined.

(** ** Enumerations of the public API *)

Inductive MessageModel := BROADCASTING | CLUSTERING.
Inductive MessageListenerType := STANDARD | FIFO_LISTENER.
Inductive ConsumeMessageResult := SUCCESS | FAILURE.
Inductive ReceiveMessageAction := POLLING | PULL.
Inductive ExpressionType := TAG | SQL92.
Inductive MessageType := NORMAL | FIFO | DELAY | TRANSACTION.
Inductive TransactionState := COMMIT | ROLLBACK.

#[export] Instance MessageModel_eq_dec : EqDecision MessageModel.
Proof. solve_decision. Defined.
#[export] Instance MessageListenerType_eq_dec : EqDecision MessageListenerType.
Proof. solve_decision. Defined.
#[export] Instance ConsumeMessageResult_eq_dec : EqDecision ConsumeMessageResult.
Proof. solve_decision. Defined.
#[export] Instance ReceiveMessageAction_eq_dec : EqDecision ReceiveMessageAction.
Proof. solve_decision. Defined.
#[export] Instance ExpressionType_eq_dec : EqDecision ExpressionType.
Proof. solve_decision. Defined.
#[export] Instance MessageType_eq_dec : EqDecision MessageType.
Proof. solve_decision. Defined.
#[export] Instance TransactionState_eq_dec : EqDecision TransactionState.
Proof. solve_decision. Defined.
