(* ===== verification/Message.v ===== *)
(** * Messages, message queues and filter expressions.

    [MQMessageQueue] (api/rocketmq/MQMessageQueue.h), the message classes
    [MQMessage]/[MQMessageExt] with their shared [MessageImpl] (base/MQMessage.cpp,
    base/MQMessageExt.cpp, base/MessageAccessor.cpp), [SendResult]
    (api/rocketmq/SendResult.h) and [FilterExpression]
    (rocketmq/FilterExpression.cpp).  Time points are nanoseconds since the Unix
    epoch. *)

From S2P Require Import Prelude Types.

(** ** MQMessageQueue *)
Module MQMessageQueue.

Record t := mk {
  topic_ : string;
  broker_name_ : string;
  queue_id_ : Z;
  service_address_ : string;
}.

#[global] Instance eq_dec : EqDecision t.
Proof. solve_decision. Defined.

(** Default constructor. *)
Definition empty : t := mk "" "" 0 "".

(** [MQMessageQueue(topic, broker_name, queue_id)]. *)
Definition make (topic broker_name : string) (queue_id : Z) : t :=
  mk topic broker_name queue_id "".

(** [operator=], the copy constructor, which calls it, and the move constructor. *)
Definition assign (this other : t) : t :=
  mk (topic_ other) (broker_name_ other) (queue_id_ other) (service_address_ other).
Definition copy (other : t) : t := assign empty other.
Definition move (other : t) : t :=
  mk (topic_ other) (broker_name_ other) (queue_id_ other) (service_address_ other).

Definition setTopic (x : string) (q : t) : t := mk x (broker_name_ q) (queue_id_ q) (service_address_ q).
Definition setBrokerName (x : string) (q : t) : t := mk (topic_ q) x (queue_id_ q) (service_address_ q).
Definition setQueueId (x : Z) (q : t) : t := mk (topic_ q) (broker_name_ q) x (service_address_ q).
Definition set_serviceAddress (q : t) (a : string) : t :=
  mk (topic_ q) (broker_name_ q) (queue_id_ q) a.

Definition operator_ne (a b : t) : bool :=
  negb (String.eqb (topic_ a) (topic_ b))
  || negb (String.eqb (broker_name_ a) (broker_name_ b))
  || negb (queue_id_ a =? queue_id_ b).

Definition operator_eq (a b : t) : bool :=
  String.eqb (topic_ a) (topic_ b)
  && String.eqb (broker_name_ a) (broker_name_ b)
  && (queue_id_ a =? queue_id_ b).

Definition operator_lt (a b : t) : bool :=
  if negb (String.eqb (topic_ a) (topic_ b))
  then str_ltb (topic_ a) (topic_ b)
  else if negb (String.eqb (broker_name_ a) (broker_name_ b))
  then str_ltb (broker_name_ a) (broker_name_ b)
  else queue_id_ a <? queue_id_ b.

Definition operator_bool (q : t) : bool :=
  negb (str_empty (topic_ q)) && negb (str_empty (broker_name_ q)) && (0 <=? queue_id_ q).

(** [compareTo]; the pointer-identity shortcut returns what the comparisons
    return for equal operands. *)
Definition compareTo (a b : t) : Z :=
  if operator_lt a b then -1 else if operator_lt b a then 1 else 0.

Definition simpleName (q : t) : string :=
  (topic_ q +:+ "_" +:+ broker_name_ q +:+ "_" +:+ to_string (queue_id_ q))%string.

Definition toString (q : t) : string :=
  ("MessageQueue [topic=" +:+ topic_ q +:+ ", brokerName=" +:+ broker_name_ q
     +:+ ", queueId=" +:+ to_string (queue_id_ q) +:+ "]")%string.

(** The key under which a hash table indexed by message queues files a queue:
    [operator==] and [AbslHashValue] read these three fields only. *)
Definition key (q : t) : string * string * Z :=
  (topic_ q, broker_name_ q, queue_id_ q).

#[global] Instance equiv_mq : Equiv t := fun a b => key a = key b.

#[global] Instance equiv_mq_equivalence : Equivalence (≡@{t}).
Proof. split; unfold equiv, equiv_mq; [done|intros ??|intros ???]; congruence. Qed.

Lemma operator_eq_spec a b : operator_eq a b = true <-> a ≡ b.
Proof.
  unfold operator_eq, equiv, equiv_mq, key.
  rewrite !andb_true_iff, !String.eqb_eq, Z.eqb_eq.
  split; [by intros [[-> ->] ->]|by intros [= -> -> ->]].
Qed.

Lemma operator_eq_key a b : operator_eq a b = bool_decide (key a = key b).
Proof.
  apply eq_true_iff_eq. rewrite bool_decide_eq_true. apply operator_eq_spec.
Qed.

Lemma operator_ne_eq a b : operator_ne a b = negb (operator_eq a b).
Proof. unfold operator_ne, operator_eq. by rewrite !negb_andb. Qed.

#[global] Instance key_proper : Proper ((≡) ==> (=)) key.
Proof. by intros ???. Qed.

#[global] Instance operator_eq_proper : Proper ((≡) ==> (≡) ==> (=)) operator_eq.
Proof.
  intros a b Hab c d Hcd. rewrite !operator_eq_key.
  by rewrite Hab, Hcd.
Qed.

#[global] Instance operator_lt_proper : Proper ((≡) ==> (≡) ==> (=)) operator_lt.
Proof.
  intros a b Hab c d Hcd. unfold operator_lt.
  injection Hab as -> -> ->. by injection Hcd as -> -> ->.
Qed.

End MQMessageQueue.

#[export] Instance mq_operator_lt_weak_order : WeakOrder MQMessageQueue.operator_lt.
Proof.
  change MQMessageQueue.operator_lt with
    (lex_str MQMessageQueue.topic_
       (lex_str MQMessageQueue.broker_name_
          (fun a b => MQMessageQueue.queue_id_ a <? MQMessageQueue.queue_id_ b))).
  apply _.
Qed.

(** ** Message contents *)

Inductive DigestType := CRC32 | MD5 | SHA1.

Record Digest := mkDigest { digest_type : DigestType; checksum : string }.

Record Resource := mkResource { resource_namespace : string; resource_name : string }.

(** Protocol.h [struct SystemAttribute].  [message_type] has no initialiser: it is
    [None] while the object holds a value that is none of the enumerators.
    [body_encoding], which no code of the repository reads or writes, is left out. *)
Record SystemAttribute := mkSystemAttribute {
  tag : string;
  keys : list string;
  message_id : string;
  digest : Digest;
  message_type : option MessageType;
  born_timestamp : Z;
  born_host : string;
  store_timestamp : Z;
  store_host : string;
  delivery_timestamp : Z;
  decode_timestamp : Z;
  delay_level : Z;
  receipt_handle : string;
  partition_id : Z;
  partition_offset : Z;
  invisible_period : Z;
  attempt_times : Z;
  publisher_group : Resource;
  trace_context : string;
  target_endpoint : string;
}.

(** MessageImpl.h [class MessageImpl]. *)
Record MessageImpl := mkMessageImpl {
  impl_topic_ : Resource;
  user_attribute_map_ : gmap string string;
  system_attribute_ : SystemAttribute;
  body_ : string;
}.

(** The member initialisers of [SystemAttribute]; [now] is [absl::Now()] and
    [junk_type] the indeterminate [message_type]. *)
Definition SystemAttribute_init (now : Z) (junk_type : option MessageType) : SystemAttribute :=
  mkSystemAttribute "" [] "" (mkDigest MD5 "") junk_type now "" 0 "" 0 now 0 "" 0 0 0 0
    (mkResource "" "") "" "".

(** ** MQMessage and MQMessageExt

    [MQMessageExt] adds no data member, so both are this record. *)
Module MQMessage.

Record t := mk {
  impl_ : MessageImpl;
  message_group_ : string;
  message_queue_ : MQMessageQueue.t;
}.

Definition upd_impl (f : MessageImpl -> MessageImpl) (m : t) : t :=
  mk (f (impl_ m)) (message_group_ m) (message_queue_ m).

Definition upd_sys (f : SystemAttribute -> SystemAttribute) : t -> t :=
  upd_impl (fun i => mkMessageImpl (impl_topic_ i) (user_attribute_map_ i)
                       (f (system_attribute_ i)) (body_ i)).

(** The four-argument constructor; [host], [now] and [id] are the values of
    [UtilAll::hostname()], [absl::Now()] and [UniqueIdGenerator::next()]. *)
Definition make (host : string) (now : Z) (id : string) (junk_type : option MessageType)
    (topic tags ks body : string) : t :=
  let s := SystemAttribute_init now junk_type in
  let s := mkSystemAttribute tags (if str_empty ks then [] else [ks]) id (digest s)
             (message_type s) now host (store_timestamp s) (store_host s)
             (delivery_timestamp s) (decode_timestamp s) (delay_level s)
             (receipt_handle s) (partition_id s) (partition_offset s)
             (invisible_period s) (attempt_times s) (publisher_group s)
             (trace_context s) (target_endpoint s) in
  mk (mkMessageImpl (mkResource "" topic) ∅ s body) "" MQMessageQueue.empty.

(** The shorter constructors. *)
Definition make_empty (host : string) (now : Z) (id : string) (junk_type : option MessageType) : t :=
  make host now id junk_type "" "" "" "".
Definition make_body (host : string) (now : Z) (id : string) (junk_type : option MessageType) (topic body : string) : t :=
  make host now id junk_type topic "" "" body.
Definition make_tagged (host : string) (now : Z) (id : string) (junk_type : option MessageType)
    (topic tags body : string) : t :=
  make host now id junk_type topic tags "" body.

(** [MQMessage(const MQMessage&)]: only [impl_] is copied, the other members
    are default-initialised. *)
Definition copy (other : t) : t := mk (impl_ other) "" MQMessageQueue.empty.

(** [operator=]: only [*impl_] is assigned. *)
Definition assign (this other : t) : t :=
  mk (impl_ other) (message_group_ this) (message_queue_ this).

Definition getMsgId (m : t) : string := message_id (system_attribute_ (impl_ m)).
Definition getBornHost (m : t) : string := born_host (system_attribute_ (impl_ m)).
Definition deliveryTimestamp (m : t) : Z := delivery_timestamp (system_attribute_ (impl_ m)).

Definition setProperty (name value : string) : t -> t :=
  upd_impl (fun i => mkMessageImpl (impl_topic_ i) (<[name := value]> (user_attribute_map_ i))
                       (system_attribute_ i) (body_ i)).

Definition getProperty (m : t) (name : string) : string :=
  default "" (user_attribute_map_ (impl_ m) !! name).

Definition getTopic (m : t) : string := resource_name (impl_topic_ (impl_ m)).
Definition setTopic (topic : string) : t -> t :=
  upd_impl (fun i => mkMessageImpl (mkResource (resource_namespace (impl_topic_ i)) topic)
                       (user_attribute_map_ i) (system_attribute_ i) (body_ i)).

Definition getTags (m : t) : string := tag (system_attribute_ (impl_ m)).
Definition getKeys (m : t) : list string := keys (system_attribute_ (impl_ m)).
Definition getDelayTimeLevel (m : t) : Z := delay_level (system_attribute_ (impl_ m)).
Definition traceContext (m : t) : string := trace_context (system_attribute_ (impl_ m)).

Definition setTags (x : string) : t -> t :=
  upd_sys (fun s => let '(mkSystemAttribute _ b c d e f g h i j k l m n o p q r u v) := s in
    mkSystemAttribute x b c d e f g h i j k l m n o p q r u v).
Definition setKeys (x : list string) : t -> t :=
  upd_sys (fun s => let '(mkSystemAttribute a _ c d e f g h i j k l m n o p q r u v) := s in
    mkSystemAttribute a x c d e f g h i j k l m n o p q r u v).
Definition setKey (x : string) (m : t) : t := setKeys (getKeys m ++ [x]) m.
Definition setDelayTimeLevel (x : Z) : t -> t :=
  upd_sys (fun s => let '(mkSystemAttribute a b c d e f g h i j k _ m n o p q r u v) := s in
    mkSystemAttribute a b c d e f g h i j k x m n o p q r u v).
Definition set_traceContext (x : string) : t -> t :=
  upd_sys (fun s => let '(mkSystemAttribute a b c d e f g h i j k l m n o p q r _ v) := s in
    mkSystemAttribute a b c d e f g h i j k l m n o p q r x v).

Definition getBody (m : t) : string := body_ (impl_ m).
Definition setBody (body : string) : t -> t :=
  upd_impl (fun i => mkMessageImpl (impl_topic_ i) (user_attribute_map_ i)
                       (system_attribute_ i) body).

(** The setters that take a pointer and a length: [data] are the bytes that can be read from
    the pointer; reading beyond them, or a negative length, is [None]. *)
Definition bytes_at (data : string) (len : Z) : option string :=
  if (0 <=? len) && (len <=? Z.of_nat (String.length data)) then Some (String.substring 0 (Z.to_nat len) data) else None.
Definition setTopic_bytes (data : string) (len : Z) (m : t) : option t := x ← bytes_at data len; Some (setTopic x m).
Definition setBody_bytes (data : string) (len : Z) (m : t) : option t := x ← bytes_at data len; Some (setBody x m).

(** [getBody().size()] as a [size_t], and [bodyLength()], its low 32 bits. *)
Definition body_size (m : t) : Z := Z.of_nat (String.length (getBody m)).
Definition bodyLength (m : t) : Z := u32 (body_size m).

Definition getProperties (m : t) : gmap string string := user_attribute_map_ (impl_ m).

(** [setProperties]: [std::map::insert] keeps an entry that is already there. *)
Definition setProperties (properties : gmap string string) : t -> t :=
  upd_impl (fun i => mkMessageImpl (impl_topic_ i) (user_attribute_map_ i ∪ properties)
                       (system_attribute_ i) (body_ i)).

Definition set_messageType (x : MessageType) : t -> t :=
  upd_sys (fun s => let '(mkSystemAttribute a b c d _ f g h i j k l m n o p q r u v) := s in
    mkSystemAttribute a b c d (Some x) f g h i j k l m n o p q r u v).
Definition messageType (m : t) : option MessageType := message_type (system_attribute_ (impl_ m)).

Definition bindMessageGroup (g : string) (m : t) : t := mk (impl_ m) g (message_queue_ m).
Definition bindMessageQueue (q : MQMessageQueue.t) (m : t) : t :=
  mk (impl_ m) (message_group_ m) q.

(** MQMessageExt: its constructors, assignment and getters. *)
Definition ext_make (host : string) (now : Z) (id : string) (junk_type : option MessageType) : t :=
  make_empty host now id junk_type.
Definition ext_copy (other : t) : t := copy other.
Definition ext_assign (this other : t) : t := mk (impl_ other) (message_group_ this) (message_queue_ this).
Definition bornTimestamp (m : t) : Z := born_timestamp (system_attribute_ (impl_ m)).
Definition storeTimestamp (m : t) : Z := store_timestamp (system_attribute_ (impl_ m)).
Definition getQueueId (m : t) : Z := partition_id (system_attribute_ (impl_ m)).
Definition getBornTimestamp (m : t) : Z := born_timestamp (system_attribute_ (impl_ m)) / 1000000.
Definition getStoreTimestamp (m : t) : Z := store_timestamp (system_attribute_ (impl_ m)) / 1000000.
Definition getStoreHost (m : t) : string := store_host (system_attribute_ (impl_ m)).
Definition getQueueOffset (m : t) : Z := partition_offset (system_attribute_ (impl_ m)).
Definition getDeliveryAttempt (m : t) : Z := attempt_times (system_attribute_ (impl_ m)).
Definition receiptHandle (m : t) : string := receipt_handle (system_attribute_ (impl_ m)).

(** [MQMessageExt::operator==]: identity of the message id. *)
Definition operator_eq (a b : t) : bool := String.eqb (getMsgId a) (getMsgId b).

(** What a pointer and a length set is what is read back, zero bytes included. *)
Lemma setBody_bytes_roundtrip data m :
  exists m', setBody_bytes data (Z.of_nat (String.length data)) m = Some m' /\ getBody m' = data.
Proof.
  unfold setBody_bytes, bytes_at. rewrite (proj2 (Z.leb_le 0 _)) by lia. rewrite (proj2 (Z.leb_le _ _)) by lia. cbn.
  eexists. split; [reflexivity|]. cbn. rewrite Nat2Z.id. induction data as [|c data IH]; [done|]. cbn. by rewrite IH.
Qed.

Lemma body_size_nonneg m : 0 <= body_size m.
Proof. unfold body_size. lia. Qed.

Lemma copy_body_size m : body_size (copy m) = body_size m.
Proof. done. Qed.

End MQMessage.

#[export] Hint Resolve MQMessage.body_size_nonneg : rmq.

(** ** MessageAccessor: the setters reserved to the SDK. *)
Module MessageAccessor.
Import MQMessage.

Definition setMessageId (x : string) : t -> t :=
  upd_sys (fun s => let '(mkSystemAttribute a b _ d e f g h i j k l m n o p q r u v) := s in
    mkSystemAttribute a b x d e f g h i j k l m n o p q r u v).
Definition setBornTimestamp (x : Z) : t -> t :=
  upd_sys (fun s => let '(mkSystemAttribute a b c d e _ g h i j k l m n o p q r u v) := s in
    mkSystemAttribute a b c d e x g h i j k l m n o p q r u v).
Definition setBornHost (x : string) : t -> t :=
  upd_sys (fun s => let '(mkSystemAttribute a b c d e f _ h i j k l m n o p q r u v) := s in
    mkSystemAttribute a b c d e f x h i j k l m n o p q r u v).
Definition setStoreTimestamp (x : Z) : t -> t :=
  upd_sys (fun s => let '(mkSystemAttribute a b c d e f g _ i j k l m n o p q r u v) := s in
    mkSystemAttribute a b c d e f g x i j k l m n o p q r u v).
Definition setStoreHost (x : string) : t -> t :=
  upd_sys (fun s => let '(mkSystemAttribute a b c d e f g h _ j k l m n o p q r u v) := s in
    mkSystemAttribute a b c d e f g h x j k l m n o p q r u v).
Definition setDeliveryTimestamp (x : Z) : t -> t :=
  upd_sys (fun s => let '(mkSystemAttribute a b c d e f g h i _ k l m n o p q r u v) := s in
    mkSystemAttribute a b c d e f g h i x k l m n o p q r u v).
Definition setDecodedTimestamp (x : Z) : t -> t :=
  upd_sys (fun s => let '(mkSystemAttribute a b c d e f g h i j _ l m n o p q r u v) := s in
    mkSystemAttribute a b c d e f g h i j x l m n o p q r u v).
Definition decodedTimestamp (m : t) : Z := decode_timestamp (system_attribute_ (impl_ m)).
Definition setReceiptHandle (x : string) : t -> t :=
  upd_sys (fun s => let '(mkSystemAttribute a b c d e f g h i j k l _ n o p q r u v) := s in
    mkSystemAttribute a b c d e f g h i j k l x n o p q r u v).
Definition setQueueId (x : Z) : t -> t :=
  upd_sys (fun s => let '(mkSystemAttribute a b c d e f g h i j k l m _ o p q r u v) := s in
    mkSystemAttribute a b c d e f g h i j k l m x o p q r u v).
Definition setQueueOffset (x : Z) : t -> t :=
  upd_sys (fun s => let '(mkSystemAttribute a b c d e f g h i j k l m n _ p q r u v) := s in
    mkSystemAttribute a b c d e f g h i j k l m n x p q r u v).
Definition setInvisiblePeriod (x : Z) : t -> t :=
  upd_sys (fun s => let '(mkSystemAttribute a b c d e f g h i j k l m n o _ q r u v) := s in
    mkSystemAttribute a b c d e f g h i j k l m n o x q r u v).
Definition setDeliveryAttempt (x : Z) : t -> t :=
  upd_sys (fun s => let '(mkSystemAttribute a b c d e f g h i j k l m n o p _ r u v) := s in
    mkSystemAttribute a b c d e f g h i j k l m n o p x r u v).
Definition setTraceContext (x : string) : t -> t := set_traceContext x.
Definition setMessageType (x : MessageType) : t -> t := set_messageType x.
Definition setTargetEndpoint (x : string) : t -> t :=
  upd_sys (fun s => let '(mkSystemAttribute a b c d e f g h i j k l m n o p q r u _) := s in
    mkSystemAttribute a b c d e f g h i j k l m n o p q r u x).
Definition targetEndpoint (m : t) : string := target_endpoint (system_attribute_ (impl_ m)).

End MessageAccessor.

(** ** SendResult *)
Inductive SendStatus :=
  SEND_OK | SEND_FLUSH_DISK_TIMEOUT | SEND_FLUSH_SLAVE_TIMEOUT | SEND_SLAVE_NOT_AVAILABLE.

Module SendResult.

Record t := mk {
  send_status_ : SendStatus;
  message_id_ : string;
  message_queue_ : MQMessageQueue.t;
  queue_offset_ : Z;
  transaction_id_ : string;
  region_id_ : string;
  trace_context_ : string;
}.

Definition empty : t := mk SEND_OK "" MQMessageQueue.empty 0 "" "" "".

(** [operator=]; [trace_context_] is not among the assigned members. *)
Definition assign (this other : t) : t :=
  mk (send_status_ other) (message_id_ other) (message_queue_ other)
     (queue_offset_ other) (transaction_id_ other) (region_id_ other) (trace_context_ this).

(** Copy constructor: [operator=] on a freshly initialised object. *)
Definition copy (other : t) : t := assign empty other.

Definition setSendStatus (x : SendStatus) (r : t) : t :=
  mk x (message_id_ r) (message_queue_ r) (queue_offset_ r) (transaction_id_ r) (region_id_ r) (trace_context_ r).
Definition setMsgId (x : string) (r : t) : t :=
  mk (send_status_ r) x (message_queue_ r) (queue_offset_ r) (transaction_id_ r) (region_id_ r) (trace_context_ r).
Definition setMessageQueue (x : MQMessageQueue.t) (r : t) : t :=
  mk (send_status_ r) (message_id_ r) x (queue_offset_ r) (transaction_id_ r) (region_id_ r) (trace_context_ r).
Definition setQueueOffset (x : Z) (r : t) : t :=
  mk (send_status_ r) (message_id_ r) (message_queue_ r) x (transaction_id_ r) (region_id_ r) (trace_context_ r).
Definition setTransactionId (x : string) (r : t) : t :=
  mk (send_status_ r) (message_id_ r) (message_queue_ r) (queue_offset_ r) x (region_id_ r) (trace_context_ r).
Definition set_traceContext (x : string) (r : t) : t :=
  mk (send_status_ r) (message_id_ r) (message_queue_ r) (queue_offset_ r) (transaction_id_ r) (region_id_ r) x.

Definition operator_bool (r : t) : bool := negb (str_empty (message_id_ r)).

End SendResult.

(** ** FilterExpression *)
Module FilterExpression.

Record t := mk { content_ : string; type_ : ExpressionType; version_ : Z }.

Definition WILD_CARD_TAG : string := "*".

(** Constructor; [now] is [steady_clock::now()]. *)
Definition make (now : Z) (expression : string) (expression_type : ExpressionType) : t :=
  if bool_decide (expression_type = TAG) && str_empty expression
  then mk WILD_CARD_TAG expression_type now
  else mk expression expression_type now.

Definition accept (f : t) (message : MQMessage.t) : bool :=
  match type_ f with
  | TAG =>
      if String.eqb WILD_CARD_TAG (content_ f) then true
      else String.eqb (MQMessage.getTags message) (content_ f)
  | SQL92 => true
  end.

End FilterExpression.
