(* ===== verification/MixAll.v ===== *)
(** * base/MixAll, base/UniqueIdGenerator and base/Histogram.

    [MixAll]: constants, message validation, the hexadecimal codec and the IPv4
    test.  [UtilAll::macAddress].  [UniqueIdGenerator]: identifiers.  [Histogram]:
    the latency histogram of the client manager. *)

From S2P Require Import Prelude Types Message.

(** ** MixAll *)
Module MixAll.

Definition MASTER_BROKER_ID : Z := 0.
Definition DEFAULT_RECEIVE_MESSAGE_BATCH_SIZE : Z := 32.
Definition MAX_MESSAGE_BODY_SIZE : Z := 1024 * 1024 * 4.
Definition MAX_CACHED_MESSAGE_COUNT : Z := 65535.
Definition DEFAULT_CACHED_MESSAGE_COUNT : Z := 1024.
Definition DEFAULT_CACHED_MESSAGE_MEMORY : Z := 128 * 1024 * 1024.
Definition DEFAULT_CONSUME_THREAD_POOL_SIZE : Z := 20.
Definition DEFAULT_CONSUME_MESSAGE_BATCH_SIZE : Z := 1.
Definition DEFAULT_MAX_DELIVERY_ATTEMPTS : Z := 16.
(** Durations, in milliseconds. *)
Definition DEFAULT_INVISIBLE_TIME_ : Z := 30000.
Definition PROCESS_QUEUE_EXPIRATION_THRESHOLD_ : Z := 120000.
Definition MAX_SEND_MESSAGE_ATTEMPT_TIMES_ : Z := 3.
Definition DEFAULT_COMPRESS_BODY_THRESHOLD_ : Z := 1024 * 1024 * 4.

Definition char_between (lo hi c : Ascii.ascii) : bool :=
  (Ascii.N_of_ascii lo <=? Ascii.N_of_ascii c)%N && (Ascii.N_of_ascii c <=? Ascii.N_of_ascii hi)%N.

Definition is_digit (c : Ascii.ascii) : bool := char_between "0"%char "9"%char c.

Definition is_topic_char (c : Ascii.ascii) : bool :=
  char_between "a"%char "z"%char c || char_between "A"%char "Z"%char c || is_digit c
  || Ascii.eqb c "-"%char || Ascii.eqb c "_"%char.

(** Full match of [TOPIC_REGEX], [\[a-zA-Z0-9\-_\]{3,64}]. *)
Definition TOPIC_REGEX (s : string) : bool :=
  (3 <=? String.length s)%nat && (String.length s <=? 64)%nat && str_forallb is_topic_char s.

(** Full match of [IP_REGEX]: four groups of one or more digits between dots. *)
Definition isIPv4 (host : string) : bool :=
  match str_split "."%char host with
  | [a; b; c; d] =>
      forallb (fun g => negb (str_empty g) && str_forallb is_digit g) [a; b; c; d]
  | _ => false
  end.

Definition validate (message : MQMessage.t) : bool :=
  let topic := MQMessage.getTopic message in
  if str_empty topic then false
  else if String.prefix "CID" topic || String.prefix "GID" topic then false
  else if negb (TOPIC_REGEX topic) then false
  else
    let body_length := MQMessage.bodyLength message in
    if (body_length =? 0) || (MAX_MESSAGE_BODY_SIZE <? body_length) then false
    else true.

(** The table [dict] of [MixAll::hex]. *)
Definition dict : string := "0123456789ABCDEF".
Definition dict_at (i : Z) : Ascii.ascii :=
  default "0"%char (String.get (Z.to_nat i) dict).

Definition hex_byte (c : Z) : string :=
  String (dict_at (Z.shiftr (Z.land 0xF0 c) 4)) (String (dict_at (Z.land 0x0F c)) "").

Fixpoint hex (data : list Z) : string :=
  match data with
  | [] => ""
  | c :: data' => (hex_byte c +:+ hex data')%string
  end.

Definition hexCharValue (c : Ascii.ascii) : option Z :=
  let v := Z.of_N (Ascii.N_of_ascii c) in
  if char_between "0"%char "9"%char c then Some (v - 48)
  else if char_between "a"%char "f"%char c then Some (v - 97 + 10)
  else if char_between "A"%char "F"%char c then Some (v - 65 + 10)
  else None.

(** The loop of [hexToBinary]: the flag it returns and the bytes pushed. *)
Fixpoint hexToBinary_loop (s : string) (bin : list Z) : bool * list Z :=
  match s with
  | String c1 (String c2 s') =>
      match hexCharValue c1 with
      | None => (false, bin)
      | Some t1 =>
          let value := u8 (Z.shiftl t1 4) in
          match hexCharValue c2 with
          | None => (false, bin)
          | Some t2 => hexToBinary_loop s' (bin ++ [Z.lor value t2])
          end
      end
  | _ => (true, bin)
  end.

Definition hexToBinary (s : string) (bin : list Z) : bool * list Z :=
  if Nat.odd (String.length s) then (false, bin) else hexToBinary_loop s bin.

Definition is_byte (b : Z) : Prop := 0 <= b < 256.

(** *** Lemmas on the codec *)

Lemma hex_digits_roundtrip b :
  is_byte b ->
  hexCharValue (dict_at (Z.shiftr (Z.land 0xF0 b) 4)) = Some (Z.shiftr b 4)
  /\ hexCharValue (dict_at (Z.land 0x0F b)) = Some (Z.land 0x0F b)
  /\ Z.lor (u8 (Z.shiftl (Z.shiftr b 4) 4)) (Z.land 0x0F b) = b.
Proof.
  intros Hb.
  pose proof (byte_forall (fun b =>
    bool_decide (hexCharValue (dict_at (Z.shiftr (Z.land 0xF0 b) 4)) = Some (Z.shiftr b 4)
      /\ hexCharValue (dict_at (Z.land 0x0F b)) = Some (Z.land 0x0F b)
      /\ Z.lor (u8 (Z.shiftl (Z.shiftr b 4) 4)) (Z.land 0x0F b) = b)) b) as H.
  apply bool_decide_eq_true in H; [done|vm_compute; reflexivity|done].
Qed.

Lemma hex_app x y : hex (x ++ y) = (hex x +:+ hex y)%string.
Proof. induction x as [|a x IH]; cbn; [done|]. by rewrite IH. Qed.

Lemma hex_length l : String.length (hex l) = (2 * length l)%nat.
Proof. induction l as [|a l IH]; cbn; [done|]. rewrite IH. lia. Qed.

Lemma hexToBinary_loop_hex l bin :
  Forall is_byte l -> hexToBinary_loop (hex l) bin = (true, bin ++ l).
Proof.
  intros Hl. revert bin. induction Hl as [|b l Hb Hl IH]; intros bin.
  - cbn. by rewrite app_nil_r.
  - cbn [hex hex_byte String.append hexToBinary_loop].
    destruct (hex_digits_roundtrip b Hb) as (-> & -> & E).
    rewrite IH, E, <- app_assoc. done.
Qed.

Lemma hexToBinary_hex l bin :
  Forall is_byte l -> hexToBinary (hex l) bin = (true, bin ++ l).
Proof.
  intros Hl. unfold hexToBinary. rewrite hex_length.
  rewrite Nat.odd_mul. cbn. by apply hexToBinary_loop_hex.
Qed.

Lemma hex_inj l k : Forall is_byte l -> Forall is_byte k -> hex l = hex k -> l = k.
Proof.
  intros Hl Hk E. pose proof (hexToBinary_hex l [] Hl) as H1.
  rewrite E, (hexToBinary_hex k [] Hk) in H1. by injection H1.
Qed.

(** *** Files and dates *)

(** [home] is the variable HOME and [pw_dir] the directory of the user's entry in the
    password file, if they are there. *)
Definition homeDirectory (home pw_dir : option string) (home_dir : string) : bool * string :=
  match home with
  | Some h => (true, home_dir +:+ h)%string
  | None => match pw_dir with Some d => (true, d) | None => (false, home_dir) end
  end.

(** [date_time] is the time point as [strftime] prints it, down to the second; the time
    point is in nanoseconds. *)
Definition format (date_time : string) (time_point : Z) : string :=
  (date_time +:+ "." +:+ to_string (Z.rem (Z.quot time_point 1000000) 1000))%string.

(** A directory that is found is appended to what the caller passed when it comes from HOME,
    and replaces it otherwise. *)
Lemma homeDirectory_appends h d old :
  homeDirectory (Some h) (Some d) old = (true, old +:+ h)%string /\ homeDirectory None (Some d) old = (true, d).
Proof. done. Qed.

(** The milliseconds are not padded: five of them read like half a second. *)
Lemma format_unpadded date_time : format date_time 5000000 = (date_time +:+ ".5")%string.
Proof. reflexivity. Qed.

End MixAll.

(** ** UtilAll::macAddress *)
Module UtilAll.

(** A node of the list of [getifaddrs]: its address may be null; [packet] says whether its family
    is [AF_PACKET], and [address] is the hardware address field. *)
Record sockaddr := mk_sockaddr { packet : bool; address : list Z }.

Abbreviation ifaddrs := (list (option sockaddr)).

(** The loop over the interfaces: the first hardware address that is not all zero.  Outer [None]
    is the dereference of a null address. *)
Fixpoint find_mac (l : ifaddrs) : option (option (list Z)) :=
  match l with
  | [] => Some None
  | None :: _ => None
  | Some a :: l' =>
      if packet a then
        let first6 := take 6 (address a) in
        if forallb (Z.eqb 0) first6 then find_mac l' else Some (Some first6)
      else find_mac l'
  end.

(** [cache] is the static pair of the cached address and its flag; the result is the
    return value, the vector passed in and the cache.  [interfaces] is [None] when
    [getifaddrs] fails. *)
Definition macAddress (interfaces : option ifaddrs) (mac : list Z) (cache : option (list Z))
    : option (bool * list Z * option (list Z)) :=
  match cache with
  | Some c => Some (true, c, cache)
  | None =>
      match interfaces with
      | None => Some (false, mac, None)
      | Some l => found ← find_mac l; Some (true, default mac found, found)
      end
  end.

(** The field of an address holds eight bytes. *)
Definition well_formed (l : ifaddrs) : Prop :=
  Forall (fun a => match a with
                   | Some a => length (address a) = 8%nat /\ Forall MixAll.is_byte (address a)
                   | None => True
                   end) l.

(** The hardware addresses of the interfaces that are not zero, in their order. *)
Definition hardware_addresses (l : ifaddrs) : list (list Z) :=
  omap (fun a => match a with
                 | Some a => if packet a && negb (forallb (Z.eqb 0) (take 6 (address a))) then Some (take 6 (address a)) else None
                 | None => None
                 end) l.

Lemma find_mac_first l found : find_mac l = Some found -> found = head (hardware_addresses l).
Proof.
  revert found. induction l as [|[a|] l IH]; intros found; cbn; [by intros [= <-]| |done].
  destruct (packet a); cbn; [|exact (IH found)]. destruct (forallb (Z.eqb 0) (take 6 (address a))); cbn; [exact (IH found)|by intros [= <-]].
Qed.

Lemma find_mac_spec l m :
  well_formed l -> find_mac l = Some (Some m) ->
  length m = 6%nat /\ Forall MixAll.is_byte m /\ m <> replicate 6 0.
Proof.
  induction 1 as [|[a|] l Ha _ IH]; cbn [find_mac]; [done| |done].
  destruct (packet a); [|exact IH]. destruct (forallb (Z.eqb 0) (take 6 (address a))) eqn:E; [exact IH|].
  intros [= <-]. destruct Ha as [Hl Hb]. split_and!.
  - by rewrite length_take, Hl.
  - by apply Forall_take.
  - intros E'. by rewrite E' in E.
Qed.

(** An address once found is what every later call gives, whatever the interfaces are then. *)
Lemma macAddress_cached i i' mac mac' c :
  macAddress i mac None = Some (true, mac', Some c) -> macAddress i' mac (Some c) = Some (true, mac', Some c).
Proof.
  unfold macAddress. destruct i as [l|]; [|done]. destruct (find_mac l) as [[m|]|]; cbn; intros [= -> ->].
  done.
Qed.

(** Without any hardware address the call still reports success, with nothing written. *)
Lemma macAddress_without_mac mac : macAddress (Some []) mac None = Some (true, mac, None).
Proof. reflexivity. Qed.

(** [getifaddrs] may give a null address, which is dereferenced. *)
Lemma macAddress_null_address mac l : macAddress (Some (None :: l)) mac None = None.
Proof. reflexivity. Qed.

End UtilAll.

(** ** UniqueIdGenerator *)
Module UniqueIdGenerator.
Import MixAll.

Record t := mk { prefix_ : list Z; seconds_ : Z; sequence_ : Z }.

Definition VERSION : Z := 1.

(** [memcpy] of [src] over the bytes of [dst] from offset [off]. *)
Definition memcpy_at (dst : list Z) (off : nat) (src : list Z) : list Z :=
  take off dst ++ src ++ drop (off + length src) dst.

(** The low two bytes of the process id, most significant first. *)
Definition pid_bytes (pid : Z) : list Z :=
  [Z.land (Z.shiftr pid 8) 255; Z.land pid 255].

(** Constructor: [mac] is the result of [UtilAll::macAddress], [delta] the value
    of [deltaSeconds()]. *)
Definition make (mac : option (list Z)) (pid delta : Z) : t :=
  let prefix := replicate 8 0 in
  let prefix := match mac with Some m => memcpy_at prefix 0 m | None => prefix end in
  mk (memcpy_at prefix 6 (pid_bytes pid)) delta 0.

(** *** The clock: time points and durations are nanoseconds *)

(** 2021-01-01T00:00:00Z. *)
Definition customEpoch : Z := 1609459200 * 1000000000.

(** [start] is [start_time_point_] and [steady] the current reading of the steady clock. *)
Definition deltaSeconds (since_custom_epoch start steady : Z) : Z :=
  u32 (Z.quot ((steady - start) + since_custom_epoch) 1000000000).

(** The bytes of a [uint32_t] in the (little-endian) host order that [memcpy] of
    the slot copies. *)
Definition le32 (w : Z) : list Z :=
  [Z.land w 255; Z.land (Z.shiftr w 8) 255; Z.land (Z.shiftr w 16) 255;
   Z.land (Z.shiftr w 24) 255].

Definition raw (prefix : list Z) (seconds sequence : Z) : list Z :=
  VERSION :: prefix ++ le32 seconds ++ le32 sequence.

(** [next()]; [delta] is the value of [deltaSeconds()] read under the lock. *)
Definition next (delta : Z) (g : t) : string * t :=
  let g' :=
    if negb (seconds_ g =? delta) then mk (prefix_ g) delta 0
    else mk (prefix_ g) (seconds_ g) (u32 (sequence_ g + 1)) in
  (hex (raw (prefix_ g') (seconds_ g') (sequence_ g')), g').

(** Successive calls, with the clock reading each of them sees. *)
Fixpoint run (deltas : list Z) (g : t) : list string :=
  match deltas with
  | [] => []
  | d :: ds => let '(id, g') := next d g in id :: run ds g'
  end.

(** *** Lemmas *)

Definition word (w : Z) : Prop := 0 <= w < 2 ^ 32.

Lemma land_255 w : Z.land w 255 = w mod 2 ^ 8.
Proof. change 255 with (Z.ones 8). by rewrite Z.land_ones by lia. Qed.

Lemma le32_bytes w : Forall is_byte (le32 w).
Proof.
  unfold le32, is_byte. repeat constructor; rewrite land_255;
    pose proof (Z.mod_pos_bound w (2 ^ 8) ltac:(lia));
    apply Z.mod_pos_bound; lia.
Qed.

Lemma le32_inj a b : word a -> word b -> le32 a = le32 b -> a = b.
Proof.
  unfold le32, word. rewrite !land_255, !Z.shiftr_div_pow2 by lia.
  intros Ha Hb [= H0 H1 H2 H3]. Z.to_euclidean_division_equations. lia.
Qed.

Lemma raw_inj p s1 q1 s2 q2 :
  word s1 -> word q1 -> word s2 -> word q2 ->
  raw p s1 q1 = raw p s2 q2 -> s1 = s2 /\ q1 = q2.
Proof.
  intros Hs1 Hq1 Hs2 Hq2. unfold raw. intros H. apply (inj (cons VERSION)), app_inv_head in H.
  apply app_inj_1 in H as [H1 H2]; [|done].
  by split; apply le32_inj.
Qed.

Lemma raw_bytes p s q : Forall is_byte p -> Forall is_byte (raw p s q).
Proof.
  intros Hp. unfold raw. constructor; [by split; compute|].
  repeat apply Forall_app_2; auto using le32_bytes.
Qed.

Lemma pid_bytes_bytes pid : Forall is_byte (pid_bytes pid).
Proof. unfold pid_bytes, is_byte. repeat constructor; rewrite land_255; apply Z.mod_pos_bound; lia. Qed.

Lemma memcpy_at_bytes dst off src :
  Forall is_byte dst -> Forall is_byte src -> Forall is_byte (memcpy_at dst off src).
Proof.
  intros. unfold memcpy_at.
  apply Forall_app_2; [by apply Forall_take|apply Forall_app_2; [done|by apply Forall_drop]].
Qed.

(** What the identifiers after a given generator state look like: all of them
    carry a (second, sequence) pair strictly above the generator's. *)
Lemma run_above ds g :
  Forall is_byte (prefix_ g) ->
  StronglySorted Z.le (seconds_ g :: ds) -> Forall word ds -> word (seconds_ g) ->
  0 <= sequence_ g -> sequence_ g + zlen ds < 2 ^ 32 ->
  Forall (fun id => exists s q, id = hex (raw (prefix_ g) s q) /\ word s /\ word q
      /\ (seconds_ g < s \/ s = seconds_ g /\ sequence_ g < q)) (run ds g)
  /\ NoDup (run ds g).
Proof.
  revert g. induction ds as [|d ds IH]; intros g Hp Hs Hw Hwg Hq0 Hq; [by split; constructor|].
  apply StronglySorted_inv in Hs as [Hs Hall].
  pose proof (Forall_inv Hall) as Hle. pose proof (Forall_inv Hw) as Hwd.
  rewrite zlen_cons in Hq. cbn [run next].
  set (g' := if negb (seconds_ g =? d) then _ else _).
  assert (Hg' : prefix_ g' = prefix_ g /\ seconds_ g' = d /\ 0 <= sequence_ g'
                /\ sequence_ g' <= sequence_ g + 1
                /\ (seconds_ g < d \/ d = seconds_ g /\ sequence_ g < sequence_ g')).
  { subst g'. pose proof (zlen_nonneg ds). destruct (Z.eqb_spec (seconds_ g) d) as [E|E]; cbn.
    - rewrite u32_small by lia. split; [done|lia].
    - split; [done|lia]. }
  destruct Hg' as (Hp' & Hs' & Hge & Hle' & Hlt). pose proof (zlen_nonneg ds) as Hz.
  destruct (IH g') as [IHall IHnd].
  - by rewrite Hp'.
  - rewrite Hs'. done.
  - by inversion Hw.
  - by rewrite Hs'.
  - done.
  - lia.
  - assert (Hwq : word (sequence_ g')) by (unfold word; lia).
    split.
    + constructor.
      { exists (seconds_ g'), (sequence_ g'). rewrite <- Hp'. split; [done|].
        rewrite Hs'. done. }
      eapply Forall_impl; [exact IHall|]. intros id (s & q & -> & ? & ? & Hgt).
      exists s, q. rewrite Hp'. split; [done|]. split; [done|]. split; [done|].
      rewrite Hs' in Hgt. lia.
    + constructor; [|done]. intros Hin.
      eapply Forall_forall in IHall; [|exact Hin].
      destruct IHall as (s & q & E & ? & ? & Hgt).
      apply hex_inj in E; [|apply raw_bytes; by rewrite Hp'..].
      apply raw_inj in E as [<- <-]; rewrite ?Hs' in *; done || lia.
Qed.

Lemma run_unique mac pid d0 ds :
  match mac with Some m => (length m <= 6)%nat /\ Forall is_byte m | None => True end ->
  StronglySorted Z.le (d0 :: ds) -> Forall word (d0 :: ds) -> zlen ds < 2 ^ 32 ->
  NoDup (run ds (make mac pid d0)).
Proof.
  intros Hmac Hs Hw Hn.
  apply run_above; try done; try (by inversion Hw).
  unfold make. cbn [prefix_]. apply memcpy_at_bytes; [|apply pid_bytes_bytes].
  destruct mac as [m|]; [destruct Hmac as [_ Hm]; apply memcpy_at_bytes; [|done]|];
    apply Forall_replicate; by split; compute.
Qed.

(** The seconds are exact while they fit 32 bits, and follow the steady clock. *)
Lemma deltaSeconds_exact since start r :
  0 <= since -> start <= r -> (r - start) + since < 2 ^ 32 * 1000000000 ->
  deltaSeconds since start r = ((r - start) + since) / 1000000000 /\ word (deltaSeconds since start r).
Proof.
  intros H1 H2 H3. unfold deltaSeconds, word. rewrite Z.quot_div_nonneg by lia.
  rewrite u32_small; [split; [done|]|]; split; (apply Z.div_pos || apply Z.div_lt_upper_bound); lia.
Qed.

(** C30: the identifiers that one generator hands out are pairwise distinct, as long as
    fewer than 2^32 are drawn, the system clock stood behind the start of 2021 when the
    generator was made and the seconds since then fit 32 bits (until 2157): the steady clock
    they are counted with does not go back. *)
Theorem next_unique mac pid system_now start first readings :
  match mac with Some m => (length m <= 6)%nat /\ Forall is_byte m | None => True end ->
  customEpoch <= system_now -> StronglySorted Z.le (start :: first :: readings) ->
  Forall (fun r => (r - start) + (system_now - customEpoch) < 2 ^ 32 * 1000000000) (first :: readings) ->
  zlen readings < 2 ^ 32 ->
  let delta := deltaSeconds (system_now - customEpoch) start in
  NoDup (run (map delta readings) (make mac pid (delta first))).
Proof.
  intros Hmac Hnow Hs Hb Hn delta. assert (Hpos : 0 <= system_now - customEpoch) by lia. apply StronglySorted_inv in Hs as [Hs Hstart].
  assert (Hd : Forall (fun r => start <= r /\ (r - start) + (system_now - customEpoch) < 2 ^ 32 * 1000000000) (first :: readings)).
  { apply Forall_and. by split. }
  apply run_unique; [done| | |by unfold zlen; rewrite length_map].
  - change (delta first :: map delta readings) with (map delta (first :: readings)). clear Hn Hb Hstart.
    induction Hs as [|r l Hl IH Hr]; [constructor|]. apply Forall_cons in Hd as [[Hr1 Hr2] Hd]. cbn [map].
    constructor; [by apply IH|]. apply Forall_map. eapply Forall_impl; [apply Forall_and; split; [exact Hr|exact Hd]|].
    intros r' [Hle [Hr3 Hr4]]. cbv beta. unfold delta.
    rewrite (proj1 (deltaSeconds_exact _ _ r Hpos Hr1 Hr2)), (proj1 (deltaSeconds_exact _ _ r' Hpos Hr3 Hr4)).
    apply Z.div_le_mono; lia.
  - change (delta first :: map delta readings) with (map delta (first :: readings)). apply Forall_map.
    eapply Forall_impl; [exact Hd|]. intros r [Hr1 Hr2]. apply (deltaSeconds_exact _ _ r Hpos Hr1 Hr2).
Qed.

(** *** The form of an identifier *)

Definition upper_hex (c : Ascii.ascii) : bool :=
  let z := Z.of_N (Ascii.N_of_ascii c) in ((48 <=? z) && (z <=? 57)) || ((65 <=? z) && (z <=? 70)).

Lemma hex_byte_upper b :
  is_byte b -> upper_hex (dict_at (Z.shiftr (Z.land 0xF0 b) 4)) && upper_hex (dict_at (Z.land 0x0F b)) = true.
Proof.
  intros H. apply (byte_forall (fun b =>
    upper_hex (dict_at (Z.shiftr (Z.land 0xF0 b) 4)) && upper_hex (dict_at (Z.land 0x0F b))) b); [|exact H].
  vm_compute. reflexivity.
Qed.

Lemma hex_upper l : Forall is_byte l -> str_forallb upper_hex (hex l) = true.
Proof.
  induction 1 as [|b l Hb _ IH]; [done|]. cbn [hex hex_byte String.append str_forallb].
  rewrite andb_assoc, hex_byte_upper, IH by done. done.
Qed.

(** How many of the latest readings of the clock, newest first, are [d]. *)
Fixpoint repeats (d : Z) (l : list Z) : Z :=
  match l with x :: l' => if x =? d then 1 + repeats d l' else 0 | [] => 0 end.

Lemma run_words ds : forall g older i id,
  sequence_ g = u32 (repeats (seconds_ g) older) -> run ds g !! i = Some id ->
  exists d, ds !! i = Some d
    /\ id = hex (raw (prefix_ g) d (u32 (repeats d (rev (take i ds) ++ seconds_ g :: older)))).
Proof.
  induction ds as [|d ds IH]; intros g older i id Hq; cbn [run]; [done|]. unfold next. cbn zeta.
  set (g' := if negb (seconds_ g =? d) then _ else _).
  assert (Hg : prefix_ g' = prefix_ g /\ seconds_ g' = d /\ sequence_ g' = u32 (repeats d (seconds_ g :: older))).
  { subst g'. cbn [repeats]. destruct (Z.eqb_spec (seconds_ g) d) as [<-|E]; cbn; [|done].
    rewrite Hq. by rewrite u32_add_l, Z.add_comm. }
  destruct Hg as (Hp & Hs & Hq'). destruct i as [|i]; cbn [lookup list_lookup].
  - intros [= <-]. exists d. split; [done|]. by rewrite Hp, Hs, Hq'.
  - intros E. destruct (IH g' (seconds_ g :: older) i id) as (d' & Ed & ->); [by rewrite Hq', Hs|exact E|].
    exists d'. split; [done|]. rewrite Hp, Hs. cbn [take rev]. by rewrite <- app_assoc.
Qed.

(** The bytes of the identifiers for the hardware address: the first that is not zero, and
    zeros when there is none or the interfaces cannot be listed. *)
Definition mac_bytes (interfaces : option UtilAll.ifaddrs) : list Z :=
  match interfaces with
  | Some l => default (replicate 6 0) (head (UtilAll.hardware_addresses l))
  | None => replicate 6 0
  end.

(** What the constructor copies into the prefix. *)
Lemma make_prefix_of interfaces ok mac cache pid d :
  match interfaces with Some l => UtilAll.well_formed l | None => True end ->
  UtilAll.macAddress interfaces [] None = Some (ok, mac, cache) ->
  prefix_ (make (if ok then Some mac else None) pid d) = mac_bytes interfaces ++ pid_bytes pid
  /\ length (mac_bytes interfaces) = 6%nat /\ Forall is_byte (mac_bytes interfaces).
Proof.
  assert (Hz : length (replicate 6 0) = 6%nat /\ Forall is_byte (replicate 6 0)).
  { split; [done|]. apply Forall_replicate. by split; compute. }
  intros Hw. unfold UtilAll.macAddress. destruct interfaces as [l|]; cbn [mac_bytes]; [|intros [= <- _ _]; by split].
  destruct (UtilAll.find_mac l) as [found|] eqn:E; [|done]. cbn [mbind option_bind]. intros [= <- <- _].
  pose proof (UtilAll.find_mac_first l found E) as <-. destruct found as [m|]; cbn [default]; [|by split].
  destruct (UtilAll.find_mac_spec _ _ Hw E) as (Hl & Hb & _). split; [|done].
  destruct m as [|? [|? [|? [|? [|? [|? [|? ?]]]]]]]; try discriminate Hl. reflexivity.
Qed.

(** C31: the type of an identifier: when the addresses of the host's interfaces are well
    formed, the identifier drawn at each reading of the clock is a string of 34 upper-case
    hexadecimal digits that decodes to the 17 bytes of version 1, the first hardware address
    of the host that is not zero (zeros when there is none or [getifaddrs] fails), the low
    half of the process id, the seconds of that reading and the number, modulo 2^32, of
    identifiers drawn before it in that second, the creation counting as one. *)
Theorem next_well_formed interfaces ok mac cache pid d0 ds i id :
  match interfaces with Some l => UtilAll.well_formed l | None => True end ->
  UtilAll.macAddress interfaces [] None = Some (ok, mac, cache) ->
  run ds (make (if ok then Some mac else None) pid d0) !! i = Some id ->
  String.length id = 34%nat /\ str_forallb upper_hex id = true
  /\ exists d, ds !! i = Some d
     /\ hexToBinary id []
        = (true, 1 :: mac_bytes interfaces ++ pid_bytes pid ++ le32 d ++ le32 (u32 (repeats d (rev (d0 :: take i ds))))).
Proof.
  intros Hw Hm E. destruct (make_prefix_of interfaces ok mac cache pid d0 Hw Hm) as (Hp & Hl & Hb).
  set (g := make _ pid d0) in *. destruct (run_words ds g [] i id eq_refl E) as (d & Ed & ->).
  change (seconds_ g) with d0. cbn [rev]. set (q := u32 _).
  assert (Hr : Forall is_byte (raw (prefix_ g) d q)).
  { apply raw_bytes. rewrite Hp. apply Forall_app_2; [done|apply pid_bytes_bytes]. }
  split_and!.
  - rewrite hex_length. unfold raw. cbn [length]. by rewrite !length_app, Hp, length_app, Hl.
  - by apply hex_upper.
  - exists d. split; [done|]. rewrite hexToBinary_hex by done. unfold raw. rewrite Hp. cbn [app]. by rewrite <- !app_assoc.
Qed.

Lemma next_well_formed_witness :
  exists id, run [7; 7; 8] (make (Some [2; 66; 172; 17; 0; 2]) 258 7) !! 1%nat = Some id
    /\ String.length id = 34%nat
    /\ hexToBinary id [] = (true, [1; 2; 66; 172; 17; 0; 2; 1; 2; 7; 0; 0; 0; 2; 0; 0; 0]).
Proof.
  destruct (run [7; 7; 8] (make (Some [2; 66; 172; 17; 0; 2]) 258 7) !! 1%nat) as [id|] eqn:E; [|discriminate E].
  exists id. split; [reflexivity|].
  destruct (next_well_formed (Some [Some (UtilAll.mk_sockaddr true (replicate 8 0));
      Some (UtilAll.mk_sockaddr true [2; 66; 172; 17; 0; 2; 0; 0]); Some (UtilAll.mk_sockaddr true [2; 66; 172; 17; 0; 3; 0; 0])])
      true [2; 66; 172; 17; 0; 2] (Some [2; 66; 172; 17; 0; 2]) 258 7 [7; 7; 8] 1%nat id) as (H1 & _ & d & Hd & H2).
  - repeat constructor; done || (split; by compute).
  - reflexivity.
  - exact E.
  - split; [exact H1|]. injection Hd as <-. exact H2.
Defined.

(** A generator with a MAC address, three identifiers in one second and one in the next. *)
Lemma next_unique_witness :
  NoDup (run (map (deltaSeconds 7000000000 0) [1; 2; 3; 1000000000]) (make (Some [1; 2; 3; 4; 5; 6]) 258 7)).
Proof.
  apply (next_unique (Some [1; 2; 3; 4; 5; 6]) 258 (customEpoch + 7000000000) 0 1 [1; 2; 3; 1000000000]).
  - split; [cbn; lia|]. repeat (constructor; [by split; compute|]). constructor.
  - by compute.
  - repeat (constructor; [|repeat constructor; by compute]). constructor.
  - repeat (constructor; [by compute|]). constructor.
  - by compute.
Defined.

End UniqueIdGenerator.

(** [MixAll::hexToBinary] inverts [MixAll::hex]: on the hexadecimal form of any
    bytes it succeeds and appends exactly those bytes to its output vector. *)
Theorem hexToBinary_roundtrip l bin :
  Forall MixAll.is_byte l ->
  MixAll.hexToBinary (MixAll.hex l) bin = (true, bin ++ l).
Proof. apply MixAll.hexToBinary_hex. Qed.

Lemma hexToBinary_roundtrip_witness :
  MixAll.hexToBinary "00FFA5" [9] = (true, [9; 0; 255; 165]).
Proof.
  apply (hexToBinary_roundtrip [0; 255; 165] [9]).
  repeat (constructor; [by split; compute|]). constructor.
Defined.

(** ** Histogram *)
Module Histogram.

Record t := mk {
  title_ : string;
  data_ : list Z;
  capacity_ : Z;
  labels_ : list string;
}.

Definition make (title : string) (capacity : Z) : t :=
  mk title (replicate (Z.to_nat capacity) 0) capacity [].

(** [data_\[i\]->fetch_add(1)] on an [int32_t] counter. *)
Definition bump (h : t) (i : Z) : t :=
  mk (title_ h) (alter (fun v => i32 (v + 1)) (Z.to_nat i) (data_ h)) (capacity_ h) (labels_ h).

Definition countIn (grade : Z) (h : t) : t :=
  if grade <? 0 then h
  else if capacity_ h <=? grade then bump h (capacity_ h - 1)
  else bump h grade.

(** The text built by [reportAndReset] from labels and values. *)
Fixpoint report_items (first : bool) (ls : list string) (vs : list Z) : string :=
  match ls, vs with
  | l :: ls', v :: vs' =>
      ((if first then "" else ", ") +:+ l +:+ to_string v +:+ report_items false ls' vs')%string
  | _, _ => ""
  end.

Definition reportAndReset (h : t) : string * t :=
  let values := data_ h in
  ((title_ h +:+ ":" +:+ report_items true (labels_ h) values)%string,
   mk (title_ h) (map (fun v => i32 (v - v)) values) (capacity_ h) (labels_ h)).

Definition total (h : t) : Z := foldr Z.add 0 (data_ h).

Lemma foldr_alter (f : Z -> Z) (l : list Z) i x :
  l !! i = Some x -> foldr Z.add 0 (alter f i l) = foldr Z.add 0 l + f x - x.
Proof.
  revert i. induction l as [|a l IH]; intros [|i]; cbn; intros [= ->] || intros H.
  - lia.
  - rewrite (IH i H). lia.
Qed.

Lemma bump_total h i :
  zlen (data_ h) = capacity_ h -> 0 <= i < capacity_ h ->
  Forall (fun v => 0 <= v < 2 ^ 31 - 1) (data_ h) ->
  total (bump h i) = total h + 1.
Proof.
  intros Hl Hi Hv. unfold total, bump. cbn [data_].
  assert (is_Some (data_ h !! Z.to_nat i)) as [x Hx].
  { apply lookup_lt_is_Some_2. unfold zlen in Hl. lia. }
  rewrite (foldr_alter _ _ _ x Hx).
  assert (0 <= x < 2 ^ 31 - 1) by (eapply Forall_lookup_1 in Hv; eauto).
  rewrite i32_small by lia. lia.
Qed.

Lemma bump_length h i : zlen (data_ (bump h i)) = zlen (data_ h).
Proof. unfold zlen, bump. cbn. by rewrite length_alter. Qed.

(** The histogram never loses a sample: every non-negative grade, however
    large, raises the total of the counters by exactly one and keeps their number;
    a negative grade changes nothing (no counter is at [INT32_MAX]). *)
Theorem countIn_counts h grade :
  0 < capacity_ h -> zlen (data_ h) = capacity_ h ->
  Forall (fun v => 0 <= v < 2 ^ 31 - 1) (data_ h) ->
  total (countIn grade h) = total h + (if grade <? 0 then 0 else 1)
  /\ zlen (data_ (countIn grade h)) = capacity_ h.
Proof.
  intros Hc Hl Hv. unfold countIn.
  destruct (Z.ltb_spec grade 0); [split; [lia|done]|].
  destruct (Z.leb_spec (capacity_ h) grade);
    (split; [apply bump_total; [done|lia|done]|by rewrite bump_length]).
Qed.

Lemma countIn_counts_witness :
  total (countIn 500 (make "Message-Latency" 11)) = 1.
Proof.
  destruct (countIn_counts (make "Message-Latency" 11) 500) as [H _];
    [by compute|by compute| |exact H].
  apply Forall_replicate. lia.
Defined.

End Histogram.
