(* ===== verification/Proto.v ===== *)
(** * The wire messages.

    The protobuf messages of proto/apache/rocketmq/v1 as records, with the fields the
    client reads or writes.  Enumerations are open: a value without a name in the
    schema reaches the client as [.._unrecognized].  A sub-message the code tests
    with [has_..] and a member of a [oneof] are options; the other sub-messages read
    as their default value when they are absent. *)

From S2P Require Import Prelude Types.

Module rmq.

Inductive Permission := NONE | READ | WRITE | READ_WRITE | Permission_unrecognized (v : Z).
Inductive AddressScheme := IPv4 | IPv6 | DOMAIN_NAME | AddressScheme_unrecognized (v : Z).
Inductive FilterType := TAG | SQL.
Inductive ConsumeModel := CLUSTERING | BROADCASTING.
Inductive ConsumePolicy := RESUME | PLAYBACK | DISCARD | TARGET_TIMESTAMP.
Inductive ConsumeMessageType := ACTIVE | PASSIVE.
Inductive MessageType := NORMAL | FIFO | DELAY | TRANSACTION | MessageType_unrecognized (v : Z).
Inductive DigestType := CRC32 | MD5 | SHA1 | DigestType_unrecognized (v : Z).
Inductive Encoding := IDENTITY | GZIP | Encoding_unrecognized (v : Z).
Inductive QueryOffsetPolicy := BEGINNING | END_ | TIME_POINT.
Inductive TransactionResolution := COMMIT | ROLLBACK.
Inductive TransactionSource := CLIENT | SERVER_CHECK.

#[global] Instance Permission_eq_dec : EqDecision Permission.
Proof. solve_decision. Defined.
#[global] Instance AddressScheme_eq_dec : EqDecision AddressScheme.
Proof. solve_decision. Defined.
#[global] Instance Encoding_eq_dec : EqDecision Encoding.
Proof. solve_decision. Defined.

(** google.protobuf.Timestamp and Duration. *)
Record Timestamp := mkTimestamp { seconds : Z; nanos : Z }.

Record Resource := mkResource { resource_namespace : string; name : string }.
Record FilterExpression := mkFilterExpression { type : FilterType; expression : string }.
Record Address := mkAddress { host : string; port : Z }.
Record Endpoints := mkEndpoints { scheme : AddressScheme; addresses : list Address }.
Record Broker := mkBroker { broker_name : string; broker_id : Z; endpoints : Endpoints }.
Record Partition := mkPartition {
  topic : Resource;
  id : Z;
  permission : Permission;
  broker : Broker;
}.

Definition Resource_default : Resource := mkResource "" "".
Definition Endpoints_default : Endpoints := mkEndpoints IPv4 [].
Definition Broker_default : Broker := mkBroker "" 0 Endpoints_default.
Definition Partition_default : Partition := mkPartition Resource_default 0 NONE Broker_default.

Record Digest := mkDigest { digest_type : DigestType; checksum : string }.

Inductive TimedDelivery := kDeliveryTimestamp (t : Timestamp) | kDelayLevel (l : Z) | TIMED_DELIVERY_NOT_SET.

Record SystemAttribute := mkSystemAttribute {
  tag : string;
  keys : list string;
  message_id : string;
  body_digest : Digest;
  body_encoding : Encoding;
  message_type : MessageType;
  born_timestamp : option Timestamp;
  born_host : string;
  store_timestamp : option Timestamp;
  store_host : string;
  timed_delivery : TimedDelivery;
  receipt_handle : string;
  partition_id : Z;
  partition_offset : Z;
  invisible_period : option Timestamp;
  delivery_attempt : Z;
  producer_group : Resource;
  message_group : string;
  trace_context : string;
}.

Record Message := mkMessage {
  message_topic : Resource;
  user_attribute : gmap string string;
  system_attribute : SystemAttribute;
  body : string;
}.

(** [ResponseCommon]: the code and the text of its status. *)
Record ResponseCommon := mkResponseCommon { code : Code; message : string }.

Record QueryRouteRequest := mkQueryRouteRequest {
  route_topic : Resource;
  route_endpoints : Endpoints;
}.
Record QueryRouteResponse := mkQueryRouteResponse {
  route_common : ResponseCommon;
  partitions : list Partition;
}.

Record SendMessageRequest := mkSendMessageRequest {
  send_message : Message;
  send_partition : Partition;
}.
Record SendMessageResponse := mkSendMessageResponse {
  send_common : ResponseCommon;
  send_message_id : string;
  send_transaction_id : string;
}.

Record QueryAssignmentRequest := mkQueryAssignmentRequest {
  assignment_topic : Resource;
  assignment_group : Resource;
  assignment_client_id : string;
  assignment_endpoints : Endpoints;
}.
(** [Assignment] carries its partition only. *)
Record QueryAssignmentResponse := mkQueryAssignmentResponse {
  assignment_common : ResponseCommon;
  assignments : list Partition;
}.

Record ReceiveMessageRequest := mkReceiveMessageRequest {
  receive_group : Resource;
  receive_client_id : string;
  receive_partition : Partition;
  receive_filter : FilterExpression;
  consume_policy : ConsumePolicy;
  batch_size : Z;
  invisible_duration : Timestamp;
  await_time : Timestamp;
  receive_fifo_flag : bool;
}.
Record ReceiveMessageResponse := mkReceiveMessageResponse {
  receive_common : ResponseCommon;
  messages : list Message;
  receive_delivery_timestamp : option Timestamp;
  receive_invisible_duration : option Timestamp;
}.

Record AckMessageRequest := mkAckMessageRequest {
  ack_group : Resource;
  ack_topic : Resource;
  ack_client_id : string;
  ack_receipt_handle : string;
  ack_message_id : string;
}.

(** NackMessageRequest and ForwardMessageToDeadLetterQueueRequest have the same fields. *)
Record NackMessageRequest := mkNackMessageRequest {
  nack_group : Resource;
  nack_topic : Resource;
  nack_client_id : string;
  nack_receipt_handle : string;
  nack_message_id : string;
  nack_delivery_attempt : Z;
  nack_max_delivery_attempts : Z;
}.

Record SubscriptionEntry := mkSubscriptionEntry {
  entry_topic : Resource;
  entry_expression : FilterExpression;
}.
Record ConsumerData := mkConsumerData {
  consumer_group : Resource;
  subscriptions : list SubscriptionEntry;
  consume_model : ConsumeModel;
  data_consume_policy : ConsumePolicy;
  max_delivery_attempts : Z;
  consume_type : ConsumeMessageType;
}.
Inductive ClientData := producer_data (group : Resource) | consumer_data (data : ConsumerData).
Record HeartbeatRequest := mkHeartbeatRequest {
  heartbeat_client_id : string;
  client_data : ClientData;
  fifo_flag : bool;
}.

Record EndTransactionRequest := mkEndTransactionRequest {
  end_group : Resource;
  end_message_id : string;
  end_transaction_id : string;
  resolution : TransactionResolution;
  source : TransactionSource;
  end_trace_context : string;
}.

Record QueryOffsetRequest := mkQueryOffsetRequest {
  offset_partition : Partition;
  policy : QueryOffsetPolicy;
  time_point : option Timestamp;
}.
Record QueryOffsetResponse := mkQueryOffsetResponse {
  offset_common : ResponseCommon;
  offset : Z;
}.

Record PullMessageRequest := mkPullMessageRequest {
  pull_group : Resource;
  pull_partition : Partition;
  pull_offset : Z;
  pull_batch_size : Z;
  pull_await_time : Timestamp;
  pull_filter : FilterExpression;
  pull_client_id : string;
}.
Record PullMessageResponse := mkPullMessageResponse {
  pull_common : ResponseCommon;
  min_offset : Z;
  next_offset : Z;
  max_offset : Z;
  pull_messages : list Message;
}.

Inductive PollingGroup := polling_producer_group (r : Resource) | polling_consumer_group (r : Resource).
Record GenericPollingRequest := mkGenericPollingRequest {
  polling_client_id : string;
  topics : list Resource;
  polling_group : PollingGroup;
}.
Inductive MultiplexingRequest :=
  | polling_request (r : GenericPollingRequest)
  | print_thread_stack_response (mid : string) (code : Code) (stack_trace : string)
  | verify_message_consumption_response (mid : string) (code : Code) (msg : string).
Inductive MultiplexingResponse :=
  | polling_response
  | print_thread_stack_request (mid : string)
  | verify_message_consumption_request (mid : string) (msg : Message)
  | resolve_orphaned_transaction_request (msg : Message) (transaction_id : string)
  | MULTIPLEXING_TYPE_NOT_SET.

Record NotifyClientTerminationRequest := mkNotifyClientTerminationRequest {
  termination_group : Resource;
  termination_client_id : string;
}.

End rmq.
