(* ===== verification/RateLimiter.v ===== *)
(** * base/RateLimiter: the per-topic consumption throttle.

    [RateLimiter<PARTITION>] splits a per-second budget over [PARTITION] slots of
    [1000 / PARTITION] milliseconds.  Every method reads the steady clock; the
    reading, in milliseconds, is an argument here.  [RateLimiterObserver] calls
    [tick] on the live limiters. *)

From S2P Require Import Prelude Types.

Module RateLimiter.
Section RateLimiter.
Context (PARTITION : Z).

Record t := mk {
  partition_ : list Z;
  permits_ : list Z;
  interval_ : Z;
}.

(** Reads and writes of the arrays; every index used below is in range. *)
Definition rd (l : list Z) (i : Z) : Z := default 0 (at_ l i).
Definition wr (l : list Z) (i v : Z) : list Z := <[Z.to_nat i := v]> l.

(** The loop [for (i = 0; i < r; ++i) partition_\[i * step\]++]. *)
Fixpoint spread (r : nat) (step : Z) (l : list Z) : list Z :=
  match r with
  | O => l
  | S r' =>
      let l' := spread r' step l in
      let i := Z.of_nat r' * step in
      wr l' i (u32 (rd l' i + 1))
  end.

Definition make (permit : Z) : t :=
  let avg := permit / PARTITION in
  let base := replicate (Z.to_nat PARTITION) avg in
  let r := permit mod PARTITION in
  let part := if r =? 0 then base else spread (Z.to_nat r) (PARTITION / r) base in
  mk part (replicate (Z.to_nat PARTITION) 0) (1000 / PARTITION).

Definition slot (s : t) (ms : Z) : Z := ms / interval_ s mod PARTITION.

(** [index = idx - j; if (index < 0) index += PARTITION]. *)
Definition back (idx j : Z) : Z :=
  let index := idx - j in if index <? 0 then index + PARTITION else index.

(** The past half of the cycle, nearest slot first: [j] from [lo] to [PARTITION / 2]. *)
Definition past (idx lo : Z) : list Z :=
  map (back idx) (seqZ lo (PARTITION / 2 - lo + 1)).

Definition available (s : t) (ms : Z) : Z :=
  let idx := slot s ms in
  foldl (fun acc index =>
           if 0 <? rd (permits_ s) index then u32 (acc + rd (permits_ s) index) else acc)
        0 (past idx 0).

(** The inner loop of [acquire(permit)] on one slot holding [p] permits:
    [while (p > 0) { --p; if (++acquired >= permit) break; }]. *)
Fixpoint drain (fuel : nat) (p acquired permit : Z) : Z * Z :=
  match fuel with
  | O => (p, acquired)
  | S fuel' =>
      if 0 <? p then
        let p := p - 1 in
        let acquired := u32 (acquired + 1) in
        if permit <=? acquired then (p, acquired) else drain fuel' p acquired permit
      else (p, acquired)
  end.

(** The outer loop of [acquire(permit)]; the [break] above leaves only the inner one. *)
Fixpoint drain_past (idxs : list Z) (l : list Z) (acquired permit : Z) : list Z * Z :=
  match idxs with
  | [] => (l, acquired)
  | i :: idxs' =>
      let p := rd l i in
      let '(p', acquired') := drain (Z.to_nat p) p acquired permit in
      drain_past idxs' (wr l i p') acquired' permit
  end.

(** [uint32_t acquire(uint32_t permit)]: the value returned and the new state. *)
Definition acquire_n (ms permit : Z) (s : t) : Z * t :=
  let idx := slot s ms in
  let p := rd (permits_ s) idx in
  if permit <=? p then (permit, mk (partition_ s) (wr (permits_ s) idx (p - permit)) (interval_ s))
  else
    let '(l, acquired) :=
      if 0 <? p then (wr (permits_ s) idx 0, p) else (permits_ s, 0) in
    let '(l', acquired') := drain_past (past idx 1) l acquired permit in
    (acquired', mk (partition_ s) l' (interval_ s)).

(** The first slot of the list that still has a permit. *)
Fixpoint first_avail (l : list Z) (idxs : list Z) : option Z :=
  match idxs with
  | [] => None
  | i :: idxs' => if 0 <? rd l i then Some i else first_avail l idxs'
  end.

Definition take_permit (i : Z) (s : t) : t :=
  mk (partition_ s) (wr (permits_ s) i (u32 (rd (permits_ s) i - 1))) (interval_ s).

(** [void acquire()] up to the wait: [None] when the caller blocks on [cv_]. *)
Definition acquire (ms : Z) (s : t) : option t :=
  let idx := slot s ms in
  if 0 <? rd (permits_ s) idx then Some (take_permit idx s)
  else match first_avail (permits_ s) (past idx 1) with
       | Some i => Some (take_permit i s)
       | None => None
       end.

(** The end of a blocked [acquire()]: the wait predicate is evaluated at [ms], the
    slot is read again at [ms'] before the permit is taken. *)
Definition acquire_wakeup (ms ms' : Z) (s : t) : option t :=
  if 0 <? rd (permits_ s) (slot s ms) then Some (take_permit (slot s ms') s) else None.

(** [tick()], after its sleep. *)
Definition tick (ms : Z) (s : t) : t :=
  let idx := slot s ms in
  mk (partition_ s) (wr (permits_ s) idx (rd (partition_ s) idx)) (interval_ s).

(** ** Properties *)

Hypothesis HP : 2 <= PARTITION <= 1000.

Definition sum (l : list Z) : Z := foldr Z.add 0 l.

Lemma sum_cons a l : sum (a :: l) = a + sum l.
Proof. done. Qed.

Definition wf (s : t) : Prop :=
  zlen (permits_ s) = PARTITION /\ zlen (partition_ s) = PARTITION
  /\ 0 < interval_ s
  /\ Forall (fun v => 0 <= v < 2 ^ 32) (permits_ s)
  /\ Forall (fun v => 0 <= v < 2 ^ 32) (partition_ s).

Lemma slot_range s ms : 0 <= slot s ms < PARTITION.
Proof. apply Z.mod_pos_bound. lia. Qed.

Lemma back_range idx j : 0 <= idx < PARTITION -> 0 <= j <= PARTITION / 2 -> 0 <= back idx j < PARTITION.
Proof.
  intros Hi Hj. unfold back.
  assert (PARTITION / 2 <= PARTITION - 1) by (Z.to_euclidean_division_equations; lia).
  destruct (Z.ltb_spec (idx - j) 0); lia.
Qed.

Lemma past_range idx lo i :
  0 <= idx < PARTITION -> 0 <= lo -> i ∈ past idx lo -> 0 <= i < PARTITION.
Proof.
  intros Hi Hlo H. apply list_elem_of_fmap in H as (j & -> & Hj).
  apply elem_of_seqZ in Hj. apply back_range; lia.
Qed.

Lemma past_length idx lo : 0 <= lo <= PARTITION / 2 + 1 -> zlen (past idx lo) = PARTITION / 2 - lo + 1.
Proof. intros. unfold zlen, past. rewrite length_map, length_seqZ. lia. Qed.

(** Array access. *)
Lemma wr_length l i v : zlen (wr l i v) = zlen l.
Proof. unfold zlen, wr. by rewrite length_insert. Qed.

Lemma rd_lookup l i : 0 <= i -> rd l i = default 0 (l !! Z.to_nat i).
Proof. intros. unfold rd, at_. by rewrite decide_True by lia. Qed.

Lemma rd_wr l i j v :
  0 <= i < zlen l -> 0 <= j -> rd (wr l i v) j = if decide (i = j) then v else rd l j.
Proof.
  intros Hi Hj. rewrite !rd_lookup by lia. unfold wr, zlen in *.
  case_decide as E; [subst|].
  - by rewrite list_lookup_insert_eq by lia.
  - by rewrite list_lookup_insert_ne by lia.
Qed.

Lemma sum_wr l i v : 0 <= i < zlen l -> sum (wr l i v) = sum l + v - rd l i.
Proof.
  intros Hi. rewrite rd_lookup by lia. unfold wr, zlen, sum in *.
  assert (Hn : (Z.to_nat i < length l)%nat) by lia.
  generalize dependent (Z.to_nat i). clear Hi i.
  induction l as [|a l IH]; intros [|n]; cbn; intros Hn; try lia.
  rewrite IH by lia. by rewrite Z.add_sub_assoc, Z.add_assoc.
Qed.

Lemma rd_Forall (P : Z -> Prop) l i : Forall P l -> 0 <= i < zlen l -> P (rd l i).
Proof.
  intros Hl Hi. rewrite rd_lookup by lia. unfold zlen in *.
  destruct (lookup_lt_is_Some_2 l (Z.to_nat i)) as [x Hx]; [lia|].
  rewrite Hx. cbn. by eapply Forall_lookup_1.
Qed.

Lemma wr_Forall (P : Z -> Prop) l i v : Forall P l -> P v -> Forall P (wr l i v).
Proof. intros. by apply Forall_insert. Qed.

Lemma sum_ge_rd l i : Forall (fun v => 0 <= v < 2 ^ 32) l -> 0 <= i < zlen l -> rd l i <= sum l.
Proof.
  intros Hl Hi. rewrite rd_lookup by lia. unfold zlen in *.
  assert (Hn : (Z.to_nat i < length l)%nat) by lia.
  generalize dependent (Z.to_nat i). clear Hi i.
  assert (Hs : forall l, Forall (fun v => 0 <= v < 2 ^ 32) l -> 0 <= sum l).
  { induction 1; cbn; [lia|]. unfold sum in *. lia. }
  induction Hl as [|a l Ha Hl IH]; intros [|n]; cbn; intros Hn; try lia.
  - specialize (Hs l Hl). unfold sum in Hs. lia.
  - apply (Z.le_trans _ _ _ (IH n ltac:(lia))). unfold sum. lia.
Qed.

(** *** The budget is split exactly *)

Lemma spread_spec (r : nat) step l c :
  1 <= step -> (Z.of_nat r - 1) * step < zlen l ->
  Forall (fun v => 0 <= v <= c) l -> c + Z.of_nat r < 2 ^ 32 ->
  sum (spread r step l) = sum l + Z.of_nat r
  /\ zlen (spread r step l) = zlen l
  /\ Forall (fun v => 0 <= v <= c + Z.of_nat r) (spread r step l).
Proof.
  intros Hst. induction r as [|r IH]; intros Hr Hl Hc; cbn [spread].
  - split; [lia|]. split; [done|]. eapply Forall_impl; [exact Hl|]. cbn. lia.
  - destruct IH as (IHs & IHl & IHf); [nia|done|lia|].
    assert (Hi : 0 <= Z.of_nat r * step < zlen (spread r step l)) by (rewrite IHl; nia).
    pose proof (rd_Forall _ _ _ IHf Hi) as Hrd. cbn in Hrd.
    rewrite u32_small by lia. rewrite sum_wr, wr_length by done.
    split; [lia|]. split; [done|]. apply wr_Forall; [|lia].
    eapply Forall_impl; [exact IHf|]. cbn. lia.
Qed.

Lemma sum_replicate n v : sum (replicate n v) = Z.of_nat n * v.
Proof. induction n as [|n IH]; cbn [replicate sum foldr]; [lia|]. unfold sum in IH. rewrite IH. lia. Qed.

Lemma limiter_make_wf permit :
  0 <= permit < 2 ^ 32 ->
  wf (make permit) /\ sum (partition_ (make permit)) = permit.
Proof.
  intros Hp. unfold make, wf. cbn [permits_ partition_ interval_].
  assert (Hrep : forall v : Z, zlen (replicate (Z.to_nat PARTITION) v) = PARTITION).
  { intros v. unfold zlen. rewrite length_replicate. lia. }
  assert (Hi : 0 < 1000 / PARTITION) by (apply Z.div_str_pos; lia).
  assert (Havg : 0 <= permit / PARTITION < 2 ^ 31).
  { split; [apply Z.div_pos; lia|apply Z.div_lt_upper_bound; nia]. }
  pose proof (Z.mod_pos_bound permit PARTITION ltac:(lia)) as Hr.
  pose proof (Z.div_mod permit PARTITION ltac:(lia)) as Hdm.
  assert (Hz : Forall (fun v => 0 <= v < 2 ^ 32) (replicate (Z.to_nat PARTITION) 0)).
  { apply Forall_replicate. lia. }
  destruct (Z.eqb_spec (permit mod PARTITION) 0) as [E|E].
  - rewrite !Hrep, sum_replicate, Z2Nat.id by lia.
    split_and!; try done; try lia. apply Forall_replicate. lia.
  - assert (Hst : 1 <= PARTITION / (permit mod PARTITION)).
    { apply Z.div_le_lower_bound; lia. }
    pose proof (Z.mul_div_le PARTITION (permit mod PARTITION) ltac:(lia)).
    edestruct (spread_spec (Z.to_nat (permit mod PARTITION)) (PARTITION / (permit mod PARTITION))
                (replicate (Z.to_nat PARTITION) (permit / PARTITION)) (permit / PARTITION))
      as (Hs & Hl & Hf); [done|rewrite Hrep; nia|apply Forall_replicate; lia|lia|].
    rewrite Hl, Hs, !Hrep, sum_replicate, !Z2Nat.id by lia.
    split_and!; try done; try lia. eapply Forall_impl; [exact Hf|]. cbn. lia.
Qed.

(** *** Single permits *)

Lemma first_avail_spec l idxs i :
  first_avail l idxs = Some i -> i ∈ idxs /\ 0 < rd l i.
Proof.
  induction idxs as [|j idxs IH]; cbn; [done|].
  destruct (Z.ltb_spec 0 (rd l j)); [intros [= ->]; split; [left|lia]|].
  intros [Hin ?]%IH. split; [by right|done].
Qed.

Lemma first_avail_None l idxs :
  first_avail l idxs = None -> Forall (fun i => rd l i <= 0) idxs.
Proof.
  induction idxs as [|j idxs IH]; cbn; [by constructor|].
  destruct (Z.ltb_spec 0 (rd l j)); [done|]. by constructor; auto.
Qed.

Lemma take_permit_spec i s :
  wf s -> 0 <= i < PARTITION -> 0 < rd (permits_ s) i ->
  wf (take_permit i s) /\ sum (permits_ (take_permit i s)) = sum (permits_ s) - 1.
Proof.
  intros (H1 & H2 & H3 & H4 & H5) Hi Hp. unfold take_permit, wf. cbn.
  assert (Hr : 0 <= rd (permits_ s) i < 2 ^ 32) by (apply (rd_Forall _ _ _ H4); lia).
  rewrite u32_small by lia. rewrite wr_length, sum_wr by lia.
  split_and!; try done; try lia. apply wr_Forall; [done|lia].
Qed.

Lemma acquire_spec ms s s' :
  wf s -> acquire ms s = Some s' ->
  wf s' /\ sum (permits_ s') = sum (permits_ s) - 1 /\ partition_ s' = partition_ s
  /\ interval_ s' = interval_ s.
Proof.
  intros Hwf. unfold acquire. pose proof (slot_range s ms) as Hsl.
  destruct (Z.ltb_spec 0 (rd (permits_ s) (slot s ms))) as [H|H].
  - intros [= <-]. destruct (take_permit_spec _ _ Hwf Hsl H). done.
  - destruct (first_avail _ _) as [i|] eqn:E; [|done]. intros [= <-].
    apply first_avail_spec in E as [Hin Hp].
    apply past_range in Hin; [|lia..].
    destruct (take_permit_spec _ _ Hwf Hin Hp). done.
Qed.

Lemma tick_spec ms s :
  wf s ->
  wf (tick ms s)
  /\ sum (permits_ (tick ms s)) = sum (permits_ s) + rd (partition_ s) (slot s ms)
       - rd (permits_ s) (slot s ms)
  /\ 0 <= rd (permits_ s) (slot s ms).
Proof.
  intros (H1 & H2 & H3 & H4 & H5). pose proof (slot_range s ms) as Hsl.
  assert (Hr : 0 <= rd (permits_ s) (slot s ms) < 2 ^ 32) by (apply (rd_Forall _ _ _ H4); lia).
  unfold tick, wf. cbn. rewrite wr_length, sum_wr by lia.
  split_and!; try done; try lia.
  apply wr_Forall; [done|]. apply (rd_Forall _ _ _ H5). lia.
Qed.

(** *** Batches of permits *)

Lemma drain_spec fuel p acquired permit :
  0 <= p -> 0 <= acquired -> acquired + p < 2 ^ 32 ->
  let '(p', acquired') := drain fuel p acquired permit in
  p' + acquired' = p + acquired /\ 0 <= p' <= p /\ 0 <= acquired'.
Proof.
  revert p acquired. induction fuel as [|fuel IH]; intros p acquired Hp Ha Hs; cbn [drain]; [lia|].
  destruct (Z.ltb_spec 0 p); [|lia].
  rewrite u32_small by lia.
  destruct (permit <=? acquired + 1); [lia|].
  specialize (IH (p - 1) (acquired + 1) ltac:(lia) ltac:(lia) ltac:(lia)).
  destruct (drain fuel (p - 1) (acquired + 1) permit). lia.
Qed.

Lemma drain_past_spec idxs l acquired permit :
  Forall (fun i => 0 <= i < zlen l) idxs ->
  Forall (fun v => 0 <= v < 2 ^ 32) l -> 0 <= acquired -> acquired + sum l < 2 ^ 32 ->
  let '(l', acquired') := drain_past idxs l acquired permit in
  zlen l' = zlen l /\ Forall (fun v => 0 <= v < 2 ^ 32) l'
  /\ acquired' + sum l' = acquired + sum l /\ 0 <= acquired'.
Proof.
  revert l acquired. induction idxs as [|i idxs IH]; intros l acquired Hi Hl Ha Hs; cbn [drain_past];
    [done|].
  apply Forall_cons in Hi as [Hi Hidx].
  pose proof (rd_Forall _ _ _ Hl Hi) as Hr. cbn in Hr.
  pose proof (sum_ge_rd _ _ Hl Hi) as Hge.
  pose proof (drain_spec (Z.to_nat (rd l i)) (rd l i) acquired permit
                ltac:(lia) Ha ltac:(lia)) as Hd.
  destruct (drain _ _ _ _) as [p' a']. destruct Hd as (Hd1 & Hd2 & Hd3).
  pose proof (sum_wr l i p' Hi) as Hsw.
  specialize (IH (wr l i p') a'). rewrite wr_length in IH.
  destruct (drain_past idxs (wr l i p') a' permit) as [l'' a''].
  destruct IH as (H1 & H2 & H3 & H4); [done|apply wr_Forall; [done|lia]|done|lia|].
  split_and!; done || lia.
Qed.

(** A batched acquisition conserves permits: what it reports as acquired is
    exactly what left the slots, no slot goes negative, and the slot table keeps its
    shape. *)
Theorem acquire_n_conserves ms permit s :
  wf s -> sum (permits_ s) < 2 ^ 32 -> 0 <= permit ->
  let '(acquired, s') := acquire_n ms permit s in
  wf s' /\ acquired + sum (permits_ s') = sum (permits_ s) /\ 0 <= acquired
  /\ partition_ s' = partition_ s.
Proof.
  intros (H1 & H2 & H3 & H4 & H5) Hs Hp. unfold acquire_n.
  pose proof (slot_range s ms) as Hsl.
  pose proof (rd_Forall _ _ _ H4 ltac:(rewrite H1; exact Hsl)) as Hr. cbn in Hr.
  destruct (Z.leb_spec permit (rd (permits_ s) (slot s ms))) as [Hle|Hle].
  - unfold wf. cbn [permits_ partition_ interval_]. rewrite wr_length, sum_wr by lia.
    split_and!; try done; try lia. apply wr_Forall; [done|lia].
  - assert (Hidx : Forall (fun i => 0 <= i < zlen (permits_ s)) (past (slot s ms) 1)).
    { apply Forall_forall. intros i Hi. rewrite H1. by apply past_range in Hi; [|lia..]. }
    pose proof (sum_wr (permits_ s) (slot s ms) 0 ltac:(lia)) as Hsw.
    pose proof (drain_past_spec (past (slot s ms) 1)
                 (if 0 <? rd (permits_ s) (slot s ms) then wr (permits_ s) (slot s ms) 0 else permits_ s)
                 (if 0 <? rd (permits_ s) (slot s ms) then rd (permits_ s) (slot s ms) else 0)
                 permit) as Hd.
    destruct (Z.ltb_spec 0 (rd (permits_ s) (slot s ms)));
      rewrite ?wr_length in Hd; destruct (drain_past _ _ _ _) as [l' a'];
      (destruct Hd as (D1 & D2 & D3 & D4);
        [done|try apply wr_Forall; done || lia|lia|lia|]);
      unfold wf; cbn [permits_ partition_ interval_]; split_and!; done || lia.
Qed.

(** *** Histories *)

(** Without a bound on the permits the count of a batch may wrap; it is then too small. *)
Lemma drain_le fuel p acquired permit :
  0 <= p -> 0 <= acquired ->
  let '(p', acquired') := drain fuel p acquired permit in
  p' + acquired' <= p + acquired /\ 0 <= p' <= p /\ 0 <= acquired'.
Proof.
  revert p acquired. induction fuel as [|fuel IH]; intros p acquired Hp Ha; cbn [drain]; [lia|].
  destruct (Z.ltb_spec 0 p); [|lia].
  assert (0 <= u32 (acquired + 1) <= acquired + 1) as Hu
    by (unfold u32; split; [apply Z.mod_pos_bound; lia|apply Z.mod_le; lia]).
  destruct (permit <=? u32 (acquired + 1)); [lia|].
  specialize (IH (p - 1) (u32 (acquired + 1)) ltac:(lia) ltac:(lia)).
  destruct (drain fuel (p - 1) (u32 (acquired + 1)) permit). lia.
Qed.

Lemma drain_past_le idxs l acquired permit :
  Forall (fun i => 0 <= i < zlen l) idxs -> Forall (fun v => 0 <= v < 2 ^ 32) l -> 0 <= acquired ->
  let '(l', acquired') := drain_past idxs l acquired permit in
  zlen l' = zlen l /\ Forall (fun v => 0 <= v < 2 ^ 32) l' /\ acquired' + sum l' <= acquired + sum l.
Proof.
  revert l acquired. induction idxs as [|i idxs IH]; intros l acquired Hi Hl Ha; cbn [drain_past]; [done|].
  apply Forall_cons in Hi as [Hi Hidx]. pose proof (rd_Forall _ _ _ Hl Hi) as Hr. cbn in Hr.
  pose proof (drain_le (Z.to_nat (rd l i)) (rd l i) acquired permit ltac:(lia) Ha) as Hd.
  destruct (drain _ _ _ _) as [p' a']. destruct Hd as (Hd1 & Hd2 & Hd3). pose proof (sum_wr l i p' Hi) as Hsw.
  specialize (IH (wr l i p') a'). rewrite wr_length in IH. destruct (drain_past idxs (wr l i p') a' permit) as [l'' a''].
  destruct IH as (H1 & H2 & H3); [done|apply wr_Forall; [done|lia]|done|]. split_and!; done || lia.
Qed.

Lemma acquire_n_le ms permit s :
  wf s -> 0 <= permit ->
  let '(acquired, s') := acquire_n ms permit s in
  wf s' /\ partition_ s' = partition_ s /\ interval_ s' = interval_ s
  /\ acquired + sum (permits_ s') <= sum (permits_ s).
Proof.
  intros (H1 & H2 & H3 & H4 & H5) Hp. unfold acquire_n. pose proof (slot_range s ms) as Hsl.
  pose proof (rd_Forall _ _ _ H4 ltac:(rewrite H1; exact Hsl)) as Hr. cbn in Hr.
  destruct (Z.leb_spec permit (rd (permits_ s) (slot s ms))) as [Hle|Hle].
  - unfold wf. cbn [permits_ partition_ interval_]. rewrite wr_length, sum_wr by lia.
    split_and!; try done; try lia. apply wr_Forall; [done|lia].
  - assert (Hidx : Forall (fun i => 0 <= i < zlen (permits_ s)) (past (slot s ms) 1)).
    { apply Forall_forall. intros i Hi. rewrite H1. by apply past_range in Hi; [|lia..]. }
    pose proof (sum_wr (permits_ s) (slot s ms) 0 ltac:(lia)) as Hsw.
    pose proof (drain_past_le (past (slot s ms) 1)
                 (if 0 <? rd (permits_ s) (slot s ms) then wr (permits_ s) (slot s ms) 0 else permits_ s)
                 (if 0 <? rd (permits_ s) (slot s ms) then rd (permits_ s) (slot s ms) else 0)
                 permit) as Hd.
    destruct (Z.ltb_spec 0 (rd (permits_ s) (slot s ms)));
      rewrite ?wr_length in Hd; destruct (drain_past _ _ _ _) as [l' a'];
      (destruct Hd as (D1 & D2 & D3); [done|try apply wr_Forall; done || lia|lia|]);
      unfold wf; cbn [permits_ partition_ interval_]; split_and!; done || lia.
Qed.

(** A history of a limiter: what its callers and the observer do, in the order in
    which they hold the lock, and the number of permits handed out. *)
Inductive op := Tick (ms : Z) | Acquire (ms : Z) | AcquireN (ms permit : Z) | Wakeup (ms ms' : Z).

Definition step (o : op) (s : t) : Z * t :=
  match o with
  | Tick ms => (0, tick ms s)
  | Acquire ms => match acquire ms s with Some s' => (1, s') | None => (0, s) end
  | AcquireN ms permit => acquire_n ms (u32 permit) s
  | Wakeup ms ms' => match acquire_wakeup ms ms' s with Some s' => (1, s') | None => (0, s) end
  end.

Fixpoint run (ops : list op) (s : t) : Z * t :=
  match ops with
  | [] => (0, s)
  | o :: ops' =>
      let '(n, s1) := step o s in
      let '(m, s2) := run ops' s1 in (n + m, s2)
  end.

(** The permits that the ticks of a history put in, [interval_] being fixed. *)
Definition refill (s : t) (o : op) : Z :=
  match o with Tick ms => rd (partition_ s) (slot s ms) | _ => 0 end.

(** A wake-up between whose two readings of the clock the slot changes. *)
Definition crosses (s : t) (o : op) : Z :=
  match o with Wakeup ms ms' => if slot s ms =? slot s ms' then 0 else 1 | _ => 0 end.

(** The decrement of a slot, wherever it is: an empty one wraps around. *)
Lemma take_permit_le i s :
  wf s -> 0 <= i < PARTITION ->
  wf (take_permit i s) /\ 1 + sum (permits_ (take_permit i s)) <= sum (permits_ s) + 2 ^ 32.
Proof.
  intros Hwf Hi. pose proof Hwf as (H1 & H2 & H3 & H4 & H5).
  assert (Hr : 0 <= rd (permits_ s) i < 2 ^ 32) by (apply (rd_Forall _ _ _ H4); lia).
  assert (0 <= u32 (rd (permits_ s) i - 1) < 2 ^ 32) by (unfold u32; apply Z.mod_pos_bound; lia).
  destruct (decide (0 < rd (permits_ s) i)) as [Hp|Hp].
  - destruct (take_permit_spec i s Hwf Hi Hp) as [? ->]. split; [done|lia].
  - unfold take_permit, wf. cbn. rewrite wr_length, sum_wr by lia.
    split; [|lia]. split_and!; try done; try lia. apply wr_Forall; [done|lia].
Qed.

Lemma step_spec o s :
  wf s ->
  let '(n, s') := step o s in
  wf s' /\ partition_ s' = partition_ s /\ interval_ s' = interval_ s
  /\ n + sum (permits_ s') <= sum (permits_ s) + refill s o + 2 ^ 32 * crosses s o.
Proof.
  intros Hwf. destruct o as [ms|ms|ms permit|ms ms']; cbn [step refill crosses].
  - destruct (tick_spec ms s Hwf) as (? & ? & ?). split_and!; done || lia.
  - destruct (acquire ms s) as [s'|] eqn:E.
    + destruct (acquire_spec _ _ _ Hwf E) as (? & ? & ? & ?). split_and!; done || lia.
    + split_and!; done || lia.
  - pose proof (acquire_n_le ms (u32 permit) s Hwf ltac:(unfold u32; apply Z.mod_pos_bound; lia)) as H.
    destruct (acquire_n ms (u32 permit) s). destruct H as (? & ? & ? & ?). split_and!; done || lia.
  - unfold acquire_wakeup. destruct (Z.ltb_spec 0 (rd (permits_ s) (slot s ms))) as [H|H].
    + destruct (Z.eqb_spec (slot s ms) (slot s ms')) as [<-|Hne].
      * destruct (take_permit_spec _ _ Hwf (slot_range s ms) H). split_and!; done || lia.
      * destruct (take_permit_le _ _ Hwf (slot_range s ms')). split_and!; done || lia.
    + split_and!; [done..|]. destruct (_ =? _); lia.
Qed.

Definition same_clock (s s' : t) : Prop :=
  partition_ s' = partition_ s /\ interval_ s' = interval_ s.

Lemma refill_proper s s' o : same_clock s s' -> refill s' o = refill s o.
Proof. intros [H1 H2]. destruct o; cbn [refill]; [|done..]. unfold slot. by rewrite H1, H2. Qed.

Lemma crosses_proper s s' o : same_clock s s' -> crosses s' o = crosses s o.
Proof. intros [H1 H2]. destruct o; cbn [crosses]; [done..|]. unfold slot. by rewrite H2. Qed.

Lemma run_spec ops s :
  wf s ->
  let '(n, s') := run ops s in
  wf s' /\ n + sum (permits_ s')
           <= sum (permits_ s) + sum (map (refill s) ops) + 2 ^ 32 * sum (map (crosses s) ops).
Proof.
  revert s. induction ops as [|o ops IH]; intros s Hwf; cbn [run map]; [split; [done|]; change (sum []) with 0; lia|].
  rewrite !sum_cons.
  pose proof (step_spec o s Hwf) as Hstep.
  destruct (step o s) as [n s1]. destruct Hstep as (Hwf1 & Hp & Hi & Hn).
  assert (Hc : same_clock s s1) by done.
  specialize (IH s1 Hwf1). destruct (run ops s1) as [m s2]. destruct IH as [Hwf2 Hm]. split; [done|].
  rewrite (map_ext _ _ (fun o => refill_proper s s1 o Hc)) in Hm.
  rewrite (map_ext _ _ (fun o => crosses_proper s s1 o Hc)) in Hm. lia.
Qed.

Lemma sum_nonneg l : Forall (fun v => 0 <= v < 2 ^ 32) l -> 0 <= sum l.
Proof. induction 1; cbn; [lia|]. unfold sum in *. lia. Qed.

(** C19: a limiter built for [permit] messages per second splits exactly [permit] permits over
    its slots.  In any history of ticks, acquisitions, batched acquisitions and wake-ups, the
    permits handed out together with those left are at most those the ticks have put in, and
    [2 ^ 32] more for each wake-up that tests one slot and takes its permit from the next one;
    without such a wake-up a limiter never hands out more than its ticks put in. *)
Theorem rate_limited permit ops :
  0 <= permit < 2 ^ 32 ->
  let s := make permit in
  let '(n, s') := run ops s in
  sum (partition_ s) = permit
  /\ n + sum (permits_ s') <= sum (map (refill s) ops) + 2 ^ 32 * sum (map (crosses s) ops)
  /\ (Forall (fun o => crosses s o = 0) ops -> n <= sum (map (refill s) ops)).
Proof.
  intros Hp s. destruct (limiter_make_wf permit Hp) as [Hwf Hsum]. fold s in Hwf, Hsum.
  pose proof (run_spec ops _ Hwf) as H. destruct (run ops s) as [n s']. destruct H as [(_ & _ & _ & Hf & _) H].
  assert (Hz : sum (permits_ s) = 0) by (cbn; rewrite sum_replicate; lia).
  pose proof (sum_nonneg _ Hf). split_and!; [done|lia|]. intros Hc.
  assert (sum (map (crosses s) ops) = 0) as E; [|lia].
  clear -Hc. induction Hc as [|o l Ho _ IH]; [done|]. cbn [map]. by rewrite sum_cons, Ho, IH.
Qed.

End RateLimiter.

Lemma rate_limited_witness :
  let s := make 10 25 in
  let ops := [Tick 0; Acquire 50; Acquire 60; Acquire 70; Tick 100; Acquire 150; Wakeup 160 170; Tick 300; AcquireN 310 9] in
  let '(n, s') := run 10 ops s in
  n = 7 /\ Forall (fun o => crosses 10 s o = 0) ops /\ n <= sum (map (refill 10 s) ops).
Proof.
  intros s ops. pose proof (rate_limited 10 ltac:(lia) 25 ops ltac:(lia)) as H. cbv zeta in H. fold s in H.
  assert (Hn : fst (run 10 ops s) = 7) by reflexivity.
  destruct (run 10 ops s) as [n s']. destruct H as (_ & _ & H).
  assert (Hc : Forall (fun o => crosses 10 s o = 0) ops) by (repeat constructor).
  split; [exact Hn|]. split; [exact Hc|]. exact (H Hc).
Defined.

Lemma acquire_n_conserves_witness :
  let s := mk (replicate 10 1) (replicate 10 1) 100 in
  wf 10 s /\
  let '(acquired, s') := acquire_n 10 0 2 s in
  wf 10 s' /\ acquired + sum (permits_ s') = sum (permits_ s) /\ 0 <= acquired
  /\ partition_ s' = partition_ s.
Proof.
  intros s. assert (H : wf 10 s).
  { unfold wf, zlen. cbn. split_and!; [done..|repeat constructor; lia|repeat constructor; lia]. }
  split; [exact H|]. apply (acquire_n_conserves 10); [lia|exact H|cbn; lia|lia].
Defined.

(** The [break] of [acquire(permit)] leaves only the inner loop, so the batch takes one
    further permit from every past slot that has any: asked for 2, it takes 6. *)
Lemma acquire_n_exceeds_request :
  fst (acquire_n 10 0 2 (mk (replicate 10 1) (replicate 10 1) 100)) = 6.
Proof. reflexivity. Qed.

(** A blocked [acquire()] tests the slot of one moment and takes the permit from the slot of
    a later one: when the clock passes to a slot without permits in between, the count of
    that slot wraps around. *)
Lemma wakeup_wraps_around :
  let s := tick 10 0 (make 10 10) in
  exists s', acquire_wakeup 10 0 100 s = Some s' /\ rd (permits_ s) 1 = 0 /\ rd (permits_ s') 1 = 2 ^ 32 - 1.
Proof. eexists. split; [vm_compute; reflexivity|]. split; vm_compute; reflexivity. Qed.

End RateLimiter.

(** ** RateLimiterObserver

    The list holds weak pointers; a limiter is either alive or expired. *)
Module RateLimiterObserver.
Section Observer.
Context (PARTITION : Z).

Definition weak := option RateLimiter.t.

Record t := mk { members_ : list weak; stopped_ : bool }.

Definition make : t := mk [] false.

Definition subscribe (l : RateLimiter.t) (o : t) : t := mk (members_ o ++ [Some l]) (stopped_ o).

(** One round of the background thread: every live limiter ticks (its clock read at
    [ms]), every expired entry is erased. *)
Definition round (ms : Z) (o : t) : t :=
  mk (omap (fun w => match w with
                     | None => None
                     | Some l => Some (Some (RateLimiter.tick PARTITION ms l))
                     end) (members_ o)) (stopped_ o).

Definition stop (o : t) : t := mk (members_ o) true.

End Observer.

(** The milliseconds of a round over [n] limiters: each [tick] sleeps for an interval, and
    the thread sleeps for 100 more between the rounds. *)
Definition round_period (n : Z) : Z := n * (1000 / 10) + 100.

(** The ticks of a limiter that is alone come in every other slot: the other slots are never
    refilled. *)
Lemma single_limiter_half_refilled l ms k :
  RateLimiter.interval_ l = 100 ->
  RateLimiter.slot 10 l (ms + k * round_period 1) mod 2 = RateLimiter.slot 10 l ms mod 2.
Proof.
  intros Hi. unfold RateLimiter.slot, round_period. rewrite Hi.
  replace (ms + k * (1 * (1000 / 10) + 100)) with (ms + 2 * k * 100) by (change (1000 / 10) with 100; lia).
  rewrite Z.div_add by lia. rewrite !(Z.mod_mod_divide _ 10 2) by (exists 5; lia).
  rewrite (Z.mul_comm 2 k), Z.mod_add by lia. done.
Qed.
End RateLimiterObserver.

