(* ===== verification/Route.v ===== *)
(** * Topic routes, publish information and queue assignments.

    The immutable route data (client/include/ServiceAddress.h, Broker.h, Topic.h,
    Partition.h, TopicRouteData.h, Assignment.h), the queue selection of a producer
    (client/TopicPublishInfo.cpp), the assignment of a consumer
    (client/TopicAssignmentInfo.cpp), the conversion of a route response
    (ClientManagerImpl::resolveRoute) and the two selectors
    (rocketmq/MessageGroupQueueSelector.cpp, PushConsumerImpl::selectBroker). *)

From S2P Require Import Prelude Types Message MixAll Proto.

(** ** Addresses *)

Inductive AddressScheme := IPv4 | IPv6 | DOMAIN_NAME.

#[export] Instance AddressScheme_eq_dec : EqDecision AddressScheme.
Proof. solve_decision. Defined.

Module Address.

Record t := mk { host_ : string; port_ : Z }.

#[global] Instance eq_dec : EqDecision t.
Proof. solve_decision. Defined.

Definition operator_eq (a b : t) : bool := String.eqb (host_ a) (host_ b) && (port_ a =? port_ b).

Definition operator_lt (a b : t) : bool :=
  if str_ltb (host_ a) (host_ b) then true
  else if str_ltb (host_ b) (host_ a) then false
  else if port_ a <? port_ b then true
  else if port_ b <? port_ a then false
  else false.

Lemma address_lt_lex a b : operator_lt a b = lex_str host_ (fun a b => port_ a <? port_ b) a b.
Proof.
  rewrite <- lex_str_two_tests. unfold operator_lt.
  destruct (port_ a <? port_ b), (port_ b <? port_ a); done.
Qed.

Definition to_string (a : t) : string := (host_ a +:+ ":" +:+ Prelude.to_string (port_ a))%string.

End Address.

Module ServiceAddress.

Record t := mk { scheme_ : AddressScheme; addresses_ : list Address.t }.

Definition make (scheme : AddressScheme) (addresses : list Address.t) : t :=
  mk scheme (std_sort Address.operator_lt addresses).

Definition operator_bool (s : t) : bool := negb (bool_decide (addresses_ s = [])).

Definition scheme_prefix (s : AddressScheme) : string :=
  match s with IPv4 => "ipv4:" | IPv6 => "ipv6:" | DOMAIN_NAME => "dns:" end.

Definition address (s : t) : string :=
  (scheme_prefix (scheme_ s) +:+ str_join ","%char (map Address.to_string (addresses_ s)))%string.

End ServiceAddress.

Module Broker.

Record t := mk { name_ : string; id_ : Z; service_address_ : ServiceAddress.t }.

Definition operator_bool (b : t) : bool := ServiceAddress.operator_bool (service_address_ b).
Definition operator_eq (a b : t) : bool := String.eqb (name_ a) (name_ b).
Definition operator_lt (a b : t) : bool := str_ltb (name_ a) (name_ b).
Definition serviceAddress (b : t) : string := ServiceAddress.address (service_address_ b).

End Broker.

Module Topic.

Record t := mk { resource_namespace_ : string; name_ : string }.

Definition operator_eq (a b : t) : bool :=
  String.eqb (resource_namespace_ a) (resource_namespace_ b) && String.eqb (name_ a) (name_ b).

Definition operator_lt (a b : t) : bool :=
  if str_ltb (resource_namespace_ a) (resource_namespace_ b) then true
  else if str_ltb (resource_namespace_ b) (resource_namespace_ a) then false
  else if str_ltb (name_ a) (name_ b) then true
  else if str_ltb (name_ b) (name_ a) then false
  else false.

End Topic.

(** ** Partitions and routes *)

Inductive Permission := NONE | READ | WRITE | READ_WRITE.

#[export] Instance Permission_eq_dec : EqDecision Permission.
Proof. solve_decision. Defined.

Module Partition.

Record t := mk {
  topic_ : Topic.t;
  broker_ : Broker.t;
  id_ : Z;
  permission_ : Permission;
}.

Definition asMessageQueue (p : t) : MQMessageQueue.t :=
  MQMessageQueue.set_serviceAddress
    (MQMessageQueue.make (Topic.name_ (topic_ p)) (Broker.name_ (broker_ p)) (id_ p))
    (Broker.serviceAddress (broker_ p)).

Definition operator_eq (a b : t) : bool :=
  Topic.operator_eq (topic_ a) (topic_ b) && (id_ a =? id_ b)
  && Broker.operator_eq (broker_ a) (broker_ b) && bool_decide (permission_ a = permission_ b).

Definition operator_lt (a b : t) : bool :=
  if Topic.operator_lt (topic_ a) (topic_ b) then true
  else if Topic.operator_lt (topic_ b) (topic_ a) then false
  else if Broker.operator_lt (broker_ a) (broker_ b) then true
  else if Broker.operator_lt (broker_ b) (broker_ a) then false
  else id_ a <? id_ b.

(** The same comparator as a lexicographic order on four keys. *)
Definition lt_lex : t -> t -> bool :=
  lex_str (fun p => Topic.resource_namespace_ (topic_ p))
    (lex_str (fun p => Topic.name_ (topic_ p))
       (lex_str (fun p => Broker.name_ (broker_ p)) (fun a b => id_ a <? id_ b))).

Lemma partition_lt_lex a b : operator_lt a b = lt_lex a b.
Proof.
  unfold lt_lex. rewrite <- lex_str_two_tests, <- lex_str_two_tests, <- lex_str_two_tests.
  unfold operator_lt, Topic.operator_lt, Broker.operator_lt.
  destruct (str_ltb _ _); [done|]. destruct (str_ltb _ _); [done|].
  destruct (str_ltb _ _); [done|]. destruct (str_ltb _ _); [done|].
  done.
Qed.

End Partition.

#[export] Instance Partition_lt_weak_order : WeakOrder Partition.operator_lt.
Proof.
  split; intros *; rewrite !Partition.partition_lt_lex; [apply wo_asym|apply wo_trans].
Qed.

#[export] Instance Address_lt_weak_order : WeakOrder Address.operator_lt.
Proof.
  split; intros *; rewrite !Address.address_lt_lex; [apply wo_asym|apply wo_trans].
Qed.

Module TopicRouteData.

Record t := mk { partitions_ : list Partition.t; debug_string_ : string }.

Definition make (partitions : list Partition.t) (debug_string : string) : t :=
  mk (std_sort Partition.operator_lt partitions) debug_string.

(** [std::vector::operator==] on the partitions. *)
Fixpoint list_eq {A} (eq : A -> A -> bool) (a b : list A) : bool :=
  match a, b with
  | [], [] => true
  | x :: a', y :: b' => eq x y && list_eq eq a' b'
  | _, _ => false
  end.

Definition operator_eq (a b : t) : bool := list_eq Partition.operator_eq (partitions_ a) (partitions_ b).
Definition operator_ne (a b : t) : bool := negb (operator_eq a b).

(** *** ClientManagerImpl::resolveRoute: from the wire to a route *)

Definition scheme_of (s : rmq.AddressScheme) : AddressScheme :=
  match s with
  | rmq.IPv4 => IPv4
  | rmq.IPv6 => IPv6
  | rmq.DOMAIN_NAME => DOMAIN_NAME
  | rmq.AddressScheme_unrecognized _ => IPv4
  end.

(** The [switch] has no case for [NONE]: the initial [READ_WRITE] stays. *)
Definition permission_of (p : rmq.Permission) : Permission :=
  match p with
  | rmq.READ => READ
  | rmq.WRITE => WRITE
  | rmq.READ_WRITE => READ_WRITE
  | rmq.NONE | rmq.Permission_unrecognized _ => READ_WRITE
  end.

Definition partition_of (p : rmq.Partition) : Partition.t :=
  let broker := rmq.broker p in
  let addresses := map (fun a => Address.mk (rmq.host a) (rmq.port a))
                       (rmq.addresses (rmq.endpoints broker)) in
  let service_address := ServiceAddress.make (scheme_of (rmq.scheme (rmq.endpoints broker))) addresses in
  Partition.mk (Topic.mk (rmq.resource_namespace (rmq.topic p)) (rmq.name (rmq.topic p)))
    (Broker.mk (rmq.broker_name broker) (rmq.broker_id broker) service_address)
    (rmq.id p) (permission_of (rmq.permission p)).

Definition of_response (debug_string : string) (partitions : list rmq.Partition) : t :=
  make (map partition_of partitions) debug_string.

(** A route is an ordered permutation of the partitions the server sent, in the
    lexicographic order of namespace, topic, broker name and partition id. *)
Theorem of_response_sorted debug_string partitions :
  partitions_ (of_response debug_string partitions) ≡ₚ map partition_of partitions
  /\ StronglySorted (not_after Partition.operator_lt)
       (partitions_ (of_response debug_string partitions))
  /\ forall a b, Partition.operator_lt a b = Partition.lt_lex a b.
Proof.
  split; [apply std_sort_Permutation|]. split; [apply std_sort_sorted, _|].
  apply Partition.partition_lt_lex.
Qed.

Lemma list_eq_refl {A} (eq : A -> A -> bool) l : (forall x, eq x x = true) -> list_eq eq l l = true.
Proof. intros H. induction l as [|x l IH]; cbn; [done|]. by rewrite H, IH. Qed.

End TopicRouteData.

(** ** TopicPublishInfo: where a producer may send *)
Module TopicPublishInfo.

Record t := mk {
  partition_list_ : list Partition.t;
  topic_ : string;
  topic_route_data_ : TopicRouteData.t;
}.

(** [send_which_queue_] is thread-local: an argument and a result. *)
Definition bump (send_which_queue : Z) : Z := u32 (send_which_queue + 1).

Definition writable (p : Partition.t) : bool :=
  if bool_decide (Partition.permission_ p = READ) || bool_decide (Partition.permission_ p = NONE)
  then false
  else if negb (MixAll.MASTER_BROKER_ID =? Broker.id_ (Partition.broker_ p)) then false
  else true.

Definition updatePublishInfo (s : t) : t :=
  let writable_partition_list := List.filter writable (TopicRouteData.partitions_ (topic_route_data_ s)) in
  if bool_decide (writable_partition_list = []) then s
  else mk writable_partition_list (topic_ s) (topic_route_data_ s).

Definition make (topic : string) (topic_route_data : TopicRouteData.t) : t :=
  updatePublishInfo (mk [] topic topic_route_data).

Definition topicRouteData (topic_route_data : TopicRouteData.t) (s : t) : t :=
  updatePublishInfo (mk (partition_list_ s) (topic_ s) topic_route_data).

(** [partition_list_\[index % partition_list_.size()\].asMessageQueue()]. *)
Definition queue_at (l : list Partition.t) (index : Z) : option MQMessageQueue.t :=
  Partition.asMessageQueue <$> at_ l (index mod zlen l).

Definition selectOneMessageQueue (swq : Z) (s : t) : Z * option MQMessageQueue.t :=
  let index := bump swq in
  if bool_decide (partition_list_ s = []) then (index, None)
  else (index, queue_at (partition_list_ s) index).

(** [n] further iterations, the next one reading [index]. *)
Fixpoint select_active (n : nat) (l : list Partition.t) (isolated : gset string) (index : Z)
    : option MQMessageQueue.t :=
  match n with
  | O => None
  | S n' =>
      match queue_at l index with
      | Some mq =>
          if negb (bool_decide (MQMessageQueue.service_address_ mq ∈ isolated)) then Some mq
          else select_active n' l isolated (u32 (index + 1))
      | None => None
      end
  end.

Definition selectOneActiveMessageQueue (swq : Z) (isolated : gset string) (s : t)
    : Z * option MQMessageQueue.t :=
  let index := bump swq in
  if bool_decide (partition_list_ s = []) then (index, None)
  else (index, select_active (length (partition_list_ s)) (partition_list_ s) isolated index).

Definition has_broker (candidates : list MQMessageQueue.t) (name : string) : bool :=
  existsb (fun item => String.eqb (MQMessageQueue.broker_name_ item) name) candidates.

Fixpoint take_loop (n : nat) (l : list Partition.t) (isolated : gset string) (count index : Z)
    (candidates : list MQMessageQueue.t) : list MQMessageQueue.t :=
  match n with
  | O => candidates
  | S n' =>
      match queue_at l index with
      | Some mq =>
          if negb (bool_decide (MQMessageQueue.service_address_ mq ∈ isolated)) then
            let candidates' :=
              if has_broker candidates (MQMessageQueue.broker_name_ mq) then candidates
              else candidates ++ [mq] in
            if count <=? zlen candidates' then candidates'
            else take_loop n' l isolated count (u32 (index + 1)) candidates'
          else take_loop n' l isolated count (u32 (index + 1)) candidates
      | None => candidates
      end
  end.

(** The new [send_which_queue_], the flag returned and [candidates]. *)
Definition takeMessageQueues (swq : Z) (isolated : gset string) (count : Z)
    (candidates : list MQMessageQueue.t) (s : t) : Z * (bool * list MQMessageQueue.t) :=
  let index := bump swq in
  if bool_decide (partition_list_ s = []) then (index, (false, candidates))
  else
    let c := take_loop (length (partition_list_ s)) (partition_list_ s) isolated count index candidates in
    (index, (negb (bool_decide (c = [])), c)).

Definition listable (p : Partition.t) : bool :=
  if bool_decide (Partition.permission_ p = READ) || bool_decide (Partition.permission_ p = NONE)
  then false
  else negb (str_empty (MQMessageQueue.service_address_ (Partition.asMessageQueue p))).

Definition getMessageQueueList (s : t) : list MQMessageQueue.t :=
  std_sort MQMessageQueue.operator_lt
    (map Partition.asMessageQueue (List.filter listable (partition_list_ s))).

(** *** Invariant: only writable partitions of a master broker are published *)

Definition wf (s : t) : Prop := Forall (fun p => writable p = true) (partition_list_ s).

Lemma updatePublishInfo_wf s : wf s -> wf (updatePublishInfo s).
Proof.
  unfold wf, updatePublishInfo. case_bool_decide; [done|]. intros _. cbn.
  apply Forall_forall. intros p Hp. by apply list_elem_of_In, filter_In in Hp as [_ ?].
Qed.

Lemma publish_info_make_wf topic r : wf (make topic r).
Proof. apply updatePublishInfo_wf. by constructor. Qed.

Lemma topicRouteData_wf r s : wf s -> wf (topicRouteData r s).
Proof. intros H. by apply updatePublishInfo_wf. Qed.

Lemma writable_spec p :
  writable p = true <->
  (Partition.permission_ p = WRITE \/ Partition.permission_ p = READ_WRITE)
  /\ Broker.id_ (Partition.broker_ p) = MixAll.MASTER_BROKER_ID.
Proof.
  unfold writable, MixAll.MASTER_BROKER_ID. rewrite Z.eqb_sym.
  destruct (Partition.permission_ p), (Z.eqb_spec (Broker.id_ (Partition.broker_ p)) 0); cbn;
    split; intros H; try done; intuition congruence.
Qed.

(** The invariant after any sequence of route updates. *)
Lemma updates_wf topic r rs : wf (foldl (fun s r => topicRouteData r s) (make topic r) rs).
Proof.
  assert (forall s, wf s -> wf (foldl (fun s r => topicRouteData r s) s rs)) as H.
  { induction rs as [|r' rs IH]; intros s Hs; cbn; [done|]. by apply IH, topicRouteData_wf. }
  apply H, publish_info_make_wf.
Qed.

(** After any sequence of route updates, the queues a producer may list are the
    writable partitions of master brokers, in the order of [MQMessageQueue::operator<];
    a renewed route without any such partition leaves the previous list in place. *)
Theorem published_queues_writable topic r rs :
  let s := foldl (fun s r => topicRouteData r s) (make topic r) rs in
  (forall q, q ∈ getMessageQueueList s ->
     exists p, q = Partition.asMessageQueue p /\ p ∈ partition_list_ s
       /\ (Partition.permission_ p = WRITE \/ Partition.permission_ p = READ_WRITE)
       /\ Broker.id_ (Partition.broker_ p) = MixAll.MASTER_BROKER_ID)
  /\ StronglySorted (not_after MQMessageQueue.operator_lt) (getMessageQueueList s)
  /\ (forall r', (forall p, p ∈ TopicRouteData.partitions_ r' -> writable p = false) ->
        partition_list_ (topicRouteData r' s) = partition_list_ s)
  /\ (forall r' p, p ∈ TopicRouteData.partitions_ r' -> writable p = true ->
        p ∈ partition_list_ (topicRouteData r' s)).
Proof.
  intros s. pose proof (updates_wf topic r rs) as Hwf. fold s in Hwf. split_and!.
  - intros q Hq. apply elem_of_std_sort in Hq. apply list_elem_of_fmap in Hq as (p & -> & Hp).
    apply list_elem_of_In, filter_In in Hp as [Hp _].
    exists p. split; [done|]. split; [by apply list_elem_of_In|]. apply writable_spec.
    by eapply Forall_forall in Hwf; [|apply list_elem_of_In].
  - apply std_sort_sorted, _.
  - intros r' H. unfold topicRouteData, updatePublishInfo. cbn.
    destruct (List.filter _ _) as [|p l] eqn:E; [done|exfalso].
    assert (Hp : In p (List.filter writable (TopicRouteData.partitions_ r'))) by (rewrite E; by left).
    apply filter_In in Hp as [Hp1 Hp2]. apply list_elem_of_In in Hp1.
    rewrite (H p Hp1) in Hp2. done.
  - intros r' p Hp Hw. unfold topicRouteData, updatePublishInfo. cbn.
    assert (Hin : In p (List.filter writable (TopicRouteData.partitions_ r')))
      by (apply filter_In; split; [by apply list_elem_of_In|done]).
    case_bool_decide as E; [by rewrite E in Hin|]. cbn. by apply list_elem_of_In.
Qed.

(** *** Round robin *)

Lemma bump_nonneg swq : 0 <= bump swq.
Proof. apply u32_range. Qed.

Lemma queue_at_Some l index :
  l <> [] -> exists p, queue_at l index = Some (Partition.asMessageQueue p) /\ p ∈ l.
Proof.
  intros Hl. pose proof (zlen_pos l Hl) as Hlen. unfold queue_at.
  destruct (at_lt_is_Some l (index mod zlen l)) as [p Hp]; [by apply Z.mod_pos_bound|].
  rewrite Hp. exists p. split; [done|]. by eapply at_Some_elem.
Qed.

(** Every element is met by a window of [length l] consecutive indices. *)
Lemma window_covers l (p : Partition.t) index :
  p ∈ l -> exists i, 0 <= i < zlen l /\ at_ l ((index + i) mod zlen l) = Some p.
Proof.
  intros Hp. apply list_elem_of_lookup in Hp as [j Hj].
  pose proof (lookup_lt_Some _ _ _ Hj) as Hlt. unfold zlen in *.
  set (n := Z.of_nat (length l)) in *. assert (Hn : 0 < n) by (unfold n; lia).
  exists ((Z.of_nat j - index) mod n).
  split; [apply Z.mod_pos_bound; lia|].
  rewrite Zplus_mod_idemp_r. replace (index + (Z.of_nat j - index)) with (Z.of_nat j) by lia.
  rewrite Z.mod_small by (unfold n; lia). unfold at_.
  rewrite decide_True by lia. by rewrite Nat2Z.id.
Qed.

Definition active (isolated : gset string) (q : MQMessageQueue.t) : Prop :=
  MQMessageQueue.service_address_ q ∉ isolated.

Lemma select_active_sound n l isolated index mq :
  select_active n l isolated index = Some mq ->
  active isolated mq /\ exists p, p ∈ l /\ mq = Partition.asMessageQueue p.
Proof.
  revert index. induction n as [|n IH]; intros index; cbn [select_active]; [done|].
  destruct (queue_at l index) as [q|] eqn:E; [|done].
  case_bool_decide; cbn [negb]; [apply IH|]. intros [= <-]. split; [done|].
  unfold queue_at in E. destruct (at_ l _) as [p|] eqn:Ep; [|done].
  injection E as <-. exists p. split; [by eapply at_Some_elem|done].
Qed.

Lemma select_active_complete n l isolated index :
  l <> [] -> 0 <= index -> index + Z.of_nat n <= 2 ^ 32 ->
  select_active n l isolated index = None ->
  forall i q, 0 <= i < Z.of_nat n -> queue_at l (index + i) = Some q -> ~ active isolated q.
Proof.
  intros Hl. revert index. induction n as [|n IH]; intros index Hi Hb H i q Hin Hq; [lia|].
  cbn [select_active] in H.
  destruct (queue_at_Some l index Hl) as (p & Ep & _). rewrite Ep in H.
  case_bool_decide as Hiso; cbn [negb] in H; [|done].
  destruct (decide (i = 0)) as [->|Hne].
  - rewrite Z.add_0_r, Ep in Hq. injection Hq as <-. unfold active. by intros ?.
  - destruct (decide (n = 0%nat)) as [->|Hn]; [lia|].
    rewrite u32_small in H by lia.
    apply (IH (index + 1) ltac:(lia) ltac:(lia) H (i - 1) q ltac:(lia)).
    by replace (index + 1 + (i - 1)) with (index + i) by lia.
Qed.

(** A producer that looks for one active queue gets a queue of its list whose
    broker is not isolated, and gets none only if every broker of the list is isolated
    (as long as the 32-bit cursor does not wrap during the scan). *)
Theorem selectOneActiveMessageQueue_correct swq isolated s :
  0 <= swq -> bump swq + zlen (partition_list_ s) <= 2 ^ 32 ->
  match snd (selectOneActiveMessageQueue swq isolated s) with
  | Some q => active isolated q /\ exists p, p ∈ partition_list_ s /\ q = Partition.asMessageQueue p
  | None => forall p, p ∈ partition_list_ s -> ~ active isolated (Partition.asMessageQueue p)
  end.
Proof.
  intros Hs Hb. unfold selectOneActiveMessageQueue. case_bool_decide as Hl; cbn [snd].
  - intros p Hp. rewrite Hl in Hp. by apply not_elem_of_nil in Hp.
  - destruct (select_active _ _ _ _) as [q|] eqn:E; [by eapply select_active_sound|].
    intros p Hp. destruct (window_covers _ p (bump swq) Hp) as (i & Hi & Hat).
    apply (select_active_complete _ _ _ _ Hl (bump_nonneg swq) Hb E i); [exact Hi|].
    unfold queue_at. by rewrite Hat.
Qed.

(** [takeMessageQueues]: what every run of the loop maintains. *)
Record fair (l : list Partition.t) (isolated : gset string) (c : list MQMessageQueue.t) : Prop := {
  fair_active : Forall (active isolated) c;
  fair_from : Forall (fun q => exists p, p ∈ l /\ q = Partition.asMessageQueue p) c;
  fair_brokers : NoDup (map MQMessageQueue.broker_name_ c);
}.

Lemma has_broker_spec c name :
  has_broker c name = true <-> name ∈ map MQMessageQueue.broker_name_ c.
Proof.
  unfold has_broker. rewrite existsb_exists. split.
  - intros (q & Hq & E). apply String.eqb_eq in E as <-.
    apply list_elem_of_fmap. exists q. split; [done|by apply list_elem_of_In].
  - intros (q & -> & Hq)%list_elem_of_fmap. exists q.
    rewrite String.eqb_refl. split; [by apply list_elem_of_In|done].
Qed.

Lemma fair_snoc l isolated c p :
  fair l isolated c -> p ∈ l -> active isolated (Partition.asMessageQueue p) ->
  has_broker c (MQMessageQueue.broker_name_ (Partition.asMessageQueue p)) = false ->
  fair l isolated (c ++ [Partition.asMessageQueue p]).
Proof.
  intros [H1 H2 H3] Hp Ha Hb. split.
  - apply Forall_app. by split; [|constructor].
  - apply Forall_app. split; [done|]. constructor; [by exists p|done].
  - rewrite map_app. apply NoDup_app. split_and!; [done| |by apply NoDup_singleton].
    intros x Hx Hx'. apply list_elem_of_singleton in Hx' as ->.
    apply has_broker_spec in Hx. congruence.
Qed.

Lemma take_loop_fair n l isolated count index c :
  l <> [] -> fair l isolated c -> zlen c < Z.max 1 count ->
  fair l isolated (take_loop n l isolated count index c)
  /\ zlen (take_loop n l isolated count index c) <= Z.max 1 count
  /\ (exists c', take_loop n l isolated count index c = c ++ c').
Proof.
  intros Hl. revert index c. induction n as [|n IH]; intros index c Hf Hc; cbn [take_loop].
  { split_and!; [done|lia|exists []; by rewrite app_nil_r]. }
  destruct (queue_at_Some l index Hl) as (p & -> & Hp).
  case_bool_decide as Hi; cbn [negb]; [by apply IH|].
  destruct (has_broker c _) eqn:Hb.
  - destruct (Z.leb_spec count (zlen c)); [|by apply IH].
    split_and!; [done|lia|exists []; by rewrite app_nil_r].
  - pose proof (fair_snoc l isolated c p Hf Hp Hi Hb) as Hf'.
    assert (Hlen : zlen (c ++ [Partition.asMessageQueue p]) = zlen c + 1)
      by (rewrite zlen_app, zlen_cons, zlen_nil; lia).
    destruct (Z.leb_spec count (zlen (c ++ [Partition.asMessageQueue p]))) as [Hle|Hle].
    + split_and!; [done|lia|by eexists].
    + destruct (IH (u32 (index + 1)) _ Hf' ltac:(lia)) as (? & ? & c' & Hc').
      split_and!; [done..|]. exists (Partition.asMessageQueue p :: c').
      by rewrite Hc', <- app_assoc.
Qed.

Lemma has_broker_app c c' name : has_broker c name = true -> has_broker (c ++ c') name = true.
Proof. unfold has_broker. rewrite existsb_app. by intros ->. Qed.

(** If the loop ends short of [count], every active queue it met has its broker among
    the candidates. *)
Lemma take_loop_complete n l isolated count index c :
  l <> [] -> fair l isolated c -> zlen c < Z.max 1 count ->
  0 <= index -> index + Z.of_nat n <= 2 ^ 32 ->
  zlen (take_loop n l isolated count index c) < count ->
  forall i q, 0 <= i < Z.of_nat n -> queue_at l (index + i) = Some q -> active isolated q ->
    has_broker (take_loop n l isolated count index c) (MQMessageQueue.broker_name_ q) = true.
Proof.
  intros Hl. revert index c. induction n as [|n IH];
    intros index c Hf Hc Hi Hb Hshort i q Hin Hq Ha; [lia|].
  destruct (queue_at_Some l index Hl) as (p & Ep & Hp).
  assert (Hstep : forall c1, fair l isolated c1 -> zlen c1 < Z.max 1 count ->
    (active isolated (Partition.asMessageQueue p) ->
      has_broker c1 (MQMessageQueue.broker_name_ (Partition.asMessageQueue p)) = true) ->
    zlen (take_loop n l isolated count (u32 (index + 1)) c1) < count ->
    has_broker (take_loop n l isolated count (u32 (index + 1)) c1) (MQMessageQueue.broker_name_ q) = true).
  { intros c1 Hf1 Hc1 Hin1 Hs1. destruct (decide (i = 0)) as [->|Hne].
    - rewrite Z.add_0_r, Ep in Hq. injection Hq as <-.
      destruct (take_loop_fair n l isolated count (u32 (index + 1)) c1 Hl Hf1 Hc1) as (_ & _ & c' & ->).
      by apply has_broker_app, Hin1.
    - destruct (decide (n = 0%nat)) as [->|Hn]; [lia|].
      rewrite u32_small in Hs1 |- * by lia.
      apply (IH (index + 1) c1 Hf1 Hc1 ltac:(lia) ltac:(lia) Hs1 (i - 1) q ltac:(lia)); [|done].
      by replace (index + 1 + (i - 1)) with (index + i) by lia. }
  cbn [take_loop] in Hshort |- *. rewrite Ep in Hshort |- *.
  case_bool_decide as Hiso; cbn [negb] in Hshort |- *.
  { apply Hstep; [done..| |done]. intros Hact. by destruct Hact. }
  destruct (has_broker c _) eqn:Hbk.
  - destruct (Z.leb_spec count (zlen c)); [lia|]. by apply Hstep.
  - pose proof (fair_snoc l isolated c p Hf Hp Hiso Hbk) as Hf'.
    assert (Hlen : zlen (c ++ [Partition.asMessageQueue p]) = zlen c + 1)
      by (rewrite zlen_app, zlen_cons, zlen_nil; lia).
    destruct (Z.leb_spec count (zlen (c ++ [Partition.asMessageQueue p]))); [lia|].
    apply Hstep; [done|lia| |done]. intros _. unfold has_broker.
    rewrite existsb_app. cbn. rewrite String.eqb_refl. by rewrite orb_true_r.
Qed.

(** C33: asked for [count] retry candidates, at least one, [takeMessageQueues] gives at most
    [count] queues of the topic on pairwise distinct brokers, none of them isolated, and the
    flag returned says whether there is any.  With fewer than [count], and as long as the
    32-bit cursor does not wrap during the call, every broker that is not isolated is among
    them. *)
Theorem takeMessageQueues_correct swq isolated count s :
  0 <= swq -> 1 <= count ->
  let '(flag, c) := snd (takeMessageQueues swq isolated count [] s) in
  fair (partition_list_ s) isolated c
  /\ zlen c <= count
  /\ (flag = true <-> c <> [])
  /\ (bump swq + zlen (partition_list_ s) <= 2 ^ 32 -> zlen c < count -> forall p, p ∈ partition_list_ s ->
        active isolated (Partition.asMessageQueue p) ->
        has_broker c (Broker.name_ (Partition.broker_ p)) = true).
Proof.
  intros Hs Hc. unfold takeMessageQueues.
  assert (Hf : fair (partition_list_ s) isolated []) by (split; constructor).
  assert (Hz : zlen (@nil MQMessageQueue.t) < Z.max 1 count) by (rewrite zlen_nil; lia).
  case_bool_decide as Hl; cbn [snd].
  - split_and!; [done|rewrite zlen_nil; lia|done|]. intros _ _ p Hp. rewrite Hl in Hp.
    by apply not_elem_of_nil in Hp.
  - pose proof (take_loop_fair (length (partition_list_ s)) _ isolated count (bump swq) [] Hl Hf Hz)
      as (H1 & H2 & _).
    split_and!; [done|lia| |].
    { case_bool_decide as E; [by rewrite E|]. done. }
    intros Hb Hshort p Hp Ha. destruct (window_covers _ p (bump swq) Hp) as (i & Hi & Hat).
    apply (take_loop_complete _ _ _ _ _ _ Hl Hf Hz (bump_nonneg swq) Hb Hshort i
             (Partition.asMessageQueue p) Hi); [|done].
    unfold queue_at. by rewrite Hat.
Qed.

End TopicPublishInfo.

(** ** Assignment and TopicAssignment *)
Module TopicAssignment.

(** An [Assignment] wraps its message queue and compares like it. *)
Record Assignment := mkAssignment { message_queue_ : MQMessageQueue.t }.

Definition operator_eq_assignment (a b : Assignment) : bool :=
  MQMessageQueue.operator_eq (message_queue_ a) (message_queue_ b).
Definition operator_lt (a b : Assignment) : bool :=
  MQMessageQueue.operator_lt (message_queue_ a) (message_queue_ b).

Record t := mk { assignment_list_ : list Assignment; debug_string_ : string }.

(** The constructor from a list of assignments. *)
Definition make (assignments : list Assignment) : t := mk (std_sort operator_lt assignments) "".

Definition prefix_of (s : rmq.AddressScheme) : string :=
  match s with
  | rmq.IPv4 => "ipv4:"
  | rmq.IPv6 => "ipv6:"
  | rmq.DOMAIN_NAME => "dns:"
  | rmq.AddressScheme_unrecognized _ => ""
  end.

(** The loop over the endpoints of a broker. *)
Fixpoint service_address_loop (scheme : rmq.AddressScheme) (l : list rmq.Address) (acc : string) : string :=
  match l with
  | [] => acc
  | a :: l' =>
      let acc := if str_empty acc then (acc +:+ prefix_of scheme)%string else (acc +:+ ",")%string in
      let acc := (acc +:+ rmq.host a +:+ ":" +:+ to_string (rmq.port a))%string in
      if decide (scheme = rmq.DOMAIN_NAME) then acc else service_address_loop scheme l' acc
  end.

Definition assignment_of (p : rmq.Partition) : option Assignment :=
  if bool_decide (rmq.permission p = rmq.READ) || bool_decide (rmq.permission p = rmq.READ_WRITE) then
    let broker := rmq.broker p in
    match rmq.addresses (rmq.endpoints broker) with
    | [] => None
    | addresses =>
        Some (mkAssignment (MQMessageQueue.set_serviceAddress
          (MQMessageQueue.make (rmq.name (rmq.topic p)) (rmq.broker_name broker) (rmq.id p))
          (service_address_loop (rmq.scheme (rmq.endpoints broker)) addresses "")))
    end
  else None.

(** The constructor from a response. *)
Definition of_response (debug_string : string) (r : rmq.QueryAssignmentResponse) : t :=
  if decide (rmq.code (rmq.assignment_common r) = OK)
  then mk (std_sort operator_lt (omap assignment_of (rmq.assignments r))) debug_string
  else mk [] debug_string.

Definition operator_eq (a b : t) : bool :=
  TopicRouteData.list_eq operator_eq_assignment (assignment_list_ a) (assignment_list_ b).
Definition operator_ne (a b : t) : bool := negb (operator_eq a b).

(** [query_which_broker_] is thread-local. *)
Definition getAndIncreaseQueryWhichBroker (query_which_broker : Z) : Z := u32 (query_which_broker + 1).

#[global] Instance operator_lt_weak_order : WeakOrder operator_lt.
Proof. split; intros *; unfold operator_lt; [apply wo_asym|apply wo_trans]. Qed.

Lemma list_eq_spec a b :
  TopicRouteData.list_eq operator_eq_assignment a b = true <->
  map (fun x => MQMessageQueue.key (message_queue_ x)) a = map (fun x => MQMessageQueue.key (message_queue_ x)) b.
Proof.
  revert b. induction a as [|x a IH]; intros [|y b]; cbn; [done..|].
  unfold operator_eq_assignment at 1. rewrite andb_true_iff, IH, MQMessageQueue.operator_eq_spec.
  split; [by intros [-> ->]|]. intros [= ? ? ? ?]. split; [|done]. unfold equiv, MQMessageQueue.equiv_mq, MQMessageQueue.key. congruence.
Qed.

(** Two assignments that compare equal in both directions denote the same queue. *)
Lemma not_lt_key a b :
  operator_lt a b = false -> operator_lt b a = false ->
  MQMessageQueue.key (message_queue_ a) = MQMessageQueue.key (message_queue_ b).
Proof.
  unfold operator_lt, MQMessageQueue.operator_lt, MQMessageQueue.key.
  destruct a as [[t1 b1 q1 s1]], b as [[t2 b2 q2 s2]]. cbn.
  rewrite (String.eqb_sym t2), (String.eqb_sym b2).
  destruct (String.eqb_spec t1 t2) as [->|]; cbn.
  - destruct (String.eqb_spec b1 b2) as [->|]; cbn.
    + rewrite !Z.ltb_ge. intros. assert (q1 = q2) as -> by lia. done.
    + intros H1 H2. by pose proof (str_ltb_total _ _ H1 H2).
  - intros H1 H2. by pose proof (str_ltb_total _ _ H1 H2).
Qed.

Lemma keys_sorted_unique (a b : list Assignment) :
  StronglySorted (not_after operator_lt) a -> StronglySorted (not_after operator_lt) b ->
  map (fun x => MQMessageQueue.key (message_queue_ x)) a
    ≡ₚ map (fun x => MQMessageQueue.key (message_queue_ x)) b ->
  map (fun x => MQMessageQueue.key (message_queue_ x)) a
    = map (fun x => MQMessageQueue.key (message_queue_ x)) b.
Proof.
  set (k := fun x => MQMessageQueue.key (message_queue_ x)).
  assert (Hlt : forall x x' y y', k x = k x' -> k y = k y' -> operator_lt x y = operator_lt x' y').
  { intros x x' y y' Hx Hy. unfold operator_lt. by apply MQMessageQueue.operator_lt_proper. }
  intros Ha. revert b. induction Ha as [|x a Ha IH Hx]; intros b Hb Hp.
  { cbn in Hp. apply Permutation_nil in Hp. by rewrite Hp. }
  destruct Hb as [|y b Hb Hy]; [by apply Permutation_sym, Permutation_nil in Hp|].
  assert (Hk : k x = k y).
  { apply not_lt_key.
    - assert (Hin : k x ∈ k y :: map k b) by (rewrite <- Hp; left).
      apply elem_of_cons in Hin as [E|(z & Ez & Hz)%list_elem_of_fmap].
      + rewrite (Hlt x y y y E eq_refl). apply not_true_is_false. intros E'.
        pose proof (wo_asym _ _ E') as E2. congruence.
      + rewrite (Hlt x z y y Ez eq_refl). by eapply Forall_forall in Hy.
    - assert (Hin : k y ∈ k x :: map k a) by (rewrite Hp; left).
      apply elem_of_cons in Hin as [E|(z & Ez & Hz)%list_elem_of_fmap].
      + rewrite (Hlt y x x x E eq_refl). apply not_true_is_false. intros E'.
        pose proof (wo_asym _ _ E') as E2. congruence.
      + rewrite (Hlt y z x x Ez eq_refl). by eapply Forall_forall in Hx. }
  cbn [map] in *. fold k. rewrite Hk. f_equal. apply IH; [done|].
  fold k in Hp. rewrite Hk in Hp. by apply Permutation_cons_inv in Hp.
Qed.

(** C35: two assignments compare equal exactly when the broker assigned the same
    readable and addressable queues, in whatever order it listed them; an error
    response stands for no queue at all. *)
Theorem of_response_eq d1 d2 c1 c2 m1 m2 l1 l2 :
  let keys c l := if decide (c = OK)
                  then map (fun x => MQMessageQueue.key (message_queue_ x)) (omap assignment_of l) else [] in
  operator_eq (of_response d1 (rmq.mkQueryAssignmentResponse (rmq.mkResponseCommon c1 m1) l1))
              (of_response d2 (rmq.mkQueryAssignmentResponse (rmq.mkResponseCommon c2 m2) l2)) = true
  <-> keys c1 l1 ≡ₚ keys c2 l2.
Proof.
  intros keys. unfold operator_eq. rewrite list_eq_spec.
  assert (H : forall d c m l,
    map (fun x => MQMessageQueue.key (message_queue_ x))
      (assignment_list_ (of_response d (rmq.mkQueryAssignmentResponse (rmq.mkResponseCommon c m) l)))
      ≡ₚ keys c l
    /\ StronglySorted (not_after operator_lt)
      (assignment_list_ (of_response d (rmq.mkQueryAssignmentResponse (rmq.mkResponseCommon c m) l)))).
  { intros d c m l. unfold of_response, keys. cbn. case_decide; cbn; [|split; constructor].
    split; [apply Permutation_map, std_sort_Permutation|apply std_sort_sorted, _]. }
  destruct (H d1 c1 m1 l1) as [P1 S1], (H d2 c2 m2 l2) as [P2 S2]. split.
  - intros E. by rewrite <- P1, <- P2, E.
  - intros E. apply keys_sorted_unique; [done..|]. by rewrite P1, P2.
Qed.

End TopicAssignment.

(** ** Selectors *)

(** [MessageGroupQueueSelector::select]; [hash] is [std::hash<std::string>].  [None] is
    the remainder by zero on an empty list (its [assert] is compiled out). *)
Definition MessageGroupQueueSelector_select (hash : string -> Z) (message_group : string)
    (mqs : list MQMessageQueue.t) : option MQMessageQueue.t :=
  if bool_decide (mqs = []) then None else at_ mqs (hash message_group mod zlen mqs).

(** The loop of [selectBroker]: [i] is a [uint32_t], the bound [limit] a [size_t];
    [fuel] bounds the iterations. *)
Fixpoint selectBroker_loop (fuel : nat) (l : list Partition.t) (i limit : Z) : option (option string) :=
  match fuel with
  | O => None
  | S fuel' =>
      if i <? limit then
        match at_ l (i mod zlen l) with
        | None => None
        | Some p =>
            if negb (MixAll.MASTER_BROKER_ID =? Broker.id_ (Partition.broker_ p))
               || bool_decide (Partition.permission_ p = NONE)
            then selectBroker_loop fuel' l (u32 (i + 1)) limit
            else if Broker.operator_bool (Partition.broker_ p)
            then Some (Some (Broker.serviceAddress (Partition.broker_ p)))
            else selectBroker_loop fuel' l (u32 (i + 1)) limit
        end
      else Some None
  end.

(** [PushConsumerImpl::selectBroker]: the new cursor and the host, if there is one. *)
Definition selectBroker (fuel : nat) (qwb : Z) (route : option TopicRouteData.t)
    : Z * option (option string) :=
  match route with
  | None => (qwb, Some None)
  | Some r =>
      if bool_decide (TopicRouteData.partitions_ r = []) then (qwb, Some None)
      else
        let index := TopicAssignment.getAndIncreaseQueryWhichBroker qwb in
        (index, selectBroker_loop fuel (TopicRouteData.partitions_ r) index
                  (index + zlen (TopicRouteData.partitions_ r)))
  end.

(** A partition whose broker can be asked for an assignment. *)
Definition queryable (p : Partition.t) : bool :=
  (Broker.id_ (Partition.broker_ p) =? MixAll.MASTER_BROKER_ID)
  && negb (bool_decide (Partition.permission_ p = NONE)) && Broker.operator_bool (Partition.broker_ p).

Lemma selectBroker_loop_spec n l index :
  l <> [] -> 0 <= index -> index + Z.of_nat n < 2 ^ 32 ->
  match selectBroker_loop (S n) l index (index + Z.of_nat n) with
  | None => False
  | Some None => forall i p, 0 <= i < Z.of_nat n -> at_ l ((index + i) mod zlen l) = Some p -> queryable p = false
  | Some (Some h) => exists p, p ∈ l /\ queryable p = true /\ h = Broker.serviceAddress (Partition.broker_ p)
  end.
Proof.
  intros Hl. revert index. induction n as [|n IH]; intros index Hi Hb.
  { cbn [selectBroker_loop]. rewrite Z.add_0_r, Z.ltb_irrefl. lia. }
  remember (S n) as m eqn:Hm. cbn [selectBroker_loop].
  destruct (Z.ltb_spec index (index + Z.of_nat m)); [|lia].
  pose proof (zlen_pos l Hl) as Hlen.
  destruct (at_lt_is_Some l (index mod zlen l)) as [p Hp]; [by apply Z.mod_pos_bound|].
  rewrite Hp.
  assert (Hnext : queryable p = false ->
    match selectBroker_loop m l (u32 (index + 1)) (index + Z.of_nat m) with
    | None => False
    | Some None => forall i p, 0 <= i < Z.of_nat m -> at_ l ((index + i) mod zlen l) = Some p -> queryable p = false
    | Some (Some h) => exists p, p ∈ l /\ queryable p = true /\ h = Broker.serviceAddress (Partition.broker_ p)
    end).
  { intros Hq. rewrite u32_small by lia. subst m. specialize (IH (index + 1) ltac:(lia) ltac:(lia)).
    replace (index + 1 + Z.of_nat n) with (index + Z.of_nat (S n)) in IH by lia.
    destruct (selectBroker_loop _ _ _ _) as [[h|]|]; [done| |done].
    intros i p' Hin Hp'. destruct (decide (i = 0)) as [->|Hne].
    - rewrite Z.add_0_r, Hp in Hp'. by injection Hp' as <-.
    - apply (IH (i - 1)); [lia|]. by replace (index + 1 + (i - 1)) with (index + i) by lia. }
  unfold queryable in Hnext at 1. rewrite (Z.eqb_sym MixAll.MASTER_BROKER_ID).
  destruct (Broker.id_ (Partition.broker_ p) =? MixAll.MASTER_BROKER_ID) eqn:E1; cbn [negb orb andb] in *; [|by apply Hnext].
  destruct (bool_decide (Partition.permission_ p = NONE)) eqn:E2; cbn [negb andb] in *; [by apply Hnext|].
  destruct (Broker.operator_bool (Partition.broker_ p)) eqn:E3; [|by apply Hnext].
  exists p. split; [by eapply at_Some_elem|]. split; [|done]. unfold queryable. by rewrite E1, E2, E3.
Qed.

(** Once the bound of the loop does not fit 32 bits, the cursor wraps around below it: without
    a broker to be found the loop never ends. *)
Lemma selectBroker_never_ends fuel l i limit :
  l <> [] -> Forall (fun p => queryable p = false) l -> 0 <= i < 2 ^ 32 -> 2 ^ 32 <= limit ->
  selectBroker_loop fuel l i limit = None.
Proof.
  intros Hl Hq. revert i. induction fuel as [|fuel IH]; intros i Hi Hb; cbn [selectBroker_loop]; [done|].
  destruct (Z.ltb_spec i limit); [|lia]. destruct (at_ l (i mod zlen l)) as [p|] eqn:Ep; [|done].
  apply at_Some_elem in Ep. apply (proj1 (Forall_forall _ _) Hq) in Ep. unfold queryable in Ep.
  pose proof (u32_range (i + 1)). rewrite IH by done. rewrite (Z.eqb_sym MixAll.MASTER_BROKER_ID).
  destruct (_ =? _); cbn in *; [|done]. destruct (bool_decide (Partition.permission_ p = NONE)); cbn in *; [done|]. by rewrite Ep.
Qed.

(** C34: as long as the 32-bit cursor does not overflow during the call, [selectBroker]
    terminates and finds the address of a readable or writable master with endpoints
    whenever the route has one.  (Near the overflow it may never end:
    [selectBroker_never_ends].) *)
Theorem selectBroker_correct qwb r :
  0 <= qwb -> qwb + 1 + zlen (TopicRouteData.partitions_ r) < 2 ^ 32 ->
  match snd (selectBroker (S (length (TopicRouteData.partitions_ r))) qwb (Some r)) with
  | None => False
  | Some (Some h) => exists p, p ∈ TopicRouteData.partitions_ r /\ queryable p = true
                       /\ h = Broker.serviceAddress (Partition.broker_ p)
  | Some None => forall p, p ∈ TopicRouteData.partitions_ r -> queryable p = false
  end.
Proof.
  intros Hq Hb. unfold selectBroker. case_bool_decide as Hl; cbn [snd].
  { rewrite Hl. intros p Hp. by apply not_elem_of_nil in Hp. }
  pose proof (zlen_nonneg (TopicRouteData.partitions_ r)).
  unfold TopicAssignment.getAndIncreaseQueryWhichBroker. rewrite u32_small by lia.
  pose proof (selectBroker_loop_spec (length (TopicRouteData.partitions_ r)) _ (qwb + 1) Hl
                ltac:(lia) Hb) as H1. fold (zlen (TopicRouteData.partitions_ r)) in H1.
  destruct (selectBroker_loop _ _ _ _) as [[h|]|]; [done| |done].
  intros p Hp. destruct (TopicPublishInfo.window_covers _ p (qwb + 1) Hp) as (i & Hi & Hat). eauto.
Qed.

(** ** Concrete routes *)

Definition example_broker (name : string) : Broker.t :=
  Broker.mk name 0 (ServiceAddress.make IPv4 [Address.mk name 8080]).
Definition example_partition (broker : string) (i : Z) : Partition.t :=
  Partition.mk (Topic.mk "" "TopicTest") (example_broker broker) i READ_WRITE.
Definition example_route : TopicRouteData.t :=
  TopicRouteData.make
    [example_partition "b" 0; example_partition "a" 1; example_partition "a" 0; example_partition "c" 0] "".
Definition example_publish : TopicPublishInfo.t := TopicPublishInfo.make "TopicTest" example_route.

Lemma selectOneActiveMessageQueue_witness :
  snd (TopicPublishInfo.selectOneActiveMessageQueue 7 {["ipv4:a:8080"]} example_publish)
    = Some (MQMessageQueue.mk "TopicTest" "b" 0 "ipv4:b:8080")
  /\ match snd (TopicPublishInfo.selectOneActiveMessageQueue 7 {["ipv4:a:8080"]} example_publish) with
     | Some q => TopicPublishInfo.active {["ipv4:a:8080"]} q /\
         exists p, p ∈ TopicPublishInfo.partition_list_ example_publish /\ q = Partition.asMessageQueue p
     | None => forall p, p ∈ TopicPublishInfo.partition_list_ example_publish ->
         ~ TopicPublishInfo.active {["ipv4:a:8080"]} (Partition.asMessageQueue p)
     end.
Proof.
  split; [vm_compute; reflexivity|].
  apply (TopicPublishInfo.selectOneActiveMessageQueue_correct 7); vm_compute; discriminate.
Defined.

(** Three brokers, asked for three candidates when the cursor wraps: one is missed. *)
Lemma wrapping_cursor_misses_broker :
  map MQMessageQueue.broker_name_
    (snd (snd (TopicPublishInfo.takeMessageQueues (2 ^ 32 - 2) ∅ 3 []
                 (TopicPublishInfo.make "TopicTest"
                    (TopicRouteData.make [example_partition "a" 0; example_partition "b" 0; example_partition "c" 0] "")))))
  = ["a"; "b"]%string.
Proof. vm_compute. reflexivity. Qed.

Lemma takeMessageQueues_witness :
  let r := snd (TopicPublishInfo.takeMessageQueues 7 {["ipv4:a:8080"]} 3 [] example_publish) in
  map MQMessageQueue.broker_name_ (snd r) = ["b"; "c"]%string
  /\ let '(flag, c) := r in
     TopicPublishInfo.fair (TopicPublishInfo.partition_list_ example_publish) {["ipv4:a:8080"]} c
     /\ zlen c <= 3
     /\ (flag = true <-> c <> [])
     /\ (TopicPublishInfo.bump 7 + 4 <= 2 ^ 32 -> zlen c < 3 -> forall p, p ∈ TopicPublishInfo.partition_list_ example_publish ->
           TopicPublishInfo.active {["ipv4:a:8080"]} (Partition.asMessageQueue p) ->
           TopicPublishInfo.has_broker c (Broker.name_ (Partition.broker_ p)) = true).
Proof.
  intros r. split; [vm_compute; reflexivity|].
  apply (TopicPublishInfo.takeMessageQueues_correct 7 {["ipv4:a:8080"]} 3 example_publish);
    vm_compute; discriminate.
Defined.

Lemma selectBroker_witness :
  match snd (selectBroker (S (length (TopicRouteData.partitions_ example_route))) 3 (Some example_route)) with
  | None => False
  | Some (Some h) => exists p, p ∈ TopicRouteData.partitions_ example_route /\ queryable p = true
                       /\ h = Broker.serviceAddress (Partition.broker_ p)
  | Some None => forall p, p ∈ TopicRouteData.partitions_ example_route -> queryable p = false
  end.
Proof. apply (selectBroker_correct 3 example_route); vm_compute; [discriminate|reflexivity]. Defined.
