(* ===== verification/Concurrency.v ===== *)
(** * Timers, the thread pool and the countdown latch.

    [SchedulerImpl] (scheduler/SchedulerImpl.cpp), [ThreadPoolImpl]
    (base/ThreadPoolImpl.cpp) and [CountdownLatch] (concurrent/CountdownLatch.cpp) as
    step functions: an action of some thread, taken under the lock the code takes,
    maps a state to the next one, or to [None] when the thread would wait.  Histories
    are sequences of such actions, so every interleaving is covered.

    asio supplies two facts, both from its documentation: the handler of an expired
    timer runs on a thread inside [io_context::run()], and none runs once
    [io_context::stop()] has been called and the running ones have returned. *)

From S2P Require Import Prelude Types.

(** ** SchedulerImpl *)
Module SchedulerImpl.
Section SchedulerImpl.
Context {functor : Type}.

Record TimerTask := mkTimerTask { callback : functor; interval : Z; task_name : string }.

(** Where [shutdown()] is, if a thread is in it. *)
Inductive shutdown_pc := Idle | Exchanged | Cleared | ContextStopped.

(** [heap] holds the [TimerTask] objects by address.  [tasks_] owns them; [timers_] are the
    timers that wait, with the weak pointer bound to their handler.  The other lists are the
    threads that hold a shared pointer: those in [schedule] before and after the timer is
    armed ([arming_], with the delay, and [returning_]), those in [execute] before the
    callback, in it, and after the timer was dealt with ([locked_], [running_], [leaving_]).
    [task_id] is one counter of the process.  Times are milliseconds. *)
Record t := mk {
  state_ : State;
  pc_ : shutdown_pc;
  now : Z;
  task_id : Z;
  tasks_ : gmap Z nat;
  heap : list TimerTask;
  arming_ : list (Z * nat);
  returning_ : list nat;
  timers_ : list (Z * nat);
  locked_ : list (Z * nat);
  running_ : list (Z * nat);
  leaving_ : list nat;
}.

Inductive event := Scheduled (obj : nat) (expiry itv : Z) | Begin (obj : nat) (time : Z).

Inductive action :=
  | Start | WorkerUp
  | ShutdownExchange | ShutdownClear | ShutdownStop | ShutdownJoin
  | Schedule (functor : functor) (name : string) (delay itv : Z)
  | ScheduleArm (i : nat)
  | ScheduleReturn (i : nat)
  | OtherSchedule
  | Cancel (id : Z)
  | Fire (i : nat)
  | Call (i : nat)
  | Finish (i : nat)
  | Leave (i : nat)
  | Elapse (d : Z).

Definition make (now : Z) : t := mk CREATED Idle now 0 ∅ [] [] [] [] [] [] [].

Definition set_state (st : State) (s : t) : t :=
  mk st (pc_ s) (now s) (task_id s) (tasks_ s) (heap s) (arming_ s) (returning_ s) (timers_ s) (locked_ s) (running_ s)
     (leaving_ s).
Definition set_pc (pc : shutdown_pc) (s : t) : t :=
  mk (state_ s) pc (now s) (task_id s) (tasks_ s) (heap s) (arming_ s) (returning_ s) (timers_ s) (locked_ s)
     (running_ s) (leaving_ s).
Definition set_now (n : Z) (s : t) : t :=
  mk (state_ s) (pc_ s) n (task_id s) (tasks_ s) (heap s) (arming_ s) (returning_ s) (timers_ s) (locked_ s)
     (running_ s) (leaving_ s).
Definition set_id (id : Z) (s : t) : t :=
  mk (state_ s) (pc_ s) (now s) id (tasks_ s) (heap s) (arming_ s) (returning_ s) (timers_ s) (locked_ s)
     (running_ s) (leaving_ s).
Definition set_tasks (m : gmap Z nat) (s : t) : t :=
  mk (state_ s) (pc_ s) (now s) (task_id s) m (heap s) (arming_ s) (returning_ s) (timers_ s) (locked_ s)
     (running_ s) (leaving_ s).
Definition set_queues (arming : list (Z * nat)) (returning : list nat) (timers locked running : list (Z * nat))
    (leaving : list nat) (s : t) : t :=
  mk (state_ s) (pc_ s) (now s) (task_id s) (tasks_ s) (heap s) arming returning timers locked running leaving.

(** [start()], up to its wait for the first worker. *)
Definition start (s : t) : option t :=
  let '(ok, st) := compare_exchange_strong (state_ s) CREATED STARTING in
  if ok then Some (set_state st s) else None.

(** The first lines of a worker thread. *)
Definition worker_up (s : t) : option t :=
  let '(ok, st) := compare_exchange_strong (state_ s) STARTING STARTED in
  if ok then Some (set_state st s) else None.

(** [shutdown()] in the order of its lines: the exchange, [tasks_.clear()] under the
    lock, [context_.stop()], the joins followed by the final store. *)
Definition shutdown_exchange (s : t) : option t :=
  let '(ok, st) := compare_exchange_strong (state_ s) STARTED STOPPING in
  if ok then Some (set_pc Exchanged (set_state st s)) else None.
Definition shutdown_clear (s : t) : option t :=
  match pc_ s with Exchanged => Some (set_pc Cleared (set_tasks ∅ s)) | _ => None end.
Definition shutdown_stop (s : t) : option t :=
  match pc_ s with Cleared => Some (set_pc ContextStopped s) | _ => None end.
Definition shutdown_join (s : t) : option t :=
  match pc_ s, locked_ s, running_ s, leaving_ s with
  | ContextStopped, [], [], [] => Some (set_state STOPPED s)
  | _, _, _, _ => None
  end.

(** [schedule] under the lock: the id returned and the new state.  [tasks_.insert] keeps an
    entry that already has the id; the new object is then owned by the local pointer alone. *)
Definition schedule (f : functor) (name : string) (delay itv : Z) (s : t) : Z * t :=
  let id := u32 (task_id s + 1) in
  let obj := length (heap s) in
  let tasks := match tasks_ s !! id with Some _ => tasks_ s | None => <[id := obj]> (tasks_ s) end in
  (id, mk (state_ s) (pc_ s) (now s) id tasks (heap s ++ [mkTimerTask f itv name])
         (arming_ s ++ [(delay, obj)]) (returning_ s) (timers_ s) (locked_ s) (running_ s) (leaving_ s)).

(** [schedule] after the lock: the timer is made and armed, by the [i]-th thread there. *)
Definition schedule_arm (i : nat) (s : t) : option (t * list event) :=
  match arming_ s !! i with
  | None => None
  | Some (delay, obj) =>
      match heap s !! obj with
      | None => None
      | Some task =>
          Some (set_queues (delete i (arming_ s)) (returning_ s ++ [obj]) (timers_ s ++ [(now s + delay, obj)])
                  (locked_ s) (running_ s) (leaving_ s) s,
                [Scheduled obj (now s + delay) (interval task)])
      end
  end.

(** [schedule] returns: its local pointer goes. *)
Definition schedule_return (i : nat) (s : t) : option t :=
  match returning_ s !! i with
  | None => None
  | Some _ => Some (set_queues (arming_ s) (delete i (returning_ s)) (timers_ s) (locked_ s) (running_ s) (leaving_ s) s)
  end.

(** [schedule] of another scheduler of the process: the counter is a static variable. *)
Definition other_schedule (s : t) : t := set_id (u32 (task_id s + 1)) s.

Definition cancel (id : Z) (s : t) : t :=
  match tasks_ s !! id with
  | None => s
  | Some _ => set_tasks (delete id (tasks_ s)) s
  end.

(** The objects some thread holds a shared pointer to. *)
Definition held (s : t) : list nat :=
  (arming_ s).*2 ++ returning_ s ++ (locked_ s).*2 ++ (running_ s).*2 ++ leaving_ s.

(** [task.lock()] succeeds while a shared pointer to the object remains. *)
Definition alive (s : t) (obj : nat) : bool :=
  bool_decide (obj ∈ (map_to_list (tasks_ s)).*2) || bool_decide (obj ∈ held s).

(** [execute], [task.lock()], for the [i]-th waiting timer, once it has expired. *)
Definition fire (i : nat) (s : t) : option t :=
  match timers_ s !! i with
  | None => None
  | Some (expiry, obj) =>
      if (expiry <=? now s) && negb (bool_decide (state_ s = CREATED))
         && match pc_ s with ContextStopped => false | _ => true end
      then
        let locked := if alive s obj then locked_ s ++ [(expiry, obj)] else locked_ s in
        Some (set_queues (arming_ s) (returning_ s) (delete i (timers_ s)) locked (running_ s) (leaving_ s) s)
      else None
  end.

(** [execute]: the callback begins. *)
Definition call (i : nat) (s : t) : option (t * list event) :=
  match locked_ s !! i with
  | None => None
  | Some (expiry, obj) =>
      Some (set_queues (arming_ s) (returning_ s) (timers_ s) (delete i (locked_ s)) (running_ s ++ [(expiry, obj)])
              (leaving_ s) s, [Begin obj (now s)])
  end.

(** [execute] after the callback: a periodic task is armed again, by the thread that still
    holds the pointer. *)
Definition finish (i : nat) (s : t) : option t :=
  match running_ s !! i with
  | None => None
  | Some (expiry, obj) =>
      match heap s !! obj with
      | None => None
      | Some task =>
          let timers := if interval task =? 0 then timers_ s else timers_ s ++ [(expiry + interval task, obj)] in
          Some (set_queues (arming_ s) (returning_ s) timers (locked_ s) (delete i (running_ s)) (leaving_ s ++ [obj]) s)
      end
  end.

(** [execute] returns: its pointer goes. *)
Definition leave (i : nat) (s : t) : option t :=
  match leaving_ s !! i with
  | None => None
  | Some _ =>
      Some (set_queues (arming_ s) (returning_ s) (timers_ s) (locked_ s) (running_ s) (delete i (leaving_ s)) s)
  end.

Definition elapse (d : Z) (s : t) : option t :=
  if 0 <=? d then Some (set_now (now s + d) s) else None.

Definition quiet (o : option t) : option (t * list event) := s ← o; Some (s, []).

Definition step (a : action) (s : t) : option (t * list event) :=
  match a with
  | Start => quiet (start s)
  | WorkerUp => quiet (worker_up s)
  | ShutdownExchange => quiet (shutdown_exchange s)
  | ShutdownClear => quiet (shutdown_clear s)
  | ShutdownStop => quiet (shutdown_stop s)
  | ShutdownJoin => quiet (shutdown_join s)
  | Schedule f name delay itv => Some (snd (schedule f name delay itv s), [])
  | ScheduleArm i => schedule_arm i s
  | ScheduleReturn i => quiet (schedule_return i s)
  | OtherSchedule => Some (other_schedule s, [])
  | Cancel id => Some (cancel id s, [])
  | Fire i => quiet (fire i s)
  | Call i => call i s
  | Finish i => quiet (finish i s)
  | Leave i => quiet (leave i s)
  | Elapse d => quiet (elapse d s)
  end.

(** Histories, with the events they emit, oldest first. *)
Inductive steps : t -> list event -> t -> Prop :=
  | steps_refl s : steps s [] s
  | steps_cons s a s' tr tr' s'' :
      step a s = Some (s', tr) -> steps s' tr' s'' -> steps s (tr ++ tr') s''.

Fixpoint run (l : list action) (s : t) : option (t * list event) :=
  match l with
  | [] => Some (s, [])
  | a :: l' => '(s1, tr) ← step a s; '(s2, tr') ← run l' s1; Some (s2, tr ++ tr')
  end.

Lemma scheduler_run_steps l s s' tr : run l s = Some (s', tr) -> steps s tr s'.
Proof.
  revert s s' tr. induction l as [|a l IH]; cbn; intros s s' tr H.
  - injection H as <- <-. constructor.
  - destruct (step a s) as [[s1 tr1]|] eqn:E; cbn in H; [|done].
    destruct (run l s1) as [[s2 tr2]|] eqn:E2; cbn in H; [|done].
    injection H as <- <-. econstructor; [exact E|by apply IH].
Qed.

(** *** Invariant: a task has at most one timer and at most one owner *)

(** The objects with a timer: to be armed, waiting, expired with their handler before or in
    the callback. *)
Definition refs (s : t) : list nat := (arming_ s).*2 ++ (timers_ s).*2 ++ (locked_ s).*2 ++ (running_ s).*2.

Record wf (s : t) : Prop := {
  wf_one_timer : NoDup (refs s);
  wf_refs : Forall (fun o => (o < length (heap s))%nat) (refs s);
  wf_tasks : map_Forall (fun _ o => (o < length (heap s))%nat) (tasks_ s);
  wf_owner : forall i j o, tasks_ s !! i = Some o -> tasks_ s !! j = Some o -> i = j;
}.

Lemma scheduler_make_wf n : wf (make n).
Proof. split; cbn; [constructor|constructor|apply map_Forall_empty|]. intros *. by rewrite lookup_empty. Qed.

Lemma delete_snd {A} (l : list (A * nat)) i x o :
  l !! i = Some (x, o) -> l.*2 ≡ₚ o :: (delete i l).*2.
Proof. intros H. rewrite (delete_Permutation l i (x, o) H) at 1. done. Qed.

Lemma snoc_snd {A} (l : list (A * nat)) x o : (l ++ [(x, o)]).*2 ≡ₚ o :: l.*2.
Proof. rewrite fmap_app. cbn. by rewrite <- Permutation_cons_append. Qed.

Lemma wf_same_queues s s' :
  wf s -> refs s' = refs s -> heap s' = heap s ->
  (tasks_ s' = tasks_ s \/ (exists id, tasks_ s' = delete id (tasks_ s)) \/ tasks_ s' = ∅) -> wf s'.
Proof.
  intros [H1 H2 H3 H4] Hr Hh Ht. split; rewrite ?Hr, ?Hh; [done..| |].
  - destruct Ht as [->|[[id ->]| ->]]; [done| |apply map_Forall_empty].
    by apply map_Forall_delete.
  - intros i j o. destruct Ht as [->|[[id ->]| ->]].
    + apply H4.
    + rewrite !lookup_delete_Some. intros [_ ?] [_ ?]. eauto.
    + by rewrite lookup_empty.
Qed.

(** A step of a timer: the references are permuted, or one of them goes. *)
Lemma wf_moved s s' rest :
  wf s -> heap s' = heap s -> tasks_ s' = tasks_ s -> refs s ≡ₚ rest ++ refs s' -> wf s'.
Proof.
  intros [H1 H2 H3 H4] Hh Ht HP. rewrite HP in H1, H2. apply NoDup_app in H1 as (_ & _ & H1).
  apply Forall_app in H2 as [_ H2]. by split; rewrite ?Hh, ?Ht.
Qed.

Lemma schedule_wf f name delay itv s : wf s -> wf (snd (schedule f name delay itv s)).
Proof.
  intros [H1 H2 H3 H4]. unfold schedule. cbn [snd].
  set (n := length (heap s)) in *. set (id := u32 (task_id s + 1)).
  assert (Hfresh : n ∉ refs s).
  { intros Hin. eapply Forall_forall in H2; [|exact Hin]. cbn in H2. lia. }
  split; unfold refs; cbn [arming_ timers_ locked_ running_ heap tasks_].
  - rewrite snoc_snd. cbn. by constructor.
  - rewrite length_app, snoc_snd. cbn. constructor; [unfold n; lia|].
    eapply Forall_impl; [exact H2|]. cbn. lia.
  - assert (Hm : map_Forall (fun _ o => (o < length (heap s ++ [mkTimerTask f itv name]))%nat) (tasks_ s)).
    { intros i o Hio. rewrite length_app. cbn. specialize (H3 i o Hio). cbn in H3. lia. }
    destruct (tasks_ s !! id); [done|]. apply map_Forall_insert_2; [|done].
    rewrite length_app. cbn. unfold n. lia.
  - destruct (tasks_ s !! id) eqn:E; [done|]. intros i j o.
    rewrite !lookup_insert_Some. intros [[<- <-]|[Hi Hio]] [[<- Ho]|[Hj Hjo]]; try done.
    + exfalso. specialize (H3 _ _ Hjo). cbn in H3. lia.
    + subst o. exfalso. specialize (H3 _ _ Hio). cbn in H3. lia.
    + eauto.
Qed.

Lemma arm_refs i s s' tr : schedule_arm i s = Some (s', tr) -> refs s ≡ₚ refs s'.
Proof.
  unfold schedule_arm. destruct (arming_ s !! i) as [[x o]|] eqn:E; [|done].
  destruct (heap s !! o); [|done]. intros [= <- _]. unfold refs. cbn [set_queues arming_ timers_ locked_ running_].
  rewrite (delete_snd _ _ _ _ E), snoc_snd. cbn. solve_Permutation.
Qed.

Lemma fire_refs i s s' : fire i s = Some s' -> exists rest, refs s ≡ₚ rest ++ refs s'.
Proof.
  unfold fire. destruct (timers_ s !! i) as [[x o]|] eqn:E; [|done]. destruct (_ && _); [|done]. intros [= <-].
  unfold refs. cbn [set_queues arming_ timers_ locked_ running_].
  destruct (alive s o); [exists []|exists [o]]; rewrite (delete_snd _ _ _ _ E), ?snoc_snd; cbn; solve_Permutation.
Qed.

Lemma call_refs i s s' tr : call i s = Some (s', tr) -> refs s ≡ₚ refs s'.
Proof.
  unfold call. destruct (locked_ s !! i) as [[x o]|] eqn:E; [|done]. intros [= <- _].
  unfold refs. cbn [set_queues arming_ timers_ locked_ running_]. rewrite (delete_snd _ _ _ _ E), snoc_snd. cbn.
  solve_Permutation.
Qed.

Lemma finish_refs i s s' : finish i s = Some s' -> exists rest, refs s ≡ₚ rest ++ refs s'.
Proof.
  unfold finish. destruct (running_ s !! i) as [[x o]|] eqn:E; [|done].
  destruct (heap s !! o) as [task|]; [|done]. intros [= <-].
  unfold refs. cbn [set_queues arming_ timers_ locked_ running_].
  destruct (interval task =? 0); [exists [o]|exists []]; rewrite (delete_snd _ _ _ _ E), ?snoc_snd; cbn; solve_Permutation.
Qed.

Lemma quiet_Some o s' tr : quiet o = Some (s', tr) -> o = Some s' /\ tr = [].
Proof. destruct o; cbn; [|done]. by intros [= <- <-]. Qed.

(** The lifecycle actions, [cancel] and the returns leave timers and objects alone. *)
Lemma step_frame a s s' tr :
  step a s = Some (s', tr) ->
  match a with
  | Schedule _ _ _ _ | ScheduleArm _ | Fire _ | Call _ | Finish _ => True
  | _ => tr = [] /\ arming_ s' = arming_ s /\ timers_ s' = timers_ s /\ locked_ s' = locked_ s /\ running_ s' = running_ s
         /\ heap s' = heap s /\ now s <= now s'
         /\ (tasks_ s' = tasks_ s \/ (exists id, tasks_ s' = delete id (tasks_ s)) \/ tasks_ s' = ∅)
         /\ (forall o, o ∈ held s' -> o ∈ held s)
  end.
Proof.
  destruct a; cbn [step]; try done.
  8: { intros [= <- <-]. cbn. split_and!; eauto; lia. }
  8: { intros [= <- <-]. unfold cancel. destruct (tasks_ s !! id) eqn:E; cbn; split_and!; eauto; lia. }
  all: intros [H ->]%quiet_Some;
    unfold start, worker_up, shutdown_exchange, shutdown_clear, shutdown_stop, shutdown_join,
      compare_exchange_strong, elapse, schedule_return, leave in H;
    repeat case_match; simplify_eq; cbn; split_and!; try done; try lia; eauto.
  all: intros o; unfold held; cbn; rewrite !elem_of_app; pose proof (elem_of_delete (A := nat)); naive_solver.
Qed.

Lemma scheduler_step_wf a s s' tr : wf s -> step a s = Some (s', tr) -> wf s'.
Proof.
  intros Hwf H. pose proof (step_frame _ _ _ _ H) as F. destruct a;
    try (destruct F as (_ & Ha & Ht & Hl & Hr & Hh & _ & Hts & _); apply (wf_same_queues s);
         [done|unfold refs; congruence|done|done]); cbn [step] in H.
  - injection H as <- <-. by apply schedule_wf.
  - apply (wf_moved s s' [] Hwf); [..|by eapply arm_refs];
      unfold schedule_arm in H; repeat case_match; by simplify_eq.
  - apply quiet_Some in H as [H _]. destruct (fire_refs _ _ _ H) as [rest HP]. apply (wf_moved s s' rest Hwf); [..|done];
      unfold fire in H; repeat case_match; by simplify_eq.
  - apply (wf_moved s s' [] Hwf); [..|by eapply call_refs]; unfold call in H; repeat case_match; by simplify_eq.
  - apply quiet_Some in H as [H _]. destruct (finish_refs _ _ _ H) as [rest HP]. apply (wf_moved s s' rest Hwf); [..|done];
      unfold finish in H; repeat case_match; by simplify_eq.
Qed.

(** *** Cancellation *)

(** Nobody has a shared pointer to the object any more. *)
Definition orphan (s : t) (obj : nat) : Prop :=
  (obj < length (heap s))%nat /\ (forall id, tasks_ s !! id <> Some obj) /\ obj ∉ held s.

(** The table does not own the object. *)
Definition disowned (s : t) (obj : nat) : Prop :=
  (obj < length (heap s))%nat /\ forall id, tasks_ s !! id <> Some obj.

Lemma step_heap a s s' tr : step a s = Some (s', tr) -> (length (heap s) <= length (heap s'))%nat.
Proof.
  intros H. pose proof (step_frame _ _ _ _ H) as F. destruct a; cbn [step] in H;
    try (destruct F as (_ & _ & _ & _ & _ & -> & _); lia).
  - injection H as <- <-. cbn. rewrite length_app. lia.
  - unfold schedule_arm in H. repeat case_match; simplify_eq; cbn; lia.
  - apply quiet_Some in H as [H _]. unfold fire in H. repeat case_match; simplify_eq; cbn; lia.
  - unfold call in H. repeat case_match; simplify_eq; cbn; lia.
  - apply quiet_Some in H as [H _]. unfold finish in H. repeat case_match; simplify_eq; cbn; lia.
Qed.

Lemma step_tasks a s s' tr id o :
  step a s = Some (s', tr) -> tasks_ s' !! id = Some o -> tasks_ s !! id = Some o \/ o = length (heap s).
Proof.
  intros H Ho. pose proof (step_frame _ _ _ _ H) as F. destruct a; cbn [step] in H;
    try (destruct F as (_ & _ & _ & _ & _ & _ & _ & [E|[[id' E]|E]] & _); rewrite E in Ho;
         [by left|apply lookup_delete_Some in Ho as [_ ?]; by left|by rewrite lookup_empty in Ho]).
  - injection H as <- <-. cbn in Ho. case_match; [by left|].
    apply lookup_insert_Some in Ho as [[_ <-]|[_ ?]]; [by right|by left].
  - unfold schedule_arm in H. repeat case_match; simplify_eq; by left.
  - apply quiet_Some in H as [H _]. unfold fire in H. repeat case_match; simplify_eq; by left.
  - unfold call in H. repeat case_match; simplify_eq; by left.
  - apply quiet_Some in H as [H _]. unfold finish in H. repeat case_match; simplify_eq; by left.
Qed.

Lemma disowned_step a s s' tr obj : disowned s obj -> step a s = Some (s', tr) -> disowned s' obj.
Proof.
  intros [Hlt Ho] H. split; [pose proof (step_heap _ _ _ _ H); lia|].
  intros id E. destruct (step_tasks _ _ _ _ _ _ H E) as [E'|E']; [by apply (Ho id)|lia].
Qed.

(** A pointer is got from another one. *)
Lemma held_step a s s' tr obj :
  orphan s obj -> step a s = Some (s', tr) -> obj ∉ held s'.
Proof.
  intros (Hlt & Ho & Hh) H Hin. pose proof (step_frame _ _ _ _ H) as F. destruct a; cbn [step] in H;
    try (destruct F as (_ & _ & _ & _ & _ & _ & _ & _ & F); by apply Hh, F).
  - injection H as <- <-. revert Hin. unfold held, schedule. cbn. rewrite fmap_app, <- app_assoc. cbn.
    unfold held in Hh. set_solver by lia.
  - unfold schedule_arm in H. destruct (arming_ s !! i) as [[x o]|] eqn:E; [|done]. destruct (heap s !! o); [|done].
    injection H as <- <-. apply Hh. revert Hin. unfold held. cbn. rewrite (delete_snd _ _ _ _ E). set_solver.
  - apply quiet_Some in H as [H _]. unfold fire in H. destruct (timers_ s !! i) as [[x o]|] eqn:E; [|done].
    destruct (_ && _); [|done]. injection H as <-. destruct (alive s o) eqn:Ea; [|by apply Hh].
    assert (Hne : obj <> o).
    { intros ->. unfold alive in Ea. apply orb_true_iff in Ea as [Ea|Ea]; apply bool_decide_eq_true in Ea; [|done].
      apply list_elem_of_fmap in Ea as ([id o'] & -> & Hid). apply elem_of_map_to_list in Hid. by apply (Ho id). }
    apply Hh. revert Hin. unfold held. cbn. rewrite snoc_snd. set_solver.
  - unfold call in H. destruct (locked_ s !! i) as [[x o]|] eqn:E; [|done]. injection H as <- <-.
    apply Hh. revert Hin. unfold held. cbn. rewrite (delete_snd _ _ _ _ E), snoc_snd. set_solver.
  - apply quiet_Some in H as [H _]. unfold finish in H. destruct (running_ s !! i) as [[x o]|] eqn:E; [|done].
    destruct (heap s !! o); [|done]. injection H as <-.
    apply Hh. revert Hin. unfold held. cbn. rewrite (delete_snd _ _ _ _ E). set_solver.
Qed.

Lemma orphan_step a s s' tr obj :
  orphan s obj -> step a s = Some (s', tr) ->
  orphan s' obj /\ forall time, Begin obj time ∉ tr.
Proof.
  intros Ho H. pose proof (held_step _ _ _ _ _ Ho H) as Hh. destruct Ho as (Hlt & Ho & Hn). split.
  - destruct (disowned_step _ _ _ _ obj (conj Hlt Ho) H) as [H1 H2]. done.
  - intros time Hin. pose proof (step_frame _ _ _ _ H) as F. destruct a; cbn [step] in H;
      try (destruct F as (-> & _); by apply not_elem_of_nil in Hin).
    + injection H as <- <-. by apply not_elem_of_nil in Hin.
    + unfold schedule_arm in H. repeat case_match; simplify_eq. by apply list_elem_of_singleton in Hin.
    + apply quiet_Some in H as [_ ->]. by apply not_elem_of_nil in Hin.
    + unfold call in H. destruct (locked_ s !! i) as [[x o]|] eqn:E; [|done]. injection H as <- <-.
      apply list_elem_of_singleton in Hin as [= -> _]. apply Hn. unfold held. rewrite !elem_of_app. right. right. left.
      apply list_elem_of_fmap. exists (x, o). split; [done|]. by eapply list_elem_of_lookup_2.
    + apply quiet_Some in H as [_ ->]. by apply not_elem_of_nil in Hin.
Qed.

Lemma orphan_steps s tr s' obj :
  steps s tr s' -> orphan s obj -> forall time, Begin obj time ∉ tr.
Proof.
  induction 1 as [s|s a s1 tr tr' s2 H Hs IH]; intros Ho time Hin.
  - by apply not_elem_of_nil in Hin.
  - destruct (orphan_step _ _ _ _ _ Ho H) as [Ho' Hn].
    apply elem_of_app in Hin as [Hin|Hin]; [by apply (Hn time)|]. by apply (IH Ho' time).
Qed.

Lemma scheduler_steps_wf s tr s' : steps s tr s' -> wf s -> wf s'.
Proof. induction 1; [done|]. intros. eauto using scheduler_step_wf. Qed.

Lemma disowned_steps s tr s' obj : steps s tr s' -> disowned s obj -> disowned s' obj.
Proof. induction 1; [done|]. intros. eauto using disowned_step. Qed.

Lemma cancel_disowned s id obj : wf s -> tasks_ s !! id = Some obj -> disowned (cancel id s) obj.
Proof.
  intros Hwf E. unfold cancel. rewrite E. split; cbn.
  - apply (wf_tasks _ Hwf id obj E).
  - intros id'. rewrite lookup_delete_Some. intros [Hne E'].
    by apply Hne, (wf_owner _ Hwf id id' obj).
Qed.

Lemma clear_disowned s s1 id obj :
  wf s -> tasks_ s !! id = Some obj -> shutdown_clear s = Some s1 -> disowned s1 obj.
Proof.
  intros Hwf E H. unfold shutdown_clear in H. case_match; simplify_eq. split; cbn.
  - apply (wf_tasks _ Hwf id obj E).
  - intros id'. by rewrite lookup_empty.
Qed.

(** Once the table has given an object up, a moment at which no thread holds it is its end. *)
Lemma disowned_ends s obj tr s1 tr1 s2 :
  disowned s obj -> steps s tr s1 -> obj ∉ held s1 -> steps s1 tr1 s2 -> forall time, Begin obj time ∉ tr1.
Proof.
  intros Hd H1 Hh H2. apply (orphan_steps _ _ _ _ H2). destruct (disowned_steps _ _ _ _ H1 Hd) as [Hl Ho].
  by split_and!.
Qed.

(** *** Tasks fire on schedule *)

Definition begins (obj : nat) (tr : list event) : Z :=
  zlen (List.filter (fun e => match e with Begin o _ => bool_decide (o = obj) | _ => false end) tr).

Lemma begins_app obj a b : begins obj (a ++ b) = begins obj a + begins obj b.
Proof. unfold begins. by rewrite List.filter_app, zlen_app. Qed.

Lemma begins_other obj tr :
  (forall time, Begin obj time ∉ tr) -> begins obj tr = 0.
Proof.
  unfold begins. intros H. replace (List.filter _ tr) with (@nil event); [done|].
  symmetry. induction tr as [|e tr IH]; cbn; [done|].
  rewrite IH by (intros time Hin; apply (H time); by right).
  destruct e as [|o time]; [done|]. case_bool_decide as E; [|done]. subst o.
  exfalso. apply (H time). left.
Qed.

(** What the timers of a state say about the history [tr] that led to it. *)
Record on_schedule (tr : list event) (s : t) : Prop := {
  os_new o : (length (heap s) <= o)%nat -> begins o tr = 0;
  os_arming o : o ∈ (arming_ s).*2 -> begins o tr = 0;
  os_once o task : heap s !! o = Some task -> interval task = 0 -> begins o tr <= 1;
  os_sched o task : heap s !! o = Some task -> o ∉ (arming_ s).*2 ->
    exists e0, Scheduled o e0 (interval task) ∈ tr
      /\ (forall e, (e, o) ∈ timers_ s ++ locked_ s -> e = e0 + interval task * begins o tr
                    /\ (interval task = 0 -> begins o tr = 0))
      /\ (forall e, (e, o) ∈ running_ s -> e = e0 + interval task * (begins o tr - 1)
                    /\ (interval task = 0 -> begins o tr = 1));
}.

Lemma begins_singleton o o' time : begins o [Begin o' time] = if decide (o' = o) then 1 else 0.
Proof. unfold begins. cbn. case_bool_decide; case_decide; done. Qed.

Lemma on_schedule_frame tr s s' :
  on_schedule tr s -> heap s' = heap s -> arming_ s' = arming_ s ->
  (forall x, x ∈ timers_ s' ++ locked_ s' -> x ∈ timers_ s ++ locked_ s) ->
  (forall x, x ∈ running_ s' -> x ∈ running_ s) -> on_schedule tr s'.
Proof.
  intros [H1 H2 H3 H4] Hh Ha Ht Hr. split; rewrite ?Hh, ?Ha; [done..|].
  intros o task E Hn. destruct (H4 o task E Hn) as (e0 & Hin & Hti & Hru). exists e0. split_and!; eauto.
Qed.

(** What an object with a timer is not. *)
Lemma refs_disjoint s o :
  wf s ->
  (o ∈ (arming_ s).*2 -> o ∉ (timers_ s).*2 /\ o ∉ (locked_ s).*2 /\ o ∉ (running_ s).*2)
  /\ (o ∈ (timers_ s).*2 -> o ∉ (locked_ s).*2 /\ o ∉ (running_ s).*2)
  /\ (o ∈ (locked_ s).*2 -> o ∉ (running_ s).*2).
Proof.
  intros Hwf. pose proof (wf_one_timer _ Hwf) as Hn. unfold refs in Hn.
  apply NoDup_app in Hn as (_ & Ha & Hn). apply NoDup_app in Hn as (_ & Hb & Hn). apply NoDup_app in Hn as (_ & Hc & _).
  split_and!.
  - intros Ho. specialize (Ha o Ho). rewrite !elem_of_app in Ha. tauto.
  - intros Ho. specialize (Hb o Ho). rewrite !elem_of_app in Hb. tauto.
  - apply Hc.
Qed.

Lemma wf_nodup s :
  wf s -> NoDup (arming_ s).*2 /\ NoDup (timers_ s).*2 /\ NoDup (locked_ s).*2 /\ NoDup (running_ s).*2.
Proof.
  intros Hwf. pose proof (wf_one_timer _ Hwf) as Hn. unfold refs in Hn.
  apply NoDup_app in Hn as (? & _ & Hn). apply NoDup_app in Hn as (? & _ & Hn). by apply NoDup_app in Hn as (? & _ & ?).
Qed.

Lemma elem_of_snd {A} (l : list (A * nat)) x o : (x, o) ∈ l -> o ∈ l.*2.
Proof. intros H. apply list_elem_of_fmap. by exists (x, o). Qed.

(** A timer taken out of a list leaves no other timer of the same object. *)
Lemma delete_not_in {A} (l : list (A * nat)) i x o :
  NoDup l.*2 -> l !! i = Some (x, o) -> o ∉ (delete i l).*2.
Proof. intros Hn E. rewrite (delete_snd _ _ _ _ E) in Hn. by apply NoDup_cons in Hn as [Hn _]. Qed.

Lemma wf_lt s o : wf s -> o ∈ refs s -> (o < length (heap s))%nat.
Proof. intros Hwf Ho. pose proof (wf_refs _ Hwf) as Hf. eapply Forall_forall in Hf; [exact Hf|done]. Qed.

Lemma schedule_on_schedule tr s f name delay itv :
  wf s -> on_schedule tr s -> on_schedule tr (snd (schedule f name delay itv s)).
Proof.
  intros Hwf [H1 H2 H3 H4]. unfold schedule. cbn [snd]. split; cbn [heap arming_ timers_ locked_ running_].
  - intros o. rewrite length_app. cbn. intros Ho. apply H1. lia.
  - intros o. rewrite snoc_snd, elem_of_cons. intros [->|Ho]; [by apply H1|by apply H2].
  - intros o task E Hi. apply lookup_app_Some in E as [E|[Hge E]]; [by eapply H3|].
    rewrite H1 by lia. lia.
  - intros o task E. rewrite snoc_snd, elem_of_cons. intros Hn. apply lookup_app_Some in E as [E|[Hge E]].
    + apply H4; [done|tauto].
    + apply list_lookup_singleton_Some in E as [Ho _]. exfalso. apply Hn. left. lia.
Qed.

Lemma arm_on_schedule tr s i s' tr' :
  wf s -> on_schedule tr s -> schedule_arm i s = Some (s', tr') -> on_schedule (tr ++ tr') s' /\ forall obj time, Begin obj time ∉ tr'.
Proof.
  intros Hwf [H1 H2 H3 H4] H. unfold schedule_arm in H. destruct (arming_ s !! i) as [[d o]|] eqn:E; [|done].
  destruct (heap s !! o) as [task|] eqn:Et; [|done]. injection H as <- <-.
  split; [|by intros ?? ?%list_elem_of_singleton].
  assert (Hb : forall o', begins o' (tr ++ [Scheduled o (now s + d) (interval task)]) = begins o' tr).
  { intros o'. rewrite begins_app, (begins_other o' [_]); [lia|]. by intros time Hin%list_elem_of_singleton. }
  assert (Ho : o ∈ (arming_ s).*2) by (eapply elem_of_snd, list_elem_of_lookup_2, E).
  split; cbn [set_queues heap arming_ timers_ locked_ running_].
  - intros o'. rewrite Hb. apply H1.
  - intros o' Ho'. rewrite Hb. apply H2. rewrite (delete_snd _ _ _ _ E). by right.
  - intros o' task'. rewrite Hb. apply H3.
  - intros o' task' E' Hn'. rewrite Hb. destruct (decide (o' = o)) as [->|Hne].
    + rewrite Et in E'. injection E' as <-. destruct (proj1 (refs_disjoint s o Hwf) Ho) as (D1 & D2 & D3).
      exists (now s + d). rewrite (H2 o Ho). split; [apply elem_of_app; right; left|]. split.
      * intros e. rewrite <- app_assoc. cbn [app]. rewrite elem_of_app, elem_of_cons. intros [He|[[= ->]|He]]; [|lia|].
        { by destruct D1; eapply elem_of_snd. } by destruct D2; eapply elem_of_snd.
      * intros e He. by destruct D3; eapply elem_of_snd.
    + destruct (H4 o' task' E') as (e0 & Hin & Hti & Hru).
      { intros Ho'. rewrite (delete_snd _ _ _ _ E), elem_of_cons in Ho'. tauto. }
      exists e0. split; [apply elem_of_app; by left|]. split; [|done].
      intros e. rewrite <- app_assoc. cbn [app]. rewrite elem_of_app, elem_of_cons. intros He. apply Hti. rewrite elem_of_app.
      destruct He as [He|[[= _ ->]|He]]; [by left|done|by right].
Qed.

Lemma fire_on_schedule tr s i s' :
  wf s -> on_schedule tr s -> fire i s = Some s' -> on_schedule tr s'.
Proof.
  intros Hwf Hos H. unfold fire in H. destruct (timers_ s !! i) as [[x o]|] eqn:E; [|done].
  destruct (_ && _); [|done]. injection H as <-. apply (on_schedule_frame _ s); try done.
  cbn [set_queues timers_ locked_]. intros y. rewrite !elem_of_app. intros [Hy|Hy]; [left; by eapply elem_of_delete|].
  destruct (alive s o); [|by right]. apply elem_of_app in Hy as [Hy|Hy]; [by right|].
  apply list_elem_of_singleton in Hy as ->. left. by eapply list_elem_of_lookup_2.
Qed.

(** A lock is taken on an expired timer only. *)
Definition expired (s : t) : Prop := forall x o, (x, o) ∈ locked_ s -> x <= now s.

Lemma expired_step a s s' tr : expired s -> step a s = Some (s', tr) -> expired s'.
Proof.
  intros He H x o. pose proof (step_frame _ _ _ _ H) as F. destruct a; cbn [step] in H;
    try (destruct F as (_ & _ & _ & -> & _ & _ & Hn & _); intros Hx; specialize (He x o Hx); lia).
  - injection H as <- <-. apply He.
  - unfold schedule_arm in H. repeat case_match; simplify_eq. apply He.
  - apply quiet_Some in H as [H _]. unfold fire in H. destruct (timers_ s !! i) as [[x' o']|] eqn:E; [|done].
    destruct ((x' <=? now s) && _ && _) eqn:Hen; [|done]. rewrite !andb_true_iff, Z.leb_le in Hen.
    injection H as <-. cbn. destruct (alive s o'); [|apply He]. rewrite elem_of_app, list_elem_of_singleton.
    intros [Hx|[= -> ->]]; [by apply (He x o)|tauto].
  - unfold call in H. destruct (locked_ s !! i) as [[x' o']|] eqn:E; [|done]. injection H as <- <-. cbn.
    intros Hx. apply (He x o). by eapply elem_of_delete.
  - apply quiet_Some in H as [H _]. unfold finish in H. repeat case_match; simplify_eq; apply He.
Qed.

Lemma call_on_schedule tr s i s' tr' :
  wf s -> expired s -> on_schedule tr s -> call i s = Some (s', tr') ->
  on_schedule (tr ++ tr') s'
  /\ exists obj time, tr' = [Begin obj time] /\
       exists e0 itv, Scheduled obj e0 itv ∈ tr /\ e0 + itv * begins obj tr <= time
         /\ (itv = 0 -> begins obj tr = 0).
Proof.
  intros Hwf Hex Hos H. unfold call in H. destruct (locked_ s !! i) as [[x o]|] eqn:E; [|done]. injection H as <- <-.
  assert (Hxin : (x, o) ∈ locked_ s) by (by eapply list_elem_of_lookup_2).
  pose proof (elem_of_snd _ _ _ Hxin) as Hoin.
  assert (Hlt : (o < length (heap s))%nat) by (apply (wf_lt _ _ Hwf); unfold refs; rewrite !elem_of_app; tauto).
  destruct (lookup_lt_is_Some_2 _ _ Hlt) as [task Htask].
  destruct (refs_disjoint s o Hwf) as (D1 & D2 & D3). specialize (D3 Hoin).
  assert (Hna : o ∉ (arming_ s).*2) by tauto. assert (Hnt : o ∉ (timers_ s).*2) by tauto.
  destruct Hos as [H1 H2 H3 H4]. split.
  - split; cbn [heap arming_ timers_ locked_ running_ set_queues].
    + intros o' Ho'. rewrite begins_app, H1, begins_singleton by done. rewrite decide_False by lia. lia.
    + intros o' Ho'. rewrite begins_app, H2, begins_singleton by done. rewrite decide_False by congruence. lia.
    + intros o' task' E' Hi. rewrite begins_app, begins_singleton. specialize (H3 _ _ E' Hi).
      case_decide as Eo; [subst o'|lia]. destruct (H4 o task' E' Hna) as (e0 & _ & Hti & _).
      destruct (Hti x) as [_ Hz]; [apply elem_of_app; by right|]. specialize (Hz Hi). lia.
    + intros o' task' E' Hn'. destruct (H4 o' task' E' Hn') as (e0 & Hin & Hti & Hru).
      exists e0. rewrite begins_app, begins_singleton. split; [apply elem_of_app; by left|].
      split; intros e He.
      * destruct (decide (o = o')) as [->|Hne].
        { exfalso. apply elem_of_app in He as [He|He]; [by apply Hnt; eapply elem_of_snd|].
          apply (delete_not_in _ _ _ _ (proj1 (proj2 (proj2 (wf_nodup _ Hwf)))) E). by eapply elem_of_snd. }
        rewrite Z.add_0_r. apply Hti. rewrite elem_of_app in He |- *. destruct He as [He|He]; [by left|right].
        by eapply elem_of_delete.
      * apply elem_of_app in He as [He|He].
        { rewrite decide_False, Z.add_0_r; [by apply Hru|]. intros ->. by apply D3; eapply elem_of_snd. }
        apply list_elem_of_singleton in He as [= -> ->]. rewrite decide_True by done.
        destruct (Hti x) as [Hex' Hz]; [apply elem_of_app; by right|].
        split; [|intros Hi; specialize (Hz Hi); lia]. rewrite Hex' at 1. f_equal. f_equal. lia.
  - exists o, (now s). split; [done|]. destruct (H4 o task Htask Hna) as (e0 & Hin & Hti & _).
    destruct (Hti x) as [Hx Hz]; [apply elem_of_app; by right|]. specialize (Hex x o Hxin).
    exists e0, (interval task). split_and!; [done|lia|done].
Qed.

Lemma finish_on_schedule tr s i s' :
  wf s -> on_schedule tr s -> finish i s = Some s' -> on_schedule tr s'.
Proof.
  intros Hwf Hos H. unfold finish in H.
  destruct (running_ s !! i) as [[x o]|] eqn:E; [|done].
  destruct (heap s !! o) as [task|] eqn:Htask; [|done]. injection H as <-.
  assert (Hxin : (x, o) ∈ running_ s) by (by eapply list_elem_of_lookup_2).
  destruct (Z.eqb_spec (interval task) 0) as [Hi|Hi].
  - apply (on_schedule_frame _ s); try done. intros y. apply elem_of_delete.
  - destruct Hos as [H1 H2 H3 H4]. split; cbn [heap arming_ timers_ locked_ running_ set_queues]; [done..|].
    intros o' task' E' Hn'. destruct (H4 o' task' E' Hn') as (e0 & Hin & Hti & Hru). exists e0.
    split_and!; [done| |].
    + intros e. rewrite <- app_assoc. cbn [app]. rewrite elem_of_app, elem_of_cons. intros He.
      destruct (decide ((e, o') = (x + interval task, o))) as [[= -> ->]|Hne].
      * simplify_eq. destruct (Hru x Hxin) as [-> _]. split; [ring|done].
      * apply Hti. rewrite elem_of_app. tauto.
    + intros e He. apply Hru. by eapply elem_of_delete.
Qed.

Lemma step_on_schedule a tr s s' tr' :
  wf s -> expired s -> on_schedule tr s -> step a s = Some (s', tr') ->
  on_schedule (tr ++ tr') s'
  /\ forall obj time, Begin obj time ∈ tr' -> tr' = [Begin obj time] /\
       exists e0 itv, Scheduled obj e0 itv ∈ tr /\ e0 + itv * begins obj tr <= time
         /\ (itv = 0 -> begins obj tr = 0).
Proof.
  intros Hwf Hex Hos H. pose proof (step_frame _ _ _ _ H) as F. destruct a; cbn [step] in H;
    try (destruct F as (-> & Ha & Ht & Hl & Hr & Hh & _); rewrite app_nil_r;
         split; [by apply (on_schedule_frame _ s); rewrite ?Ht, ?Hl, ?Hr|]; intros ?? Hin; by apply not_elem_of_nil in Hin).
  - injection H as <- <-. rewrite app_nil_r. split; [by apply schedule_on_schedule|].
    intros ?? Hin. by apply not_elem_of_nil in Hin.
  - destruct (arm_on_schedule _ _ _ _ _ Hwf Hos H) as [Hos' Hn]. split; [done|]. intros ?? Hin. by apply Hn in Hin.
  - apply quiet_Some in H as [H ->]. rewrite app_nil_r. split; [by eapply fire_on_schedule|].
    intros ?? Hin. by apply not_elem_of_nil in Hin.
  - destruct (call_on_schedule _ _ _ _ _ Hwf Hex Hos H) as [Hos' (o & ti & -> & Hb)]. split; [done|].
    intros obj time Hin. by apply list_elem_of_singleton in Hin as [= -> ->].
  - apply quiet_Some in H as [H ->]. rewrite app_nil_r. split; [by eapply finish_on_schedule|].
    intros ?? Hin. by apply not_elem_of_nil in Hin.
Qed.

Lemma steps_on_schedule s tr' s' :
  steps s tr' s' -> forall tr, wf s -> expired s -> on_schedule tr s ->
  on_schedule (tr ++ tr') s' /\
  forall pre obj time post, tr' = pre ++ Begin obj time :: post ->
    exists e0 itv, Scheduled obj e0 itv ∈ tr ++ pre /\ e0 + itv * begins obj (tr ++ pre) <= time
      /\ (itv = 0 -> begins obj (tr ++ pre) = 0).
Proof.
  induction 1 as [s|s a s1 t1 t2 s2 H Hs IH]; intros tr Hwf Hex Hos.
  { rewrite app_nil_r. split; [done|]. intros pre *. by destruct pre. }
  destruct (step_on_schedule _ _ _ _ _ Hwf Hex Hos H) as [Hos' Hb].
  destruct (IH (tr ++ t1) (scheduler_step_wf _ _ _ _ Hwf H) (expired_step _ _ _ _ Hex H) Hos') as [Hos2 IH'].
  split; [by rewrite app_assoc|]. intros pre obj time post E.
  apply app_eq_app in E as (k & [(-> & E2)|(-> & E2)]).
  - destruct k as [|e k].
    + cbn in E2. destruct (IH' [] obj time post (eq_sym E2)) as (e0 & itv & Hx). exists e0, itv.
      by rewrite !app_nil_r in Hx.
    + injection E2 as <- E2. destruct (Hb obj time) as [E1 Hex'].
      { apply elem_of_app. right. left. }
      assert (pre = []) as ->. { destruct pre as [|p [|q pre]]; [done|by destruct k|done]. }
      by rewrite app_nil_r.
  - destruct (IH' k obj time post E2) as (e0 & itv & ?). exists e0, itv. by rewrite <- app_assoc in *.
Qed.

Lemma make_on_schedule n : on_schedule [] (make n) /\ expired (make n).
Proof. split; [split; try done|]; intros x o Ho; by apply not_elem_of_nil in Ho. Qed.

(** A task without an interval runs once. *)
Lemma one_shot_once now0 tr s obj task :
  steps (make now0) tr s -> heap s !! obj = Some task -> interval task = 0 -> begins obj tr <= 1.
Proof.
  intros H E Hi. destruct (make_on_schedule now0) as [Ho Hx].
  destruct (steps_on_schedule _ _ _ H [] (scheduler_make_wf now0) Hx Ho) as [Hos _]. exact (os_once _ _ Hos obj task E Hi).
Qed.

Lemma steps_app s tr s1 tr1 s2 : steps s tr s1 -> steps s1 tr1 s2 -> steps s (tr ++ tr1) s2.
Proof.
  induction 1 as [|s a s' t1 t2 s'' H Hs IH]; [done|]. intros H2. rewrite <- app_assoc. econstructor; [exact H|by apply IH].
Qed.

Lemma steps_heap s tr s1 obj task : steps s tr s1 -> heap s !! obj = Some task -> heap s1 !! obj = Some task.
Proof.
  induction 1 as [|s a s' t1 t2 s'' H Hs IH]; [done|]. intros E. apply IH. clear -H E.
  pose proof (step_frame _ _ _ _ H) as F. destruct a; cbn [step] in H; try (by destruct F as (_ & _ & _ & _ & _ & -> & _)).
  - injection H as <- <-. cbn. by apply lookup_app_l_Some.
  - unfold schedule_arm in H. repeat case_match; by simplify_eq.
  - apply quiet_Some in H as [H _]. unfold fire in H. repeat case_match; by simplify_eq.
  - unfold call in H. repeat case_match; by simplify_eq.
  - apply quiet_Some in H as [H _]. unfold finish in H. repeat case_match; by simplify_eq.
Qed.

(** C18: once [cancel(id)] has returned, or [shutdown()] has cleared the table, the first
    moment at which no thread is inside [schedule] or [execute] with the task is its end: the
    callback never begins after it, whatever the other threads do.  In particular it never
    begins again when no thread is there at the return of [cancel].  A task without an interval
    begins once at most, cancelled or not. *)
Theorem cancel_is_final now0 tr0 s id obj :
  steps (make now0) tr0 s -> tasks_ s !! id = Some obj ->
  forall s1, s1 = cancel id s \/ shutdown_clear s = Some s1 ->
  (forall tr s2 tr' s3, steps s1 tr s2 -> obj ∉ held s2 -> steps s2 tr' s3 -> forall time, Begin obj time ∉ tr')
  /\ (forall tr s2, steps s1 tr s2 ->
        forall task, heap s !! obj = Some task -> interval task = 0 -> begins obj (tr0 ++ tr) <= 1).
Proof.
  intros H0 E s1 H1. pose proof (scheduler_steps_wf _ _ _ H0 (scheduler_make_wf now0)) as Hwf.
  assert (Hd : disowned s1 obj) by (destruct H1 as [->|H1]; [by apply cancel_disowned|by eapply clear_disowned]).
  split; [intros *; by apply disowned_ends|]. intros tr s2 Hs task Et Hi.
  assert (H01 : steps s [] s1).
  { destruct H1 as [->|H1].
    - apply (steps_cons s (Cancel id) (cancel id s) [] []); [done|constructor].
    - apply (steps_cons s ShutdownClear s1 [] []); [cbn; by rewrite H1|constructor]. }
  pose proof (steps_app _ _ _ _ _ H01 Hs) as H2. cbn in H2.
  apply (one_shot_once now0 _ s2 obj task); [by eapply steps_app|by eapply steps_heap|done].
Qed.

(** The callback of a task never begins early: its [k]-th run begins at or after its
    first expiry plus [k] intervals, and a task without an interval runs once. *)
Theorem fires_on_schedule now0 pre obj time post s :
  steps (make now0) (pre ++ Begin obj time :: post) s ->
  exists expiry itv, Scheduled obj expiry itv ∈ pre
    /\ expiry + itv * begins obj pre <= time
    /\ (itv = 0 -> begins obj pre = 0).
Proof.
  intros H. destruct (make_on_schedule now0) as [Ho Hx].
  exact (proj2 (steps_on_schedule _ _ _ H [] (scheduler_make_wf now0) Hx Ho) pre obj time post eq_refl).
Qed.

End SchedulerImpl.

Arguments t : clear implicits.
Arguments TimerTask : clear implicits.
Arguments action : clear implicits.

(** A periodic task (every 20 ms, first after 10) and a one-shot one: the periodic one
    runs at 10 and 35, is cancelled, and does not run again. *)
Definition example_actions : list (action nat) :=
  [Start; WorkerUp; Schedule 1%nat "periodic" 10 20; ScheduleArm 0; ScheduleReturn 0;
   Schedule 2%nat "once" 5 0; ScheduleArm 0; ScheduleReturn 0;
   Elapse 10; Fire 0; Call 0; Finish 0; Leave 0; Fire 0; Call 0; Finish 0; Leave 0;
   Elapse 25; Fire 0; Call 0; Finish 0; Leave 0].

Definition example_trace : list event :=
  [Scheduled 0 10 20; Scheduled 1 5 0; Begin 0 10; Begin 1 10; Begin 0 35].

Lemma scheduler_example_run :
  exists s, run example_actions (make 0) = Some (s, example_trace) /\ tasks_ s !! 1 = Some 0%nat /\ held s = [].
Proof. eexists. split; [vm_compute; reflexivity|split; vm_compute; reflexivity]. Defined.

Lemma cancel_is_final_witness :
  exists s : t nat, steps (make 0) example_trace s /\ held (cancel 1 s) = []
    /\ forall tr s', steps (cancel 1 s) tr s' -> forall time, Begin 0 time ∉ tr.
Proof.
  destruct scheduler_example_run as (s & H & E & Hh). exists s. pose proof (scheduler_run_steps _ _ _ _ H) as Hs.
  assert (Hc : held (cancel 1 s) = []) by (unfold cancel; rewrite E; exact Hh).
  split; [exact Hs|]. split; [exact Hc|]. intros tr s' Hs'.
  refine (proj1 (cancel_is_final 0 example_trace s 1 0%nat Hs E (cancel 1 s) (or_introl eq_refl))
            [] (cancel 1 s) tr s' (steps_refl _) _ Hs').
  rewrite Hc. apply not_elem_of_nil.
Defined.

(** A worker that has locked the task runs its callback although [cancel] has returned in
    between; and while it leaves, another worker locks the task again, so a periodic task may
    begin any number of times after it was cancelled. *)
Definition cancel_race : list (action nat) :=
  [Start; WorkerUp; Schedule 1%nat "periodic" 10 20; ScheduleArm 0; ScheduleReturn 0; Elapse 10; Fire 0;
   Cancel 1; Call 0; Finish 0; Elapse 20; Fire 0; Leave 0; Call 0].

Lemma begins_after_cancel :
  option_map (fun x => (snd x, size (tasks_ (fst x)))) (run (take 8 cancel_race) (make 0)) = Some ([Scheduled 0 10 20], 0%nat)
  /\ option_map snd (run cancel_race (make 0)) = Some [Scheduled 0 10 20; Begin 0 10; Begin 0 30].
Proof. split; vm_compute; reflexivity. Qed.

Lemma fires_on_schedule_witness :
  exists expiry itv,
    Scheduled 0 expiry itv ∈ [Scheduled 0 10 20; Scheduled 1 5 0; Begin 0 10; Begin 1 10]
    /\ expiry + itv * begins 0 [Scheduled 0 10 20; Scheduled 1 5 0; Begin 0 10; Begin 1 10] <= 35
    /\ (itv = 0 -> begins 0 [Scheduled 0 10 20; Scheduled 1 5 0; Begin 0 10; Begin 1 10] = 0).
Proof.
  destruct scheduler_example_run as (s & H & _).
  apply (fires_on_schedule (functor := nat) 0 [Scheduled 0 10 20; Scheduled 1 5 0; Begin 0 10; Begin 1 10]
           0%nat 35 [] s).
  exact (scheduler_run_steps _ _ _ _ H).
Defined.

(** A task without an interval is left in [tasks_] after it has run. *)
Lemma one_shot_task_stays :
  exists s tr, run example_actions (make 0) = Some (s, tr) /\ tasks_ s !! 2 = Some 1%nat.
Proof. eexists _, _. split; [vm_compute; reflexivity|vm_compute; reflexivity]. Qed.

End SchedulerImpl.

(** ** ThreadPoolImpl *)
Module ThreadPoolImpl.
Section ThreadPoolImpl.
Context {task : Type}.

(** [posted_] is the queue of the [io_context], [busy_] the tasks being executed. *)
Record t := mk {
  state_ : State;
  stopped_ : bool;
  posted_ : list task;
  busy_ : list task;
}.

Inductive action :=
  WorkerUp | Submit (x : task) | Take | Done (i : nat) | ShutdownExchange | ShutdownStop | ShutdownJoin.

Definition make : t := mk CREATED false [] [].

(** The constructor takes the number of workers as a [std::uint16_t], and [start] waits until
    one of them is up: without any it never returns. *)
Definition workers (n : Z) : Z := u16 n.
Definition starts (n : Z) : bool := 0 <? workers n.

Definition worker_up (s : t) : t :=
  let '(_, st) := compare_exchange_strong (state_ s) CREATED STARTED in
  mk st (stopped_ s) (posted_ s) (busy_ s).

Definition submit (x : task) (s : t) : t :=
  if decide (state_ s = STARTED) then mk (state_ s) (stopped_ s) (posted_ s ++ [x]) (busy_ s) else s.

(** A worker inside [context_.run()] takes the oldest task, and later ends it. *)
Definition take (s : t) : option (t * task) :=
  match posted_ s with
  | x :: l => if stopped_ s || bool_decide (state_ s = CREATED) then None
              else Some (mk (state_ s) (stopped_ s) l (busy_ s ++ [x]), x)
  | [] => None
  end.
Definition done (i : nat) (s : t) : t := mk (state_ s) (stopped_ s) (posted_ s) (delete i (busy_ s)).

Definition shutdown_exchange (s : t) : option t :=
  let '(ok, st) := compare_exchange_strong (state_ s) STARTED STOPPING in
  if ok then Some (mk st (stopped_ s) (posted_ s) (busy_ s)) else None.
Definition shutdown_stop (s : t) : option t :=
  if decide (state_ s = STOPPING) then Some (mk STOPPING true (posted_ s) (busy_ s)) else None.
Definition shutdown_join (s : t) : option t :=
  if stopped_ s then match busy_ s with [] => Some (mk STOPPED true (posted_ s) []) | _ => None end else None.

(** The next state and the task begun, if the action begins one. *)
Definition step (a : action) (s : t) : option (t * list task) :=
  match a with
  | WorkerUp => Some (worker_up s, [])
  | Submit x => Some (submit x s, [])
  | Take => '(s', x) ← take s; Some (s', [x])
  | Done i => Some (done i s, [])
  | ShutdownExchange => s' ← shutdown_exchange s; Some (s', [])
  | ShutdownStop => s' ← shutdown_stop s; Some (s', [])
  | ShutdownJoin => s' ← shutdown_join s; Some (s', [])
  end.

Fixpoint run (l : list action) (s : t) : option (t * list task) :=
  match l with
  | [] => Some (s, [])
  | a :: l' => '(s1, b) ← step a s; '(s2, b') ← run l' s1; Some (s2, b ++ b')
  end.

(** The tasks accepted along a history: those submitted while the pool is started. *)
Fixpoint accepted (l : list action) (s : t) : list task :=
  match l with
  | [] => []
  | a :: l' =>
      match step a s with
      | None => []
      | Some (s1, _) =>
          match a with
          | Submit x => if decide (state_ s = STARTED) then [x] else []
          | _ => []
          end ++ accepted l' s1
      end
  end.

Lemma step_queue a s s' b :
  step a s = Some (s', b) ->
  b ++ posted_ s' =
  posted_ s ++ match a with Submit x => if decide (state_ s = STARTED) then [x] else [] | _ => [] end.
Proof.
  destruct a; cbn [step]; unfold worker_up, submit, take, done, shutdown_exchange, shutdown_stop,
    shutdown_join, compare_exchange_strong; intros H; repeat case_match; simplify_eq/=;
    rewrite ?app_nil_r; done.
Qed.

Lemma run_queue l s s' b : run l s = Some (s', b) -> b ++ posted_ s' = posted_ s ++ accepted l s.
Proof.
  revert s s' b. induction l as [|a l IH]; cbn [run accepted]; intros s s' b H.
  { injection H as <- <-. by rewrite app_nil_r. }
  destruct (step a s) as [[s1 b1]|] eqn:E; cbn in H; [|done].
  destruct (run l s1) as [[s2 b2]|] eqn:E2; cbn in H; [|done]. injection H as <- <-.
  pose proof (step_queue _ _ _ _ E) as H1. pose proof (IH _ _ _ E2) as H2.
  rewrite <- app_assoc, H2, app_assoc, H1, <- app_assoc. done.
Qed.

End ThreadPoolImpl.
Arguments t : clear implicits.
Arguments action : clear implicits.

(** The pool begins the tasks it accepted in the order they were submitted, each at
    most once; a task is neither lost nor invented while it waits. *)
Theorem tasks_begin_in_order {task} (l : list (action task)) s begun :
  run l make = Some (s, begun) -> accepted l make = begun ++ posted_ s.
Proof. intros H. pose proof (run_queue _ _ _ _ H). done. Qed.

Lemma tasks_begin_in_order_witness :
  accepted [Submit 1%nat; WorkerUp; Submit 2%nat; Submit 3%nat; Take; Submit 4%nat; Done 0; Take] make
    = [2; 3]%nat ++ [4]%nat.
Proof.
  refine (tasks_begin_in_order
    [Submit 1%nat; WorkerUp; Submit 2%nat; Submit 3%nat; Take; Submit 4%nat; Done 0; Take]
    (mk STARTED false [4%nat] [3%nat]) [2; 3]%nat _).
  vm_compute. reflexivity.
Defined.

End ThreadPoolImpl.

(** ** CountdownLatch *)
Module CountdownLatch.

Record t := mk { count_ : Z; name_ : string }.

Definition make (count : Z) : t := mk count "anonymous".
(** The new state, and whether the waiters are signalled. *)
Definition countdown (s : t) : t * bool :=
  let c := i32 (count_ s - 1) in (mk c (name_ s), c <=? 0).
Definition increaseCount (s : t) : t := mk (i32 (count_ s + 1)) (name_ s).
(** Whether [await()] returns in this state: the first test and the loop test agree. *)
Definition await (s : t) : bool := if count_ s <=? 0 then true else negb (0 <? count_ s).

Inductive op := Countdown | IncreaseCount.

Fixpoint run (l : list op) (s : t) : t :=
  match l with
  | [] => s
  | Countdown :: l' => run l' (fst (countdown s))
  | IncreaseCount :: l' => run l' (increaseCount s)
  end.

Definition balance (l : list op) : Z :=
  foldr (fun o acc => match o with Countdown => acc - 1 | IncreaseCount => acc + 1 end) 0 l.

Lemma i32_step z k : i32 (i32 z + k) = i32 (z + k).
Proof.
  unfold i32. f_equal.
  replace ((z + 2 ^ 31) mod 2 ^ 32 - 2 ^ 31 + k + 2 ^ 31) with ((z + 2 ^ 31) mod 2 ^ 32 + k) by lia.
  rewrite Zplus_mod_idemp_l. f_equal. lia.
Qed.

Lemma run_count l c name : count_ (run l (mk (i32 c) name)) = i32 (c + balance l).
Proof.
  revert c. induction l as [|[] l IH]; intros c; cbn [run balance foldr]; [cbn; f_equal; lia|..];
    unfold countdown, increaseCount; cbn [fst count_ name_].
  - replace (i32 c - 1) with (i32 c + -1) by lia. rewrite i32_step, IH. f_equal.
    unfold balance. lia.
  - rewrite i32_step, IH. f_equal. unfold balance. lia.
Qed.

(** A latch of [n] opens exactly when the countdowns have caught up with [n] and the
    increases, in whatever order the threads call it (within the 32-bit range). *)
Theorem latch_opens (n : Z) l :
  - 2 ^ 31 <= n < 2 ^ 31 -> - 2 ^ 31 <= n + balance l < 2 ^ 31 ->
  await (run l (make n)) = true <-> n + balance l <= 0.
Proof.
  intros Hn Hb. pose proof (run_count l n "anonymous") as H.
  rewrite (i32_small n Hn), (i32_small _ Hb) in H. unfold await, make. rewrite H.
  destruct (Z.leb_spec (n + balance l) 0), (Z.ltb_spec 0 (n + balance l)); cbn; split; intros; try done; lia.
Qed.

Lemma latch_opens_witness :
  await (run [Countdown; IncreaseCount; Countdown; Countdown] (make 2)) = true
  <-> 2 + balance [Countdown; IncreaseCount; Countdown; Countdown] <= 0.
Proof. apply latch_opens; cbn; lia. Defined.

End CountdownLatch.
