(* ===== verification/NameServer.v ===== *)
(** * Name server discovery.

    The [NameServerResolver] interface as a class with its laws, its two
    implementations (rocketmq/StaticNameServerResolver.cpp,
    rocketmq/DynamicNameServerResolver.cpp), and the discovery request
    (base/TopAddressing.cpp, base/HostInfo.cpp). *)

From S2P Require Import Prelude Types Message.

(** ** The interface *)

(** [servers] is the list a resolver currently works with, [cursor] its round-robin
    index.  [next] advances the cursor and returns the new [current]. *)
Class NameServerResolver (R : Type) := {
  servers : R -> list string;
  cursor : R -> Z;
  current : R -> string;
  next : R -> string * R;
  current_spec r : servers r <> [] -> at_ (servers r) (cursor r mod zlen (servers r)) = Some (current r);
  next_spec r : fst (next r) = current (snd (next r))
                /\ servers (snd (next r)) = servers r
                /\ cursor (snd (next r)) = u32 (cursor r + 1);
}.

Section clients.
Context `{!NameServerResolver R}.

(** The addresses that [n] successive calls of [next] return. *)
Fixpoint nexts (n : nat) (r : R) : list string :=
  match n with
  | O => []
  | S n' => let '(x, r') := next r in x :: nexts n' r'
  end.

Lemma current_in r : servers r <> [] -> current r ∈ servers r.
Proof. intros H. by eapply at_Some_elem, current_spec. Qed.

Lemma nexts_in n r : servers r <> [] -> Forall (fun x => x ∈ servers r) (nexts n r).
Proof.
  revert r. induction n as [|n IH]; intros r Hr; cbn [nexts]; [constructor|].
  destruct (next r) as [x r'] eqn:E. destruct (next_spec r) as (H1 & H2 & _).
  rewrite E in H1, H2. cbn in H1, H2. rewrite <- H2 in Hr |- *.
  constructor; [|by apply IH]. subst x. by apply current_in.
Qed.

Lemma nexts_lookup n r i :
  (i < n)%nat -> servers r <> [] -> 0 <= cursor r -> cursor r + Z.of_nat n < 2 ^ 32 ->
  exists x, nexts n r !! i = Some x
    /\ at_ (servers r) ((cursor r + 1 + Z.of_nat i) mod zlen (servers r)) = Some x.
Proof.
  revert r i. induction n as [|n IH]; intros r i Hi Hr Hc Hb; [lia|]. cbn [nexts].
  destruct (next r) as [x r'] eqn:E. destruct (next_spec r) as (H1 & H2 & H3).
  rewrite E in H1, H2, H3. cbn in H1, H2, H3. rewrite u32_small in H3 by lia.
  destruct i as [|i]; cbn [lookup list_lookup].
  - exists x. split; [done|]. rewrite Z.add_0_r, <- H3, <- H2, H1. apply current_spec. congruence.
  - destruct (IH r' i) as (y & Hy1 & Hy2); [lia|congruence|lia|lia|].
    exists y. split; [done|]. rewrite <- Hy2, H2, H3. do 2 f_equal. lia.
Qed.
End clients.

(** A client of any resolver that asks for the next name server as many times as
    there are servers is given every one of them, and is never given anything else
    (while the 32-bit cursor does not wrap). *)
Theorem every_name_server_visited {R} `{!NameServerResolver R} (r : R) :
  servers r <> [] -> 0 <= cursor r -> cursor r + zlen (servers r) < 2 ^ 32 ->
  forall x, x ∈ servers r <-> x ∈ nexts (length (servers r)) r.
Proof.
  intros Hr Hc Hb x. split.
  - intros Hx. apply list_elem_of_lookup in Hx as [j Hj].
    pose proof (lookup_lt_Some _ _ _ Hj) as Hlt. pose proof (zlen_pos _ Hr) as Hpos.
    pose proof (Z.mod_pos_bound (Z.of_nat j - (cursor r + 1)) (zlen (servers r)) Hpos) as Hm.
    destruct (nexts_lookup (length (servers r)) r
               (Z.to_nat ((Z.of_nat j - (cursor r + 1)) mod zlen (servers r)))) as (y & Hy1 & Hy2);
      [unfold zlen in *; lia|done|done|done|].
    rewrite Z2Nat.id in Hy2 by lia. rewrite Zplus_mod_idemp_r in Hy2.
    replace (cursor r + 1 + (Z.of_nat j - (cursor r + 1))) with (Z.of_nat j) in Hy2 by lia.
    rewrite Z.mod_small in Hy2 by (unfold zlen; lia). unfold at_ in Hy2.
    rewrite decide_True, Nat2Z.id, Hj in Hy2 by lia. injection Hy2 as ->.
    by eapply list_elem_of_lookup_2.
  - intros Hx. pose proof (nexts_in (length (servers r)) r Hr) as H. by eapply Forall_forall in H.
Qed.

(** ** StaticNameServerResolver *)
Module StaticNameServerResolver.

Record t := mk { name_server_list_ : list string; index_ : Z }.

Definition make (name_server_list : string) : t := mk (str_split ";"%char name_server_list) 0.

(** The list is never empty, see [make_nonempty]; on an empty one the code would divide
    by zero. *)
Definition current (s : t) : string :=
  default ""%string (at_ (name_server_list_ s) (index_ s mod zlen (name_server_list_ s))).
Definition next (s : t) : string * t :=
  let s' := mk (name_server_list_ s) (u32 (index_ s + 1)) in (current s', s').
Definition resolve (s : t) : list string := name_server_list_ s.

Lemma make_nonempty l : name_server_list_ (make l) <> [].
Proof. apply str_split_nonempty. Qed.

Lemma lookup_current l i : l <> [] -> at_ l (i mod zlen l) = Some (default ""%string (at_ l (i mod zlen l))).
Proof.
  intros H. destruct (at_lt_is_Some l (i mod zlen l)) as [x Hx]; [|by rewrite Hx].
  by apply Z.mod_pos_bound, zlen_pos.
Qed.

End StaticNameServerResolver.

#[export] Program Instance static_resolver : NameServerResolver StaticNameServerResolver.t := {|
  servers := StaticNameServerResolver.name_server_list_;
  cursor := StaticNameServerResolver.index_;
  current := StaticNameServerResolver.current;
  next := StaticNameServerResolver.next;
|}.
Next Obligation. intros [l i] H. by apply StaticNameServerResolver.lookup_current. Qed.
Next Obligation. by intros [l i]. Qed.

Lemma every_name_server_visited_witness :
  let r := StaticNameServerResolver.make "10.0.0.1:9876;10.0.0.2:9876;10.0.0.3:9876" in
  nexts 3 r = ["10.0.0.2:9876"; "10.0.0.3:9876"; "10.0.0.1:9876"]%string
  /\ forall x, x ∈ servers r <-> x ∈ nexts (length (servers r)) r.
Proof.
  intros r. split; [vm_compute; reflexivity|].
  apply (every_name_server_visited r); [apply StaticNameServerResolver.make_nonempty|vm_compute; discriminate|vm_compute; reflexivity].
Defined.

(** ** HostInfo *)
Module HostInfo.

Record t := mk { site_ : string; unit_ : string; app_ : string; stage_ : string }.

(** The constructor; [getenv] gives the value of a variable, if it is set. *)
Definition make (getenv : string -> option string) : t :=
  let get name := default ""%string (getenv name) in
  mk (get "SIGMA_APP_SITE"%string) (get "SIGMA_APP_UNIT"%string)
     (get "SIGMA_APP_NAME"%string) (get "SIGMA_APP_STAGE"%string).

Definition hasHostInfo (h : t) : bool := negb (str_empty (unit_ h)) && negb (str_empty (stage_ h)).

(** [absl::EndsWith(s, c)] for a one-character suffix. *)
Fixpoint ends_with (c : Ascii.ascii) (s : string) : bool :=
  match s with
  | EmptyString => false
  | String a EmptyString => Ascii.eqb a c
  | String _ s' => ends_with c s'
  end.

Definition appendLabel (query_string key value : string) : string :=
  if str_empty value then query_string
  else if ends_with "="%char query_string then (query_string +:+ key +:+ ":" +:+ value)%string
  else (query_string +:+ "," +:+ key +:+ ":" +:+ value)%string.

Definition queryString (h : t) : string :=
  if negb (hasHostInfo h) then ""
  else
    let q := appendLabel "labels=" "site" (site_ h) in
    let q := appendLabel q "unit" (unit_ h) in
    let q := appendLabel q "app" (app_ h) in
    appendLabel q "stage" (stage_ h).

End HostInfo.

(** ** TopAddressing *)
Module TopAddressing.

Record t := mk { host_ : string; port_ : Z; path_ : string; host_info_ : HostInfo.t }.

Definition make_default (h : HostInfo.t) : t := mk "jmenv.tbsite.net" 8080 "/rocketmq/nsaddr" h.

Fixpoint contains (c : Ascii.ascii) (s : string) : bool :=
  match s with EmptyString => false | String a s' => Ascii.eqb a c || contains c s' end.

(** The HTTP request [fetchNameServerAddresses] issues. *)
Record HttpGet := mkHttpGet { get_host : string; get_port : Z; get_path : string }.

Definition query_string (t : t) : string :=
  (path_ t +:+ (if contains "?"%char (path_ t) then "&" else "?")
     +:+ (if HostInfo.hasHostInfo (host_info_ t) then HostInfo.queryString (host_info_ t) else "nofix=1"))%string.

Definition fetchNameServerAddresses (t : t) : HttpGet := mkHttpGet (host_ t) (port_ t) (query_string t).

(** Its completion: what the caller's callback receives. *)
Definition on_response (code : Z) (body : string) : bool * list string :=
  if 200 =? code then (true, str_split ";"%char body) else (false, []).

End TopAddressing.

(** ** DynamicNameServerResolver *)
Module DynamicNameServerResolver.

Record t := mk {
  endpoint_ : string;
  ssl_ : bool;
  name_server_list_ : list string;
  index_ : Z;
  top_addressing_ : TopAddressing.t;
}.

(** [absl::StripPrefix]. *)
Fixpoint strip_prefix (p s : string) : option string :=
  match p, s with
  | EmptyString, _ => Some s
  | String a p', String b s' => if Ascii.eqb a b then strip_prefix p' s' else None
  | _, _ => None
  end.
Definition StripPrefix (s p : string) : string := default s (strip_prefix p s).
Definition StartsWith (s p : string) : bool := bool_decide (is_Some (strip_prefix p s)).

Definition hd_string (l : list string) : string := default ""%string (head l).

Section parse.
(** [absl::SimpleAtoi] into an [int32_t]. *)
Context (SimpleAtoi : string -> option Z).

(** The parsing in the constructor: host, port and path; [None] is [abort()]. *)
Definition parse_endpoint (endpoint : string) : bool * option (string * Z * string) :=
  let ssl := StartsWith endpoint "https://" in
  let remains := if ssl then StripPrefix endpoint "https://" else StripPrefix endpoint "http://" in
  let port := if ssl then 443 else 80 in
  (ssl,
   if TopAddressing.contains ":"%char remains then
     let host := hd_string (str_split ":"%char remains) in
     let remains := StripPrefix remains host in
     let remains := StripPrefix remains ":" in
     let segment := hd_string (str_split "/"%char remains) in
     match SimpleAtoi segment with
     | None => None
     | Some port => Some (host, port, StripPrefix remains segment)
     end
   else
     let host := hd_string (str_split "/"%char remains) in
     Some (host, port, StripPrefix remains host)).

Definition make (h : HostInfo.t) (endpoint : string) : option t :=
  let '(ssl, r) := parse_endpoint endpoint in
  '(host, port, path) ← r;
  Some (mk endpoint ssl [] 0 (TopAddressing.mk host port path h)).
End parse.

(** [resolve()]: whether it calls [fetch()], and the list it returns after that call has
    been answered or not ([fetched] is the list [onNameServerListFetched] stored
    meanwhile, if any). *)
Definition onNameServerListFetched (l : list string) (s : t) : t :=
  if bool_decide (l = []) then s
  else if bool_decide (name_server_list_ s = l) then s
  else mk (endpoint_ s) (ssl_ s) l (index_ s) (top_addressing_ s).

(** The callback of [fetch()], on the completion of the HTTP request. *)
Definition on_fetched (success : bool) (l : list string) (s : t) : t :=
  if success && negb (bool_decide (l = [])) then onNameServerListFetched l s else s.

Definition fetch (s : t) : TopAddressing.HttpGet :=
  TopAddressing.fetchNameServerAddresses (top_addressing_ s).

(** [resolve()] before and after the possible [fetch()]. *)
Definition resolve_begin (s : t) : option TopAddressing.HttpGet :=
  if bool_decide (name_server_list_ s = []) then Some (fetch s) else None.
Definition resolve_end (s : t) : list string := name_server_list_ s.

Definition current (s : t) : string :=
  if bool_decide (name_server_list_ s = []) then ""%string
  else default ""%string (at_ (name_server_list_ s) (index_ s mod zlen (name_server_list_ s))).

Definition next (s : t) : string * t :=
  let s' := mk (endpoint_ s) (ssl_ s) (name_server_list_ s) (u32 (index_ s + 1)) (top_addressing_ s) in
  (current s', s').

(** *** Properties *)

(** [s] does not contain the character [c]. *)
Definition without (c : Ascii.ascii) (s : string) : Prop :=
  str_forallb (fun a => negb (Ascii.eqb a c)) s = true.

Lemma strip_prefix_app p s : strip_prefix p (p +:+ s) = Some s.
Proof. induction p as [|a p IH]; cbn; [done|]. by rewrite Ascii.eqb_refl. Qed.

Lemma StripPrefix_app p s : StripPrefix (p +:+ s) p = s.
Proof. unfold StripPrefix. by rewrite strip_prefix_app. Qed.

Lemma contains_app c a b : TopAddressing.contains c (a +:+ b) = TopAddressing.contains c a || TopAddressing.contains c b.
Proof. induction a as [|x a IH]; cbn; [done|]. by rewrite IH, orb_assoc. Qed.

Lemma contains_without c s : without c s <-> TopAddressing.contains c s = false.
Proof.
  unfold without. induction s as [|x s IH]; cbn; [done|].
  destruct (Ascii.eqb x c); cbn; [done|]. by rewrite IH.
Qed.

(** The first segment of a text whose separator is [c]. *)
Lemma hd_split_stop c x rest :
  without c x -> rest = ""%string \/ (exists r, rest = String c r) -> hd_string (str_split c (x +:+ rest)) = x.
Proof.
  intros Hx [->|[r ->]]; unfold hd_string.
  - rewrite str_app_nil_r. by rewrite str_split_none.
  - by rewrite str_split_app.
Qed.

Lemma resolver_current_in s : name_server_list_ s <> [] -> current s ∈ name_server_list_ s.
Proof.
  intros H. unfold current. rewrite bool_decide_eq_false_2 by done.
  eapply at_Some_elem. by apply StaticNameServerResolver.lookup_current.
Qed.

(** A path is empty or begins with a slash. *)
Definition is_path (p : string) : Prop := p = ""%string \/ exists r, p = String "/"%char r.

End DynamicNameServerResolver.

#[export] Program Instance dynamic_resolver : NameServerResolver DynamicNameServerResolver.t := {|
  servers := DynamicNameServerResolver.name_server_list_;
  cursor := DynamicNameServerResolver.index_;
  current := DynamicNameServerResolver.current;
  next := DynamicNameServerResolver.next;
|}.
Next Obligation.
  intros s H. unfold DynamicNameServerResolver.current. rewrite bool_decide_eq_false_2 by done.
  by apply StaticNameServerResolver.lookup_current.
Qed.
Next Obligation. by intros s. Qed.

Section endpoint.
Import DynamicNameServerResolver.
Context (SimpleAtoi : string -> option Z).
(** [SimpleAtoi] reads back a decimal number that fits. *)
Hypothesis SimpleAtoi_decimal : forall p, 0 <= p < 65536 -> SimpleAtoi (to_string p) = Some p.

(** C38: an endpoint [scheme://host:port\[/path\]] is taken apart into exactly its host, port
    and path; so is [scheme://host\[/path\]] when the path has no colon, with the port 80, or
    443 with https.  (A colon in the path is taken for that of a port:
    [colon_in_path_misread].) *)
Theorem parse_endpoint_roundtrip (ssl : bool) (host path : string) (port : Z) :
  0 <= port < 65536 ->
  without ":"%char host -> without "/"%char host -> is_path path ->
  let scheme := (if ssl then "https://" else "http://")%string in
  parse_endpoint SimpleAtoi (scheme +:+ host +:+ ":" +:+ to_string port +:+ path)
    = (ssl, Some (host, port, path))
  /\ (without ":"%char path ->
      parse_endpoint SimpleAtoi (scheme +:+ host +:+ path)
        = (ssl, Some (host, if ssl then 443 else 80, path))).
Proof.
  intros Hp Hh1 Hh2 Hpath scheme. pose proof (to_string_without "/"%char port ltac:(lia) eq_refl) as Hport.
  assert (Hpre : forall rest, StartsWith (scheme +:+ rest) "https://" = ssl
    /\ (if ssl then StripPrefix (scheme +:+ rest) "https://"
        else StripPrefix (scheme +:+ rest) "http://") = rest).
  { intros rest. destruct ssl; split; done. }
  assert (Hpath' : path = ""%string \/ exists r, path = String "/"%char r) by done.
  split; [|intros Hnc]; unfold parse_endpoint.
  - destruct (Hpre (host +:+ ":" +:+ to_string port +:+ path)) as [-> ->]. f_equal.
    rewrite contains_app. change (":" +:+ to_string port +:+ path)%string
      with (String ":"%char (to_string port +:+ path)).
    cbn [TopAddressing.contains]. rewrite Ascii.eqb_refl, orb_true_l, orb_true_r.
    rewrite (hd_split_stop ":"%char host) by (done || right; eauto). rewrite StripPrefix_app.
    change (StripPrefix (String ":"%char (to_string port +:+ path)) ":") with (to_string port +:+ path)%string.
    rewrite (hd_split_stop "/"%char (to_string port)) by done.
    by rewrite SimpleAtoi_decimal, StripPrefix_app.
  - destruct (Hpre (host +:+ path)) as [-> ->]. f_equal.
    rewrite contains_app. apply contains_without in Hh1, Hnc. rewrite Hh1, Hnc. cbn [orb].
    rewrite (hd_split_stop "/"%char host) by done. by rewrite StripPrefix_app.
Qed.
End endpoint.

(** The two resolvers a client can be given. *)
Inductive Resolver :=
  | StaticResolver (r : StaticNameServerResolver.t)
  | DynamicResolver (r : DynamicNameServerResolver.t).

Definition parse_endpoint_example :=
  DynamicNameServerResolver.parse_endpoint (read_decimal 0) "http://jmenv.tbsite.net:8080/rocketmq/nsaddr".
Definition parse_endpoint_example2 :=
  DynamicNameServerResolver.parse_endpoint (read_decimal 0) "https://jmenv.tbsite.net/rocketmq/nsaddr".

(** Without a port, a colon in the path ends the host. *)
Lemma colon_in_path_misread :
  DynamicNameServerResolver.parse_endpoint (read_decimal 0) "http://host/a:1/b" = (false, Some ("host/a", 1, "/b")%string).
Proof. vm_compute. reflexivity. Qed.

Lemma parse_endpoint_roundtrip_witness :
  parse_endpoint_example = (false, Some ("jmenv.tbsite.net", 8080, "/rocketmq/nsaddr")%string)
  /\ parse_endpoint_example2 = (true, Some ("jmenv.tbsite.net", 443, "/rocketmq/nsaddr")%string).
Proof.
  destruct (parse_endpoint_roundtrip (read_decimal 0) (fun p Hp => read_to_string p (proj1 Hp))
             false "jmenv.tbsite.net" "/rocketmq/nsaddr" 8080) as [H1 _];
    [lia|reflexivity|reflexivity|right; by eexists|].
  destruct (parse_endpoint_roundtrip (read_decimal 0) (fun p Hp => read_to_string p (proj1 Hp))
             true "jmenv.tbsite.net" "/rocketmq/nsaddr" 8080) as [_ H2];
    [lia|reflexivity|reflexivity|right; by eexists|].
  split; [exact H1|exact (H2 eq_refl)].
Defined.
