(* ===== verification/Http.v ===== *)
(** * The HTTP client, and name server discovery over it.

    [HttpClientImpl] (base/HttpClientImpl.cpp): the table of connections and [get].  The
    httplib client behind a connection is an argument of each request: whether it is valid,
    and the response of its [Get], if there is one.  [DynamicNameServerResolver] (NameServer)
    is run over it.  [None] is the dereference of a missing response. *)

From S2P Require Import Prelude Types Message NameServer.

Module HttpClientImpl.

Inductive HttpProtocol := HTTP | HTTPS.

(** A connection is named by its number of creation. *)
Record t := mk { clients_ : gmap string nat; created : nat }.

Definition make : t := mk ∅ 0.

(** httplib at the time of a request. *)
Record Lib := mkLib {
  is_valid : nat -> bool;
  Get : nat -> string -> option (Z * string);
}.

(** What the callback is given: status, headers and body. *)
Record Response := mkResponse { status : Z; headers : list (string * string); body : string }.

Definition key_of (protocol : HttpProtocol) (host : string) (port : Z) : string :=
  (match protocol with HTTP => "http://" | HTTPS => "https://" end +:+ host +:+ ":" +:+ to_string port)%string.

(** The block under [clients_mtx_]. *)
Definition take_client (lib : Lib) (key : string) (s : t) : nat * t :=
  let fresh := (created s, mk (<[key := created s]> (clients_ s)) (S (created s))) in
  match clients_ s !! key with
  | Some c => if is_valid lib c then (c, s) else fresh
  | None => fresh
  end.

(** The headers are copied from an empty map into itself. *)
Definition get (lib : Lib) (protocol : HttpProtocol) (host : string) (port : Z) (path : string) (s : t)
    : option (t * Response) :=
  let '(client, s) := take_client lib (key_of protocol host port) s in
  if negb (is_valid lib client) then Some (s, mkResponse 400 [] "")
  else
    '(code, text) ← Get lib client (c_str path);
    Some (s, mkResponse code [] text).

(** [fetchNameServerAddresses] over HTTP; [port_] is narrowed to 16 bits. *)
Definition fetch_with (lib : Lib) (r : TopAddressing.HttpGet) (s : t) : option (t * Response) :=
  get lib HTTP (TopAddressing.get_host r) (u16 (TopAddressing.get_port r)) (TopAddressing.get_path r) s.

(** One [fetch()] of the resolver: the request and its callback. *)
Definition fetch (lib : Lib) (x : DynamicNameServerResolver.t * t)
    : option (DynamicNameServerResolver.t * t * Response) :=
  '(s, r) ← fetch_with lib (DynamicNameServerResolver.fetch (fst x)) (snd x);
  let '(ok, l) := TopAddressing.on_response (status r) (body r) in
  Some (DynamicNameServerResolver.on_fetched ok l (fst x), s, r).

(** The periodic refresh: one [fetch] after the other. *)
Fixpoint fetches (libs : list Lib) (x : DynamicNameServerResolver.t * t)
    : option (DynamicNameServerResolver.t * t * list Response) :=
  match libs with
  | [] => Some (x, [])
  | lib :: libs' =>
      '(x, r) ← fetch lib x;
      '(x, rs) ← fetches libs' x;
      Some (x, r :: rs)
  end.

(** *** Properties *)

Definition accepted (rs : list Response) : list string :=
  omap (fun r => if 200 =? status r then Some (body r) else None) rs.

(** The list the responses lead to: that of the last accepted body. *)
Definition resolved (l : list string) (rs : list Response) : list string :=
  match last (accepted rs) with Some b => str_split ";"%char b | None => l end.

Lemma resolved_cons l r rs :
  resolved l (r :: rs) = resolved (if 200 =? status r then str_split ";"%char (body r) else l) rs.
Proof.
  unfold resolved, accepted. cbn [omap list_omap]. destruct (200 =? status r); [|done].
  change (last (body r :: ?x)) with (last ([body r] ++ x)). rewrite last_app. by destruct (last (omap _ rs)).
Qed.

Lemma take_client_valid lib key s :
  let '(client, s') := take_client lib key s in
  clients_ s' !! key = Some client
  /\ (forall k, k <> key -> clients_ s' !! k = clients_ s !! k)
  /\ (clients_ s !! key = Some client /\ is_valid lib client = true /\ s' = s
      \/ client = created s /\ created s' = S (created s)
         /\ forall c, clients_ s !! key = Some c -> is_valid lib c = false).
Proof.
  unfold take_client. destruct (clients_ s !! key) as [c|] eqn:E; [destruct (is_valid lib c) eqn:V|].
  - split_and!; [done..|]. by left.
  - cbn. rewrite lookup_insert_eq. split_and!; [done|by intros; rewrite lookup_insert_ne|]. right.
    split_and!; [done..|]. by intros ? [= <-].
  - cbn. rewrite lookup_insert_eq. split_and!; [done|by intros; rewrite lookup_insert_ne|]. right.
    by split_and!.
Qed.

(** A library whose valid connections always come back with a response. *)
Definition responsive (lib : Lib) : Prop := forall c p, is_valid lib c = true -> is_Some (Get lib c p).

(** A request on a responsive library is answered: 400 when no valid connection can be made. *)
Lemma get_answered lib protocol host port path s :
  responsive lib -> exists s' r, get lib protocol host port path s = Some (s', r).
Proof.
  intros Hr. unfold get. destruct (take_client _ _ _) as [c s']. destruct (is_valid lib c) eqn:V; cbn; [|by eexists _, _].
  destruct (Hr c (c_str path) V) as [[code text] ->]. by eexists _, _.
Qed.

(** The response [r] is what connection [c] brought for [path], 400 when it cannot be used. *)
Definition answers (lib : Lib) (c : nat) (path : string) (r : Response) : Prop :=
  if is_valid lib c then Get lib c path = Some (status r, body r) else status r = 400 /\ body r = ""%string.

(** Requests one after the other, each over the connection of [key] in the table: the one it
    had as long as that is valid. *)
Inductive exchange (key path : string) : list Lib -> t -> list Response -> t -> Prop :=
  | exchange_nil s : exchange key path [] s [] s
  | exchange_cons lib libs s s1 s2 c r rs :
      clients_ s1 !! key = Some c ->
      (forall c0, clients_ s !! key = Some c0 -> is_valid lib c0 = true -> c = c0) ->
      answers lib c path r -> exchange key path libs s1 rs s2 ->
      exchange key path (lib :: libs) s (r :: rs) s2.

Lemma get_answers lib protocol host port path s s' r :
  get lib protocol host port path s = Some (s', r) ->
  exists c, clients_ s' !! key_of protocol host port = Some c
    /\ (forall c0, clients_ s !! key_of protocol host port = Some c0 -> is_valid lib c0 = true -> c = c0)
    /\ answers lib c (c_str path) r.
Proof.
  unfold get. pose proof (take_client_valid lib (key_of protocol host port) s) as H.
  destruct (take_client _ _ _) as [c s1]. destruct H as (H1 & _ & H2). unfold answers.
  assert (Hc : forall c0, clients_ s !! key_of protocol host port = Some c0 -> is_valid lib c0 = true -> c = c0).
  { intros c0 E V. destruct H2 as [(E' & _)|(_ & _ & H2)]; [congruence|]. rewrite (H2 c0 E) in V. done. }
  destruct (is_valid lib c) eqn:V; cbn [negb].
  - destruct (Get lib c (c_str path)) as [[code text]|] eqn:G; [|done]. intros [= <- <-]. exists c. by rewrite V, G.
  - intros [= <- <-]. exists c. by rewrite V.
Qed.

Lemma fetch_spec lib d s x r :
  fetch lib (d, s) = Some (x, r) ->
  DynamicNameServerResolver.name_server_list_ (fst x)
  = (if 200 =? status r then str_split ";"%char (body r) else DynamicNameServerResolver.name_server_list_ d)
  /\ DynamicNameServerResolver.index_ (fst x) = DynamicNameServerResolver.index_ d
  /\ DynamicNameServerResolver.top_addressing_ (fst x) = DynamicNameServerResolver.top_addressing_ d
  /\ fetch_with lib (DynamicNameServerResolver.fetch d) s = Some (snd x, r).
Proof.
  unfold fetch. cbn [fst snd]. destruct (fetch_with _ _ _) as [[s' r']|]; cbn [mbind option_bind]; [|done].
  unfold TopAddressing.on_response. destruct (200 =? status r') eqn:E; intros [= <- <-]; cbn [fst snd]; rewrite E.
  - unfold DynamicNameServerResolver.on_fetched. pose proof (str_split_nonempty ";"%char (body r')) as Hn.
    rewrite bool_decide_eq_false_2 by done. cbn. unfold DynamicNameServerResolver.onNameServerListFetched.
    rewrite bool_decide_eq_false_2 by done. by case_bool_decide.
  - done.
Qed.

(** The connection and the path a resolver asks. *)
Definition endpoint_key (d : DynamicNameServerResolver.t) : string :=
  let a := DynamicNameServerResolver.top_addressing_ d in key_of HTTP (TopAddressing.host_ a) (u16 (TopAddressing.port_ a)).
Definition endpoint_path (d : DynamicNameServerResolver.t) : string :=
  c_str (TopAddressing.query_string (DynamicNameServerResolver.top_addressing_ d)).

(** C39: name server discovery over HTTP.  While the connections answer, every refresh succeeds,
    whatever statuses come back.  Each asks for the path of the endpoint over the connection
    to its host and port, the one at hand as long as it is valid, and the response is the one
    that connection brought (400 when none can be used).  After any number of them the
    resolver works with the servers of the last response with status 200, or with those it
    had when there was none, and its round-robin position is where it was. *)
Theorem discovery_over_http libs : forall d s,
  Forall responsive libs ->
  exists d' s' rs, fetches libs (d, s) = Some (d', s', rs)
  /\ exchange (endpoint_key d) (endpoint_path d) libs s rs s'
  /\ servers d' = resolved (servers d) rs /\ cursor d' = cursor d
  /\ (resolved (servers d) rs <> [] -> current d' ∈ resolved (servers d) rs).
Proof.
  induction libs as [|lib libs IH]; intros d s Hl.
  - exists d, s, []. split_and!; [done|constructor|done|done|]. apply (current_in d).
  - inversion_clear Hl as [|?? Hr Hl'].
    destruct (get_answered lib HTTP (DynamicNameServerResolver.top_addressing_ d).(TopAddressing.host_)
      (u16 (DynamicNameServerResolver.top_addressing_ d).(TopAddressing.port_))
      (TopAddressing.query_string (DynamicNameServerResolver.top_addressing_ d)) s Hr) as (s1 & r & E).
    destruct (fetch lib (d, s)) as [[[d1 s1'] r']|] eqn:F.
    2: { unfold fetch, fetch_with, DynamicNameServerResolver.fetch, TopAddressing.fetchNameServerAddresses in F.
         cbn [fst snd TopAddressing.get_host TopAddressing.get_port TopAddressing.get_path] in F.
         rewrite E in F. cbn in F. by destruct (TopAddressing.on_response _ _). }
    destruct (fetch_spec lib d s _ _ F) as (F1 & F2 & F3 & F4). cbn [fst snd] in F1, F2, F3, F4.
    destruct (get_answers _ _ _ _ _ _ _ _ F4) as (c & C1 & C2 & C3).
    destruct (IH d1 s1' Hl') as (d' & s' & rs & G & H1 & H2 & H3 & H4).
    exists d', s', (r' :: rs). cbn [fetches]. rewrite F. cbn [mbind option_bind]. rewrite G. cbn [mbind option_bind].
    rewrite resolved_cons. change (servers d1) with (DynamicNameServerResolver.name_server_list_ d1) in *.
    rewrite F1 in H2, H4. split_and!; [done| |done| |done]; [|by rewrite H3].
    apply (exchange_cons _ _ lib libs s s1' s' c r' rs C1 C2 C3). revert H1. unfold endpoint_key, endpoint_path. by rewrite F3.
Qed.

Definition example_resolver : DynamicNameServerResolver.t :=
  DynamicNameServerResolver.mk "http://ns" false ["old"%string] 3
    (TopAddressing.mk "ns" 80 "/rocketmq/nsaddr" (HostInfo.mk "" "" "" "")).

Definition answering (code : Z) (text : string) : Lib := mkLib (fun _ => true) (fun _ _ => Some (code, text)).

Lemma discovery_over_http_witness :
  exists d' s' rs,
    fetches [answering 200 "a:1;b:2"; answering 500 "busy"] (example_resolver, make) = Some (d', s', rs)
    /\ map status rs = [200; 500] /\ servers d' = ["a:1"; "b:2"]%string /\ cursor d' = 3.
Proof.
  destruct (discovery_over_http [answering 200 "a:1;b:2"; answering 500 "busy"] example_resolver make)
    as (d' & s' & rs & H1 & H & H2 & H3 & _).
  - repeat constructor; intros c p _; by eexists.
  - exists d', s', rs. split; [exact H1|].
    inversion H as [|? ? ? s1 ? c1 r1 rs1 _ _ A1 X1]; subst. inversion X1 as [|? ? ? s2 ? c2 r2 rs2 _ _ A2 X2]; subst.
    inversion X2; subst. unfold answers in A1, A2. cbn in A1, A2. injection A1 as E1 E2. injection A2 as E3 E4.
    split; [cbn; by rewrite <- E1, <- E3|]. split; [|exact H3]. rewrite H2. unfold resolved, accepted. cbn.
    rewrite <- E1, <- E3, <- E2. reflexivity.
Defined.

(** When the server cannot be reached there is no response, and it is dereferenced. *)
Lemma unreachable_server_crashes lib d s :
  is_valid lib (fst (take_client lib (key_of HTTP (TopAddressing.host_ (DynamicNameServerResolver.top_addressing_ d))
    (u16 (TopAddressing.port_ (DynamicNameServerResolver.top_addressing_ d)))) s)) = true ->
  (forall c p, Get lib c p = None) -> fetch lib (d, s) = None.
Proof.
  intros V H. unfold fetch, fetch_with, get.
  cbn [fst snd DynamicNameServerResolver.fetch TopAddressing.fetchNameServerAddresses TopAddressing.get_host
       TopAddressing.get_port TopAddressing.get_path].
  destruct (take_client _ _ _) as [c s']. cbn [fst] in V. rewrite V. cbn. by rewrite H.
Qed.

(** A response with status 200 and an empty body replaces the servers by one empty address. *)
Lemma empty_body_loses_servers :
  match fetch (answering 200 "") (example_resolver, make) with
  | Some (d, _, _) => DynamicNameServerResolver.name_server_list_ d = [""%string]
  | None => False
  end.
Proof. reflexivity. Qed.

(** The scheme of the endpoint is not used: an https endpoint is asked over plain HTTP, on its port. *)
Lemma https_endpoint_asked_in_clear h :
  match DynamicNameServerResolver.make (read_decimal 0) h "https://ns.example/nsaddr" with
  | Some d =>
      DynamicNameServerResolver.ssl_ d = true
      /\ match fetch (answering 200 "a") (d, make) with
         | Some (_, s, _) => clients_ s !! "http://ns.example:443"%string = Some 0%nat
         | None => False
         end
  | None => False
  end.
Proof. split; reflexivity. Qed.

End HttpClientImpl.
