(* ===== verification/Config.v ===== *)
(** * Client configuration, credentials and request signing.

    [ClientConfigImpl] (client/ClientConfigImpl.cpp), [Credentials] and the credential
    providers (api/rocketmq/Credentials.h, rocketmq/CredentialsProvider.cpp),
    [TlsHelper::sign] and [Signature::sign] (client/TlsHelper.cpp,
    client/Signature.cpp). *)

From S2P Require Import Prelude Types Message MixAll NameServer.

(** ** Credentials *)
Module Credentials.

(** [expiration_instant_] is [None] for [time_point::max()]; times are milliseconds. *)
Record t := mk {
  access_key_ : string;
  access_secret_ : string;
  session_token_ : string;
  expiration_instant_ : option Z;
}.

Definition make (access_key access_secret : string) : t := mk access_key access_secret "" None.

Definition operator_eq (a b : t) : bool :=
  String.eqb (access_key_ a) (access_key_ b) && String.eqb (access_secret_ a) (access_secret_ b)
  && String.eqb (session_token_ a) (session_token_ b)
  && bool_decide (expiration_instant_ a = expiration_instant_ b).

Definition empty (c : t) : bool := str_empty (access_key_ c) || str_empty (access_secret_ c).

Definition expired (now : Z) (c : t) : bool :=
  match expiration_instant_ c with None => false | Some e => e <? now end.

End Credentials.

(** ** Credential providers *)

(** [StaticCredentialsProvider], [EnvironmentVariablesCredentialsProvider] and
    [ConfigFileCredentialsProvider] hold a key and a secret fixed at construction. *)
Record KeyProvider := mkKeyProvider { provider_key : string; provider_secret : string }.

Definition StaticCredentialsProvider_make (access_key access_secret : string) : KeyProvider :=
  mkKeyProvider access_key access_secret.

Definition EnvironmentVariablesCredentialsProvider_make (getenv : string -> option string) : KeyProvider :=
  mkKeyProvider (default ""%string (getenv "ROCKETMQ_ACCESS_KEY"%string))
                (default ""%string (getenv "ROCKETMQ_ACCESS_SECRET"%string)).

(** The path the default [ConfigFileCredentialsProvider] reads. *)
Definition config_file (home : string) : string :=
  let home := if HostInfo.ends_with "/"%char home then home else (home +:+ "/")%string in
  (home +:+ "rocketmq/credentials")%string.

(** [home] is [MixAll::homeDirectory]; [read] is the content of a file, if it exists and
    opens; [parse_json] maps the fields of a JSON object to their string values, [None]
    if the text does not parse. *)
Definition ConfigFileCredentialsProvider_make (home : option string) (read : string -> option string)
    (parse_json : string -> option (gmap string string)) : KeyProvider :=
  match home with
  | None => mkKeyProvider "" ""
  | Some h =>
      match read (config_file h) with
      | None => mkKeyProvider "" ""
      | Some content =>
          match parse_json content with
          | None => mkKeyProvider "" ""
          | Some fields =>
              mkKeyProvider (default ""%string (fields !! "AccessKey"%string))
                            (default ""%string (fields !! "AccessSecret"%string))
          end
      end
  end.

(** The second constructor leaves the key and the secret empty whatever its arguments. *)
Definition ConfigFileCredentialsProvider_make_with (config_file : string) (refresh_interval : Z) : KeyProvider :=
  mkKeyProvider "" "".

Definition KeyProvider_getCredentials (p : KeyProvider) : Credentials.t :=
  Credentials.make (provider_key p) (provider_secret p).

Module StsCredentialsProviderImpl.

Record t := mk {
  ram_role_name_ : string;
  access_key_ : string;
  access_secret_ : string;
  session_token_ : string;
  expiration_ : Z;
}.

Definition make (ram_role_name : string) : t := mk ram_role_name "" "" "" 0.

Section refresh.
(** [parse_json] as above; [parse_time] is [absl::ParseTime] with
    [EXPIRATION_DATE_TIME_FORMAT], in milliseconds. *)
Context (parse_json : string -> option (gmap string string)) (parse_time : string -> option Z).

Definition request_path (s : t) : string :=
  ("/latest/meta-data/Ram/security-credentials/" +:+ ram_role_name_ s)%string.

(** The callback of [refresh()]; [fields.at] of a missing key throws, [None]. *)
Definition on_response (code : Z) (body : string) (s : t) : option t :=
  if 200 =? code then
    match parse_json body with
    | None => Some s
    | Some fields =>
        access_key ← fields !! "AccessKeyId"%string;
        access_secret ← fields !! "AccessKeySecret"%string;
        session_token ← fields !! "SecurityToken"%string;
        expiration_string ← fields !! "Expiration"%string;
        match parse_time expiration_string with
        | None => Some s
        | Some expiration => Some (mk (ram_role_name_ s) access_key access_secret session_token expiration)
        end
    end
  else Some s.

(** [getCredentials()]: [response] is the answer [refresh()] waits for. *)
Definition getCredentials (now : Z) (response : Z * string) (s : t) : option (Credentials.t * t) :=
  s' ← (if expiration_ s <=? now then on_response (fst response) (snd response) s else Some s);
  Some (Credentials.mk (access_key_ s') (access_secret_ s') (session_token_ s') (Some (expiration_ s')), s').

(** Credentials are replaced as a whole or not at all, and only when they have expired. *)
Lemma getCredentials_atomic now response s c s' :
  getCredentials now response s = Some (c, s') ->
  (s' = s \/ (expiration_ s <= now /\ fst response = 200
     /\ exists fields, parse_json (snd response) = Some fields
        /\ fields !! "AccessKeyId"%string = Some (access_key_ s')
        /\ fields !! "AccessKeySecret"%string = Some (access_secret_ s')
        /\ fields !! "SecurityToken"%string = Some (session_token_ s')))
  /\ c = Credentials.mk (access_key_ s') (access_secret_ s') (session_token_ s') (Some (expiration_ s')).
Proof.
  unfold getCredentials. destruct (Z.leb_spec (expiration_ s) now) as [He|]; cbn;
    [|intros [= <- <-]; auto].
  unfold on_response. destruct (Z.eqb_spec 200 (fst response)) as [H2|]; cbn; [|intros [= <- <-]; auto].
  destruct (parse_json (snd response)) as [f|] eqn:E; cbn; [|intros [= <- <-]; auto].
  destruct (f !! "AccessKeyId"%string) eqn:E1; cbn; [|done].
  destruct (f !! "AccessKeySecret"%string) eqn:E2; cbn; [|done].
  destruct (f !! "SecurityToken"%string) eqn:E3; cbn; [|done].
  destruct (f !! "Expiration"%string) eqn:E4; cbn; [|done].
  destruct (parse_time _); cbn; intros [= <- <-]; [|auto].
  split; [right|done]. split; [done|]. split; [done|]. exists f. cbn. auto.
Qed.
End refresh.

End StsCredentialsProviderImpl.

(** ** ClientConfigImpl *)
Module ClientConfigImpl.

(** [credentials_provider_] is whether the pointer is set: the credentials a call obtains
    from the provider are an argument of [Signature.sign].  Durations are milliseconds. *)
Record t := mk {
  service_name_ : string;
  region_ : string;
  resource_namespace_ : string;
  tenant_id_ : string;
  instance_name_ : string;
  group_name_ : string;
  unit_name_ : string;
  io_timeout_ : Z;
  long_polling_timeout_ : Z;
  enable_tracing_ : bool;
  credentials_provider_ : bool;
}.

Definition CLIENT_VERSION : string := "1.0.0".

Definition make (group_name : string) : t :=
  mk "ONS" "" "" "" "DEFAULT" group_name "" 3000 30000 false false.

(** [hostname] is [UtilAll::hostname()], [pid] is [getpid()]. *)
Definition clientId (hostname : string) (pid : Z) (c : t) : string :=
  (hostname +:+ "@" +:+ (if String.eqb (instance_name_ c) "DEFAULT" then to_string pid else instance_name_ c))%string.

Definition setGroupName (x : string) (c : t) : t :=
  mk (service_name_ c) (region_ c) (resource_namespace_ c) (tenant_id_ c) (instance_name_ c) x
     (unit_name_ c) (io_timeout_ c) (long_polling_timeout_ c) (enable_tracing_ c) (credentials_provider_ c).
Definition setInstanceName (x : string) (c : t) : t :=
  mk (service_name_ c) (region_ c) (resource_namespace_ c) (tenant_id_ c) x (group_name_ c)
     (unit_name_ c) (io_timeout_ c) (long_polling_timeout_ c) (enable_tracing_ c) (credentials_provider_ c).
Definition setResourceNamespace (x : string) (c : t) : t :=
  mk (service_name_ c) (region_ c) x (tenant_id_ c) (instance_name_ c) (group_name_ c)
     (unit_name_ c) (io_timeout_ c) (long_polling_timeout_ c) (enable_tracing_ c) (credentials_provider_ c).
Definition setIoTimeout (x : Z) (c : t) : t :=
  mk (service_name_ c) (region_ c) (resource_namespace_ c) (tenant_id_ c) (instance_name_ c) (group_name_ c)
     (unit_name_ c) x (long_polling_timeout_ c) (enable_tracing_ c) (credentials_provider_ c).
Definition setUnitName (x : string) (c : t) : t :=
  mk (service_name_ c) (region_ c) (resource_namespace_ c) (tenant_id_ c) (instance_name_ c) (group_name_ c)
     x (io_timeout_ c) (long_polling_timeout_ c) (enable_tracing_ c) (credentials_provider_ c).
Definition enableTracing (x : bool) (c : t) : t :=
  mk (service_name_ c) (region_ c) (resource_namespace_ c) (tenant_id_ c) (instance_name_ c) (group_name_ c)
     (unit_name_ c) (io_timeout_ c) (long_polling_timeout_ c) x (credentials_provider_ c).
Definition setCredentialsProvider (x : bool) (c : t) : t :=
  mk (service_name_ c) (region_ c) (resource_namespace_ c) (tenant_id_ c) (instance_name_ c) (group_name_ c)
     (unit_name_ c) (io_timeout_ c) (long_polling_timeout_ c) (enable_tracing_ c) x.
Definition region (x : string) (c : t) : t :=
  mk (service_name_ c) x (resource_namespace_ c) (tenant_id_ c) (instance_name_ c) (group_name_ c)
     (unit_name_ c) (io_timeout_ c) (long_polling_timeout_ c) (enable_tracing_ c) (credentials_provider_ c).

End ClientConfigImpl.

(** ** Signature *)
Module MetadataConstants.
Definition TENANT_ID_KEY : string := "x-mq-tenant-id".
Definition NAMESPACE_KEY : string := "x-mq-namespace".
Definition AUTHORIZATION : string := "authorization".
Definition STS_SESSION_TOKEN : string := "x-mq-session-token".
Definition DATE_TIME_KEY : string := "x-mq-date-time".
Definition ALGORITHM_KEY : string := "MQv2-HMAC-SHA1".
Definition CREDENTIAL_KEY : string := "Credential".
Definition SIGNED_HEADERS_KEY : string := "SignedHeaders".
Definition SIGNATURE_KEY : string := "Signature".
Definition LANGUAGE_KEY : string := "x-mq-language".
Definition CLIENT_VERSION_KEY : string := "x-mq-client-version".
Definition PROTOCOL_VERSION_KEY : string := "x-mq-protocol-version".
Definition REQUEST_ID_KEY : string := "x-mq-request-id".
End MetadataConstants.

Definition Protocol_PROTOCOL_VERSION : string := "v1".

Abbreviation Metadata := (gmap string string).

Module Signature.
Import MetadataConstants.

Section sign.
(** OpenSSL's HMAC-SHA1 of a content under a key. *)
Context (HMAC_SHA1 : string -> string -> list Z).

Definition TlsHelper_sign (access_secret content : string) : string :=
  MixAll.hex (HMAC_SHA1 access_secret content).

(** [flat_hash_map::insert] keeps an entry that is already there. *)
Definition insert_new (k v : string) (m : Metadata) : Metadata :=
  match m !! k with Some _ => m | None => <[k := v]> m end.

Definition authorization (c : ClientConfigImpl.t) (credentials : Credentials.t) (request_date_time : string) : string :=
  (ALGORITHM_KEY +:+ " " +:+ CREDENTIAL_KEY +:+ "=" +:+ Credentials.access_key_ credentials +:+ "/"
     +:+ ClientConfigImpl.region_ c +:+ "/" +:+ ClientConfigImpl.service_name_ c +:+ ", "
     +:+ SIGNED_HEADERS_KEY +:+ "=" +:+ DATE_TIME_KEY +:+ ", " +:+ SIGNATURE_KEY +:+ "="
     +:+ TlsHelper_sign (Credentials.access_secret_ credentials) request_date_time)%string.

(** [request_date_time] is the formatted current time; [credentials] is what the
    credentials provider returns, if there is one. *)
Definition sign (c : ClientConfigImpl.t) (credentials : option Credentials.t) (request_date_time : string)
    (metadata : Metadata) : Metadata :=
  let m := insert_new LANGUAGE_KEY "CPP" metadata in
  let m := insert_new CLIENT_VERSION_KEY ClientConfigImpl.CLIENT_VERSION m in
  let m := insert_new PROTOCOL_VERSION_KEY Protocol_PROTOCOL_VERSION m in
  let m := if negb (str_empty (ClientConfigImpl.tenant_id_ c))
           then insert_new TENANT_ID_KEY (ClientConfigImpl.tenant_id_ c) m else m in
  let m := if negb (str_empty (ClientConfigImpl.resource_namespace_ c))
           then insert_new NAMESPACE_KEY (ClientConfigImpl.resource_namespace_ c) m else m in
  let m := insert_new DATE_TIME_KEY request_date_time m in
  match credentials with
  | None => m
  | Some cr =>
      if Credentials.empty cr then m
      else
        let m := insert_new AUTHORIZATION (authorization c cr request_date_time) m in
        if negb (str_empty (Credentials.session_token_ cr))
        then insert_new STS_SESSION_TOKEN (Credentials.session_token_ cr) m else m
  end.

Lemma lookup_insert_new k v m k' :
  insert_new k v m !! k' = if decide (k = k') then Some (default v (m !! k)) else m !! k'.
Proof.
  unfold insert_new. case_decide as E; [subst k'|].
  - destruct (m !! k) eqn:E; [by rewrite E|by rewrite lookup_insert_eq].
  - destruct (m !! k); [done|]. by rewrite lookup_insert_ne.
Qed.

(** The headers [sign] puts into an empty map, by key. *)
Lemma sign_lookup c cr date k :
  sign c cr date ∅ !! k =
  let signed := match cr with Some x => negb (Credentials.empty x) | None => false end in
  if decide (k = LANGUAGE_KEY) then Some "CPP"%string
  else if decide (k = CLIENT_VERSION_KEY) then Some ClientConfigImpl.CLIENT_VERSION
  else if decide (k = PROTOCOL_VERSION_KEY) then Some Protocol_PROTOCOL_VERSION
  else if decide (k = TENANT_ID_KEY) then
    if str_empty (ClientConfigImpl.tenant_id_ c) then None else Some (ClientConfigImpl.tenant_id_ c)
  else if decide (k = NAMESPACE_KEY) then
    if str_empty (ClientConfigImpl.resource_namespace_ c) then None
    else Some (ClientConfigImpl.resource_namespace_ c)
  else if decide (k = DATE_TIME_KEY) then Some date
  else if decide (k = AUTHORIZATION) then
    if signed then (fun x => authorization c x date) <$> cr else None
  else if decide (k = STS_SESSION_TOKEN) then
    match cr with
    | Some x => if signed && negb (str_empty (Credentials.session_token_ x))
                then Some (Credentials.session_token_ x) else None
    | None => None
    end
  else None.
Proof.
  unfold sign.
  set (tenant := negb (str_empty (ClientConfigImpl.tenant_id_ c))).
  assert (Ht : str_empty (ClientConfigImpl.tenant_id_ c) = negb tenant) by (unfold tenant; by rewrite negb_involutive).
  set (ns := negb (str_empty (ClientConfigImpl.resource_namespace_ c))).
  assert (Hn : str_empty (ClientConfigImpl.resource_namespace_ c) = negb ns) by (unfold ns; by rewrite negb_involutive).
  rewrite Ht, Hn. clearbody tenant ns. clear Ht Hn.
  destruct cr as [cr|]; [destruct (Credentials.empty cr), (str_empty (Credentials.session_token_ cr))|];
    destruct tenant, ns; cbn [negb andb option_fmap option_map fmap];
    repeat (rewrite lookup_insert_new; case_decide; subst; [cbn; done|]); rewrite ?lookup_empty;
    repeat (rewrite decide_False by congruence); cbn.
  all: repeat case_decide; subst; cbn; congruence || done.
Qed.

(** The authorization header up to the signature. *)
Definition authorization_prefix (c : ClientConfigImpl.t) (access_key : string) : string :=
  (ALGORITHM_KEY +:+ " " +:+ CREDENTIAL_KEY +:+ "=" +:+ access_key +:+ "/"
     +:+ ClientConfigImpl.region_ c +:+ "/" +:+ ClientConfigImpl.service_name_ c +:+ ", "
     +:+ SIGNED_HEADERS_KEY +:+ "=" +:+ DATE_TIME_KEY +:+ ", " +:+ SIGNATURE_KEY +:+ "=")%string.

Lemma authorization_eq c cr date :
  authorization c cr date =
  (authorization_prefix c (Credentials.access_key_ cr)
     +:+ TlsHelper_sign (Credentials.access_secret_ cr) date)%string.
Proof. unfold authorization, authorization_prefix. by rewrite !str_app_assoc. Qed.

#[local] Opaque authorization.

Hypothesis HMAC_bytes : forall key content, Forall MixAll.is_byte (HMAC_SHA1 key content).

(** C37: a request is signed exactly when the provider has both a key and a secret; the
    signature in the authorization header decodes to the HMAC, under the secret, of the
    very date header sent with the request, the header names the access key and not the
    secret, and the session token is sent when there is one. *)
Theorem sign_authorization c cr date :
  let m := sign c (Some cr) date ∅ in
  if Credentials.empty cr then m !! AUTHORIZATION = None /\ m !! STS_SESSION_TOKEN = None
  else
    (exists signature date_sent,
       m !! AUTHORIZATION = Some (authorization_prefix c (Credentials.access_key_ cr) +:+ signature)%string
       /\ m !! DATE_TIME_KEY = Some date_sent
       /\ MixAll.hexToBinary signature [] = (true, HMAC_SHA1 (Credentials.access_secret_ cr) date_sent))
    /\ m !! STS_SESSION_TOKEN =
         (if str_empty (Credentials.session_token_ cr) then None else Some (Credentials.session_token_ cr)).
Proof.
  intros m. unfold m. rewrite !sign_lookup. cbn.
  destruct (Credentials.empty cr) eqn:E; cbn; [done|]. split.
  - exists (TlsHelper_sign (Credentials.access_secret_ cr) date), date. split_and!; [|done|].
    + by rewrite authorization_eq.
    + unfold TlsHelper_sign. by rewrite MixAll.hexToBinary_hex.
  - by destruct (str_empty (Credentials.session_token_ cr)).
Qed.
End sign.

Lemma sign_authorization_witness :
  let cr := Credentials.mk "key" "secret" "" None in
  let c := ClientConfigImpl.make "group" in
  let m := sign (fun _ _ => [18; 255]) c (Some cr) "20210425T090219Z" ∅ in
  (exists signature date_sent,
     m !! AUTHORIZATION = Some (authorization_prefix c "key" +:+ signature)%string
     /\ m !! DATE_TIME_KEY = Some date_sent
     /\ MixAll.hexToBinary signature [] = (true, [18; 255]))
  /\ m !! STS_SESSION_TOKEN = None.
Proof.
  intros cr c. refine (sign_authorization (fun _ _ => [18; 255]) _ c cr "20210425T090219Z").
  intros _ _. repeat constructor; unfold MixAll.is_byte; lia.
Defined.

End Signature.
