(* ===== verification/Providers.v ===== *)
(** * Credential providers at work.

    The interface [CredentialsProvider] (api/rocketmq/CredentialsProvider.h) as a class with
    what the signing of requests relies on, its instances, the STS provider
    (rocketmq/CredentialsProvider.cpp) over the HTTP client, and [Signature::sign] with the
    provider of the client.  [None] is a null pointer that is dereferenced or an assertion
    that fails. *)

From S2P Require Import Prelude Types Message MixAll NameServer Http Config.

(** What a call of a provider reads: the clock, in milliseconds, and httplib. *)
Record Moment := mkMoment { clock : Z; lib : HttpClientImpl.Lib }.

(** [held] is what the provider would hand out as it is; [due] says that a call goes and
    looks for something newer. *)
Class CredentialsProvider (P : Type) := {
  getCredentials : Moment -> P -> option (Credentials.t * P);
  held : P -> Credentials.t;
  due : Moment -> P -> bool;
  returns_held m p c p' : getCredentials m p = Some (c, p') -> c = held p';
  stable m p : due m p = false -> getCredentials m p = Some (held p, p);
}.

#[export] Program Instance KeyProvider_provider : CredentialsProvider KeyProvider := {|
  getCredentials _ p := Some (KeyProvider_getCredentials p, p);
  held := KeyProvider_getCredentials;
  due _ _ := false;
|}.
Next Obligation. by intros _ p c p' [= <- <-]. Qed.
Next Obligation. done. Qed.

(** ** The STS provider *)
Module StsCredentialsProvider.

(** The provider and the HTTP client it was given, if any. *)
Record t := mk { impl_ : StsCredentialsProviderImpl.t; http_client_ : option HttpClientImpl.t }.

Definition make (ram_role_name : string) : t := mk (StsCredentialsProviderImpl.make ram_role_name) None.
Definition withHttpClient (h : HttpClientImpl.t) (s : t) : t := mk (impl_ s) (Some h).

Definition RAM_ROLE_HOST : string := "100.100.100.200".

Section provider.
Context (parse_json : string -> option (gmap string string)) (parse_time : string -> option Z).

(** [get] runs the callback before it returns, so the wait at the end is over at once. *)
Definition refresh (m : Moment) (s : t) : option t :=
  h ← http_client_ s;
  '(h, r) ← HttpClientImpl.get (lib m) HttpClientImpl.HTTP RAM_ROLE_HOST 80
              (StsCredentialsProviderImpl.request_path (impl_ s)) h;
  i ← StsCredentialsProviderImpl.on_response parse_json parse_time (HttpClientImpl.status r) (HttpClientImpl.body r)
        (impl_ s);
  Some (mk i (Some h)).

Definition held (s : t) : Credentials.t :=
  let i := impl_ s in
  Credentials.mk (StsCredentialsProviderImpl.access_key_ i) (StsCredentialsProviderImpl.access_secret_ i)
    (StsCredentialsProviderImpl.session_token_ i) (Some (StsCredentialsProviderImpl.expiration_ i)).

Definition due (m : Moment) (s : t) : bool := StsCredentialsProviderImpl.expiration_ (impl_ s) <=? clock m.

Definition getCredentials (m : Moment) (s : t) : option (Credentials.t * t) :=
  s ← (if due m s then refresh m s else Some s); Some (held s, s).

(** The destructor shuts the HTTP client down. *)
Definition destroy (s : t) : option unit := _ ← http_client_ s; Some ().

#[export] Program Instance provider : CredentialsProvider t := {|
  Providers.getCredentials := getCredentials; Providers.held := held; Providers.due := due |}.
Next Obligation. intros m p c p'. unfold getCredentials. destruct (if due m p then _ else _); [|done]. by intros [= <- <-]. Qed.
Next Obligation. intros m p H. unfold getCredentials. by rewrite H. Qed.

(** The calls of an application, one after the other. *)
Fixpoint calls (l : list Moment) (s : t) : option (list Credentials.t * t) :=
  match l with
  | [] => Some ([], s)
  | m :: l' => '(c, s) ← getCredentials m s; '(cs, s) ← calls l' s; Some (c :: cs, s)
  end.

(** *** Properties *)

(** A response of the metadata service that holds credentials, all of them from one body. *)
Definition offers (m : Moment) (c : Credentials.t) : Prop :=
  exists conn path body fields e,
    HttpClientImpl.Get (lib m) conn path = Some (200, body) /\ parse_json body = Some fields
    /\ fields !! "AccessKeyId"%string = Some (Credentials.access_key_ c)
    /\ fields !! "AccessKeySecret"%string = Some (Credentials.access_secret_ c)
    /\ fields !! "SecurityToken"%string = Some (Credentials.session_token_ c)
    /\ fields !! "Expiration"%string = Some e /\ Credentials.expiration_instant_ c = parse_time e
    /\ is_Some (parse_time e).

(** The documented form of the service: an object it answers with has the four fields. *)
Definition complete (m : Moment) : Prop :=
  forall conn path body fields k, HttpClientImpl.Get (lib m) conn path = Some (200, body) -> parse_json body = Some fields ->
    k ∈ ["AccessKeyId"; "AccessKeySecret"; "SecurityToken"; "Expiration"]%string -> is_Some (fields !! k).

(** What a refresh can end with. *)
Lemma refresh_spec m s :
  is_Some (http_client_ s) -> HttpClientImpl.responsive (lib m) -> complete m ->
  exists s', refresh m s = Some s' /\ is_Some (http_client_ s') /\ (impl_ s' = impl_ s \/ offers m (held s')).
Proof.
  intros [h Eh] Hr Hc. unfold refresh. rewrite Eh. cbn [mbind option_bind]. unfold HttpClientImpl.get.
  destruct (HttpClientImpl.take_client _ _ _) as [conn h'].
  destruct (HttpClientImpl.is_valid (lib m) conn) eqn:V; cbn [negb].
  2: { cbn. eexists. split; [reflexivity|]. split; [by eexists|by left]. }
  set (path := c_str _). destruct (Hr conn path V) as [[code body] Eg]. rewrite Eg. cbn -[StsCredentialsProviderImpl.on_response].
  unfold StsCredentialsProviderImpl.on_response.
  destruct (Z.eqb_spec 200 code) as [<-|]; [|eexists; split; [reflexivity|]; split; [by eexists|by left]].
  destruct (parse_json body) as [fields|] eqn:Ej; [|eexists; split; [reflexivity|]; split; [by eexists|by left]].
  assert (Hf : forall k, k ∈ ["AccessKeyId"; "AccessKeySecret"; "SecurityToken"; "Expiration"]%string -> is_Some (fields !! k)).
  { intros k Hk. exact (Hc conn path body fields k Eg Ej Hk). }
  destruct (Hf "AccessKeyId"%string) as [a Ea]; [set_solver|]. destruct (Hf "AccessKeySecret"%string) as [b Eb]; [set_solver|].
  destruct (Hf "SecurityToken"%string) as [t0 Et]; [set_solver|]. destruct (Hf "Expiration"%string) as [e Ee]; [set_solver|].
  rewrite Ea, Eb, Et, Ee. cbn. destruct (parse_time e) as [z|] eqn:Ez; cbn.
  - eexists. split; [reflexivity|]. split; [by eexists|]. right. exists conn, path, body, fields, e. cbn. by rewrite Ez; split_and!.
  - eexists. split; [reflexivity|]. split; [by eexists|by left].
Qed.

(** With an HTTP client whose connections answer, every call of a history returns: with what
    was held at the beginning or with one offer, whole, of a moment not later than the
    call. *)
Theorem sts_credentials l : forall s,
  is_Some (http_client_ s) -> Forall (fun m => HttpClientImpl.responsive (lib m) /\ complete m) l ->
  exists cs s', calls l s = Some (cs, s') /\ length cs = length l
    /\ forall i c, cs !! i = Some c ->
         c = held s \/ exists j m, (j <= i)%nat /\ l !! j = Some m /\ offers m c.
Proof.
  induction l as [|m l IH]; intros s Hs Hl; [by exists [], s|]. apply Forall_cons in Hl as [[Hr Hc] Hl].
  assert (Hg : exists s1, getCredentials m s = Some (held s1, s1) /\ is_Some (http_client_ s1)
                 /\ (impl_ s1 = impl_ s \/ offers m (held s1))).
  { unfold getCredentials. destruct (due m s); [|by exists s; auto].
    destruct (refresh_spec m s Hs Hr Hc) as (s1 & -> & H1 & H2). by exists s1. }
  destruct Hg as (s1 & Eg & Hs1 & Ho). destruct (IH s1 Hs1 Hl) as (cs & s' & Ec & Hlen & Hcs).
  cbn [calls]. rewrite Eg. cbn [mbind option_bind]. rewrite Ec. cbn. exists (held s1 :: cs), s'.
  split; [reflexivity|]. split; [cbn; lia|]. intros i c Ei.
  assert (Hheld : forall k, (k <= i)%nat -> held s1 = held s \/ exists j m', (j <= i)%nat /\ (m :: l) !! j = Some m' /\ offers m' (held s1)).
  { intros k _. destruct Ho as [Ho|Ho]; [left; unfold held; by rewrite Ho|]. right. exists 0%nat, m. split_and!; [lia|done|done]. }
  destruct i as [|i]; cbn in Ei.
  - injection Ei as <-. exact (Hheld 0%nat (le_n 0)).
  - destruct (Hcs i c Ei) as [->|(j & m' & Hj & Ej & Hm)]; [by apply (Hheld 0%nat); lia|].
    right. exists (S j), m'. split_and!; [lia|done|done].
Qed.

(** The provider an application makes has no HTTP client, and nothing gives it one: its
    first call dereferences a null pointer, and so does its destruction. *)
Lemma public_provider_crashes ram_role_name m :
  0 <= clock m -> getCredentials m (make ram_role_name) = None /\ destroy (make ram_role_name) = None.
Proof. intros H. split; [|done]. unfold getCredentials, due. cbn. by rewrite (proj2 (Z.leb_le 0 (clock m)) H). Qed.
End provider.
End StsCredentialsProvider.

(** ** Signing with the provider of the client *)
Section sign.
Context (HMAC_SHA1 : string -> string -> list Z) {P : Type} `{!CredentialsProvider P}.

Definition sign_with (m : Moment) (c : ClientConfigImpl.t) (provider : option P) (request_date_time : string)
    (metadata : Metadata) : option (Metadata * option P) :=
  match provider with
  | None => Some (Signature.sign HMAC_SHA1 c None request_date_time metadata, None)
  | Some p =>
      '(credentials, p) ← getCredentials m p;
      Some (Signature.sign HMAC_SHA1 c (Some credentials) request_date_time metadata, Some p)
  end.

(** A request carries the signature of what the provider holds when the call returns; as long
    as no refresh is due, every request is signed with the same credentials and none can
    fail. *)
Lemma sign_with_held m c p date metadata x p' :
  sign_with m c (Some p) date metadata = Some (x, p') ->
  exists q, p' = Some q /\ x = Signature.sign HMAC_SHA1 c (Some (held q)) date metadata.
Proof.
  cbn. destruct (getCredentials m p) as [[cr q]|] eqn:E; [|done]. cbn. intros [= <- <-]. exists q.
  by rewrite (returns_held m p cr q E).
Qed.

Lemma sign_with_stable m c p date metadata :
  due m p = false ->
  sign_with m c (Some p) date metadata = Some (Signature.sign HMAC_SHA1 c (Some (held p)) date metadata, Some p).
Proof. intros H. cbn. by rewrite (stable m p H). Qed.
End sign.
