(* ===== verification/Codec.v ===== *)
(** * Body codecs and the decoding of received messages.

    [MixAll::crc32/md5/sha1], [UtilAll::compress/uncompress] and the decoding
    [ClientManagerImpl::wrapMessage], [processPopResult], [processPullResult] and
    [processSendResponse].

    zlib and OpenSSL are parameters: [zlib_crc32] the checksum, [MD5]/[SHA1] the digest
    bytes ([MD5] may fail), [deflate] the one-shot compression and [inflate] one call of
    the streaming decompression, which maps a stream state to a status, the bytes it
    produced in the 4096-byte buffer and the next state. *)

From S2P Require Import Prelude Types Message MixAll Proto.

(** ** Compression *)
Inductive ZStatus := Z_OK | Z_STREAM_END | Z_STREAM_ERROR | Z_OTHER (v : Z).

(** The decompression of zlib.  [remaining] is what is left of a stream, in input and pending
    output: [inflate] returns [Z_OK] when it has made progress, and only then. *)
Record Zlib := mkZlib {
  zstream : Type;
  inflateInit : string -> zstream;
  inflate : zstream -> ZStatus * string * zstream;
  remaining : zstream -> nat;
  inflate_progress : forall s out s', inflate s = (Z_OK, out, s') -> (remaining s' < remaining s)%nat;
}.

Module UtilAll.

(** The flag returned and the text appended to [dst]. *)
Definition compress (deflate : string -> ZStatus * string) (src dst : string) : bool * string :=
  match deflate src with
  | (Z_STREAM_END, out) => (true, (dst +:+ out)%string)
  | _ => (false, dst)
  end.

Section zlib.
Context (z : Zlib).

(** The [while (true)] loop; [None] when [fuel] calls of [inflate] were not enough. *)
Fixpoint uncompress_loop (fuel : nat) (stream : zstream z) (dst : string) : option (bool * string) :=
  match fuel with
  | O => None
  | S fuel' =>
      let '(status, out, stream') := inflate z stream in
      match status with
      | Z_STREAM_ERROR => Some (false, dst)
      | Z_STREAM_END => Some (true, (dst +:+ out)%string)
      | Z_OK => uncompress_loop fuel' stream' (dst +:+ out)
      | Z_OTHER _ => Some (false, (dst +:+ out)%string)
      end
  end.

(** A call that goes on makes progress, so the loop ends; see [uncompress_ends]. *)
Definition uncompress (src dst : string) : bool * string :=
  let stream := inflateInit z src in
  default (false, dst) (uncompress_loop (S (remaining z stream)) stream dst).

Lemma uncompress_loop_ends fuel stream dst :
  (remaining z stream < fuel)%nat -> is_Some (uncompress_loop fuel stream dst).
Proof.
  revert stream dst. induction fuel as [|fuel IH]; intros stream dst Hf; [lia|]. cbn [uncompress_loop].
  destruct (inflate z stream) as [[[] out] stream'] eqn:E; try by eexists.
  apply IH. apply inflate_progress in E. lia.
Qed.

Lemma uncompress_ends src dst :
  uncompress_loop (S (remaining z (inflateInit z src))) (inflateInit z src) dst = Some (uncompress src dst).
Proof.
  unfold uncompress. destruct (uncompress_loop_ends (S (remaining z (inflateInit z src))) (inflateInit z src) dst) as [r Hr]; [lia|].
  by rewrite Hr.
Qed.

(** A stream that yields [chunks], one per call, the last one with [Z_STREAM_END]. *)
Inductive yields : zstream z -> list string -> Prop :=
  | yields_end s s' out : inflate z s = (Z_STREAM_END, out, s') -> yields s [out]
  | yields_more s s' out chunks : inflate z s = (Z_OK, out, s') -> yields s' chunks -> yields s (out :: chunks).

Definition concat (chunks : list string) : string := foldr String.append ""%string chunks.

Lemma uncompress_loop_yields s chunks fuel dst r :
  yields s chunks -> uncompress_loop fuel s dst = Some r -> r = (true, (dst +:+ concat chunks)%string).
Proof.
  intros H. revert fuel dst. induction H as [s s' out E|s s' out chunks E _ IH]; intros [|fuel] dst; try done;
    cbn [uncompress_loop]; rewrite E.
  - cbn. intros [= <-]. by rewrite str_app_nil_r.
  - intros Hr. rewrite (IH _ _ Hr). cbn. by rewrite str_app_assoc.
Qed.

(** What [zlib.h] says of a pair of streams: a text that [deflate] has compressed to the end
    is given back by [inflate], in chunks, the last of them with [Z_STREAM_END]. *)
Definition inverse (deflate : string -> ZStatus * string) : Prop :=
  forall src out, deflate src = (Z_STREAM_END, out) ->
  exists chunks, yields (inflateInit z out) chunks /\ concat chunks = src.

End zlib.
End UtilAll.

(** ** Digests *)
Module BodyDigest.
Section digests.
Context (zlib_crc32 : string -> Z) (MD5 : string -> option (list Z)) (SHA1 : string -> list Z).

(** The bytes of [htonl(crc)] in memory: most significant first. *)
Definition be32 (v : Z) : list Z :=
  [u8 (Z.shiftr v 24); u8 (Z.shiftr v 16); u8 (Z.shiftr v 8); u8 v].

Definition crc32 (data : string) : option string := Some (MixAll.hex (be32 (zlib_crc32 data))).
Definition md5 (data : string) : option string := MixAll.hex <$> MD5 data.
Definition sha1 (data : string) : option string := Some (MixAll.hex (SHA1 data)).

(** The validation of the body in [wrapMessage].  A failing MD5 computation counts as a
    match, a failing CRC32 or SHA1 does not. *)
Definition body_digest_match (body : string) (digest : rmq.Digest) : bool :=
  if str_empty body then true
  else
    match rmq.digest_type digest with
    | rmq.CRC32 =>
        match crc32 body with
        | Some checksum => String.eqb (rmq.checksum digest) checksum
        | None => false
        end
    | rmq.MD5 =>
        match md5 body with
        | Some checksum => String.eqb (rmq.checksum digest) checksum
        | None => true
        end
    | rmq.SHA1 =>
        match sha1 body with
        | Some checksum => String.eqb checksum (rmq.checksum digest)
        | None => false
        end
    | rmq.DigestType_unrecognized _ => true
    end.

Lemma be32_inj a b :
  0 <= a < 2 ^ 32 -> 0 <= b < 2 ^ 32 -> MixAll.hex (be32 a) = MixAll.hex (be32 b) -> a = b.
Proof.
  intros Ha Hb E.
  assert (Hbytes : forall v, Forall MixAll.is_byte (be32 v)).
  { intros v. unfold be32, u8. repeat constructor; unfold MixAll.is_byte; apply Z.mod_pos_bound; lia. }
  apply MixAll.hex_inj in E; [|apply Hbytes..]. unfold be32, u8 in E. injection E as E1 E2 E3 E4.
  rewrite !Z.shiftr_div_pow2 in E1, E2, E3 by lia.
  Z.to_euclidean_division_equations; lia.
Qed.
End digests.
End BodyDigest.

(** ** Results of a receive or a pull *)
Module ReceiveMessageStatus.
Inductive t := OK | DEADLINE_EXCEEDED | RESOURCE_EXHAUSTED | NOT_FOUND | OUT_OF_RANGE | DATA_CORRUPTED | INTERNAL.
#[global] Instance eq_dec : EqDecision t.
Proof. solve_decision. Defined.
End ReceiveMessageStatus.

Module ReceiveMessageResult.
Record t := mk {
  status_ : ReceiveMessageStatus.t;
  pop_time_ : Z;
  invisible_time_ : Z;
  messages_ : list MQMessage.t;
  source_host_ : string;
  next_offset_ : Z;
}.
(** The default constructor: [absl::Time] and [absl::Duration] start at zero. *)
Definition empty : t := mk ReceiveMessageStatus.DEADLINE_EXCEEDED 0 0 [] "" 0.
End ReceiveMessageResult.

(** ** wrapMessage *)
Module Decode.

(** [absl::TimeFromTimeval], in nanoseconds. *)
Definition TimeFromTimeval (tv_sec tv_usec : Z) : Z := tv_sec * 1000000000 + tv_usec * 1000.

Definition message_type_of (t : rmq.MessageType) : MessageType :=
  match t with
  | rmq.NORMAL => NORMAL
  | rmq.FIFO => FIFO
  | rmq.DELAY => DELAY
  | rmq.TRANSACTION => TRANSACTION
  | rmq.MessageType_unrecognized _ => NORMAL
  end.

(** A second-and-nanosecond pair as the code converts it, truncating division included. *)
Definition to_time (t : rmq.Timestamp) : Z :=
  TimeFromTimeval (rmq.seconds t) (Z.quot (rmq.nanos t) 1000).

Section wrap.
Context (zlib_crc32 : string -> Z) (MD5 : string -> option (list Z)) (SHA1 : string -> list Z).
Context (zlib : Zlib).

(** Topic, receipt handle, tag, keys and id: everything before the digest check. *)
Definition wrap_head (item : rmq.Message) (m : MQMessage.t) : MQMessage.t :=
  let a := rmq.system_attribute item in
  let m := MQMessage.setTopic (rmq.name (rmq.message_topic item)) m in
  let m := MessageAccessor.setReceiptHandle (rmq.receipt_handle a) m in
  let m := MQMessage.setTags (rmq.tag a) m in
  let m := MQMessage.setKeys (rmq.keys a) m in
  MessageAccessor.setMessageId (rmq.message_id a) m.

Definition wrap_body (item : rmq.Message) (m : MQMessage.t) : MQMessage.t :=
  match rmq.body_encoding (rmq.system_attribute item) with
  | rmq.GZIP => MQMessage.setBody (snd (UtilAll.uncompress zlib (rmq.body item) "")) m
  | rmq.IDENTITY => MQMessage.setBody (rmq.body item) m
  | rmq.Encoding_unrecognized _ => m
  end.

(** Type, born and store attributes, timed delivery: the middle of the function.  The
    nanoseconds of the delivery time are used as microseconds. *)
Definition wrap_times (item : rmq.Message) (m : MQMessage.t) : MQMessage.t :=
  let a := rmq.system_attribute item in
  let m := MessageAccessor.setMessageType (message_type_of (rmq.message_type a)) m in
  let m := match rmq.born_timestamp a with
           | Some t => MessageAccessor.setBornTimestamp (to_time t) m | None => m end in
  let m := MessageAccessor.setBornHost (rmq.born_host a) m in
  let m := match rmq.store_timestamp a with
           | Some t => MessageAccessor.setStoreTimestamp (to_time t) m | None => m end in
  let m := MessageAccessor.setStoreHost (rmq.store_host a) m in
  match rmq.timed_delivery a with
  | rmq.kDelayLevel l => MQMessage.setDelayTimeLevel l m
  | rmq.kDeliveryTimestamp t =>
      MessageAccessor.setDeliveryTimestamp (TimeFromTimeval (rmq.seconds t) (rmq.nanos t)) m
  | rmq.TIMED_DELIVERY_NOT_SET => m
  end.

(** Partition, invisible period, attempt, trace context, decode time, properties. *)
Definition wrap_tail (now : Z) (item : rmq.Message) (m : MQMessage.t) : MQMessage.t :=
  let a := rmq.system_attribute item in
  let m := MessageAccessor.setQueueId (rmq.partition_id a) m in
  let m := MessageAccessor.setQueueOffset (rmq.partition_offset a) m in
  let m := match rmq.invisible_period a with
           | Some d => MessageAccessor.setInvisiblePeriod (rmq.seconds d * 1000000000 + rmq.nanos d) m
           | None => m end in
  let m := MessageAccessor.setDeliveryAttempt (rmq.delivery_attempt a) m in
  let m := MessageAccessor.setTraceContext (rmq.trace_context a) m in
  let m := MessageAccessor.setDecodedTimestamp now m in
  MQMessage.setProperties (rmq.user_attribute item) m.

(** The latency sample at the end; [now] and the store time are nanoseconds. *)
Definition record_latency (now : Z) (m : MQMessage.t) (h : Histogram.t) : Histogram.t :=
  let elapsed := i32 (now / 1000000 - MQMessage.getStoreTimestamp m) in
  if 0 <=? elapsed then Histogram.countIn (Z.quot elapsed 20) h else h.

(** The whole of [wrapMessage]: the flag, the message as far as it was filled in, and
    the latency histogram. *)
Definition wrapMessage (now : Z) (item : rmq.Message) (m : MQMessage.t) (h : Histogram.t)
    : bool * MQMessage.t * Histogram.t :=
  let m := wrap_head item m in
  if negb (BodyDigest.body_digest_match zlib_crc32 MD5 SHA1 (rmq.body item)
             (rmq.body_digest (rmq.system_attribute item)))
  then (false, m, h)
  else
    let m := wrap_tail now item (wrap_times item (wrap_body item m)) in
    (true, m, record_latency now m h).

(** ** processPopResult and processPullResult *)

(** A default-constructed [MQMessageExt]: the constructor reads the clock, the host name
    and a fresh id, all given in [fresh]. *)
Context (fresh : MQMessage.t).

Fixpoint wrap_messages (now : Z) (target_host : string) (items : list rmq.Message) (h : Histogram.t)
    : list MQMessage.t * Histogram.t :=
  match items with
  | [] => ([], h)
  | item :: items' =>
      let '(ok, m, h) := wrapMessage now item (MessageAccessor.setTargetEndpoint target_host fresh) h in
      let '(l, h) := wrap_messages now target_host items' h in
      (if ok then m :: l else l, h)
  end.

Definition pop_status (c : Code) : ReceiveMessageStatus.t :=
  match c with
  | OK => ReceiveMessageStatus.OK
  | RESOURCE_EXHAUSTED => ReceiveMessageStatus.RESOURCE_EXHAUSTED
  | DEADLINE_EXCEEDED => ReceiveMessageStatus.DEADLINE_EXCEEDED
  | NOT_FOUND => ReceiveMessageStatus.NOT_FOUND
  | _ => ReceiveMessageStatus.INTERNAL
  end.

(** An absent timestamp or duration reads as zero. *)
Definition or_zero (t : option rmq.Timestamp) : rmq.Timestamp := default (rmq.mkTimestamp 0 0) t.

Definition processPopResult (now : Z) (target_host : string) (r : rmq.ReceiveMessageResponse) (h : Histogram.t)
    : ReceiveMessageResult.t * Histogram.t :=
  let status := pop_status (rmq.code (rmq.receive_common r)) in
  let '(msgs, h) := if decide (status = ReceiveMessageStatus.OK)
                    then wrap_messages now target_host (rmq.messages r) h else ([], h) in
  let d := or_zero (rmq.receive_invisible_duration r) in
  (ReceiveMessageResult.mk status (to_time (or_zero (rmq.receive_delivery_timestamp r)))
     (rmq.seconds d * 1000000000 + rmq.nanos d) msgs target_host 0, h).

(** The loop of [processPullResult]: it stops at the first message that is corrupted. *)
Fixpoint pull_messages (now : Z) (items : list rmq.Message) (acc : list MQMessage.t) (h : Histogram.t)
    : ReceiveMessageStatus.t * list MQMessage.t * Histogram.t :=
  match items with
  | [] => (ReceiveMessageStatus.OK, acc, h)
  | item :: items' =>
      let '(ok, m, h) := wrapMessage now item fresh h in
      if negb ok then (ReceiveMessageStatus.DATA_CORRUPTED, acc, h)
      else pull_messages now items' (acc ++ [m]) h
  end.

(** The result starts as a default-constructed one; the cases of the second [switch]
    other than [OK] are behind the early return. *)
Definition processPullResult (now : Z) (target_host : string) (r : rmq.PullMessageResponse) (h : Histogram.t)
    : ReceiveMessageResult.t * Histogram.t :=
  if negb (bool_decide (rmq.code (rmq.pull_common r) = OK))
  then (ReceiveMessageResult.mk ReceiveMessageStatus.INTERNAL 0 0 [] "" 0, h)
  else
    let '(status, msgs, h) := pull_messages now (rmq.pull_messages r) [] h in
    (ReceiveMessageResult.mk status 0 0 msgs target_host 0, h).

End wrap.

(** [processSendResponse]; [None] is the exception. *)
Definition processSendResponse (message_queue : MQMessageQueue.t) (r : rmq.SendMessageResponse)
    : option SendResult.t :=
  if negb (bool_decide (rmq.code (rmq.send_common r) = OK)) then None
  else Some (SendResult.setTransactionId (rmq.send_transaction_id r)
              (SendResult.setMessageQueue message_queue
                (SendResult.setQueueOffset (-1)
                  (SendResult.setMsgId (rmq.send_message_id r)
                    (SendResult.setSendStatus SEND_OK SendResult.empty))))).
End Decode.

(** ** Properties *)

(** Decompressing what [compress] produced terminates and gives the original text,
    however many buffers it takes. *)
Theorem uncompress_compress (z : Zlib) (deflate : string -> ZStatus * string) src out :
  UtilAll.inverse z deflate -> UtilAll.compress deflate src "" = (true, out) ->
  UtilAll.uncompress z out "" = (true, src).
Proof.
  intros Hz. unfold UtilAll.compress. destruct (deflate src) as [[] o] eqn:E; try done. intros [= <-].
  destruct (Hz src o E) as (chunks & Hy & <-).
  exact (UtilAll.uncompress_loop_yields z _ _ _ _ _ Hy (UtilAll.uncompress_ends z o "")).
Qed.

(** A toy zlib: it stores the text behind a tag and gives it back one byte per call. *)
Definition toy_deflate (s : string) : ZStatus * string := (Z_STREAM_END, String "z"%char s).
Definition toy_init (s : string) : string := match s with String _ s' => s' | EmptyString => s end.
Definition toy_inflate (s : string) : ZStatus * string * string :=
  match s with
  | EmptyString => (Z_STREAM_END, ""%string, s)
  | String a s' => (Z_OK, String a "", s')
  end.

Lemma toy_progress s out s' : toy_inflate s = (Z_OK, out, s') -> (String.length s' < String.length s)%nat.
Proof. destruct s as [|a s]; [done|]. intros [= _ <-]. cbn. lia. Qed.

Definition toy_zlib : Zlib := mkZlib string toy_init toy_inflate String.length toy_progress.

Lemma toy_zlib_inverse : UtilAll.inverse toy_zlib toy_deflate.
Proof.
  intros src out [= <-]. cbn. induction src as [|a s (chunks & Hy & E)].
  - exists [""%string]. split; [|done]. by eapply UtilAll.yields_end.
  - exists (String a "" :: chunks). split; [|by rewrite <- E]. by eapply UtilAll.yields_more.
Qed.

Lemma uncompress_compress_witness : UtilAll.uncompress toy_zlib "zhello" "" = (true, "hello"%string).
Proof. apply (uncompress_compress toy_zlib toy_deflate); [exact toy_zlib_inverse|reflexivity]. Defined.

Section decode.
Import Decode.
Context (zlib_crc32 : string -> Z) (MD5 : string -> option (list Z)) (SHA1 : string -> list Z).
Context (zlib : Zlib).
(** zlib's CRC is a 32-bit value, OpenSSL's digests are bytes. *)
Hypothesis crc_range : forall s, 0 <= zlib_crc32 s < 2 ^ 32.
Hypothesis MD5_bytes : forall s d, MD5 s = Some d -> Forall MixAll.is_byte d.
Hypothesis SHA1_bytes : forall s, Forall MixAll.is_byte (SHA1 s).

(** What it takes for a body to pass under a digest computed from some other body. *)
Definition intact (body sent : string) (t : rmq.DigestType) : Prop :=
  match t with
  | rmq.CRC32 => zlib_crc32 body = zlib_crc32 sent
  | rmq.MD5 => MD5 body = None \/ MD5 body = MD5 sent
  | rmq.SHA1 => SHA1 body = SHA1 sent
  | rmq.DigestType_unrecognized _ => True
  end.

(** The checksum a sender writes for a body. *)
Definition checksum_of (t : rmq.DigestType) (body : string) : option string :=
  match t with
  | rmq.CRC32 => BodyDigest.crc32 zlib_crc32 body
  | rmq.MD5 => BodyDigest.md5 MD5 body
  | rmq.SHA1 => BodyDigest.sha1 SHA1 body
  | rmq.DigestType_unrecognized _ => Some ""%string
  end.

(** C32: a received message is accepted exactly when its body is empty or has the same
    digest as the body the checksum was computed from (a body with an unknown digest
    type, or whose MD5 cannot be computed, is let through); a rejected message changes
    no statistics. *)
Theorem wrapMessage_integrity now item m h sent c :
  let d := rmq.body_digest (rmq.system_attribute item) in
  checksum_of (rmq.digest_type d) sent = Some c -> rmq.checksum d = c ->
  let '(ok, _, h') := wrapMessage zlib_crc32 MD5 SHA1 zlib now item m h in
  (ok = true <-> rmq.body item = ""%string \/ intact (rmq.body item) sent (rmq.digest_type d))
  /\ (ok = false -> h' = h).
Proof.
  intros d Hc Hd. unfold wrapMessage. fold d.
  assert (H : BodyDigest.body_digest_match zlib_crc32 MD5 SHA1 (rmq.body item) d = true
              <-> rmq.body item = ""%string \/ intact (rmq.body item) sent (rmq.digest_type d)).
  { unfold BodyDigest.body_digest_match, intact. rewrite Hd. clear Hd.
    destruct (str_empty (rmq.body item)) eqn:E; [apply str_empty_spec in E; tauto|].
    assert (Hne : rmq.body item <> ""%string) by (intros E'; by rewrite E' in E).
    destruct (rmq.digest_type d); cbn in Hc |- *.
    - injection Hc as <-. rewrite String.eqb_eq. split.
      + intros E1. right. symmetry. by apply BodyDigest.be32_inj.
      + intros [?| ->]; [done|done].
    - unfold BodyDigest.md5 in *. destruct (MD5 sent) as [d2|] eqn:E2; [|done]. injection Hc as <-.
      destruct (MD5 (rmq.body item)) as [d1|] eqn:E1; cbn; [|split; [intros _; right; by left|done]].
      rewrite String.eqb_eq. split.
      + intros E3. right. right. f_equal. symmetry. apply MixAll.hex_inj in E3; [done|by eapply MD5_bytes..].
      + intros [?|[?|[= ->]]]; done.
    - injection Hc as <-. rewrite String.eqb_eq. split.
      + intros E1. right. apply MixAll.hex_inj in E1; [done|apply SHA1_bytes..].
      + intros [?| ->]; done.
    - tauto. }
  destruct (BodyDigest.body_digest_match _ _ _ _ _); cbn; split; try done; by rewrite <- H.
Qed.

(** What the later stages of [wrapMessage] leave alone, and what they set. *)
Definition head_view (m : MQMessage.t) :=
  (MQMessage.getTopic m, MQMessage.getTags m, MQMessage.getKeys m, MQMessage.getMsgId m,
   MQMessage.receiptHandle m, MQMessage.getBody m).

Lemma wrap_times_spec item m :
  head_view (wrap_times item m) = head_view m
  /\ MQMessage.messageType (wrap_times item m) =
       Some (message_type_of (rmq.message_type (rmq.system_attribute item)))
  /\ MQMessage.getProperties (wrap_times item m) = MQMessage.getProperties m.
Proof.
  unfold wrap_times. destruct m as [[? ? sa ?] ? ?]; destruct sa.
  destruct (rmq.timed_delivery _), (rmq.born_timestamp _), (rmq.store_timestamp _); done.
Qed.

Lemma wrap_tail_spec now item m :
  let a := rmq.system_attribute item in
  let m' := wrap_tail now item m in
  head_view m' = head_view m
  /\ MQMessage.getQueueId m' = rmq.partition_id a /\ MQMessage.getQueueOffset m' = rmq.partition_offset a
  /\ MQMessage.getDeliveryAttempt m' = rmq.delivery_attempt a
  /\ MQMessage.traceContext m' = rmq.trace_context a
  /\ MQMessage.messageType m' = MQMessage.messageType m
  /\ MQMessage.getBody m' = MQMessage.getBody m
  /\ MQMessage.getProperties m' = MQMessage.getProperties m ∪ rmq.user_attribute item.
Proof.
  unfold wrap_tail. destruct m as [[? ? sa ?] ? ?]; destruct sa. by destruct (rmq.invisible_period _).
Qed.

(** An accepted message carries the topic, tag, keys, id, receipt handle, queue,
    offset and attempt of the wire message, its body after decoding, and its user
    properties. *)
Lemma wrapMessage_fields now item m h :
  MQMessage.getProperties m = ∅ ->
  let '(ok, m', _) := wrapMessage zlib_crc32 MD5 SHA1 zlib now item m h in
  let a := rmq.system_attribute item in
  ok = true ->
  MQMessage.getTopic m' = rmq.name (rmq.message_topic item)
  /\ MQMessage.getTags m' = rmq.tag a /\ MQMessage.getKeys m' = rmq.keys a
  /\ MQMessage.getMsgId m' = rmq.message_id a /\ MQMessage.receiptHandle m' = rmq.receipt_handle a
  /\ MQMessage.getQueueId m' = rmq.partition_id a /\ MQMessage.getQueueOffset m' = rmq.partition_offset a
  /\ MQMessage.getDeliveryAttempt m' = rmq.delivery_attempt a
  /\ MQMessage.messageType m' = Some (message_type_of (rmq.message_type a))
  /\ MQMessage.traceContext m' = rmq.trace_context a
  /\ MQMessage.getBody m' = match rmq.body_encoding a with
                            | rmq.IDENTITY => rmq.body item
                            | rmq.GZIP => snd (UtilAll.uncompress zlib (rmq.body item) "")
                            | rmq.Encoding_unrecognized _ => MQMessage.getBody m
                            end
  /\ MQMessage.getProperties m' = rmq.user_attribute item.
Proof.
  intros Hp. unfold wrapMessage. destruct (negb _); [done|]. intros _.
  destruct (wrap_tail_spec now item (wrap_times item (wrap_body zlib item (wrap_head item m))))
    as (Ht & -> & -> & -> & -> & Hty & -> & ->).
  destruct (wrap_times_spec item (wrap_body zlib item (wrap_head item m))) as (Hm & Htype & ->).
  rewrite Hm in Ht. injection Ht as H1 H2 H3 H4 H5 H6. injection Hm as _ _ _ _ _ Hb.
  rewrite Hty, Htype, H1, H2, H3, H4, H5, Hb. unfold wrap_body.
  destruct (rmq.body_encoding (rmq.system_attribute item)); destruct m as [[? ? sa ?] ? ?]; destruct sa;
    cbn in Hp; subst; cbn -[union]; rewrite (left_id_L ∅ (∪)); done.
Qed.

Section results.
Context (fresh : MQMessage.t).

(** What a message decodes to, if it is accepted. *)
Definition decoded (now : Z) (m : MQMessage.t) (item : rmq.Message) : option MQMessage.t :=
  if BodyDigest.body_digest_match zlib_crc32 MD5 SHA1 (rmq.body item)
       (rmq.body_digest (rmq.system_attribute item))
  then Some (wrap_tail now item (wrap_times item (wrap_body zlib item (wrap_head item m)))) else None.

Lemma wrapMessage_decoded now item m h :
  match decoded now m item with
  | Some m' => wrapMessage zlib_crc32 MD5 SHA1 zlib now item m h = (true, m', record_latency now m' h)
  | None => fst (fst (wrapMessage zlib_crc32 MD5 SHA1 zlib now item m h)) = false
            /\ snd (wrapMessage zlib_crc32 MD5 SHA1 zlib now item m h) = h
  end.
Proof. unfold decoded, wrapMessage. by destruct (BodyDigest.body_digest_match _ _ _ _ _). Qed.

Lemma wrap_messages_omap now host items h :
  fst (wrap_messages zlib_crc32 MD5 SHA1 zlib fresh now host items h)
    = omap (decoded now (MessageAccessor.setTargetEndpoint host fresh)) items.
Proof.
  revert h. induction items as [|item items IH]; intros h; cbn [wrap_messages omap list_omap]; [done|].
  pose proof (wrapMessage_decoded now item (MessageAccessor.setTargetEndpoint host fresh) h) as H.
  destruct (decoded now _ item) as [m'|] eqn:E.
  - rewrite H. specialize (IH (record_latency now m' h)).
    destruct (wrap_messages _ _ _ _ _ _ _ _ _) as [l h'']. cbn in *. by rewrite IH.
  - destruct (wrapMessage _ _ _ _ _ _ _ _) as [[ok m'] h']. cbn in H. destruct H as [-> ->].
    specialize (IH h). destruct (wrap_messages _ _ _ _ _ _ _ _ _) as [l h'']. cbn in *. by rewrite IH.
Qed.

Lemma pull_messages_spec now items acc h :
  let '(status, msgs, _) := pull_messages zlib_crc32 MD5 SHA1 zlib fresh now items acc h in
  (status = ReceiveMessageStatus.OK /\ map Some msgs = map Some acc ++ map (decoded now fresh) items)
  \/ (status = ReceiveMessageStatus.DATA_CORRUPTED
      /\ exists good bad rest, items = good ++ bad :: rest /\ decoded now fresh bad = None
         /\ map Some msgs = map Some acc ++ map (decoded now fresh) good).
Proof.
  revert acc h. induction items as [|item items IH]; intros acc h; cbn [pull_messages].
  { left. by rewrite app_nil_r. }
  pose proof (wrapMessage_decoded now item fresh h) as H.
  destruct (decoded now fresh item) as [m'|] eqn:E.
  - rewrite H. cbn [negb]. specialize (IH (acc ++ [m']) (record_latency now m' h)).
    destruct (pull_messages _ _ _ _ _ _ _ _ _) as [[st msgs] h'].
    rewrite map_app, <- app_assoc in IH. cbn [map app] in IH |- *. rewrite E.
    destruct IH as [[-> ->]|(-> & good & bad & rest & -> & Hb & ->)]; [by left|right].
    split; [done|]. exists (item :: good), bad, rest. cbn. rewrite E. by rewrite <- ?app_assoc.
  - destruct (wrapMessage _ _ _ _ _ _ _ _) as [[ok m'] h']. cbn in H. destruct H as [-> ->]. cbn [negb].
    right. split; [done|]. exists [], item, items. cbn. by rewrite app_nil_r.
Qed.

(** A pop delivers, in order, exactly the messages of an OK response that pass the
    digest check, and none otherwise; a pull delivers every message up to the first
    corrupted one and reports the corruption. *)
Theorem received_messages now host r p h :
  ReceiveMessageResult.messages_ (fst (processPopResult zlib_crc32 MD5 SHA1 zlib fresh now host r h))
    = (if decide (rmq.code (rmq.receive_common r) = OK)
       then omap (decoded now (MessageAccessor.setTargetEndpoint host fresh)) (rmq.messages r) else [])
  /\ let res := fst (processPullResult zlib_crc32 MD5 SHA1 zlib fresh now host p h) in
     (rmq.code (rmq.pull_common p) <> OK ->
        ReceiveMessageResult.status_ res = ReceiveMessageStatus.INTERNAL /\ ReceiveMessageResult.messages_ res = [])
     /\ (rmq.code (rmq.pull_common p) = OK ->
          (ReceiveMessageResult.status_ res = ReceiveMessageStatus.OK
             /\ map Some (ReceiveMessageResult.messages_ res) = map (decoded now fresh) (rmq.pull_messages p))
          \/ (ReceiveMessageResult.status_ res = ReceiveMessageStatus.DATA_CORRUPTED
             /\ exists good bad rest, rmq.pull_messages p = good ++ bad :: rest /\ decoded now fresh bad = None
                /\ map Some (ReceiveMessageResult.messages_ res) = map (decoded now fresh) good)).
Proof.
  split.
  - unfold processPopResult, pop_status. pose proof (wrap_messages_omap now host (rmq.messages r) h) as H.
    destruct (rmq.code (rmq.receive_common r)); cbn; try done.
    destruct (wrap_messages _ _ _ _ _ _ _ _ _) as [l h']. cbn in *. done.
  - cbn zeta. unfold processPullResult. split.
    + intros Hc. rewrite bool_decide_eq_false_2 by done. done.
    + intros Hc. rewrite bool_decide_eq_true_2 by done. cbn [negb].
      pose proof (pull_messages_spec now (rmq.pull_messages p) [] h) as H.
      destruct (pull_messages _ _ _ _ _ _ _ _ _) as [[st msgs] h']. exact H.
Qed.
End results.
End decode.

(** ** A concrete message *)
Definition toy_crc32 (s : string) : Z := u32 (Z.of_nat (String.length s)).
Definition toy_attribute : rmq.SystemAttribute :=
  rmq.mkSystemAttribute "TagA" ["key"]%string "0001" (rmq.mkDigest rmq.CRC32 "00000005") rmq.IDENTITY rmq.NORMAL
    (Some (rmq.mkTimestamp 10 0)) "host" None "store" rmq.TIMED_DELIVERY_NOT_SET "handle" 3 42 None 1
    (rmq.mkResource "" "group") "" "".
Definition toy_message : rmq.Message :=
  rmq.mkMessage (rmq.mkResource "" "TopicTest") {["k"%string := "v"%string]} toy_attribute "hello".
Definition toy_fresh : MQMessage.t := MQMessage.make "host" 0 "id" None "" "" "" "".

Lemma wrapMessage_integrity_witness :
  let '(ok, _, h') := Decode.wrapMessage toy_crc32 (fun _ => None) (fun _ => []) toy_zlib 0 toy_message
                        toy_fresh (Histogram.make "" 11) in
  (ok = true <-> rmq.body toy_message = ""%string
                 \/ intact toy_crc32 (fun _ => None) (fun _ => []) "hello" "HELLO" rmq.CRC32)
  /\ (ok = false -> h' = Histogram.make "" 11).
Proof.
  refine (wrapMessage_integrity toy_crc32 (fun _ => None) (fun _ => []) toy_zlib _ _ _ 0 toy_message
           toy_fresh (Histogram.make "" 11) "HELLO" "00000005" _ _); [|done|by intros|vm_compute; reflexivity|reflexivity].
  intros s. apply u32_range.
Defined.
