(* ===== verification/ClientManager.v ===== *)
(** * The client manager: RPC clients, remote calls and their completions.

    [ClientManagerImpl] (client/ClientManagerImpl.cpp), its [RpcClientImpl] table,
    [InvocationContext] (base/include/InvocationContext.h) and
    [ClientManagerFactory] (client/ClientManagerFactory.cpp).

    A remote call is modelled by the invocation context it is issued with and by the
    function that maps its completion, a gRPC status and a response, to the invocation
    of the caller's callback; [None] stands for a callback that is not invoked.
    [getRpcClient] never returns null, so the branches that test for it are left out. *)

From S2P Require Import Prelude Types Message MixAll Proto Config Codec Route Concurrency.

(** ** Issuing a call *)

(** [deadline] is a time in milliseconds, [None] when the call has no deadline. *)
Record InvocationContext := mkInvocationContext {
  remote_address : string;
  context_metadata : Metadata;
  deadline : option Z;
}.

(** What a completed call brings: whether the gRPC status is OK, and the response. *)
Record Completion (T : Type) := mkCompletion { status_ok : bool; response : T }.
Arguments mkCompletion {T} _ _.
Arguments status_ok {T} _.
Arguments response {T} _.

(** [BaseInvocationContext()]: the request id is the first header. *)
Definition BaseInvocationContext (request_id : string) : Metadata :=
  {[MetadataConstants.REQUEST_ID_KEY := request_id]}.

Section issue.
Context (request_id target_host : string) (metadata : Metadata) (now timeout : Z).

Let with_metadata : Metadata := metadata ∪ BaseInvocationContext request_id.

Definition healthCheck_context := mkInvocationContext target_host with_metadata (Some (now + timeout)).
Definition heartbeat_context := mkInvocationContext target_host with_metadata (Some (now + timeout)).
(** [send] sets no deadline. *)
Definition send_context := mkInvocationContext target_host with_metadata None.
Definition resolveRoute_context := mkInvocationContext target_host with_metadata (Some (now + timeout)).
Definition queryAssignment_context := mkInvocationContext target_host with_metadata (Some (now + timeout)).
Definition receiveMessage_context := mkInvocationContext target_host with_metadata (Some (now + timeout)).
Definition ack_context := mkInvocationContext target_host with_metadata (Some (now + timeout)).
Definition nack_context := mkInvocationContext target_host with_metadata (Some (now + timeout)).
Definition endTransaction_context := mkInvocationContext target_host with_metadata (Some (now + timeout)).
Definition multiplexingCall_context := mkInvocationContext target_host with_metadata (Some (now + timeout)).
(** [queryOffset] does not add the metadata it is given. *)
Definition queryOffset_context :=
  mkInvocationContext target_host (BaseInvocationContext request_id) (Some (now + timeout)).
Definition pullMessage_context := mkInvocationContext target_host with_metadata (Some (now + timeout)).
Definition forwardMessageToDeadLetterQueue_context :=
  mkInvocationContext target_host with_metadata (Some (now + timeout)).
End issue.

(** ** Completions

    The error code handed to the callback, by status and response code. *)

Definition healthCheck_ec (ok : bool) (c : Code) : option error_code :=
  if negb ok then Some RequestTimeout
  else match c with
       | OK => Some Success
       | UNAUTHENTICATED => Some Unauthorized
       | PERMISSION_DENIED => Some Forbidden
       | INTERNAL => Some InternalServerError
       | _ => Some NotImplemented
       end.

(** The [default] branch only logs. *)
Definition heartbeat_ec (ok : bool) (c : Code) : option error_code :=
  if negb ok then Some RequestTimeout
  else match c with
       | OK => Some Success
       | UNAUTHENTICATED => Some Unauthorized
       | PERMISSION_DENIED => Some Forbidden
       | INVALID_ARGUMENT => Some BadRequest
       | INTERNAL => Some InternalServerError
       | _ => None
       end.

(** [SendCallback]: [inl] is [onFailure], [inr] is [onSuccess].  [manager] is the state of
    the manager, if it still exists. *)
Definition send_completion (manager : option State) (x : Completion rmq.SendMessageResponse)
    : option (error_code + SendResult.t) :=
  match manager with
  | None => None
  | Some st =>
      if negb (bool_decide (st = STARTED)) then None
      else if negb (status_ok x) then Some (inl RequestTimeout)
      else match rmq.code (rmq.send_common (response x)) with
           | OK =>
               Some (inr (SendResult.setTransactionId (rmq.send_transaction_id (response x))
                           (SendResult.setMsgId (rmq.send_message_id (response x))
                             (SendResult.setSendStatus SEND_OK SendResult.empty))))
           | INVALID_ARGUMENT => Some (inl BadRequest)
           | UNAUTHENTICATED => Some (inl Unauthorized)
           | PERMISSION_DENIED => Some (inl Forbidden)
           | INTERNAL => Some (inl InternalServerError)
           | _ => Some (inl NotImplemented)
           end
  end.

Definition resolveRoute_ec (ok : bool) (c : Code) : option error_code :=
  if negb ok then Some RequestTimeout
  else match c with
       | OK => Some Success
       | UNAUTHENTICATED => Some Unauthorized
       | PERMISSION_DENIED => Some Forbidden
       | INVALID_ARGUMENT => Some BadRequest
       | NOT_FOUND => Some NotFound
       | INTERNAL => Some InternalServerError
       | _ => Some NotImplemented
       end.

(** The callback of [resolveRoute] also receives the route, only on success. *)
Definition resolveRoute_completion (debug_string : string) (x : Completion rmq.QueryRouteResponse)
    : option (error_code * option TopicRouteData.t) :=
  ec ← resolveRoute_ec (status_ok x) (rmq.code (rmq.route_common (response x)));
  Some (ec, if bool_decide (ec = Success)
            then Some (TopicRouteData.of_response debug_string (rmq.partitions (response x))) else None).

Definition queryAssignment_ec (ok : bool) (c : Code) : option error_code :=
  if negb ok then Some RequestTimeout
  else match c with
       | OK => Some Success
       | UNAUTHENTICATED => Some Unauthorized
       | PERMISSION_DENIED => Some Forbidden
       | INVALID_ARGUMENT => Some BadRequest
       | INTERNAL => Some InternalServerError
       | _ => Some NotImplemented
       end.

Definition receiveMessage_ec (ok : bool) (c : Code) : option error_code :=
  if ok then
    match c with
    | OK => Some Success
    | UNAUTHENTICATED => Some Unauthorized
    | PERMISSION_DENIED => Some Forbidden
    | INVALID_ARGUMENT => Some BadRequest
    | DEADLINE_EXCEEDED => Some GatewayTimeout
    | INTERNAL => Some InternalServerError
    | _ => Some NotImplemented
    end
  else Some RequestTimeout.

Definition ack_ec (ok : bool) (c : Code) : option error_code :=
  if negb ok then Some RequestTimeout
  else match c with
       | OK => Some Success
       | UNAUTHENTICATED => Some Unauthorized
       | PERMISSION_DENIED => Some Forbidden
       | INVALID_ARGUMENT => Some BadRequest
       | INTERNAL => Some InternalServerError
       | _ => Some NotImplemented
       end.

Definition nack_ec (ok : bool) (c : Code) : option error_code :=
  if negb ok then Some RequestTimeout
  else match c with
       | OK => Some Success
       | UNAUTHENTICATED => Some Unauthorized
       | PERMISSION_DENIED => Some Forbidden
       | INTERNAL => Some InternalServerError
       | _ => Some NotImplemented
       end.

Definition endTransaction_ec (ok : bool) (c : Code) : option error_code :=
  if negb ok then Some BadRequest
  else match c with
       | OK => Some Success
       | UNAUTHENTICATED => Some Unauthorized
       | PERMISSION_DENIED => Some Forbidden
       | INTERNAL => Some InternalServerError
       | _ => Some NotImplemented
       end.

Definition queryOffset_ec (ok : bool) (c : Code) : option error_code :=
  if negb ok then Some RequestTimeout
  else match c with
       | OK => Some Success
       | UNAUTHENTICATED => Some Unauthorized
       | PERMISSION_DENIED => Some Forbidden
       | INTERNAL => Some InternalServerError
       | _ => Some NotImplemented
       end.

(** [notifyClientTermination] is synchronous and returns its code. *)
Definition notifyClientTermination_ec (ok : bool) (c : Code) : error_code :=
  if negb ok then RequestTimeout
  else match c with
       | OK => Success
       | INTERNAL => InternalServerError
       | UNAUTHENTICATED => Unauthorized
       | PERMISSION_DENIED => Forbidden
       | _ => NotImplemented
       end.

(** [multiplexingCall], [pullMessage] and [forwardMessageToDeadLetterQueue] hand the
    completed invocation context to the callback unchanged. *)
Definition multiplexingCall_completion (x : Completion rmq.MultiplexingResponse) := Some x.
Definition pullMessage_completion (x : Completion rmq.PullMessageResponse) := Some x.
Definition forwardMessageToDeadLetterQueue_completion (x : Completion rmq.ResponseCommon) := Some x.

(** The receive callback: [inl] is [onFailure], [inr] is [onSuccess]. *)
Section receive.
Context (zlib_crc32 : string -> Z) (MD5 : string -> option (list Z)) (SHA1 : string -> list Z)
  (zlib : Zlib) (fresh : MQMessage.t).

Definition receiveMessage_completion (now : Z) (target_host : string)
    (x : Completion rmq.ReceiveMessageResponse) (h : Histogram.t)
    : option (error_code + ReceiveMessageResult.t) * Histogram.t :=
  match receiveMessage_ec (status_ok x) (rmq.code (rmq.receive_common (response x))) with
  | Some Success =>
      let '(r, h) := Decode.processPopResult zlib_crc32 MD5 SHA1 zlib fresh now target_host (response x) h in
      (Some (inr r), h)
  | Some ec => (Some (inl ec), h)
  | None => (None, h)
  end.
End receive.

(** ** The clients a manager serves

    The [Client] interface (client/include/Client.h), as the manager uses it. *)
Class Client (C : Type) := {
  active : C -> bool;
  endpointsInUse : C -> gset string;
  onRemoteEndpointRemoval : list string -> C -> C;
  healthCheck : C -> C;
  heartbeat : C -> C;
}.

(** ** RpcClientImpl and the table of RPC clients *)

(** A channel is identified by the number of its creation; [ok()] asks gRPC for its
    connectivity. *)
Record RpcClientImpl := mkRpcClient { channel_ : nat; need_heartbeat_ : bool }.

#[export] Instance RpcClientImpl_eq_dec : EqDecision RpcClientImpl.
Proof. solve_decision. Defined.

Module ClientManagerImpl.
Section manager.
Context {C : Type} `{!Client C}.

(** [clients_] holds weak pointers, [None] once expired; [channels] counts the channels
    created so far; a task id of zero means none. *)
Record t := mk {
  resource_namespace_ : string;
  state_ : State;
  clients_ : list (option C);
  rpc_clients_ : gmap string RpcClientImpl;
  channels : nat;
  latency_histogram_ : Histogram.t;
  health_check_task_id_ : Z;
  heartbeat_task_id_ : Z;
  stats_task_id_ : Z;
}.

Definition latency_labels : list string :=
  ["[000ms~020ms): "; "[020ms~040ms): "; "[040ms~060ms): "; "[060ms~080ms): "; "[080ms~100ms): ";
   "[100ms~120ms): "; "[120ms~140ms): "; "[140ms~160ms): "; "[160ms~180ms): "; "[180ms~200ms): ";
   "[200ms~inf): "].

Definition assignLabels (h : Histogram.t) : Histogram.t :=
  Histogram.mk (Histogram.title_ h) (Histogram.data_ h) (Histogram.capacity_ h)
    (Histogram.labels_ h ++ latency_labels).

Definition make (resource_namespace : string) : t :=
  mk resource_namespace CREATED [] ∅ 0 (assignLabels (Histogram.make "Message-Latency" 11)) 0 0 0.

Definition set_state (st : State) (s : t) : t :=
  mk (resource_namespace_ s) st (clients_ s) (rpc_clients_ s) (channels s) (latency_histogram_ s)
     (health_check_task_id_ s) (heartbeat_task_id_ s) (stats_task_id_ s).
Definition set_clients (l : list (option C)) (s : t) : t :=
  mk (resource_namespace_ s) (state_ s) l (rpc_clients_ s) (channels s) (latency_histogram_ s)
     (health_check_task_id_ s) (heartbeat_task_id_ s) (stats_task_id_ s).
Definition set_rpc_clients (m : gmap string RpcClientImpl) (n : nat) (s : t) : t :=
  mk (resource_namespace_ s) (state_ s) (clients_ s) m n (latency_histogram_ s)
     (health_check_task_id_ s) (heartbeat_task_id_ s) (stats_task_id_ s).
Definition set_histogram (h : Histogram.t) (s : t) : t :=
  mk (resource_namespace_ s) (state_ s) (clients_ s) (rpc_clients_ s) (channels s) h
     (health_check_task_id_ s) (heartbeat_task_id_ s) (stats_task_id_ s).
Definition set_tasks (hc hb st : Z) (s : t) : t :=
  mk (resource_namespace_ s) (state_ s) (clients_ s) (rpc_clients_ s) (channels s) (latency_histogram_ s) hc hb st.

(** *** Lifecycle: the components it starts and stops, in order *)
Inductive effect :=
  | PoolStart | PoolShutdown | SchedulerStart | SchedulerShutdown
  | ScheduleTask (name : string) (delay interval : Z) | CancelTask (id : Z)
  | PollerStart | CompletionQueueShutdown | PollerJoin.

(** [ids] are the task ids the scheduler returns. *)
Definition start (ids : Z * Z * Z) (s : t) : t * list effect :=
  if negb (bool_decide (state_ s = CREATED)) then (s, [])
  else
    let '(hc, hb, st) := ids in
    (set_state STARTED (set_tasks hc hb st s),
     [PoolStart; SchedulerStart; ScheduleTask "health-check-task" 5000 5000;
      ScheduleTask "heartbeat-task" 1000 10000; PollerStart; ScheduleTask "stats-task" 0 10000]).

Definition cancel_if (id : Z) : list effect := if id =? 0 then [] else [CancelTask id].

Definition shutdown (s : t) : t * list effect :=
  if negb (bool_decide (state_ s = STARTED)) then (s, [])
  else
    (set_state STOPPED (set_rpc_clients ∅ (channels s) s),
     [PoolShutdown] ++ cancel_if (health_check_task_id_ s) ++ cancel_if (heartbeat_task_id_ s)
       ++ cancel_if (stats_task_id_ s) ++ [SchedulerShutdown; CompletionQueueShutdown; PollerJoin]).

Definition addClientObserver (client : option C) (s : t) : t := set_clients (clients_ s ++ [client]) s.

(** *** The table of RPC clients; [ok] is gRPC's view of a channel *)
Definition getRpcClient (ok : nat -> bool) (target_host : string) (need_heartbeat : bool) (s : t)
    : RpcClientImpl * t :=
  let '(client, m, n) :=
    match rpc_clients_ s !! target_host with
    | Some c => if negb (ok (channel_ c))
                then let c' := mkRpcClient (channels s) need_heartbeat in
                     (c', <[target_host := c']> (rpc_clients_ s), S (channels s))
                else (c, rpc_clients_ s, channels s)
    | None => let c' := mkRpcClient (channels s) need_heartbeat in
              (c', <[target_host := c']> (rpc_clients_ s), S (channels s))
    end in
  if need_heartbeat && negb (need_heartbeat_ client) then
    let client := mkRpcClient (channel_ client) need_heartbeat in
    (client, set_rpc_clients (<[target_host := client]> m) n s)
  else (client, set_rpc_clients m n s).

Definition addRpcClient (target_host : string) (c : RpcClientImpl) (s : t) : t :=
  set_rpc_clients (<[target_host := c]> (rpc_clients_ s)) (channels s) s.

Definition cleanRpcClients (s : t) : t := set_rpc_clients ∅ (channels s) s.

(** The endpoints that a live client uses. *)
Definition hosts_in_use (s : t) : gset string :=
  foldr (fun c acc => match c with Some c => endpointsInUse c ∪ acc | None => acc end) ∅ (clients_ s).

Definition offline (hosts : gset string) (entry : string * RpcClientImpl) : bool :=
  need_heartbeat_ (snd entry) && negb (bool_decide (fst entry ∈ hosts)).

Definition cleanOfflineRpcClients (s : t) : list string * t :=
  let hosts := hosts_in_use s in
  let removed := (List.filter (offline hosts) (map_to_list (rpc_clients_ s))).*1 in
  (removed, set_rpc_clients (filter (fun e => offline hosts e = false) (rpc_clients_ s)) (channels s) s).

(** *** Periodic tasks *)
Definition running (s : t) : bool :=
  negb (negb (bool_decide (state_ s = STARTED)) && negb (bool_decide (state_ s = STARTING))).

(** The clients [f] is applied to: the live ones that are active. *)
Definition each_active (f : C -> C) (l : list (option C)) : list (option C) :=
  map (fun c => match c with
                | Some c => Some (if active c then f c else c)
                | None => None
                end) l.

Definition doHealthCheck (s : t) : t :=
  if negb (running s) then s
  else
    let '(removed, s) := cleanOfflineRpcClients s in
    set_clients
      (each_active (fun c => healthCheck (if bool_decide (removed = []) then c
                                          else onRemoteEndpointRemoval removed c)) (clients_ s)) s.

Definition doHeartbeat (s : t) : t :=
  if negb (running s) then s else set_clients (each_active heartbeat (clients_ s)) s.

(** [pollCompletionQueue]: a completed call is handed to the callback pool. *)
Definition on_completed {task} (callback : task) (pool : ThreadPoolImpl.t task) : ThreadPoolImpl.t task :=
  ThreadPoolImpl.submit callback pool.

Definition logStats (s : t) : string * t :=
  let '(stats, h) := Histogram.reportAndReset (latency_histogram_ s) in (stats, set_histogram h s).

End manager.
Arguments t : clear implicits.
End ClientManagerImpl.

(** ** ClientManagerFactory

    The table maps a namespace to a weak pointer; a manager is its identity. *)
Module ClientManagerFactory.

Record t := mk { client_manager_table_ : gmap string nat; managers : nat }.

(** [alive] tells whether a manager still has an owner; a new manager gets the next
    identity. *)
Definition getClientManager (alive : nat -> bool) (resource_namespace : string) (f : t) : nat * t :=
  match client_manager_table_ f !! resource_namespace with
  | Some m => if alive m then (m, f)
              else (managers f, mk (<[resource_namespace := managers f]> (delete resource_namespace (client_manager_table_ f)))
                                   (S (managers f)))
  | None => (managers f, mk (<[resource_namespace := managers f]> (client_manager_table_ f)) (S (managers f)))
  end.

Definition addClientManager (resource_namespace : string) (m : nat) (f : t) : t :=
  mk (<[resource_namespace := m]> (client_manager_table_ f)) (managers f).

End ClientManagerFactory.

(** ** Properties *)

(** The outcome of a send reaches the caller exactly once as long as the manager is
    started, as a success carrying the ids of the response exactly when the server
    accepted the message; after that the callback is never invoked. *)
Theorem send_completion_correct manager x :
  match send_completion manager x with
  | None => manager <> Some STARTED
  | Some (inr r) =>
      manager = Some STARTED /\ status_ok x = true /\ rmq.code (rmq.send_common (response x)) = OK
      /\ SendResult.message_id_ r = rmq.send_message_id (response x)
      /\ SendResult.transaction_id_ r = rmq.send_transaction_id (response x)
  | Some (inl ec) =>
      manager = Some STARTED /\ ec_bool ec = true
      /\ ~ (status_ok x = true /\ rmq.code (rmq.send_common (response x)) = OK)
  end.
Proof.
  unfold send_completion. destruct manager as [[]|]; cbn; try congruence.
  destruct (status_ok x); cbn; [|split_and!; try done; by intros [? ?]].
  destruct (rmq.code (rmq.send_common (response x))) eqn:E; cbn; split_and!; try done;
    intros [_ ?]; congruence.
Qed.

(** Every remote call carries the headers signed for it and ends by its deadline,
    except that a send has no deadline and an offset query is sent without the headers. *)
Theorem call_contexts request_id target_host metadata now timeout :
  metadata !! MetadataConstants.REQUEST_ID_KEY = None ->
  Forall (fun f => let ctx := f request_id target_host metadata now timeout in
            remote_address ctx = target_host /\ metadata ⊆ context_metadata ctx
            /\ context_metadata ctx !! MetadataConstants.REQUEST_ID_KEY = Some request_id
            /\ deadline ctx = Some (now + timeout))
    [healthCheck_context; heartbeat_context; resolveRoute_context; queryAssignment_context;
     receiveMessage_context; ack_context; nack_context; endTransaction_context; multiplexingCall_context;
     pullMessage_context; forwardMessageToDeadLetterQueue_context]
  /\ metadata ⊆ context_metadata (send_context request_id target_host metadata)
  /\ deadline (send_context request_id target_host metadata) = None
  /\ (forall k, k <> MetadataConstants.REQUEST_ID_KEY ->
        context_metadata (queryOffset_context request_id target_host now timeout) !! k = None).
Proof.
  intros Hn. split_and!.
  - assert (H : metadata ⊆ metadata ∪ BaseInvocationContext request_id) by apply map_union_subseteq_l.
    assert (H2 : (metadata ∪ BaseInvocationContext request_id) !! MetadataConstants.REQUEST_ID_KEY = Some request_id).
    { rewrite lookup_union_r by done. apply lookup_singleton_eq. }
    repeat constructor; done.
  - apply map_union_subseteq_l.
  - done.
  - intros k Hk. by apply lookup_singleton_ne.
Qed.

Lemma call_contexts_witness :
  let metadata : Metadata := {[MetadataConstants.DATE_TIME_KEY := "20210425T090219Z"%string]} in
  deadline (send_context "id" "ipv4:10.0.0.1:8081" metadata) = None.
Proof.
  intros metadata.
  apply (call_contexts "id" "ipv4:10.0.0.1:8081" metadata 0 3000). vm_compute. reflexivity.
Defined.

Section manager_properties.
Import ClientManagerImpl.
Context {C : Type} `{!Client C}.
Implicit Type s : ClientManagerImpl.t C.

Lemma hosts_in_use_spec s h :
  h ∈ hosts_in_use s <-> exists c, Some c ∈ clients_ s /\ h ∈ endpointsInUse c.
Proof.
  unfold hosts_in_use. induction (clients_ s) as [|[c|] l IH]; cbn.
  - split; [done|]. intros (c & Hc & _). by apply not_elem_of_nil in Hc.
  - rewrite elem_of_union, IH. split.
    + intros [H|(c' & H1 & H2)]; [exists c; split; [left|done]|exists c'; split; [by right|done]].
    + intros (c' & H1 & H2). apply elem_of_cons in H1 as [[= ->]|H1]; [by left|right; eauto].
  - rewrite IH. split; intros (c & H1 & H2).
    + exists c. split; [by right|done].
    + apply elem_of_cons in H1 as [?|H1]; [done|eauto].
Qed.

(** The periodic clean-up removes an RPC client exactly when it serves heartbeats and
    no live client uses its host; it reports the hosts it removed, each once, keeps every
    other entry, and so never cuts off a host in use. *)
Theorem cleanOfflineRpcClients_correct s :
  let '(removed, s') := cleanOfflineRpcClients s in
  (forall h, h ∈ removed <->
     exists c, rpc_clients_ s !! h = Some c /\ need_heartbeat_ c = true
       /\ ~ exists x, Some x ∈ clients_ s /\ h ∈ endpointsInUse x)
  /\ NoDup removed
  /\ (forall h, rpc_clients_ s' !! h = if decide (h ∈ removed) then None else rpc_clients_ s !! h)
  /\ clients_ s' = clients_ s.
Proof.
  unfold cleanOfflineRpcClients. set (hosts := hosts_in_use s).
  set (removed := (List.filter (offline hosts) (map_to_list (rpc_clients_ s))).*1).
  assert (Hmem : forall h, h ∈ removed <-> exists c, rpc_clients_ s !! h = Some c /\ offline hosts (h, c) = true).
  { intros h. unfold removed. rewrite list_elem_of_fmap. split.
    - intros ([h' c] & -> & Hin). apply list_elem_of_In, filter_In in Hin as [Hin Ho].
      exists c. split; [|done]. by apply elem_of_map_to_list, list_elem_of_In.
    - intros (c & Hc & Ho). exists (h, c). split; [done|]. apply list_elem_of_In, filter_In.
      split; [|done]. by apply list_elem_of_In, elem_of_map_to_list. }
  split_and!; [| | |done].
  - intros h. rewrite Hmem. unfold offline. cbn. split.
    + intros (c & Hc & Ho). apply andb_true_iff in Ho as [Hn Hb].
      apply negb_true_iff, bool_decide_eq_false in Hb. exists c. split_and!; [done..|].
      intros Hx. by apply Hb, hosts_in_use_spec.
    + intros (c & Hc & Hn & Hx). exists c. split; [done|]. rewrite Hn. cbn.
      apply negb_true_iff, bool_decide_eq_false. intros Hh. by apply Hx, hosts_in_use_spec.
  - unfold removed. clear Hmem removed. pose proof (NoDup_fst_map_to_list (rpc_clients_ s)) as Hn.
    revert Hn. induction (map_to_list (rpc_clients_ s)) as [|[h c] l IH]; cbn; [constructor|].
    intros [Hh Hl]%NoDup_cons. destruct (offline hosts (h, c)); cbn; [|by apply IH].
    apply NoDup_cons. split; [|by apply IH]. intros Hin. apply Hh.
    apply list_elem_of_fmap in Hin as (y & -> & Hy). apply list_elem_of_In, filter_In in Hy as [Hy _].
    apply list_elem_of_fmap. exists y. split; [done|by apply list_elem_of_In].
  - intros h. cbn. destruct (decide (h ∈ removed)) as [Hin|Hin].
    + apply map_lookup_filter_None. right. intros c Hc Ho. apply Hmem in Hin as (c' & Hc' & Ho').
      rewrite Hc in Hc'. injection Hc' as <-. by rewrite Ho' in Ho.
    + destruct (rpc_clients_ s !! h) as [c|] eqn:E.
      * apply map_lookup_filter_Some. split; [done|]. apply not_true_is_false. intros Ho.
        apply Hin, Hmem. eauto.
      * apply map_lookup_filter_None. by left.
Qed.

(** Asking for the RPC client of a host yields the one in the table, which is reused
    while its channel is alive and replaced by a fresh channel otherwise; a client once
    used for heartbeats stays so; other hosts are not affected. *)
Theorem getRpcClient_correct ok host need s :
  let '(c, s') := getRpcClient ok host need s in
  rpc_clients_ s' !! host = Some c
  /\ (forall h, h <> host -> rpc_clients_ s' !! h = rpc_clients_ s !! h)
  /\ (need = true -> need_heartbeat_ c = true)
  /\ (forall c0, rpc_clients_ s !! host = Some c0 -> ok (channel_ c0) = true ->
        channel_ c = channel_ c0 /\ (need_heartbeat_ c0 = true -> need_heartbeat_ c = true))
  /\ ((forall c0, rpc_clients_ s !! host = Some c0 -> ok (channel_ c0) = false) -> channel_ c = channels s)
  /\ state_ s' = state_ s.
Proof.
  unfold getRpcClient. destruct (rpc_clients_ s !! host) as [[ch nh]|] eqn:E.
  - cbn [channel_ need_heartbeat_]. destruct (ok ch) eqn:Eo; cbn [negb].
    + assert (Hch : (forall c0, Some (mkRpcClient ch nh) = Some c0 -> ok (channel_ c0) = false) -> ch = channels s).
      { intros H. specialize (H _ eq_refl). cbn in H. congruence. }
      destruct need, nh; cbn; split_and!; try done;
        try (intros c0 [= <-]; done); try (by rewrite lookup_insert_eq);
        intros h Hh; by rewrite lookup_insert_ne.
    + destruct need; cbn; split_and!; try done; try (by rewrite lookup_insert_eq);
        try (intros h Hh; by rewrite lookup_insert_ne); intros c0 [= <-]; cbn; congruence.
  - destruct need; cbn; split_and!; try done; try (by rewrite lookup_insert_eq);
      intros h Hh; by rewrite lookup_insert_ne.
Qed.

(** After a shutdown no RPC client is left, every periodic task of the manager has
    been cancelled, and further health checks and heartbeats do nothing; a manager
    starts and stops at most once. *)
Theorem manager_lifecycle ids s :
  state_ s = CREATED ->
  let '(s1, started) := start ids s in
  let '(s2, stopped) := shutdown s1 in
  state_ s1 = STARTED /\ state_ s2 = STOPPED /\ rpc_clients_ s2 = ∅
  /\ (forall id, id ∈ [fst (fst ids); snd (fst ids); snd ids] -> id <> 0 -> CancelTask id ∈ stopped)
  /\ doHealthCheck s2 = s2 /\ doHeartbeat s2 = s2
  /\ start ids s2 = (s2, []) /\ shutdown s2 = (s2, []) /\ start ids s1 = (s1, []).
Proof.
  intros Hs. unfold start at 1. rewrite bool_decide_eq_true_2 by done. destruct ids as [[hc hb] st]. cbn [negb].
  unfold shutdown at 1. cbn [state_ set_state bool_decide negb].
  rewrite bool_decide_eq_true_2 by done. cbn [negb]. split_and!; try done.
  intros id Hid Hne. cbn [fst snd] in Hid.
  assert (Hc : forall x, x <> 0 -> CancelTask x ∈ cancel_if x).
  { intros x Hx. unfold cancel_if. rewrite (proj2 (Z.eqb_neq x 0)) by done. by apply list_elem_of_singleton. }
  cbn [health_check_task_id_ heartbeat_task_id_ stats_task_id_ set_state set_tasks].
  rewrite !elem_of_app. rewrite !elem_of_cons in Hid.
  destruct Hid as [->|[->|[->|Hid]]]; [..|by apply not_elem_of_nil in Hid].
  - right. left. by apply Hc.
  - right. right. left. by apply Hc.
  - right. right. right. left. by apply Hc.
Qed.
End manager_properties.

(** A client reduced to the hosts it uses. *)
#[export] Instance toy_client : Client (gset string) := {|
  active := fun _ => true;
  endpointsInUse := fun c => c;
  onRemoteEndpointRemoval := fun _ c => c;
  healthCheck := fun c => c;
  heartbeat := fun c => c;
|}.

Lemma manager_lifecycle_witness :
  let s : ClientManagerImpl.t (gset string) := ClientManagerImpl.make "ns" in
  let '(s1, _) := ClientManagerImpl.start (1, 2, 3) s in
  let '(s2, _) := ClientManagerImpl.shutdown s1 in
  ClientManagerImpl.state_ s2 = STOPPED.
Proof. apply (manager_lifecycle (1, 2, 3) (ClientManagerImpl.make "ns") eq_refl). Defined.
