(* ===== verification/RemoteCalls.v ===== *)
(** * Remote calls from issue to completion.

    [RpcClientImpl] (client/RpcClientImpl.cpp) starts a call on the completion queue with
    its invocation context as the tag; gRPC completes it; [pollCompletionQueue]
    (client/ClientManagerImpl.cpp) hands the tag to the callback pool; a worker runs
    [InvocationContext::onCompletion] (base/include/InvocationContext.h), which invokes the
    callback and deletes the context.  The operations of [ClientManagerImpl] that make a
    remote call are here in full: the RPC client they take, the context they fill and the
    callback they install, whose mapping of codes is in ClientManager.

    The threads interleave: [step] is one critical section of the caller, the network, the
    poller, a worker or the thread that shuts the manager down.  gRPC is a parameter: when
    and how a call completes is chosen by the action.  [None] is a crash of the process or
    an action that is not enabled. *)

From S2P Require Import Prelude Types Message MixAll Proto Config Codec Route Concurrency ClientManager.

Module RemoteCalls.

(** The methods of the service that are called asynchronously. *)
Inductive Method :=
  | QueryRoute | SendMessage | QueryAssignment | ReceiveMessage | AckMessage | NackMessage | Heartbeat
  | HealthCheck | EndTransaction | MultiplexingCall | QueryOffset | PullMessage | ForwardMessageToDeadLetterQueue.

(** [HealthCheckRequest] is sent empty by the client. *)
Definition request_of (m : Method) : Type :=
  match m with
  | QueryRoute => rmq.QueryRouteRequest
  | SendMessage => rmq.SendMessageRequest
  | QueryAssignment => rmq.QueryAssignmentRequest
  | ReceiveMessage => rmq.ReceiveMessageRequest
  | AckMessage => rmq.AckMessageRequest
  | NackMessage | ForwardMessageToDeadLetterQueue => rmq.NackMessageRequest
  | Heartbeat => rmq.HeartbeatRequest
  | HealthCheck => unit
  | EndTransaction => rmq.EndTransactionRequest
  | MultiplexingCall => rmq.MultiplexingRequest
  | QueryOffset => rmq.QueryOffsetRequest
  | PullMessage => rmq.PullMessageRequest
  end.

(** The responses that only carry their common part are that part. *)
Definition response_of (m : Method) : Type :=
  match m with
  | QueryRoute => rmq.QueryRouteResponse
  | SendMessage => rmq.SendMessageResponse
  | QueryAssignment => rmq.QueryAssignmentResponse
  | ReceiveMessage => rmq.ReceiveMessageResponse
  | MultiplexingCall => rmq.MultiplexingResponse
  | QueryOffset => rmq.QueryOffsetResponse
  | PullMessage => rmq.PullMessageResponse
  | AckMessage | NackMessage | Heartbeat | HealthCheck | EndTransaction | ForwardMessageToDeadLetterQueue =>
      rmq.ResponseCommon
  end.

(** A response nothing was read into. *)
Definition common_default : rmq.ResponseCommon := rmq.mkResponseCommon OK "".
Definition response_default (m : Method) : response_of m :=
  match m with
  | QueryRoute => rmq.mkQueryRouteResponse common_default []
  | SendMessage => rmq.mkSendMessageResponse common_default "" ""
  | QueryAssignment => rmq.mkQueryAssignmentResponse common_default []
  | ReceiveMessage => rmq.mkReceiveMessageResponse common_default [] None None
  | MultiplexingCall => rmq.MULTIPLEXING_TYPE_NOT_SET
  | QueryOffset => rmq.mkQueryOffsetResponse common_default 0
  | PullMessage => rmq.mkPullMessageResponse common_default 0 0 0 []
  | AckMessage | NackMessage | Heartbeat | HealthCheck | EndTransaction | ForwardMessageToDeadLetterQueue =>
      common_default
  end.

Section calls.
Context {C R : Type} `{!Client C}.

(** [R] is what a caller's callback is told; [throws] says which of its invocations end
    with an exception. *)
Context (throws : R -> bool).

(** zlib, the digests, the text form of a route response and a fresh message. *)
Context (zlib_crc32 : string -> Z) (MD5 : string -> option (list Z)) (SHA1 : string -> list Z)
  (zlib : Zlib) (fresh : MQMessage.t) (DebugString : rmq.QueryRouteResponse -> string).

Abbreviation manager_t := (ClientManagerImpl.t C).

(** ** Invocation contexts *)

(** A callback: the manager afterwards and what it tells the caller. *)
Definition callback_of (m : Method) : Type := manager_t -> Completion (response_of m) -> manager_t * list R.

Record call := mkCall {
  method : Method;
  request : request_of method;
  rpc_client : RpcClientImpl;
  context : InvocationContext;
  callback : option (callback_of method);
  result : option (Completion (response_of method));
}.

(** [new InvocationContext<T>]: status OK and an empty response until gRPC writes them. *)
Definition completion_of (c : call) : Completion (response_of (method c)) :=
  default (mkCompletion true (response_default (method c))) (result c).

(** What gRPC writes into the context when the call is over. *)
Definition answered (x : forall m, Completion (response_of m)) (c : call) : call :=
  mkCall (method c) (request c) (rpc_client c) (context c) (callback c) (Some (x (method c))).
Definition unanswered (c : call) : call :=
  mkCall (method c) (request c) (rpc_client c) (context c) (callback c) None.

Definition invoke (c : call) (m : manager_t) : manager_t * list R :=
  match callback c with Some f => f m (completion_of c) | None => (m, []) end.

(** [onCompletion]: an exception of the callback is caught unless the call is dead. *)
Definition onCompletion (ok : bool) (c : call) (m : manager_t) : option (manager_t * list R) :=
  let '(m, told) := invoke c m in
  if negb ok then (if existsb throws told then None else Some (m, told)) else Some (m, told).

(** ** The state *)

(** The calls are numbered in the order of their issue.  [contexts] are the invocation
    contexts on the heap, [flying] the calls gRPC works on, [completed] what
    the completion queue holds.  [dropped], [reports] and [issued] record the history: the
    tags refused by the pool, what each deleted context told its caller, and the calls as
    they were issued. *)
Record t := mk {
  manager : manager_t;
  contexts : gmap nat call;
  flying : list nat;
  completed : list (nat * bool);
  queue_shutdown : bool;
  pool : ThreadPoolImpl.t (nat * bool);
  dropped : list nat;
  reports : list (nat * (call * list R));
  issued : list call;
}.

(** A manager that has started: its pool has a worker. *)
Definition ready (m : manager_t) : t :=
  mk m ∅ [] [] false (ThreadPoolImpl.worker_up ThreadPoolImpl.make) [] [] [].

Definition set_manager (m : manager_t) (s : t) : t :=
  mk m (contexts s) (flying s) (completed s) (queue_shutdown s) (pool s) (dropped s) (reports s) (issued s).
Definition set_pool (p : ThreadPoolImpl.t (nat * bool)) (s : t) : t :=
  mk (manager s) (contexts s) (flying s) (completed s) (queue_shutdown s) p (dropped s) (reports s) (issued s).

(** ** RpcClientImpl *)

(** Prepare, [StartCall] and [Finish] with the context as the tag.  gRPC allows no new call
    on a queue that was shut down. *)
Definition async (c : call) (s : t) : option t :=
  if queue_shutdown s then None
  else let n := length (issued s) in
       Some (mk (manager s) (<[n := c]> (contexts s)) (flying s ++ [n]) (completed s) (queue_shutdown s) (pool s)
               (dropped s) (reports s) (issued s ++ [c])).

Section stubs.
Context (client : RpcClientImpl).

Definition asyncQueryRoute (r : rmq.QueryRouteRequest) (ctx : InvocationContext) (cb : callback_of QueryRoute) :=
  async (mkCall QueryRoute r client ctx (Some cb) None).
Definition asyncSend (r : rmq.SendMessageRequest) (ctx : InvocationContext) (cb : callback_of SendMessage) :=
  async (mkCall SendMessage r client ctx (Some cb) None).
Definition asyncQueryAssignment (r : rmq.QueryAssignmentRequest) (ctx : InvocationContext) (cb : callback_of QueryAssignment) :=
  async (mkCall QueryAssignment r client ctx (Some cb) None).
Definition asyncReceive (r : rmq.ReceiveMessageRequest) (ctx : InvocationContext) (cb : callback_of ReceiveMessage) :=
  async (mkCall ReceiveMessage r client ctx (Some cb) None).
Definition asyncAck (r : rmq.AckMessageRequest) (ctx : InvocationContext) (cb : callback_of AckMessage) :=
  async (mkCall AckMessage r client ctx (Some cb) None).
Definition asyncNack (r : rmq.NackMessageRequest) (ctx : InvocationContext) (cb : callback_of NackMessage) :=
  async (mkCall NackMessage r client ctx (Some cb) None).
Definition asyncHeartbeat (r : rmq.HeartbeatRequest) (ctx : InvocationContext) (cb : callback_of Heartbeat) :=
  async (mkCall Heartbeat r client ctx (Some cb) None).
Definition asyncHealthCheck (ctx : InvocationContext) (cb : callback_of HealthCheck) :=
  async (mkCall HealthCheck () client ctx (Some cb) None).
Definition asyncEndTransaction (r : rmq.EndTransactionRequest) (ctx : InvocationContext) (cb : callback_of EndTransaction) :=
  async (mkCall EndTransaction r client ctx (Some cb) None).
Definition asyncMultiplexingCall (r : rmq.MultiplexingRequest) (ctx : InvocationContext) (cb : callback_of MultiplexingCall) :=
  async (mkCall MultiplexingCall r client ctx (Some cb) None).
Definition asyncQueryOffset (r : rmq.QueryOffsetRequest) (ctx : InvocationContext) (cb : callback_of QueryOffset) :=
  async (mkCall QueryOffset r client ctx (Some cb) None).
Definition asyncPull (r : rmq.PullMessageRequest) (ctx : InvocationContext) (cb : callback_of PullMessage) :=
  async (mkCall PullMessage r client ctx (Some cb) None).
Definition asyncForwardMessageToDeadLetterQueue (r : rmq.NackMessageRequest) (ctx : InvocationContext)
    (cb : callback_of ForwardMessageToDeadLetterQueue) :=
  async (mkCall ForwardMessageToDeadLetterQueue r client ctx (Some cb) None).
End stubs.

(** ** The remote operations of ClientManagerImpl *)

(** The arguments every operation has, with what it reads of its environment: gRPC's view
    of the channels, the clock and the next unique identifier. *)
Record site := mkSite {
  target_host : string;
  metadata : Metadata;
  timeout : Z;
  now : Z;
  request_id : string;
  channel_ok : nat -> bool;
}.

(** Take the RPC client of the host, and issue the call with it. *)
Definition with_client (i : site) (need_heartbeat : bool) (issue : RpcClientImpl -> t -> option t) (s : t) : option t :=
  let '(client, m) := ClientManagerImpl.getRpcClient (channel_ok i) (target_host i) need_heartbeat (manager s) in
  issue client (set_manager m s).

(** Tell the caller, when there is something to tell. *)
Definition tell {A} (x : option A) (f : A -> R) : list R := match x with Some a => [f a] | None => [] end.

Definition healthCheck (i : site) (cb : error_code -> Completion rmq.ResponseCommon -> R) : t -> option t :=
  with_client i true (fun client =>
    asyncHealthCheck client (healthCheck_context (request_id i) (target_host i) (metadata i) (now i) (timeout i))
      (fun m x => (m, tell (healthCheck_ec (status_ok x) (rmq.code (response x))) (fun ec => cb ec x)))).

Definition heartbeat (i : site) (r : rmq.HeartbeatRequest) (cb : error_code -> rmq.ResponseCommon -> R) : t -> option t :=
  with_client i true (fun client =>
    asyncHeartbeat client r (heartbeat_context (request_id i) (target_host i) (metadata i) (now i) (timeout i))
      (fun m x => (m, tell (heartbeat_ec (status_ok x) (rmq.code (response x))) (fun ec => cb ec (response x))))).

Definition send (i : site) (r : rmq.SendMessageRequest) (cb : error_code + SendResult.t -> R) : t -> option t :=
  with_client i true (fun client =>
    asyncSend client r (send_context (request_id i) (target_host i) (metadata i))
      (fun m x => (m, tell (send_completion (Some (ClientManagerImpl.state_ m)) x) cb))).

Definition resolveRoute (i : site) (r : rmq.QueryRouteRequest) (cb : error_code * option TopicRouteData.t -> R) : t -> option t :=
  with_client i false (fun client =>
    asyncQueryRoute client r (resolveRoute_context (request_id i) (target_host i) (metadata i) (now i) (timeout i))
      (fun m x => (m, tell (resolveRoute_completion (DebugString (response x)) x) cb))).

Definition queryAssignment (i : site) (r : rmq.QueryAssignmentRequest) (cb : error_code -> rmq.QueryAssignmentResponse -> R)
    : t -> option t :=
  with_client i true (fun client =>
    asyncQueryAssignment client r (queryAssignment_context (request_id i) (target_host i) (metadata i) (now i) (timeout i))
      (fun m x => (m, tell (queryAssignment_ec (status_ok x) (rmq.code (rmq.assignment_common (response x))))
                        (fun ec => cb ec (response x))))).

(** [processPopResult] counts the latencies of the messages in the manager's histogram;
    [decoded] is the time it runs. *)
Definition receiveMessage (i : site) (r : rmq.ReceiveMessageRequest) (decoded : Z)
    (cb : error_code + ReceiveMessageResult.t -> R) : t -> option t :=
  with_client i true (fun client =>
    asyncReceive client r (receiveMessage_context (request_id i) (target_host i) (metadata i) (now i) (timeout i))
      (fun m x =>
         let '(told, h) := receiveMessage_completion zlib_crc32 MD5 SHA1 zlib fresh decoded (target_host i) x
                             (ClientManagerImpl.latency_histogram_ m) in
         (ClientManagerImpl.set_histogram h m, tell told cb))).

Definition ack (i : site) (r : rmq.AckMessageRequest) (cb : error_code -> R) : t -> option t :=
  with_client i true (fun client =>
    asyncAck client r (ack_context (request_id i) (target_host i) (metadata i) (now i) (timeout i))
      (fun m x => (m, tell (ack_ec (status_ok x) (rmq.code (response x))) cb))).

Definition nack (i : site) (r : rmq.NackMessageRequest) (cb : error_code -> R) : t -> option t :=
  with_client i true (fun client =>
    asyncNack client r (nack_context (request_id i) (target_host i) (metadata i) (now i) (timeout i))
      (fun m x => (m, tell (nack_ec (status_ok x) (rmq.code (response x))) cb))).

Definition endTransaction (i : site) (r : rmq.EndTransactionRequest) (cb : error_code -> rmq.ResponseCommon -> R)
    : t -> option t :=
  with_client i true (fun client =>
    asyncEndTransaction client r (endTransaction_context (request_id i) (target_host i) (metadata i) (now i) (timeout i))
      (fun m x => (m, tell (endTransaction_ec (status_ok x) (rmq.code (response x))) (fun ec => cb ec (response x))))).

Definition multiplexingCall (i : site) (r : rmq.MultiplexingRequest) (cb : Completion rmq.MultiplexingResponse -> R)
    : t -> option t :=
  with_client i true (fun client =>
    asyncMultiplexingCall client r
      (multiplexingCall_context (request_id i) (target_host i) (metadata i) (now i) (timeout i))
      (fun m x => (m, tell (multiplexingCall_completion x) cb))).

Definition queryOffset (i : site) (r : rmq.QueryOffsetRequest) (cb : error_code -> rmq.QueryOffsetResponse -> R)
    : t -> option t :=
  with_client i true (fun client =>
    asyncQueryOffset client r (queryOffset_context (request_id i) (target_host i) (now i) (timeout i))
      (fun m x => (m, tell (queryOffset_ec (status_ok x) (rmq.code (rmq.offset_common (response x))))
                        (fun ec => cb ec (response x))))).

Definition pullMessage (i : site) (r : rmq.PullMessageRequest) (cb : Completion rmq.PullMessageResponse -> R)
    : t -> option t :=
  with_client i true (fun client =>
    asyncPull client r (pullMessage_context (request_id i) (target_host i) (metadata i) (now i) (timeout i))
      (fun m x => (m, tell (pullMessage_completion x) cb))).

Definition forwardMessageToDeadLetterQueue (i : site) (r : rmq.NackMessageRequest) (cb : Completion rmq.ResponseCommon -> R)
    : t -> option t :=
  with_client i true (fun client =>
    asyncForwardMessageToDeadLetterQueue client r
      (forwardMessageToDeadLetterQueue_context (request_id i) (target_host i) (metadata i) (now i) (timeout i))
      (fun m x => (m, tell (forwardMessageToDeadLetterQueue_completion x) cb))).

(** The operations as data. *)
Inductive op :=
  | HealthCheckOp (cb : error_code -> Completion rmq.ResponseCommon -> R)
  | HeartbeatOp (r : rmq.HeartbeatRequest) (cb : error_code -> rmq.ResponseCommon -> R)
  | SendOp (r : rmq.SendMessageRequest) (cb : error_code + SendResult.t -> R)
  | ResolveRouteOp (r : rmq.QueryRouteRequest) (cb : error_code * option TopicRouteData.t -> R)
  | QueryAssignmentOp (r : rmq.QueryAssignmentRequest) (cb : error_code -> rmq.QueryAssignmentResponse -> R)
  | ReceiveMessageOp (r : rmq.ReceiveMessageRequest) (decoded : Z) (cb : error_code + ReceiveMessageResult.t -> R)
  | AckOp (r : rmq.AckMessageRequest) (cb : error_code -> R)
  | NackOp (r : rmq.NackMessageRequest) (cb : error_code -> R)
  | EndTransactionOp (r : rmq.EndTransactionRequest) (cb : error_code -> rmq.ResponseCommon -> R)
  | MultiplexingCallOp (r : rmq.MultiplexingRequest) (cb : Completion rmq.MultiplexingResponse -> R)
  | QueryOffsetOp (r : rmq.QueryOffsetRequest) (cb : error_code -> rmq.QueryOffsetResponse -> R)
  | PullMessageOp (r : rmq.PullMessageRequest) (cb : Completion rmq.PullMessageResponse -> R)
  | ForwardOp (r : rmq.NackMessageRequest) (cb : Completion rmq.ResponseCommon -> R).

Definition perform (i : site) (o : op) : t -> option t :=
  match o with
  | HealthCheckOp cb => healthCheck i cb
  | HeartbeatOp r cb => heartbeat i r cb
  | SendOp r cb => send i r cb
  | ResolveRouteOp r cb => resolveRoute i r cb
  | QueryAssignmentOp r cb => queryAssignment i r cb
  | ReceiveMessageOp r decoded cb => receiveMessage i r decoded cb
  | AckOp r cb => ack i r cb
  | NackOp r cb => nack i r cb
  | EndTransactionOp r cb => endTransaction i r cb
  | MultiplexingCallOp r cb => multiplexingCall i r cb
  | QueryOffsetOp r cb => queryOffset i r cb
  | PullMessageOp r cb => pullMessage i r cb
  | ForwardOp r cb => forwardMessageToDeadLetterQueue i r cb
  end.

(** ** The threads *)

(** gRPC ends the [k]-th call it works on; [ok] false is a dead call, whose context gRPC
    leaves alone. *)
Definition complete (k : nat) (ok : bool) (x : forall m, Completion (response_of m)) (s : t) : option t :=
  n ← flying s !! k;
  Some (mk (manager s) (if ok then alter (answered x) n (contexts s) else contexts s) (delete k (flying s))
          (completed s ++ [(n, ok)]) (queue_shutdown s) (pool s) (dropped s) (reports s) (issued s)).

(** One turn of the loop of [pollCompletionQueue]. *)
Definition pollCompletionQueue (s : t) : option t :=
  match completed s with
  | [] => None
  | tag :: l =>
      Some (mk (manager s) (contexts s) (flying s) l (queue_shutdown s) (ThreadPoolImpl.submit tag (pool s))
              (if decide (ThreadPoolImpl.state_ (pool s) = STARTED) then dropped s else dropped s ++ [fst tag])
              (reports s) (issued s))
  end.

(** A worker begins a task, and ends it: [onCompletion], then [delete this]. *)
Definition begin (s : t) : option t := '(p, _) ← ThreadPoolImpl.take (pool s); Some (set_pool p s).
Definition finish (k : nat) (s : t) : option t :=
  '(n, ok) ← ThreadPoolImpl.busy_ (pool s) !! k;
  c ← contexts s !! n;
  '(m, told) ← onCompletion ok c (manager s);
  Some (mk m (delete n (contexts s)) (flying s) (completed s) (queue_shutdown s) (ThreadPoolImpl.done k (pool s))
          (dropped s) (reports s ++ [(n, (c, told))]) (issued s)).

(** [shutdown]: leave [STARTED] and stop the callback pool, ... *)
Definition shutdown_begin (s : t) : option t :=
  if decide (ClientManagerImpl.state_ (manager s) = STARTED) then
    p ← ThreadPoolImpl.shutdown_exchange (pool s);
    Some (set_pool p (set_manager (ClientManagerImpl.set_state STOPPING (manager s)) s))
  else None.
Definition shutdown_pool (s : t) : option t := p ← ThreadPoolImpl.shutdown_stop (pool s); Some (set_pool p s).
Definition shutdown_join (s : t) : option t :=
  if decide (ThreadPoolImpl.state_ (pool s) = STOPPING) then
    p ← ThreadPoolImpl.shutdown_join (pool s); Some (set_pool p s)
  else None.
(** ... then clear the RPC clients and shut the completion queue down, ... *)
Definition shutdown_queue (s : t) : option t :=
  if bool_decide (ThreadPoolImpl.state_ (pool s) = STOPPED) && negb (queue_shutdown s) then
    Some (mk (ClientManagerImpl.cleanRpcClients (manager s)) (contexts s) (flying s) (completed s) true (pool s)
            (dropped s) (reports s) (issued s))
  else None.
(** ... and wait for the poller, which ends when the queue is drained. *)
Definition shutdown_end (s : t) : option t :=
  if queue_shutdown s && bool_decide (ClientManagerImpl.state_ (manager s) = STOPPING)
     && bool_decide (flying s = []) && bool_decide (completed s = [])
  then Some (set_manager (ClientManagerImpl.set_state STOPPED (manager s)) s) else None.

Inductive action :=
  | Perform (i : site) (o : op)
  | Complete (k : nat) (ok : bool) (x : forall m, Completion (response_of m))
  | Poll | Begin | Finish (k : nat)
  | ShutdownBegin | ShutdownPool | ShutdownJoin | ShutdownQueue | ShutdownEnd.

Definition step (a : action) (s : t) : option t :=
  match a with
  | Perform i o => perform i o s
  | Complete k ok x => complete k ok x s
  | Poll => pollCompletionQueue s
  | Begin => begin s
  | Finish k => finish k s
  | ShutdownBegin => shutdown_begin s
  | ShutdownPool => shutdown_pool s
  | ShutdownJoin => shutdown_join s
  | ShutdownQueue => shutdown_queue s
  | ShutdownEnd => shutdown_end s
  end.

Fixpoint run (l : list action) (s : t) : option t :=
  match l with [] => Some s | a :: l' => s' ← step a s; run l' s' end.

(** ** Properties *)

(** Where the calls are. *)
Definition places (s : t) : list nat :=
  flying s ++ map fst (completed s) ++ map fst (ThreadPoolImpl.posted_ (pool s))
    ++ map fst (ThreadPoolImpl.busy_ (pool s)) ++ dropped s ++ map fst (reports s).

(** A callback that leaves the lifecycle of the manager alone. *)
Definition quiet (c : call) : Prop :=
  match callback c with
  | Some f => forall m x, ClientManagerImpl.state_ (fst (f m x)) = ClientManagerImpl.state_ m
  | None => True
  end.

Lemma getRpcClient_state ok host need (m : manager_t) :
  ClientManagerImpl.state_ (snd (ClientManagerImpl.getRpcClient ok host need m)) = ClientManagerImpl.state_ m.
Proof.
  unfold ClientManagerImpl.getRpcClient.
  destruct (ClientManagerImpl.rpc_clients_ m !! host) as [c|]; [destruct (negb (ok (channel_ c)))|];
    destruct need; cbn; try done; by destruct (negb _).
Qed.

(** Every operation is the issue of one fresh call. *)
Lemma perform_async i o s :
  exists c m, perform i o s = async c (set_manager m s) /\ quiet c /\ result c = None
    /\ ClientManagerImpl.state_ m = ClientManagerImpl.state_ (manager s).
Proof.
  destruct o; cbn [perform];
    unfold healthCheck, heartbeat, send, resolveRoute, queryAssignment, receiveMessage, ack, nack, endTransaction,
      multiplexingCall, queryOffset, pullMessage, forwardMessageToDeadLetterQueue, with_client;
    match goal with |- context [ClientManagerImpl.getRpcClient ?ok ?h ?b ?m] =>
      pose proof (getRpcClient_state ok h b m) as Hm; destruct (ClientManagerImpl.getRpcClient ok h b m) as [client m'] end;
    eexists _, m'; (split; [reflexivity|]); (split; [|split; [reflexivity|exact Hm]]); intros m0 x; try reflexivity.
  cbn. by destruct (receiveMessage_completion _ _ _ _ _ _ _ _ _).
Qed.

Record inv (s : t) : Prop := {
  i_places : seq 0 (length (issued s)) ≡ₚ places s;
  i_contexts n : is_Some (contexts s !! n) <-> (n < length (issued s))%nat /\ n ∉ map fst (reports s);
  i_issued n c : contexts s !! n = Some c -> issued s !! n = Some (unanswered c) /\ quiet c;
  i_reports n c told : (n, (c, told)) ∈ reports s ->
    issued s !! n = Some (unanswered c) /\ exists m, told = snd (invoke c m);
  i_started : ClientManagerImpl.state_ (manager s) = STARTED ->
    dropped s = [] /\ queue_shutdown s = false
    /\ ThreadPoolImpl.state_ (pool s) = STARTED /\ ThreadPoolImpl.stopped_ (pool s) = false;
}.

Lemma inv_ready m : inv (ready m).
Proof.
  split; cbn; [done| | | |done].
  - intros n. rewrite lookup_empty. split; [by intros [? ?]|]. intros [? _]. lia.
  - intros n c. by rewrite lookup_empty.
  - intros n c told H. by apply not_elem_of_nil in H.
Qed.

Lemma unanswered_fresh c : result c = None -> unanswered c = c.
Proof. destruct c. cbn. by intros ->. Qed.

Lemma inv_async c s s' :
  inv s -> quiet c -> result c = None -> async c s = Some s' -> inv s'.
Proof.
  intros [H1 H2 H3 H4 H5] Hq Hr. unfold async. destruct (queue_shutdown s) eqn:Eq; [done|]. intros [= <-].
  set (n := length (issued s)) in *.
  split; cbn [issued places contexts reports manager dropped queue_shutdown pool flying completed].
  - rewrite length_app, seq_app. fold n. cbn. rewrite H1. unfold places. cbn. solve_Permutation.
  - intros k. rewrite length_app. cbn. fold n. destruct (decide (k = n)) as [->|Hk].
    + rewrite lookup_insert_eq. split; [|by eauto]. intros _. split; [lia|]. intros Hin.
      assert (Hn : n ∈ seq 0 n). { rewrite H1. unfold places. rewrite !elem_of_app. tauto. }
      apply elem_of_seq in Hn. lia.
    + rewrite lookup_insert_ne by done. rewrite H2. fold n. split; intros [? ?]; (split; [lia|done]).
  - intros k c'. destruct (decide (k = n)) as [->|Hk].
    + rewrite lookup_insert_eq. intros [= <-]. rewrite lookup_app_r by (unfold n; lia). unfold n. rewrite Nat.sub_diag. cbn.
      by rewrite unanswered_fresh.
    + rewrite lookup_insert_ne by done. intros E. destruct (H3 k c' E) as [E1 E2]. split; [|done].
      by apply lookup_app_l_Some.
  - intros k c' told E. destruct (H4 k c' told E) as [E1 E2]. split; [|done]. by apply lookup_app_l_Some.
  - intros Hst. destruct (H5 Hst) as (? & _ & ? & ?). by split_and!.
Qed.

Lemma delete_middle {A} k (l : list A) a : l !! k = Some a -> l ≡ₚ a :: delete k l.
Proof. apply delete_Permutation. Qed.

Lemma inv_complete k ok x s s' : inv s -> complete k ok x s = Some s' -> inv s'.
Proof.
  intros [H1 H2 H3 H4 H5]. unfold complete. destruct (flying s !! k) as [n|] eqn:E; [|done]. cbn. intros [= <-].
  split; cbn [issued places contexts reports manager dropped queue_shutdown pool flying completed]; [| | |done|done].
  - rewrite H1. unfold places. cbn. rewrite (delete_middle k (flying s) n E) at 1. rewrite map_app. cbn. solve_Permutation.
  - intros j. rewrite <- H2. destruct ok; [|done]. by rewrite lookup_alter_is_Some.
  - intros j c. destruct ok; [|apply H3]. intros Ec. apply lookup_alter_Some in Ec as [(-> & c0 & Ec & ->)|(_ & Ec)]; [|by apply H3].
    destruct (H3 _ _ Ec) as [? Hq]. split; [done|]. exact Hq.
Qed.

Lemma inv_poll s s' : inv s -> pollCompletionQueue s = Some s' -> inv s'.
Proof.
  intros [H1 H2 H3 H4 H5]. unfold pollCompletionQueue. destruct (completed s) as [|[n ok] l] eqn:E; [done|]. intros [= <-].
  split; cbn [issued places contexts reports manager dropped queue_shutdown pool flying completed]; [|done|done|done|].
  - rewrite H1. unfold places, ThreadPoolImpl.submit. rewrite E. cbn. destruct (decide _); cbn; rewrite ?map_app; cbn; solve_Permutation.
  - intros Hs. destruct (H5 Hs) as (-> & -> & Hp & Hst). rewrite decide_True by done. unfold ThreadPoolImpl.submit.
    rewrite decide_True by done. cbn. done.
Qed.

Lemma inv_begin s s' : inv s -> begin s = Some s' -> inv s'.
Proof.
  intros [H1 H2 H3 H4 H5]. unfold begin, ThreadPoolImpl.take.
  destruct (ThreadPoolImpl.posted_ (pool s)) as [|x l] eqn:E; [done|].
  destruct (_ || _); [done|]. cbn. intros [= <-].
  split; cbn [set_pool issued places contexts reports manager dropped queue_shutdown pool flying completed]; [|done|done|done|done].
  rewrite H1. unfold places. cbn. rewrite E, map_app. cbn. solve_Permutation.
Qed.

(** A call that waits for its callback still has its context. *)
Lemma context_alive s n :
  inv s -> n ∈ flying s ++ map fst (completed s) ++ map fst (ThreadPoolImpl.posted_ (pool s))
                  ++ map fst (ThreadPoolImpl.busy_ (pool s)) -> is_Some (contexts s !! n).
Proof.
  intros Hs Hn. apply (i_contexts s Hs).
  assert (Hnd : NoDup (places s)) by (rewrite <- (i_places s Hs); apply NoDup_seq).
  assert (Hin : n ∈ places s). { unfold places. rewrite !elem_of_app in *. tauto. }
  split; [rewrite <- (i_places s Hs) in Hin; apply elem_of_seq in Hin; lia|].
  intros Hr. unfold places in Hnd. rewrite !app_assoc in Hnd. apply NoDup_app in Hnd as (_ & Hd & _).
  apply (Hd n); [|exact Hr]. rewrite !elem_of_app in *. tauto.
Qed.

Lemma onCompletion_invoke ok c m m' told :
  onCompletion ok c m = Some (m', told) -> invoke c m = (m', told).
Proof. unfold onCompletion. destruct (invoke c m) as [m1 l]. destruct ok, (existsb throws l); cbn; by intros [= -> ->]. Qed.

Lemma quiet_invoke c m : quiet c -> ClientManagerImpl.state_ (fst (invoke c m)) = ClientManagerImpl.state_ m.
Proof. unfold quiet, invoke. destruct (callback c); [done|]. done. Qed.

Lemma inv_finish k s s' : inv s -> finish k s = Some s' -> inv s'.
Proof.
  intros Hs. pose proof Hs as [H1 H2 H3 H4 H5]. unfold finish.
  destruct (ThreadPoolImpl.busy_ (pool s) !! k) as [[n ok]|] eqn:E; [|done]. cbn [mbind option_bind].
  destruct (contexts s !! n) as [c|] eqn:Ec; [|done]. cbn [mbind option_bind].
  destruct (onCompletion ok c (manager s)) as [[m told]|] eqn:Eo; [|done]. cbn [mbind option_bind]. intros [= <-].
  apply onCompletion_invoke in Eo. destruct (H3 n c Ec) as [Hi Hq].
  assert (Hm : ClientManagerImpl.state_ m = ClientManagerImpl.state_ (manager s)).
  { pose proof (quiet_invoke c (manager s) Hq) as X. by rewrite Eo in X. }
  split; cbn [issued places contexts reports manager dropped queue_shutdown pool flying completed].
  - rewrite H1. unfold places. cbn. rewrite (delete_middle k _ _ E) at 1. rewrite map_app. cbn. solve_Permutation.
  - intros j. rewrite map_app. cbn. rewrite not_elem_of_app, list_elem_of_singleton. destruct (decide (j = n)) as [->|Hj].
    + rewrite lookup_delete_eq. split; [by intros [? ?]|]. intros (_ & _ & []). done.
    + rewrite lookup_delete_ne by done. rewrite H2. tauto.
  - intros j c' Ej. apply lookup_delete_Some in Ej as [_ Ej]. by apply H3.
  - intros j c' l Hin. apply elem_of_app in Hin as [Hin|Hin]; [by apply H4|].
    apply list_elem_of_singleton in Hin as [= -> -> ->]. split; [done|]. exists (manager s). by rewrite Eo.
  - rewrite Hm. intros Hst. destruct (H5 Hst) as (? & ? & ? & ?). by split_and!.
Qed.

Lemma calls_inv_step a s s' : inv s -> step a s = Some s' -> inv s'.
Proof.
  intros Hs. destruct a as [i o|k ok x| | |k| | | | |]; cbn [step];
    [|by apply inv_complete|by apply inv_poll|by apply inv_begin|by apply inv_finish|..].
  - destruct (perform_async i o s) as (c & m & -> & Hq & Hr & Hm). apply inv_async; [|done|done].
    destruct Hs as [H1 H2 H3 H4 H5]. split; cbn; [done..|]. by rewrite Hm.
  - unfold shutdown_begin, ThreadPoolImpl.shutdown_exchange. destruct (decide _); [|done].
    destruct (compare_exchange_strong _ _ _) as [[] st]; [|done]. cbn. intros [= <-]. destruct Hs. by split.
  - unfold shutdown_pool, ThreadPoolImpl.shutdown_stop. destruct (decide _) as [Ep|]; [|done]. cbn. intros [= <-].
    destruct Hs as [H1 H2 H3 H4 H5]. split; [done..|]. cbn. intros Hst. destruct (H5 Hst) as (_ & _ & X & _). congruence.
  - unfold shutdown_join, ThreadPoolImpl.shutdown_join. destruct (decide _) as [Ep|]; [|done].
    destruct (ThreadPoolImpl.stopped_ (pool s)); [|done]. destruct (ThreadPoolImpl.busy_ (pool s)) eqn:Eb; [|done].
    cbn. intros [= <-]. destruct Hs as [H1 H2 H3 H4 H5]. split; [|done..|].
    + rewrite H1. unfold places. cbn. by rewrite Eb.
    + cbn. intros Hst. destruct (H5 Hst) as (_ & _ & X & _). congruence.
  - unfold shutdown_queue. destruct (bool_decide _ && _) eqn:Eb; [|done]. intros [= <-].
    apply andb_true_iff in Eb as [Eb _]. apply bool_decide_eq_true in Eb.
    destruct Hs as [H1 H2 H3 H4 H5]. split; [done..|]. cbn. intros Hst. destruct (H5 Hst) as (_ & _ & X & _). congruence.
  - unfold shutdown_end. destruct (_ && _); [|done]. intros [= <-]. destruct Hs. by split.
Qed.

Lemma calls_inv_run l s s' : inv s -> run l s = Some s' -> inv s'.
Proof.
  revert s. induction l as [|a l IH]; intros s Hs; cbn [run]; [by intros [= <-]|].
  destruct (step a s) as [s1|] eqn:E; cbn; [|done]. apply IH. by eapply calls_inv_step.
Qed.

(** C6: no remote call is lost or answered twice.  In every interleaving of callers,
    network, poller, workers and shutdown, each call ever issued is in exactly one place:
    in flight, in the completion queue, waiting in or executed by the callback pool, refused
    by a pool that is shut down, or reported; its context lives exactly until it is
    reported; a report is what its callback makes of the status and the response; and
    nothing is refused as long as the manager is started. *)
Theorem remote_calls_conserved l m s :
  run l (ready m) = Some s ->
  seq 0 (length (issued s)) ≡ₚ
    flying s ++ map fst (completed s) ++ map fst (ThreadPoolImpl.posted_ (pool s))
      ++ map fst (ThreadPoolImpl.busy_ (pool s)) ++ dropped s ++ map fst (reports s)
  /\ (forall n, is_Some (contexts s !! n) <-> (n < length (issued s))%nat /\ n ∉ map fst (reports s))
  /\ (forall n c told, (n, (c, told)) ∈ reports s ->
        issued s !! n = Some (unanswered c) /\ exists m', told = snd (invoke c m'))
  /\ (ClientManagerImpl.state_ (manager s) = STARTED -> dropped s = []).
Proof.
  intros Hr. destruct (calls_inv_run l _ s (inv_ready m) Hr) as [H1 H2 H3 H4 H5].
  split_and!; [exact H1|exact H2|exact H4|]. intros Hs. exact (proj1 (H5 Hs)).
Qed.

(** *** Every call is answered *)

(** gRPC documents that [Finish] of a client call always comes back with [ok]. *)
Definition legal (a : action) : Prop := match a with Complete _ ok _ => ok = true | _ => True end.

(** The steps that bring calls to an end. *)
Definition internal (a : action) : Prop :=
  match a with Complete _ ok _ => ok = true | Poll | Begin | Finish _ => True | _ => False end.

Definition tags (s : t) : list (nat * bool) :=
  completed s ++ ThreadPoolImpl.posted_ (pool s) ++ ThreadPoolImpl.busy_ (pool s).

Definition work (s : t) : nat :=
  (4 * length (flying s) + 3 * length (completed s) + 2 * length (ThreadPoolImpl.posted_ (pool s))
   + length (ThreadPoolImpl.busy_ (pool s)))%nat.

Lemma tags_step a s s' : legal a -> step a s = Some s' -> Forall (fun x => snd x = true) (tags s) ->
  Forall (fun x => snd x = true) (tags s').
Proof.
  intros Hl Hs Ht. unfold tags in *. destruct a as [i o|k ok x| | |k| | | | |]; cbn [step] in Hs.
  - destruct (perform_async i o s) as (c & m & E & _). rewrite E in Hs. unfold async in Hs. cbn in Hs.
    destruct (queue_shutdown s); [done|]. by injection Hs as <-.
  - unfold complete in Hs. destruct (flying s !! k); [|done]. injection Hs as <-. cbn in *. rewrite Hl.
    rewrite !Forall_app in *. destruct Ht as (? & ? & ?). split_and!; try done. by constructor.
  - unfold pollCompletionQueue, ThreadPoolImpl.submit in Hs. destruct (completed s) as [|x l] eqn:E; [done|].
    injection Hs as <-. cbn. rewrite !Forall_app in *. destruct Ht as (Hc & Hp & Hb). apply Forall_cons in Hc as [Hx Hc].
    destruct (decide _); cbn; split_and!; try done. apply Forall_app. split; [done|]. by constructor.
  - unfold begin, ThreadPoolImpl.take in Hs. destruct (ThreadPoolImpl.posted_ (pool s)) as [|x l]; [done|].
    destruct (_ || _); [done|]. injection Hs as <-. cbn. rewrite !Forall_app in *. destruct Ht as (Hc & Hp & Hb).
    apply Forall_cons in Hp as [Hx Hp]. split_and!; try done. by constructor.
  - unfold finish in Hs. destruct (ThreadPoolImpl.busy_ (pool s) !! k) as [[n ok]|]; [|done]. cbn [mbind option_bind] in Hs.
    destruct (contexts s !! n); [|done]. cbn [mbind option_bind] in Hs. destruct (onCompletion _ _ _) as [[? ?]|]; [|done].
    injection Hs as <-. cbn. rewrite !Forall_app in *. destruct Ht as (Hc & Hp & Hb). split_and!; try done.
    apply Forall_forall. intros y Hy. apply elem_of_delete in Hy. by apply (proj1 (Forall_forall _ _) Hb).
  - unfold shutdown_begin, ThreadPoolImpl.shutdown_exchange in Hs. destruct (decide _); [|done].
    destruct (compare_exchange_strong _ _ _) as [[] ?]; [|done]. by injection Hs as <-.
  - unfold shutdown_pool, ThreadPoolImpl.shutdown_stop in Hs. destruct (decide _); [|done]. by injection Hs as <-.
  - unfold shutdown_join, ThreadPoolImpl.shutdown_join in Hs. destruct (decide _); [|done].
    destruct (ThreadPoolImpl.stopped_ _); [|done]. destruct (ThreadPoolImpl.busy_ (pool s)) eqn:E; [|done].
    injection Hs as <-. cbn. done.
  - unfold shutdown_queue in Hs. destruct (_ && _); [|done]. by injection Hs as <-.
  - unfold shutdown_end in Hs. destruct (_ && _); [|done]. by injection Hs as <-.
Qed.

Lemma tags_run l s s' : Forall legal l -> run l s = Some s' -> Forall (fun x => snd x = true) (tags s) ->
  Forall (fun x => snd x = true) (tags s').
Proof.
  revert s. induction l as [|a l IH]; intros s Hl; cbn [run]; [by intros [= <-]|].
  apply Forall_cons in Hl as [Ha Hl]. destruct (step a s) as [s1|] eqn:E; cbn; [|done]. intros Hr Ht.
  eapply IH; [done|exact Hr|]. by eapply tags_step.
Qed.

Lemma length_delete {A} k (l : list A) a : l !! k = Some a -> length l = S (length (delete k l)).
Proof. intros E. by rewrite (delete_middle k l a E) at 1. Qed.

Lemma internal_decreases a s s' :
  inv s -> internal a -> ClientManagerImpl.state_ (manager s) = STARTED -> step a s = Some s' ->
  (work s' < work s)%nat /\ ClientManagerImpl.state_ (manager s') = STARTED.
Proof.
  intros Hs Hi Hst. destruct (i_started s Hs Hst) as (_ & _ & Hp & _).
  destruct a as [i o|k ok x| | |k| | | | |]; try done; cbn [step]; unfold work.
  - unfold complete. destruct (flying s !! k) eqn:E; [|done]. intros [= <-]. cbn. split; [|done].
    rewrite (length_delete k _ _ E), length_app. cbn. lia.
  - unfold pollCompletionQueue, ThreadPoolImpl.submit. destruct (completed s) as [|x l]; [done|]. intros [= <-]. cbn.
    split; [|done]. destruct (decide _); [|done]. cbn. rewrite length_app. cbn. lia.
  - unfold begin, ThreadPoolImpl.take. destruct (ThreadPoolImpl.posted_ (pool s)) as [|x l]; [done|].
    destruct (_ || _); [done|]. intros [= <-]. cbn. split; [|done]. rewrite length_app. cbn. lia.
  - unfold finish. destruct (ThreadPoolImpl.busy_ (pool s) !! k) as [[n ok]|] eqn:E; [|done]. cbn [mbind option_bind].
    destruct (contexts s !! n) as [c|] eqn:Ec; [|done]. cbn [mbind option_bind].
    destruct (onCompletion ok c (manager s)) as [[m told]|] eqn:Eo; [|done]. intros [= <-]. cbn. split.
    + rewrite (length_delete k _ _ E). lia.
    + apply onCompletion_invoke in Eo. pose proof (quiet_invoke c (manager s) (proj2 (i_issued s Hs n c Ec))) as X.
      rewrite Eo in X. cbn in X. congruence.
Qed.

Lemma internal_enabled s :
  inv s -> Forall (fun x => snd x = true) (tags s) \/ (forall r, throws r = false) ->
  ClientManagerImpl.state_ (manager s) = STARTED ->
  work s <> 0%nat -> exists a s', internal a /\ step a s = Some s'.
Proof.
  intros Hs Ht Hst Hw. destruct (i_started s Hs Hst) as (_ & _ & Hp & Hstop).
  destruct (flying s) as [|n l] eqn:Ef.
  2: { exists (Complete 0 true (fun m => mkCompletion false (response_default m))). eexists. split; [done|].
       cbn [step]. unfold complete. by rewrite Ef. }
  destruct (completed s) as [|x l] eqn:Ec.
  2: { exists Poll. eexists. split; [done|]. cbn [step]. unfold pollCompletionQueue. by rewrite Ec. }
  destruct (ThreadPoolImpl.posted_ (pool s)) as [|x l] eqn:Ep.
  2: { exists Begin. eexists. split; [done|]. cbn [step]. unfold begin, ThreadPoolImpl.take. by rewrite Ep, Hstop, Hp. }
  destruct (ThreadPoolImpl.busy_ (pool s)) as [|[n ok] l] eqn:Eb.
  { unfold work in Hw. rewrite Ef, Ec, Ep, Eb in Hw. done. }
  destruct (context_alive s n Hs) as [c Hc]. { rewrite Eb, Ef, Ec, Ep. cbn. left. }
  destruct (onCompletion ok c (manager s)) as [[m told]|] eqn:Eo.
  - exists (Finish 0). eexists. split; [done|]. cbn [step]. unfold finish. rewrite Eb. cbn [lookup list_lookup mbind option_bind].
    rewrite Hc. cbn [mbind option_bind]. rewrite Eo. done.
  - exfalso. unfold onCompletion in Eo. destruct (invoke c (manager s)) as [m told]. destruct Ht as [Ht|Ht].
    + unfold tags in Ht. rewrite Ec, Ep, Eb in Ht. apply Forall_cons in Ht as [Hok _]. cbn in Hok. by subst ok.
    + destruct ok; [done|]. cbn in Eo. destruct (existsb throws told) eqn:Ex; [|done].
      apply existsb_exists in Ex as (r & _ & Hr). by rewrite Ht in Hr.
Qed.

(** C7: every caller hears of its call.  While the manager is started, as long as some call
    is not reported the network, the poller or a worker can take a step, each such step
    brings the calls closer to their end, and when no step is left every call ever issued
    has been reported exactly once. *)
Theorem remote_calls_complete l m s :
  Forall legal l -> run l (ready m) = Some s -> ClientManagerImpl.state_ (manager s) = STARTED ->
  (work s = 0%nat -> map fst (reports s) ≡ₚ seq 0 (length (issued s)))
  /\ (work s <> 0%nat -> exists a s', internal a /\ step a s = Some s')
  /\ (forall a s', internal a -> step a s = Some s' ->
        (work s' < work s)%nat /\ ClientManagerImpl.state_ (manager s') = STARTED).
Proof.
  intros Hl Hr Hst. pose proof (calls_inv_run l _ s (inv_ready m) Hr) as Hs. split_and!.
  - intros Hw. rewrite (i_places s Hs). unfold places. destruct (i_started s Hs Hst) as (-> & _). unfold work in Hw.
    destruct (flying s), (completed s), (ThreadPoolImpl.posted_ (pool s)), (ThreadPoolImpl.busy_ (pool s)); try done; cbn in Hw; lia.
  - apply internal_enabled; [done| |done]. left. eapply tags_run; [exact Hl|exact Hr|]. constructor.
  - intros a s' Hi. by apply internal_decreases.
Qed.

(** The life of a single call. *)
Lemma single_call m c x :
  exists s, (s1 ← async c (ready m); run [Complete 0 true x; Poll; Begin; Finish 0] s1) = Some s
    /\ reports s = [(0%nat, (answered x c, snd (invoke (answered x c) m)))].
Proof.
  unfold async, ready. cbn [queue_shutdown mbind option_bind run step].
  unfold complete. cbn [flying app lookup list_lookup issued length mbind option_bind].
  unfold pollCompletionQueue, begin, finish. cbn [completed pool dropped reports contexts manager app mbind option_bind].
  assert (E : alter (answered x) 0%nat (<[0%nat:=c]> (∅ : gmap nat call)) !! 0%nat = Some (answered x c)).
  { rewrite lookup_alter_eq, lookup_insert_eq. done. }
  set (h := alter _ _ _) in *. clearbody h.
  change (ThreadPoolImpl.worker_up ThreadPoolImpl.make) with (@ThreadPoolImpl.mk (nat * bool) STARTED false [] []).
  change (ThreadPoolImpl.submit (0%nat, true) (ThreadPoolImpl.mk STARTED false [] []))
    with (ThreadPoolImpl.mk STARTED false [(0%nat, true)] []).
  unfold ThreadPoolImpl.take. cbn [ThreadPoolImpl.posted_ ThreadPoolImpl.stopped_ ThreadPoolImpl.state_ orb].
  change (bool_decide (STARTED = CREATED)) with false. cbn -[onCompletion lookup].
  change ([(0%nat, true)] !! 0%nat) with (Some (0%nat, true)). cbn -[onCompletion lookup].
  rewrite E. cbn [mbind option_bind]. unfold onCompletion. destruct (invoke (answered x c) m) as [m' told].
  eexists. split; [reflexivity|]. reflexivity.
Qed.

(** An operation issued on a fresh machine, completed with [x], polled and reported. *)
Definition one_call (i : site) (o : op) (x : forall m, Completion (response_of m)) : list action :=
  [Perform i o; Complete 0 true x; Poll; Begin; Finish 0].

Lemma one_call_spec m i o x c m' :
  perform i o (ready m) = async c (ready m') ->
  exists s, run (one_call i o x) (ready m) = Some s
    /\ reports s = [(0%nat, (answered x c, snd (invoke (answered x c) m')))].
Proof.
  intros E. destruct (single_call m' c x) as (s & Es & Hr). exists s. split; [|exact Hr].
  change (run (one_call i o x) (ready m)) with (s1 ← perform i o (ready m); run [Complete 0 true x; Poll; Begin; Finish 0] s1).
  by rewrite E.
Qed.

(** A call in flight when the manager shuts down is never answered: the callback pool is
    stopped before the completion queue is drained. *)
Lemma shutdown_strands_calls m i r cb x :
  ClientManagerImpl.state_ m = STARTED ->
  exists s, run [Perform i (SendOp r cb); ShutdownBegin; ShutdownPool; ShutdownJoin; ShutdownQueue;
                 Complete 0 true x; Poll; ShutdownEnd] (ready m) = Some s
    /\ ClientManagerImpl.state_ (manager s) = STOPPED /\ dropped s = [0%nat] /\ reports s = []
    /\ is_Some (contexts s !! 0%nat).
Proof.
  intros Hm. cbn [run step]. destruct (perform_async i (SendOp r cb) (ready m)) as (c & m' & -> & _ & _ & Hs).
  cbn [manager ready] in Hs. rewrite Hm in Hs. unfold async. cbn. unfold shutdown_begin. cbn. rewrite Hs. cbn.
  eexists. split; [reflexivity|]. cbn [manager dropped reports contexts]. split_and!; [reflexivity|reflexivity|reflexivity|].
  apply lookup_alter_is_Some. eexists. reflexivity.
Qed.

(** *** For clients of the machine *)

(** The steps below the operations and the callbacks issue and report nothing. *)
Definition below (a : action) : Prop := match a with Perform _ _ | Finish _ => False | _ => True end.

#[global] Instance below_dec a : Decision (below a).
Proof. destruct a; apply _. Defined.

Lemma step_below a s s' : below a -> step a s = Some s' -> issued s' = issued s /\ reports s' = reports s.
Proof.
  destruct a as [i o|k ok z| | |k| | | | |]; intros Ha; try done; cbn [step].
  - unfold complete. destruct (_ !! k); [|done]. by intros [= <-].
  - unfold pollCompletionQueue. destruct (completed s); [done|]. by intros [= <-].
  - unfold begin. destruct (ThreadPoolImpl.take _) as [[? ?]|]; [|done]. by intros [= <-].
  - unfold shutdown_begin. destruct (decide _); [|done]. destruct (ThreadPoolImpl.shutdown_exchange _); [|done]. by intros [= <-].
  - unfold shutdown_pool. destruct (ThreadPoolImpl.shutdown_stop _); [|done]. by intros [= <-].
  - unfold shutdown_join. destruct (decide _); [|done]. destruct (ThreadPoolImpl.shutdown_join _); [|done]. by intros [= <-].
  - unfold shutdown_queue. destruct (_ && _); [|done]. by intros [= <-].
  - unfold shutdown_end. destruct (_ && _); [|done]. by intros [= <-].
Qed.

(** While the manager is started, a call that was not reported has work left. *)
Lemma context_works s n :
  inv s -> ClientManagerImpl.state_ (manager s) = STARTED -> is_Some (contexts s !! n) -> work s <> 0%nat.
Proof.
  intros Hs Hst [Hlt Hn]%(i_contexts s Hs) Hw.
  assert (Hin : n ∈ places s) by (rewrite <- (i_places s Hs); apply elem_of_seq; lia).
  destruct (i_started s Hs Hst) as (Hd & _). unfold places in Hin. unfold work in Hw. rewrite Hd in Hin.
  destruct (flying s), (completed s), (ThreadPoolImpl.posted_ (pool s)), (ThreadPoolImpl.busy_ (pool s)); try (cbn in Hw; lia).
  by apply Hn.
Qed.

(** They never start the manager. *)
Lemma below_started a s s' :
  below a -> step a s = Some s' -> ClientManagerImpl.state_ (manager s') = STARTED -> ClientManagerImpl.state_ (manager s) = STARTED.
Proof.
  destruct a as [i o|k ok z| | |k| | | | |]; intros Ha; try done; cbn [step].
  - unfold complete. destruct (_ !! k); [|done]. by intros [= <-].
  - unfold pollCompletionQueue. destruct (completed s); [done|]. by intros [= <-].
  - unfold begin. destruct (ThreadPoolImpl.take _) as [[? ?]|]; [|done]. by intros [= <-].
  - unfold shutdown_begin. destruct (decide _); [|done]. destruct (ThreadPoolImpl.shutdown_exchange _); [|done]. by intros [= <-].
  - unfold shutdown_pool. destruct (ThreadPoolImpl.shutdown_stop _); [|done]. by intros [= <-].
  - unfold shutdown_join. destruct (decide _); [|done]. destruct (ThreadPoolImpl.shutdown_join _); [|done]. by intros [= <-].
  - unfold shutdown_queue. destruct (_ && _); [|done]. by intros [= <-].
  - unfold shutdown_end. destruct (_ && _); [|done]. by intros [= <-].
Qed.

(** A client that keeps, for each call under way, an owner its callback belongs to. *)
Section owners.
Context {O : Type} (tag : O -> call -> Prop).

Record tracked (owners : gmap nat O) (s : t) : Prop := {
  t_inv : inv s;
  t_owned k : is_Some (owners !! k) <-> is_Some (contexts s !! k);
  t_tag k c o : issued s !! k = Some c -> owners !! k = Some o -> tag o c;
}.

Lemma tracked_ready m : tracked ∅ (ready m).
Proof. split; [apply inv_ready| |]; cbn; intros k; [|intros c o]; by rewrite !lookup_empty. Qed.

Lemma tracked_async owners s c m s' o :
  tracked owners s -> tag o c -> quiet c -> result c = None -> ClientManagerImpl.state_ m = ClientManagerImpl.state_ (manager s) ->
  async c (set_manager m s) = Some s' ->
  let k := length (issued s) in
  owners !! k = None /\ tracked (<[k := o]> owners) s'.
Proof.
  intros [H1 H2 H3] Ht Hq Hr Hm E k.
  assert (Hk : contexts s !! k = None).
  { apply eq_None_not_Some. rewrite (i_contexts s H1). unfold k. intros [? _]. lia. }
  assert (Ho : owners !! k = None) by (apply eq_None_not_Some; rewrite H2, Hk; by intros [? ?]).
  split; [exact Ho|].
  assert (Hs' : inv s').
  { eapply inv_async; [|exact Hq|exact Hr|exact E]. destruct H1 as [I1 I2 I3 I4 I5]. split; cbn; [done..|]. by rewrite Hm. }
  unfold async in E. cbn in E. destruct (queue_shutdown s); [done|]. injection E as <-. fold k in Hs' |- *. split; [done| |]; cbn.
  - intros j. destruct (decide (k = j)) as [<-|]; [rewrite !lookup_insert_eq; split; intros _; by eexists|].
    by rewrite !lookup_insert_ne.
  - intros j c' o' Ec Eo. destruct (decide (k = j)) as [<-|].
    + rewrite lookup_insert_eq in Eo. injection Eo as <-. rewrite lookup_app_r in Ec by (unfold k; lia).
      unfold k in Ec. rewrite Nat.sub_diag in Ec. by injection Ec as <-.
    + rewrite lookup_insert_ne in Eo by done. apply lookup_app_Some in Ec as [Ec|[Hj Ec]]; [by apply (H3 j)|].
      apply list_lookup_singleton_Some in Ec as [Ec _]. unfold k in *. lia.
Qed.

Lemma tracked_below owners a s s' : tracked owners s -> below a -> step a s = Some s' -> tracked owners s'.
Proof.
  intros [H1 H2 H3] Ha E. pose proof (calls_inv_step a s s' H1 E) as H1'. destruct (step_below a s s' Ha E) as [Ei Er].
  split; [done| |by rewrite Ei]. intros k. rewrite H2, (i_contexts s H1), (i_contexts s' H1'), Ei, Er. done.
Qed.

(** A callback that ends: whose it is, and what it was told. *)
Lemma tracked_finish owners k s s' :
  tracked owners s -> finish k s = Some s' ->
  exists j c o, reports s' = reports s ++ [(j, (c, snd (invoke c (manager s))))] /\ manager s' = fst (invoke c (manager s))
    /\ owners !! j = Some o /\ tag o (unanswered c) /\ tracked (delete j owners) s'
    /\ issued s' = issued s /\ work s = S (work s').
Proof.
  intros [H1 H2 H3] E. pose proof (inv_finish k s s' H1 E) as H1'. unfold finish in E.
  destruct (ThreadPoolImpl.busy_ (pool s) !! k) as [[j ok]|] eqn:Eb; [|done]. cbn [mbind option_bind] in E.
  destruct (contexts s !! j) as [c|] eqn:Ec; [|done]. cbn [mbind option_bind] in E.
  destruct (onCompletion ok c (manager s)) as [[m told]|] eqn:Eo; [|done]. cbn [mbind option_bind] in E. injection E as <-.
  apply onCompletion_invoke in Eo. destruct (proj2 (H2 j) (ex_intro _ c Ec)) as [o Ho].
  exists j, c, o. rewrite Eo. split; [done|]. split; [done|]. split; [done|].
  split; [exact (H3 j _ o (proj1 (i_issued s H1 j c Ec)) Ho)|].
  split; [split; [done| |]|split; [done|]].
  - intros i. cbn. destruct (decide (j = i)) as [<-|]; [rewrite !lookup_delete_eq; split; by intros [? ?]|].
    by rewrite !lookup_delete_ne.
  - intros i c' o' Ei Eo'. apply lookup_delete_Some in Eo' as [_ Eo']. by apply (H3 i).
  - unfold work. cbn. rewrite (length_delete k _ _ Eb). lia.
Qed.

(** A worker with a call can finish it when no callback throws. *)
Lemma finish_enabled owners k s :
  tracked owners s -> (forall r, throws r = false) -> (k < length (ThreadPoolImpl.busy_ (pool s)))%nat -> is_Some (finish k s).
Proof.
  intros Hs Ht Hk. destruct (lookup_lt_is_Some_2 _ k Hk) as [[j ok] Eb].
  destruct (context_alive s j (t_inv _ _ Hs)) as [c Ec].
  { rewrite !elem_of_app. do 3 right. apply list_elem_of_fmap. exists (j, ok). split; [done|]. by eapply list_elem_of_lookup_2. }
  unfold finish. rewrite Eb. cbn [mbind option_bind]. rewrite Ec. cbn [mbind option_bind]. unfold onCompletion.
  destruct (invoke c (manager s)) as [m told]. destruct ok; [by eexists|]. cbn.
  destruct (existsb throws told) eqn:E; [|by eexists]. apply existsb_exists in E as (r & _ & Hr). by rewrite Ht in Hr.
Qed.
End owners.
End calls.

(** ** A call made, answered and reported *)
Definition example_site : site := mkSite "ipv4:10.0.0.1:8081" ∅ 3000 0 "0100" (fun _ => true).
Definition example_manager : ClientManagerImpl.t (gset string) :=
  ClientManagerImpl.set_state STARTED (ClientManagerImpl.make "ns").
Definition example_ack : rmq.AckMessageRequest :=
  rmq.mkAckMessageRequest rmq.Resource_default rmq.Resource_default "client" "handle" "id".
Definition example_answer (m : Method) : Completion (response_of m) := mkCompletion true (response_default m).
Definition example_calls : list (@action error_code) :=
  [Perform example_site (AckOp example_ack id); Perform example_site (AckOp example_ack id);
   Complete 1 true example_answer; Poll; Begin; Finish 0].
Definition example_run (l : list (@action error_code)) (m : ClientManagerImpl.t (gset string))
    : option (@t (gset string) error_code) :=
  run (fun _ => false) toy_crc32 (fun _ => None) (fun _ => []) toy_zlib toy_fresh (fun _ => ""%string) l (ready m).

Definition summary (s : @t (gset string) error_code) : list nat * list (nat * list error_code) * nat * State :=
  (flying s, map (fun e => (fst e, snd (snd e))) (reports s), work s,
   ClientManagerImpl.state_ (manager s)).

Lemma calls_example_outcome :
  option_map summary (example_run example_calls example_manager)
  = Some ([0%nat], [(1%nat, [Success])], 4%nat, STARTED).
Proof. vm_compute. reflexivity. Qed.

Lemma remote_calls_conserved_witness :
  exists s, example_run example_calls example_manager = Some s
    /\ map (fun e => (fst e, snd (snd e))) (reports s) = [(1%nat, [Success])] /\ dropped s = []
    /\ is_Some (contexts s !! 0%nat).
Proof.
  pose proof calls_example_outcome as H. destruct (example_run example_calls example_manager) as [s|] eqn:E; [|discriminate].
  injection H as Hf Hr _ Hs.
  destruct (remote_calls_conserved (fun _ => false) toy_crc32 (fun _ => None) (fun _ => []) toy_zlib toy_fresh (fun _ => ""%string)
              example_calls example_manager s E) as (H1 & H2 & _ & H4).
  exists s. split; [reflexivity|]. split; [exact Hr|]. split; [exact (H4 Hs)|]. apply H2.
  assert (Hn : 0%nat ∈ seq 0 (length (issued s))) by (rewrite H1, Hf; left).
  split; [apply elem_of_seq in Hn; lia|].
  intros Hin. apply list_elem_of_fmap in Hin as (e & He & Hin). assert (Hx : (fst e, snd (snd e)) ∈ [(1%nat, [Success])]).
  { rewrite <- Hr. apply list_elem_of_fmap. exists e. split; [reflexivity|exact Hin]. }
  apply list_elem_of_singleton in Hx. injection Hx as Hx _. congruence.
Defined.

Lemma remote_calls_complete_witness :
  exists s a s', example_run example_calls example_manager = Some s /\ internal a
    /\ step (fun _ => false) toy_crc32 (fun _ => None) (fun _ => []) toy_zlib toy_fresh (fun _ => ""%string) a s = Some s'
    /\ (work s' < work s)%nat.
Proof.
  pose proof calls_example_outcome as H. destruct (example_run example_calls example_manager) as [s|] eqn:E; [|discriminate].
  injection H as _ _ Hw Hs.
  assert (Hl : Forall legal example_calls) by (repeat constructor).
  destruct (remote_calls_complete (fun _ => false) toy_crc32 (fun _ => None) (fun _ => []) toy_zlib toy_fresh (fun _ => ""%string)
              example_calls example_manager s Hl E Hs) as (_ & H2 & H3).
  destruct H2 as (a & s' & Ha & Es); [rewrite Hw; discriminate|]. exists s, a, s'. split; [reflexivity|]. split; [exact Ha|].
  split; [exact Es|]. exact (proj1 (H3 a s' Ha Es)).
Defined.
End RemoteCalls.
