(* ===== verification/RouteCache.v ===== *)
(** * The route table of a client and the coalescing of route queries.

    [ClientImpl::getRouteFor], [fetchRouteFor], [onTopicRouteReady],
    [updateRouteCache], [updateRouteInfo] (rocketmq/ClientImpl.cpp).

    The functions run on different threads and take two locks; each critical section is
    one action of the machine below, and a call that is between two of its critical
    sections is an entry of [entering_], [rpcs_] or [ready_].  A callback is a number,
    its invocation an event. *)

From S2P Require Import Prelude Types Message MixAll Proto Route NameServer.

Module RouteCache.
Section RouteCache.
Context {R : Type} `{!NameServerResolver R}.

Abbreviation callback := nat.

(** [rpcs_]: topics of the route queries sent by [getRouteFor] and not yet answered;
    [refreshes_]: those sent by [updateRouteInfo]; [ready_]: answers of the former whose
    pending callbacks have not been taken yet. *)
Record t := mk {
  topic_route_table_ : gmap string TopicRouteData.t;
  inflight_route_requests_ : gmap string (list callback);
  name_server_resolver_ : R;
  entering_ : list (string * callback);
  rpcs_ : list string;
  ready_ : list (string * error_code * option TopicRouteData.t);
  refreshes_ : list string;
}.

(** A callback is invoked with an error code and a route, or a query is sent. *)
Inductive event :=
  | Invoke (cb : callback) (ec : error_code) (route : option TopicRouteData.t)
  | Query (topic name_server : string).

Definition make (r : R) : t := mk ∅ ∅ r [] [] [] [].

Definition set_table m s := mk m (inflight_route_requests_ s) (name_server_resolver_ s) (entering_ s) (rpcs_ s) (ready_ s) (refreshes_ s).
Definition set_inflight m s := mk (topic_route_table_ s) m (name_server_resolver_ s) (entering_ s) (rpcs_ s) (ready_ s) (refreshes_ s).
Definition set_resolver r s := mk (topic_route_table_ s) (inflight_route_requests_ s) r (entering_ s) (rpcs_ s) (ready_ s) (refreshes_ s).
Definition set_entering l s := mk (topic_route_table_ s) (inflight_route_requests_ s) (name_server_resolver_ s) l (rpcs_ s) (ready_ s) (refreshes_ s).
Definition set_rpcs l s := mk (topic_route_table_ s) (inflight_route_requests_ s) (name_server_resolver_ s) (entering_ s) l (ready_ s) (refreshes_ s).
Definition set_ready l s := mk (topic_route_table_ s) (inflight_route_requests_ s) (name_server_resolver_ s) (entering_ s) (rpcs_ s) l (refreshes_ s).
Definition set_refreshes l s := mk (topic_route_table_ s) (inflight_route_requests_ s) (name_server_resolver_ s) (entering_ s) (rpcs_ s) (ready_ s) l.

Definition updateRouteCache (topic : string) (ec : error_code) (route : option TopicRouteData.t)
    (table : gmap string TopicRouteData.t) : gmap string TopicRouteData.t :=
  match route with
  | None => table
  | Some r =>
      if ec_bool ec || bool_decide (TopicRouteData.partitions_ r = []) then table
      else match table !! topic with
           | None => <[topic := r]> table
           | Some cached => if TopicRouteData.operator_ne cached r then <[topic := r]> table else table
           end
  end.

(** [getRouteFor], first critical section: the table has the route, or the call goes on. *)
Definition getRouteFor (topic : string) (cb : callback) (s : t) : t * list event :=
  match topic_route_table_ s !! topic with
  | Some route => (s, [Invoke cb Success (Some route)])
  | None => (set_entering (entering_ s ++ [(topic, cb)]) s, [])
  end.

(** [fetchRouteFor] up to the query: [None] when there is no name server, in which case
    nothing at all happens. *)
Definition fetchRouteFor (topic : string) (s : t) : option event :=
  let name_server := current (name_server_resolver_ s) in
  if str_empty name_server then None else Some (Query topic name_server).

(** [getRouteFor], second critical section and what follows it. *)
Definition getRouteFor_enter (i : nat) (s : t) : option (t * list event) :=
  match entering_ s !! i with
  | None => None
  | Some (topic, cb) =>
      let s := set_entering (delete i (entering_ s)) s in
      match topic_route_table_ s !! topic with
      | Some route => Some (s, [Invoke cb Success (Some route)])
      | None =>
          match inflight_route_requests_ s !! topic with
          | Some cbs => Some (set_inflight (<[topic := cbs ++ [cb]]> (inflight_route_requests_ s)) s, [])
          | None =>
              let s := set_inflight (<[topic := [cb]]> (inflight_route_requests_ s)) s in
              match fetchRouteFor topic s with
              | None => Some (s, [])
              | Some q => Some (set_rpcs (rpcs_ s ++ [topic]) s, [q])
              end
          end
      end
  end.

(** The callback of [fetchRouteFor]: on an error the resolver moves on and the route is
    dropped. *)
Definition on_fetched (ec : error_code) (route : option TopicRouteData.t) (s : t)
    : t * option TopicRouteData.t :=
  if ec_bool ec then (set_resolver (snd (next (name_server_resolver_ s))) s, None) else (s, route).

(** A query of [getRouteFor] is answered: [onTopicRouteReady] up to [updateRouteCache]. *)
Definition complete (i : nat) (ec : error_code) (route : option TopicRouteData.t) (s : t)
    : option (t * list event) :=
  match rpcs_ s !! i with
  | None => None
  | Some topic =>
      let '(s, route) := on_fetched ec route (set_rpcs (delete i (rpcs_ s)) s) in
      let s := set_table (updateRouteCache topic ec route (topic_route_table_ s)) s in
      Some (set_ready (ready_ s ++ [(topic, ec, route)]) s, [])
  end.

(** The rest of [onTopicRouteReady]: take the pending callbacks and apply them.
    [inflight_route_requests_.at] would throw on a missing entry. *)
Definition deliver (i : nat) (s : t) : option (t * list event) :=
  match ready_ s !! i with
  | None => None
  | Some (topic, ec, route) =>
      match inflight_route_requests_ s !! topic with
      | None => None
      | Some pending =>
          Some (set_ready (delete i (ready_ s)) (set_inflight (delete topic (inflight_route_requests_ s)) s),
                map (fun cb => Invoke cb ec route) pending)
      end
  end.

(** [updateRouteInfo] on one of the topics of the table, and the answer to its query. *)
Definition refresh (topic : string) (s : t) : option (t * list event) :=
  match topic_route_table_ s !! topic with
  | None => None
  | Some _ =>
      match fetchRouteFor topic s with
      | None => Some (s, [])
      | Some q => Some (set_refreshes (refreshes_ s ++ [topic]) s, [q])
      end
  end.
Definition refreshed (i : nat) (ec : error_code) (route : option TopicRouteData.t) (s : t)
    : option (t * list event) :=
  match refreshes_ s !! i with
  | None => None
  | Some topic =>
      let '(s, route) := on_fetched ec route (set_refreshes (delete i (refreshes_ s)) s) in
      Some (set_table (updateRouteCache topic ec route (topic_route_table_ s)) s, [])
  end.

Inductive action :=
  | GetRouteFor (topic : string) (cb : callback)
  | Enter (i : nat)
  | Complete (i : nat) (ec : error_code) (route : option TopicRouteData.t)
  | Deliver (i : nat)
  | Refresh (topic : string)
  | Refreshed (i : nat) (ec : error_code) (route : option TopicRouteData.t).

Definition step (a : action) (s : t) : option (t * list event) :=
  match a with
  | GetRouteFor topic cb => Some (getRouteFor topic cb s)
  | Enter i => getRouteFor_enter i s
  | Complete i ec route => complete i ec route s
  | Deliver i => deliver i s
  | Refresh topic => refresh topic s
  | Refreshed i ec route => refreshed i ec route s
  end.

(** Histories: the callbacks registered, the events, the final state. *)
Inductive steps : t -> list callback -> list event -> t -> Prop :=
  | steps_refl s : steps s [] [] s
  | steps_snoc s regs evs s1 a s2 evs' :
      steps s regs evs s1 -> step a s1 = Some (s2, evs') ->
      steps s (regs ++ match a with GetRouteFor _ cb => [cb] | _ => [] end) (evs ++ evs') s2.

Fixpoint run (l : list action) (s : t) : option (list callback * list event * t) :=
  match l with
  | [] => Some ([], [], s)
  | a :: l' =>
      '(s1, evs) ← step a s;
      '(regs, evs', s2) ← run l' s1;
      Some (match a with GetRouteFor _ cb => [cb] | _ => [] end ++ regs, evs ++ evs', s2)
  end.

(** *** Properties *)

Definition invoked (evs : list event) : list callback :=
  omap (fun e => match e with Invoke cb _ _ => Some cb | Query _ _ => None end) evs.

(** The callbacks that a state still owes an answer. *)
Definition pending (s : t) : list callback :=
  (entering_ s).*2 ++ concat ((map_to_list (inflight_route_requests_ s)).*2).

(** The topics of [getRouteFor] queries under way. *)
Definition under_way (s : t) : list string := rpcs_ s ++ ((ready_ s).*1).*1.

Record wf (s : t) : Prop := {
  (** one query per topic, and only for topics somebody waits for *)
  wf_nodup : NoDup (under_way s);
  wf_inflight topic : topic ∈ under_way s -> is_Some (inflight_route_requests_ s !! topic);
  (** the table never holds an empty route *)
  wf_table : map_Forall (fun _ r => TopicRouteData.partitions_ r <> []) (topic_route_table_ s);
}.

Lemma cache_make_wf r : wf (make r).
Proof. split; cbn; [constructor| |apply map_Forall_empty]. intros topic H. by apply not_elem_of_nil in H. Qed.

Lemma updateRouteCache_nonempty topic ec route m :
  map_Forall (fun _ r => TopicRouteData.partitions_ r <> []) m ->
  map_Forall (fun _ r => TopicRouteData.partitions_ r <> []) (updateRouteCache topic ec route m).
Proof.
  intros Hm. unfold updateRouteCache. destruct route as [r|]; [|done].
  case_bool_decide as Hr; [by rewrite orb_true_r|]. rewrite orb_false_r.
  destruct (ec_bool ec); [done|].
  destruct (m !! topic); [case_match; [|done]|]; by apply map_Forall_insert_2.
Qed.

Lemma on_fetched_frame ec route s :
  let '(s', route') := on_fetched ec route s in
  topic_route_table_ s' = topic_route_table_ s /\ inflight_route_requests_ s' = inflight_route_requests_ s
  /\ entering_ s' = entering_ s /\ rpcs_ s' = rpcs_ s /\ ready_ s' = ready_ s /\ refreshes_ s' = refreshes_ s.
Proof. unfold on_fetched. by destruct (ec_bool ec). Qed.

Lemma under_way_complete i topic s ec route :
  rpcs_ s !! i = Some topic ->
  under_way s ≡ₚ delete i (rpcs_ s) ++ ((ready_ s ++ [(topic, ec, route)]).*1).*1.
Proof.
  intros H. unfold under_way. rewrite !fmap_app. cbn.
  rewrite (delete_Permutation _ _ _ H) at 1. cbn.
  rewrite (Permutation_app_comm ((ready_ s).*1).*1 [topic]). cbn. by rewrite <- Permutation_middle.
Qed.

Lemma under_way_deliver i topic s ec route :
  ready_ s !! i = Some (topic, ec, route) ->
  under_way s ≡ₚ topic :: rpcs_ s ++ ((delete i (ready_ s)).*1).*1.
Proof.
  intros H. unfold under_way.
  assert (E : ((ready_ s).*1).*1 ≡ₚ topic :: ((delete i (ready_ s)).*1).*1).
  { rewrite (delete_Permutation _ _ _ H) at 1. done. }
  rewrite E. by rewrite Permutation_middle.
Qed.

Lemma enter_wf i s s' evs : wf s -> getRouteFor_enter i s = Some (s', evs) -> wf s'.
Proof.
  intros [H1 H2 H3] H. unfold getRouteFor_enter in H.
  destruct (entering_ s !! i) as [[topic cb]|] eqn:E; [|done]. cbn in H.
  destruct (topic_route_table_ s !! topic); [simplify_eq; by split|].
  destruct (inflight_route_requests_ s !! topic) as [cbs|] eqn:Ei.
  { simplify_eq. split; [done| |done]. intros topic' Ht. cbn.
    destruct (decide (topic = topic')) as [->|]; [rewrite lookup_insert_eq; eauto|].
    rewrite lookup_insert_ne by done. by apply H2. }
  assert (Hin : forall topic', topic' ∈ under_way s ->
            is_Some (<[topic:=[cb]]> (inflight_route_requests_ s) !! topic')).
  { intros topic' Ht. destruct (decide (topic = topic')) as [->|]; [rewrite lookup_insert_eq; eauto|].
    rewrite lookup_insert_ne by done. by apply H2. }
  unfold fetchRouteFor in H. cbn in H. destruct (str_empty _); simplify_eq.
  - split; [done|exact Hin|done].
  - assert (HP : (rpcs_ s ++ [topic]) ++ ((ready_ s).*1).*1 ≡ₚ topic :: under_way s).
    { unfold under_way. rewrite <- app_assoc. cbn. by rewrite <- Permutation_middle. }
    split; unfold under_way in *; cbn.
    + rewrite HP. apply NoDup_cons. split; [|done].
      intros Ht. apply H2 in Ht as [x Hx]. congruence.
    + intros topic' Ht. rewrite HP in Ht. apply elem_of_cons in Ht as [->|Ht]; [|by apply Hin].
      rewrite lookup_insert_eq. eauto.
    + done.
Qed.

Lemma cache_step_wf a s s' evs : wf s -> step a s = Some (s', evs) -> wf s'.
Proof.
  intros Hwf H. destruct a as [topic cb|i|i ec route|i|topic|i ec route]; cbn [step] in H.
  - injection H as H. unfold getRouteFor in H. destruct Hwf. destruct (_ !! topic); simplify_eq; by split.
  - by eapply enter_wf.
  - unfold complete in H. destruct (rpcs_ s !! i) as [topic|] eqn:E; [|done].
    pose proof (on_fetched_frame ec route (set_rpcs (delete i (rpcs_ s)) s)) as F.
    destruct (on_fetched _ _ _) as [s1 route1]. destruct F as (F1 & F2 & F3 & F4 & F5 & F6).
    simplify_eq. destruct Hwf as [H1 H2 H3].
    pose proof (under_way_complete i topic s ec route1 E) as HP.
    split; unfold under_way; cbn [rpcs_ ready_ set_ready set_table inflight_route_requests_ topic_route_table_];
      rewrite ?F4, ?F5, ?F2; cbn [rpcs_ set_rpcs ready_ inflight_route_requests_].
    + by rewrite <- HP.
    + intros t Ht. rewrite <- HP in Ht. by apply H2.
    + rewrite F1. by apply updateRouteCache_nonempty.
  - unfold deliver in H. destruct (ready_ s !! i) as [[[topic ec] route]|] eqn:E; [|done].
    destruct (inflight_route_requests_ s !! topic) as [cbs|] eqn:Ei; [|done]. simplify_eq.
    destruct Hwf as [H1 H2 H3]. pose proof (under_way_deliver _ _ _ _ _ E) as HP.
    rewrite HP in H1. apply NoDup_cons in H1 as [Hn H1].
    split; unfold under_way; cbn; [done| |done].
    intros t Ht. rewrite lookup_delete_ne.
    + apply H2. rewrite HP. by right.
    + intros ->. done.
  - unfold refresh in H. destruct (_ !! topic); [|done]. destruct (fetchRouteFor _ _); simplify_eq; [|done].
    by destruct Hwf.
  - unfold refreshed in H. destruct (refreshes_ s !! i) as [topic|] eqn:E; [|done].
    pose proof (on_fetched_frame ec route (set_refreshes (delete i (refreshes_ s)) s)) as F.
    destruct (on_fetched _ _ _) as [s1 route1]. destruct F as (F1 & F2 & F3 & F4 & F5 & F6).
    simplify_eq. destruct Hwf as [H1 H2 H3].
    split; unfold under_way; cbn [rpcs_ ready_ set_table inflight_route_requests_ topic_route_table_];
      rewrite ?F4, ?F5, ?F2, ?F1; cbn; [done..|].
    by apply updateRouteCache_nonempty.
Qed.

(** The callbacks of the inflight table, by key. *)
Definition waiting (m : gmap string (list callback)) : list callback := concat ((map_to_list m).*2).

Lemma waiting_insert_new m topic cbs :
  m !! topic = None -> waiting (<[topic := cbs]> m) ≡ₚ cbs ++ waiting m.
Proof.
  intros H. unfold waiting.
  rewrite (concat_perm _ (cbs :: (map_to_list m).*2)); [done|].
  by rewrite (map_to_list_insert m topic cbs H).
Qed.

Lemma waiting_delete m topic cbs :
  m !! topic = Some cbs -> waiting m ≡ₚ cbs ++ waiting (delete topic m).
Proof.
  intros H. unfold waiting. rewrite (concat_perm _ (cbs :: (map_to_list (delete topic m)).*2)); [done|].
  by rewrite <- (map_to_list_delete m topic cbs H).
Qed.

Lemma waiting_insert m topic cbs cb :
  m !! topic = Some cbs -> waiting (<[topic := cbs ++ [cb]]> m) ≡ₚ cb :: waiting m.
Proof.
  intros H. rewrite <- insert_delete_eq.
  rewrite waiting_insert_new by apply lookup_delete_eq.
  rewrite (waiting_delete m topic cbs H), <- app_assoc. cbn. by rewrite <- Permutation_middle.
Qed.

Lemma invoked_map cbs ec route : invoked (map (fun cb => Invoke cb ec route) cbs) = cbs.
Proof. induction cbs as [|cb cbs IH]; cbn; [done|]. unfold invoked in IH. by rewrite IH. Qed.

Lemma invoked_app a b : invoked (a ++ b) = invoked a ++ invoked b.
Proof. apply omap_app. Qed.

(** Every step moves callbacks from waiting to invoked, and loses none. *)
Lemma step_conserves a s s' evs :
  step a s = Some (s', evs) ->
  invoked evs ++ pending s' ≡ₚ match a with GetRouteFor _ cb => [cb] | _ => [] end ++ pending s.
Proof.
  unfold pending. fold (waiting (inflight_route_requests_ s)). fold (waiting (inflight_route_requests_ s')).
  intros H. destruct a as [topic cb|i|i ec route|i|topic|i ec route]; cbn [step] in H.
  - injection H as H. unfold getRouteFor in H. destruct (_ !! topic); simplify_eq; cbn; [done|].
    rewrite fmap_app, <- app_assoc. cbn. by rewrite <- Permutation_middle.
  - unfold getRouteFor_enter in H. destruct (entering_ s !! i) as [[topic cb]|] eqn:E; [|done]. cbn in H.
    assert (HP : (entering_ s).*2 ≡ₚ cb :: (delete i (entering_ s)).*2).
    { rewrite (delete_Permutation _ _ _ E) at 1. done. }
    rewrite HP. cbn [app].
    destruct (topic_route_table_ s !! topic); [by simplify_eq|].
    destruct (inflight_route_requests_ s !! topic) as [cbs|] eqn:Ei.
    { simplify_eq. cbn [invoked omap list_omap app entering_ inflight_route_requests_ set_inflight set_entering].
      rewrite (waiting_insert _ _ _ cb Ei). by rewrite <- Permutation_middle. }
    destruct (fetchRouteFor topic _) as [q|] eqn:Eq; simplify_eq;
      [unfold fetchRouteFor in Eq; destruct (str_empty _); [done|]; injection Eq as <-|];
      cbn [invoked omap list_omap app entering_ inflight_route_requests_ set_inflight set_entering set_rpcs];
      rewrite (waiting_insert_new _ _ [cb] Ei); cbn [app]; by rewrite <- Permutation_middle.
  - unfold complete in H. destruct (rpcs_ s !! i) as [topic|] eqn:E; [|done].
    pose proof (on_fetched_frame ec route (set_rpcs (delete i (rpcs_ s)) s)) as F.
    destruct (on_fetched _ _ _) as [s1 route1]. destruct F as (F1 & F2 & F3 & _). simplify_eq. cbn.
    by rewrite F2, F3.
  - unfold deliver in H. destruct (ready_ s !! i) as [[[topic ec] route]|] eqn:E; [|done].
    destruct (inflight_route_requests_ s !! topic) as [cbs|] eqn:Ei; [|done]. simplify_eq.
    rewrite invoked_map. cbn [entering_ inflight_route_requests_ set_ready set_inflight app].
    rewrite (waiting_delete _ _ _ Ei). rewrite !app_assoc. by rewrite (Permutation_app_comm cbs).
  - unfold refresh in H. destruct (_ !! topic); [|done].
    destruct (fetchRouteFor _ _) as [q|] eqn:Eq; simplify_eq; [|done].
    unfold fetchRouteFor in Eq. destruct (str_empty _); [done|]. by injection Eq as <-.
  - unfold refreshed in H. destruct (refreshes_ s !! i) as [topic|] eqn:E; [|done].
    pose proof (on_fetched_frame ec route (set_refreshes (delete i (refreshes_ s)) s)) as F.
    destruct (on_fetched _ _ _) as [s1 route1]. destruct F as (F1 & F2 & F3 & _). simplify_eq. cbn.
    by rewrite F2, F3.
Qed.

Lemma cache_steps_wf s regs evs s' : steps s regs evs s' -> wf s -> wf s'.
Proof. induction 1; [done|]. intros. eauto using cache_step_wf. Qed.

Lemma steps_conserves s regs evs s' :
  steps s regs evs s' -> invoked evs ++ pending s' ≡ₚ regs ++ pending s.
Proof.
  induction 1 as [s|s regs evs s1 a s2 evs' _ IH H]; [done|].
  pose proof (step_conserves _ _ _ _ H) as H2.
  rewrite invoked_app, <- app_assoc, H2, Permutation_app_swap_app, IH, Permutation_app_swap_app.
  by rewrite app_assoc.
Qed.

(** The callbacks handed to [getRouteFor] are conserved: in every history, each call's
    callback has been invoked once or is still waiting once, never both, never lost and
    never repeated; and at any time at most one route query per topic is under way, whose
    answer somebody waits for. *)
Theorem route_callbacks_conserved r regs evs s :
  steps (make r) regs evs s ->
  invoked evs ++ pending s ≡ₚ regs
  /\ NoDup (under_way s)
  /\ (forall topic, topic ∈ under_way s -> is_Some (inflight_route_requests_ s !! topic)).
Proof.
  intros H. pose proof (cache_steps_wf _ _ _ _ H (cache_make_wf r)) as Hwf. split_and!; [|apply Hwf..].
  pose proof (steps_conserves _ _ _ _ H) as HC.
  assert (E : pending (make r) = []) by (unfold pending; cbn; by rewrite map_to_list_empty).
  by rewrite E, app_nil_r in HC.
Qed.

(** *** Progress: a waiting callback has a query under way *)

(** As long as a name server is known at every step, the inflight table only holds topics
    whose query is under way. *)
Definition served (s : t) : Prop :=
  forall topic, is_Some (inflight_route_requests_ s !! topic) -> topic ∈ under_way s.

Definition available (s : t) : Prop := current (name_server_resolver_ s) <> ""%string.

Lemma step_served a s s' evs :
  available s -> wf s -> served s -> step a s = Some (s', evs) -> served s'.
Proof.
  intros Ha Hwf Hs H. unfold served in *. destruct a as [topic cb|i|i ec route|i|topic|i ec route]; cbn [step] in H.
  - injection H as H. unfold getRouteFor in H. destruct (_ !! topic); simplify_eq; done.
  - unfold getRouteFor_enter in H. destruct (entering_ s !! i) as [[topic cb]|] eqn:E; [|done]. cbn in H.
    destruct (topic_route_table_ s !! topic); [by simplify_eq|].
    destruct (inflight_route_requests_ s !! topic) as [cbs|] eqn:Ei.
    { simplify_eq. intros t. cbn. destruct (decide (topic = t)) as [->|].
      - intros _. apply Hs. by rewrite Ei.
      - rewrite lookup_insert_ne by done. apply Hs. }
    unfold fetchRouteFor in H. cbn in H.
    destruct (str_empty (current (name_server_resolver_ s))) eqn:En; [by apply str_empty_spec in En|].
    simplify_eq. intros t. unfold under_way. cbn. rewrite <- app_assoc, !elem_of_app.
    destruct (decide (topic = t)) as [->|]; [intros _; right; left; by apply list_elem_of_singleton|].
    rewrite lookup_insert_ne by done. intros Ht%Hs. unfold under_way in Ht.
    apply elem_of_app in Ht as [?|?]; [by left|by right; right].
  - unfold complete in H. destruct (rpcs_ s !! i) as [topic|] eqn:E; [|done].
    pose proof (on_fetched_frame ec route (set_rpcs (delete i (rpcs_ s)) s)) as F.
    destruct (on_fetched _ _ _) as [s1 route1]. destruct F as (F1 & F2 & F3 & F4 & F5 & _). simplify_eq.
    intros t Ht. cbn in Ht. rewrite F2 in Ht. cbn in Ht. apply Hs in Ht.
    unfold under_way. cbn. rewrite F4, F5. cbn. by rewrite <- (under_way_complete i topic s ec route1 E).
  - unfold deliver in H. destruct (ready_ s !! i) as [[[topic ec] route]|] eqn:E; [|done].
    destruct (inflight_route_requests_ s !! topic) as [cbs|] eqn:Ei; [|done]. simplify_eq.
    intros t Ht. cbn in Ht. destruct (decide (topic = t)) as [->|Hne].
    { rewrite lookup_delete_eq in Ht. by destruct Ht. }
    rewrite lookup_delete_ne in Ht by done. apply Hs in Ht.
    rewrite (under_way_deliver _ _ _ _ _ E) in Ht. apply elem_of_cons in Ht as [->|Ht]; [done|exact Ht].
  - unfold refresh in H. destruct (_ !! topic); [|done]. destruct (fetchRouteFor _ _); by simplify_eq.
  - unfold refreshed in H. destruct (refreshes_ s !! i) as [topic|] eqn:E; [|done].
    pose proof (on_fetched_frame ec route (set_refreshes (delete i (refreshes_ s)) s)) as F.
    destruct (on_fetched _ _ _) as [s1 route1]. destruct F as (F1 & F2 & F3 & F4 & F5 & _). simplify_eq.
    intros t Ht. cbn in Ht. rewrite F2 in Ht. cbn in Ht. apply Hs in Ht.
    unfold under_way in *. cbn. by rewrite F4, F5.
Qed.

(** Histories during which the resolver always knows a name server. *)
Inductive steps_ns : t -> list callback -> list event -> t -> Prop :=
  | steps_ns_refl s : steps_ns s [] [] s
  | steps_ns_snoc s regs evs s1 a s2 evs' :
      steps_ns s regs evs s1 -> available s1 -> step a s1 = Some (s2, evs') ->
      steps_ns s (regs ++ match a with GetRouteFor _ cb => [cb] | _ => [] end) (evs ++ evs') s2.

Lemma steps_ns_steps s regs evs s' : steps_ns s regs evs s' -> steps s regs evs s'.
Proof. induction 1; econstructor; eauto. Qed.

Lemma steps_ns_served s regs evs s' : steps_ns s regs evs s' -> wf s -> served s -> served s'.
Proof.
  induction 1 as [s|s regs evs s1 a s2 evs' H1 IH Ha H2]; intros Hwf Hs; [done|].
  eapply step_served; [exact Ha| |by apply IH|exact H2].
  by eapply cache_steps_wf; [apply steps_ns_steps|].
Qed.

(** While a name server is known, no callback is stranded: once every query has been
    answered and its answer delivered, every callback ever handed to [getRouteFor] has
    been invoked, exactly once. *)
Theorem route_callbacks_all_invoked r regs evs s :
  steps_ns (make r) regs evs s ->
  entering_ s = [] -> rpcs_ s = [] -> ready_ s = [] ->
  invoked evs ≡ₚ regs.
Proof.
  intros H He Hr Hd. pose proof (steps_ns_steps _ _ _ _ H) as Hst.
  pose proof (steps_conserves _ _ _ _ Hst) as HC.
  assert (E : pending (make r) = []) by (unfold pending; cbn; by rewrite map_to_list_empty).
  assert (Hs : served s).
  { apply (steps_ns_served _ _ _ _ H (cache_make_wf r)). intros topic [x Hx]. cbn in Hx. by rewrite lookup_empty in Hx. }
  assert (Hm : inflight_route_requests_ s = ∅).
  { apply map_empty. intros topic. destruct (inflight_route_requests_ s !! topic) eqn:Et; [|done].
    assert (Hin : topic ∈ under_way s) by (apply Hs; by rewrite Et).
    unfold under_way in Hin. rewrite Hr, Hd in Hin. by apply not_elem_of_nil in Hin. }
  rewrite E, app_nil_r in HC. unfold pending in HC.
  rewrite He, Hm, map_to_list_empty in HC. cbn in HC. by rewrite app_nil_r in HC.
Qed.

(** With a fixed list of name servers, none of them empty, a name server is always known. *)
Lemma step_servers a s s' evs :
  step a s = Some (s', evs) -> servers (name_server_resolver_ s') = servers (name_server_resolver_ s).
Proof.
  intros H. destruct a; cbn [step] in H; unfold getRouteFor, getRouteFor_enter, complete, deliver, refresh,
    refreshed, on_fetched in H; repeat case_match; simplify_eq; try done; cbn; apply next_spec.
Qed.

Lemma steps_available s regs evs s' :
  steps s regs evs s' -> servers (name_server_resolver_ s) <> [] -> ""%string ∉ servers (name_server_resolver_ s) ->
  steps_ns s regs evs s' /\ servers (name_server_resolver_ s') = servers (name_server_resolver_ s).
Proof.
  induction 1 as [s|s regs evs s1 a s2 evs' _ IH H]; intros Hne He; [split; [constructor|done]|].
  destruct (IH Hne He) as [Hs E]. split.
  - econstructor; [exact Hs| |exact H]. intros Hc. apply He. rewrite <- E, <- Hc.
    apply current_in. by rewrite E.
  - by rewrite (step_servers _ _ _ _ H).
Qed.

Lemma cache_run_steps l s regs evs s' s0 regs0 evs0 :
  steps s0 regs0 evs0 s -> run l s = Some (regs, evs, s') -> steps s0 (regs0 ++ regs) (evs0 ++ evs) s'.
Proof.
  revert s regs evs regs0 evs0. induction l as [|a l IH]; intros s regs evs regs0 evs0 H0 H; cbn in H.
  { injection H as <- <- <-. by rewrite !app_nil_r. }
  destruct (step a s) as [[s1 e1]|] eqn:E; cbn in H; [|done].
  destruct (run l s1) as [[[r2 e2] s2]|] eqn:E2; cbn in H; [|done]. injection H as <- <- <-.
  rewrite !app_assoc. eapply IH; [|exact E2]. by econstructor.
Qed.

(** *** What a caller is told *)

(** A route query that fails leaves the table alone and makes the next query go to
    the next name server; a successful non-empty one is what later calls are given
    without a query. *)
Theorem route_table_updates i ec route s s' evs topic :
  rpcs_ s !! i = Some topic -> complete i ec route s = Some (s', evs) ->
  (ec_bool ec = true ->
     topic_route_table_ s' = topic_route_table_ s
     /\ current (name_server_resolver_ s') = fst (next (name_server_resolver_ s)))
  /\ (forall r, ec = Success -> route = Some r -> TopicRouteData.partitions_ r <> [] ->
        exists r', topic_route_table_ s' !! topic = Some r'
          /\ TopicRouteData.list_eq Partition.operator_eq (TopicRouteData.partitions_ r')
               (TopicRouteData.partitions_ r) = true
          /\ forall cb, getRouteFor topic cb s' = (s', [Invoke cb Success (Some r')]))
  /\ (forall topic', topic' <> topic -> topic_route_table_ s' !! topic' = topic_route_table_ s !! topic').
Proof.
  intros Hi H. unfold complete in H. rewrite Hi in H. unfold on_fetched in H.
  assert (Hrefl : forall p, Partition.operator_eq p p = true).
  { intros p. unfold Partition.operator_eq, Topic.operator_eq, Broker.operator_eq.
    rewrite !String.eqb_refl, Z.eqb_refl, bool_decide_eq_true_2; done. }
  destruct (ec_bool ec) eqn:Ee; simplify_eq; cbn; split_and!; try done.
  - intros _. split; [done|]. symmetry. apply next_spec.
  - intros r -> _ _. done.
  - intros r Hec -> Hne. unfold updateRouteCache. rewrite Ee, bool_decide_eq_false_2 by done. cbn.
    unfold getRouteFor. cbn. destruct (topic_route_table_ s !! topic) as [cached|] eqn:Ec.
    + destruct (TopicRouteData.operator_ne cached r) eqn:En.
      * exists r. rewrite lookup_insert_eq. split_and!; [done|by apply TopicRouteData.list_eq_refl|done].
      * exists cached. rewrite Ec. unfold TopicRouteData.operator_ne in En. apply negb_false_iff in En.
        split_and!; [done|exact En|done].
    + exists r. rewrite lookup_insert_eq. split_and!; [done|by apply TopicRouteData.list_eq_refl|done].
  - intros topic' Hne. unfold updateRouteCache. destruct route as [r|]; [|done].
    rewrite Ee. case_bool_decide; [done|]. cbn.
    destruct (topic_route_table_ s !! topic); [case_match; [|done]|]; by rewrite lookup_insert_ne.
Qed.

End RouteCache.
Arguments t : clear implicits.

(** ** A concrete history

    Two callers ask for the same topic and share one query; a third comes between the
    answer and its delivery; a fourth finds the route in the table. *)
Definition example_resolver := StaticNameServerResolver.make "10.0.0.1:9876;10.0.0.2:9876".

Definition example_actions : list action :=
  [GetRouteFor "TopicTest" 1; GetRouteFor "TopicTest" 2; Enter 0; GetRouteFor "TopicTest" 3; Enter 0;
   Complete 0 Success (Some example_route); Enter 0; Deliver 0; GetRouteFor "TopicTest" 4].

Lemma cache_example_run :
  exists evs s, run example_actions (make example_resolver) = Some ([1; 2; 3; 4]%nat, evs, s)
    /\ entering_ s = [] /\ rpcs_ s = [] /\ ready_ s = []
    /\ length (List.filter (fun e => match e with Query _ _ => true | _ => false end) evs) = 1%nat.
Proof. eexists _, _. split; [vm_compute; reflexivity|]. vm_compute. split_and!; reflexivity. Defined.

Lemma route_callbacks_conserved_witness :
  exists evs s, invoked evs ++ pending s ≡ₚ [1; 2; 3; 4]%nat /\ @NoDup string (under_way (R := StaticNameServerResolver.t) s).
Proof.
  destruct cache_example_run as (evs & s & H & _). exists evs, s.
  destruct (route_callbacks_conserved example_resolver [1; 2; 3; 4]%nat evs s) as (H1 & H2 & _).
  - exact (cache_run_steps _ _ _ _ _ _ _ _ (steps_refl _) H).
  - split; [exact H1|exact H2].
Defined.

Lemma route_callbacks_all_invoked_witness : exists evs, invoked evs ≡ₚ [1; 2; 3; 4]%nat.
Proof.
  destruct cache_example_run as (evs & s & H & He & Hr & Hd & _). exists evs.
  refine (route_callbacks_all_invoked example_resolver [1; 2; 3; 4]%nat evs s _ He Hr Hd).
  apply (steps_available (make example_resolver)).
  - exact (cache_run_steps _ _ _ _ _ _ _ _ (steps_refl _) H).
  - vm_compute. discriminate.
  - apply (bool_decide_unpack _). vm_compute. exact I.
Defined.

Lemma route_table_updates_witness :
  let s := mk ∅ {["TopicTest"%string := [1%nat]]} example_resolver [] ["TopicTest"%string] [] [] in
  exists s' evs, complete 0 RequestTimeout None s = Some (s', evs)
    /\ current (name_server_resolver_ s') = "10.0.0.2:9876"%string.
Proof.
  intros s. eexists _, _. split; [reflexivity|].
  edestruct (route_table_updates 0 RequestTimeout None s _ _ "TopicTest" eq_refl eq_refl) as [H _].
  exact (proj2 (H eq_refl)).
Defined.

(** Without a name server, a query is never sent and its callers wait for ever: the
    second caller joins a request that does not exist. *)
Lemma no_name_server_strands_callers :
  exists evs s, run [GetRouteFor "TopicTest" 1; Enter 0; GetRouteFor "TopicTest" 2; Enter 0]
                    (make (StaticNameServerResolver.make "")) = Some ([1; 2]%nat, evs, s)
    /\ invoked evs = [] /\ rpcs_ s = [] /\ entering_ s = []
    /\ inflight_route_requests_ s !! "TopicTest"%string = Some [1; 2]%nat.
Proof. eexists _, _. split; [vm_compute; reflexivity|]. vm_compute. split_and!; reflexivity. Qed.

End RouteCache.
