(* ===== verification/ClientImpl.v ===== *)
(** * The part every client shares: lifecycle, endpoint isolation, heartbeats, the
    multiplexing channel.

    [ClientImpl] (rocketmq/ClientImpl.cpp) without its route table, which is in
    RouteCache.  The calls a method makes on the client manager, the scheduler and the
    hooks of the sub-class are returned as a list of effects, in order. *)

From S2P Require Import Prelude Types Message MixAll Proto Route NameServer Config Codec ClientManager RouteCache.

Inductive GroupType := PUBLISHER | SUBSCRIBER.

Record ClientResourceBundle := mkClientResourceBundle {
  client_id : string;
  topics : list string;
  bundle_namespace : string;
  group : string;
  group_type : GroupType;
}.

Module ClientImpl.

(** Calls on the client manager (target first), on the scheduler, and on the hooks the
    sub-classes override. *)
Inductive effect :=
  | CallHeartbeat (target : string) (request : rmq.HeartbeatRequest)
  | CallHealthCheck (target : string)
  | CallMultiplexing (target : string) (request : rmq.MultiplexingRequest) (timeout : Z)
  | CallNotifyClientTermination (target : string) (request : rmq.NotifyClientTerminationRequest)
  | ScheduleMultiplexing (delay : Z) (target : string) (request : rmq.MultiplexingRequest)
  | ScheduleRouteUpdate (delay interval : Z)
  | CancelRouteUpdate (id : Z)
  | ResolverStart | ResolverShutdown | ManagerStart | ManagerRelease | ExporterStart
  | ResolveOrphan (transaction_id : string) (message : MQMessage.t).

Record t := mk {
  config : ClientConfigImpl.t;
  state_ : State;
  topic_route_table_ : gmap string TopicRouteData.t;
  isolated_endpoints_ : gset string;
  route_update_handle_ : Z;
}.

Definition make (group_name : string) : t := mk (ClientConfigImpl.make group_name) CREATED ∅ ∅ 0.

Definition set_state (st : State) (s : t) : t :=
  mk (config s) st (topic_route_table_ s) (isolated_endpoints_ s) (route_update_handle_ s).
Definition set_isolated (e : gset string) (s : t) : t :=
  mk (config s) (state_ s) (topic_route_table_ s) e (route_update_handle_ s).
Definition set_handle (h : Z) (s : t) : t :=
  mk (config s) (state_ s) (topic_route_table_ s) (isolated_endpoints_ s) h.

(** A setter of the configuration the client inherits. *)
Definition with_config (f : ClientConfigImpl.t -> ClientConfigImpl.t) (s : t) : t :=
  mk (f (config s)) (state_ s) (topic_route_table_ s) (isolated_endpoints_ s) (route_update_handle_ s).

Definition active (s : t) : bool := bool_decide (state_ s = STARTING) || bool_decide (state_ s = STARTED).

(** ** Endpoints *)

Definition route_endpoints (r : TopicRouteData.t) : list string :=
  map (fun p => MQMessageQueue.service_address_ (Partition.asMessageQueue p)) (TopicRouteData.partitions_ r).

Definition endpointsInUse (s : t) : gset string :=
  list_to_set (concat (map (fun e => route_endpoints (snd e)) (map_to_list (topic_route_table_ s)))).

(** [isolateEndpoint] and [isEndpointIsolated] of ProducerImpl. *)
Definition isolateEndpoint (target : string) (s : t) : t := set_isolated ({[target]} ∪ isolated_endpoints_ s) s.
Definition isEndpointIsolated (target : string) (s : t) : bool := bool_decide (target ∈ isolated_endpoints_ s).

Definition onRemoteEndpointRemoval (hosts : list string) (s : t) : t :=
  set_isolated (filter (fun e => e ∉ hosts) (isolated_endpoints_ s)) s.

Definition healthCheck (s : t) : list effect := map CallHealthCheck (elements (isolated_endpoints_ s)).

(** The answer to a health check of [remote_address]. *)
Definition onHealthCheckResponse (ec : error_code) (remote_address : string) (s : t) : t :=
  if ec_bool ec then s else set_isolated (isolated_endpoints_ s ∖ {[remote_address]}) s.

(** ** Heartbeats; [request] is what [prepareHeartbeatData] of the sub-class fills in. *)
Definition heartbeat (request : rmq.HeartbeatRequest) (s : t) : list effect :=
  let hosts := endpointsInUse s in
  if decide (hosts = ∅) then [] else map (fun target => CallHeartbeat target request) (elements hosts).

Definition notifyClientTermination (client_id : string) (s : t) : list effect :=
  let c := config s in
  let request := rmq.mkNotifyClientTerminationRequest
    (rmq.mkResource (ClientConfigImpl.resource_namespace_ c) (ClientConfigImpl.group_name_ c)) client_id in
  map (fun endpoint => CallNotifyClientTermination endpoint request) (elements (endpointsInUse s)).

(** ** Lifecycle *)

(** [handle] is the id the scheduler returns. *)
Definition start (handle : Z) (s : t) : t * list effect :=
  let '(ok, st) := compare_exchange_strong (state_ s) CREATED STARTING in
  if negb ok then (s, [])
  else (set_state STARTED (set_handle handle s),
        [ResolverStart; ManagerStart; ExporterStart; ScheduleRouteUpdate 10000 30000]).

Definition shutdown (client_id : string) (s : t) : t * list effect :=
  (set_state STOPPING s,
   [ResolverShutdown] ++ (if route_update_handle_ s =? 0 then [] else [CancelRouteUpdate (route_update_handle_ s)])
     ++ notifyClientTermination client_id s ++ [ManagerRelease]).

(** ** The access point: the name servers as the server sees them *)

(** [rfind(c)] with the text before and after it. *)
Fixpoint rfind_split (c : Ascii.ascii) (s : string) : option (string * string) :=
  match s with
  | EmptyString => None
  | String a s' =>
      match rfind_split c s' with
      | Some (x, y) => Some (String a x, y)
      | None => if Ascii.eqb a c then Some (""%string, s') else None
      end
  end.

Section access_point.
(** [std::stoi]; [None] when it throws. *)
Context (stoi : string -> option Z).

(** Entries without a colon are skipped; a port that does not parse throws. *)
Fixpoint parse_servers (l : list string) : option (list (string * Z)) :=
  match l with
  | [] => Some []
  | item :: l' =>
      match rfind_split ":"%char item with
      | None => parse_servers l'
      | Some (host, port) =>
          p ← stoi port;
          rest ← parse_servers l';
          Some ((host, u16 p) :: rest)
      end
  end.

Definition setAccessPoint (name_server_list : list string) (endpoints : rmq.Endpoints) : option rmq.Endpoints :=
  pairs ← parse_servers name_server_list;
  Some (match pairs with
        | [] => endpoints
        | (host, _) :: _ =>
            rmq.mkEndpoints
              (if MixAll.isIPv4 host then rmq.IPv4
               else if TopAddressing.contains ":"%char host then rmq.IPv6 else rmq.DOMAIN_NAME)
              (rmq.addresses endpoints ++ map (fun hp => rmq.mkAddress (fst hp) (snd hp)) pairs)
        end).
End access_point.

(** ** The multiplexing channel *)

Definition fillGenericPollingRequest (client_id : string) (b : ClientResourceBundle) (s : t)
    : rmq.MultiplexingRequest :=
  let ns := ClientConfigImpl.resource_namespace_ (config s) in
  let g := rmq.mkResource ns (ClientConfigImpl.group_name_ (config s)) in
  rmq.polling_request
    (rmq.mkGenericPollingRequest client_id (map (rmq.mkResource ns) (topics b))
       (match group_type b with
        | PUBLISHER => rmq.polling_producer_group g
        | SUBSCRIBER => rmq.polling_consumer_group g
        end)).

(** [multiplexing]: a call with the long-polling timeout. *)
Definition multiplexing (target : string) (request : rmq.MultiplexingRequest) (s : t) : effect :=
  CallMultiplexing target request (ClientConfigImpl.long_polling_timeout_ (config s)).

Section multiplex.
(** [wrap] is [ClientManagerImpl::wrapMessage] on a fresh message, [None] when it fails;
    [verify] is the hook [verifyMessageConsumption]. *)
Context (wrap : rmq.Message -> option MQMessage.t) (verify : MQMessage.t -> string).

Definition onMultiplexingResponse (client_id : string) (b : ClientResourceBundle) (remote_address : string)
    (x : Completion rmq.MultiplexingResponse) (s : t) : list effect :=
  let polling := fillGenericPollingRequest client_id b s in
  if negb (status_ok x) then [ScheduleMultiplexing 3000 remote_address polling]
  else
    match response x with
    | rmq.print_thread_stack_request _ =>
        [CallMultiplexing remote_address
           (rmq.print_thread_stack_response "" UNIMPLEMENTED "Print thread stack trace is not supported by C++ SDK")
           (ClientConfigImpl.io_timeout_ (config s))]
    | rmq.verify_message_consumption_request _ data =>
        match wrap data with
        | None => [multiplexing remote_address
                     (rmq.verify_message_consumption_response "" INVALID_ARGUMENT "Message to verify is corrupted") s]
        | Some m => [multiplexing remote_address
                       (rmq.verify_message_consumption_response "" OK (verify m)) s]
        end
    | rmq.resolve_orphaned_transaction_request orphan transaction_id =>
        match wrap orphan with
        | Some m => [ResolveOrphan transaction_id (MessageAccessor.setTargetEndpoint remote_address m)]
        | None => []
        end ++ [multiplexing remote_address polling s]
    | rmq.polling_response => [multiplexing remote_address polling s]
    | rmq.MULTIPLEXING_TYPE_NOT_SET => [multiplexing remote_address polling s]
    end.
End multiplex.

(** ** Properties *)

Lemma rfind_split_None c s : str_forallb (fun a => negb (Ascii.eqb a c)) s = true -> rfind_split c s = None.
Proof.
  induction s as [|a s IH]; cbn; [done|]. intros H. apply andb_true_iff in H as [Ha H].
  rewrite (IH H). apply negb_true_iff in Ha. by rewrite Ha.
Qed.

Lemma rfind_split_app c x y :
  str_forallb (fun a => negb (Ascii.eqb a c)) y = true -> rfind_split c (x +:+ String c y) = Some (x, y).
Proof.
  intros H. induction x as [|a x IH]; cbn.
  - rewrite (rfind_split_None _ _ H). by rewrite Ascii.eqb_refl.
  - by rewrite IH.
Qed.

(** The endpoints in use are those of the partitions of the table. *)
Lemma endpointsInUse_spec s e :
  e ∈ endpointsInUse s <->
  exists topic r p, topic_route_table_ s !! topic = Some r /\ p ∈ TopicRouteData.partitions_ r
    /\ e = Broker.serviceAddress (Partition.broker_ p).
Proof.
  unfold endpointsInUse. rewrite elem_of_list_to_set, list_elem_of_In, in_concat. split.
  - intros (l & Hl & He). apply in_map_iff in Hl as ([topic r] & <- & Hin).
    apply in_map_iff in He as (p & <- & Hp). exists topic, r, p.
    split_and!; [by apply elem_of_map_to_list, list_elem_of_In|by apply list_elem_of_In|done].
  - intros (topic & r & p & Hr & Hp & ->). exists (route_endpoints r). split.
    + apply in_map_iff. exists (topic, r). split; [done|]. by apply list_elem_of_In, elem_of_map_to_list.
    + apply in_map_iff. exists p. split; [done|by apply list_elem_of_In].
Qed.

(** The access point a client declares lists exactly the configured name servers, host
    and port, in their order, under the scheme of the first host. *)
Theorem setAccessPoint_roundtrip (stoi : string -> option Z) (servers : list (string * Z)) :
  (forall p, 0 <= p < 65536 -> stoi (to_string p) = Some p) ->
  Forall (fun hp => 0 <= snd hp < 65536) servers ->
  servers <> [] ->
  setAccessPoint stoi (map (fun hp => (fst hp +:+ ":" +:+ to_string (snd hp))%string) servers) rmq.Endpoints_default
    = Some (rmq.mkEndpoints
        (let host := default ""%string (fst <$> head servers) in
         if MixAll.isIPv4 host then rmq.IPv4
         else if TopAddressing.contains ":"%char host then rmq.IPv6 else rmq.DOMAIN_NAME)
        (map (fun hp => rmq.mkAddress (fst hp) (snd hp)) servers)).
Proof.
  intros Hstoi Hs Hne.
  assert (H : parse_servers stoi (map (fun hp => (fst hp +:+ ":" +:+ to_string (snd hp))%string) servers) = Some servers).
  { clear Hne. induction Hs as [|[h p] l Hp _ IH]; cbn [map parse_servers]; [done|]. cbn [fst snd] in *.
    change (h +:+ ":" +:+ to_string p)%string with (h +:+ String ":"%char (to_string p))%string.
    rewrite rfind_split_app by (apply to_string_without; [lia|done]).
    rewrite Hstoi by done. cbn [mbind option_bind]. rewrite IH. cbn [mbind option_bind]. unfold u16. by rewrite Z.mod_small. }
  unfold setAccessPoint. rewrite H. cbn [mbind option_bind]. destruct servers as [|[h p] l]; [done|]. done.
Qed.

Lemma setAccessPoint_roundtrip_witness :
  setAccessPoint (read_decimal 0) ["11.165.223.199:9876"; "name.server:80"]%string rmq.Endpoints_default
    = Some (rmq.mkEndpoints rmq.IPv4
              [rmq.mkAddress "11.165.223.199" 9876; rmq.mkAddress "name.server" 80]).
Proof.
  apply (setAccessPoint_roundtrip (read_decimal 0) [("11.165.223.199"%string, 9876); ("name.server"%string, 80)]).
  - intros p Hp. apply read_to_string. lia.
  - repeat constructor; cbn; lia.
  - discriminate.
Defined.

(** An endpoint is isolated from the moment a send to it fails until a health check of
    it passes or it leaves the routes; in between every round checks its health, and
    nothing else changes the set. *)
Theorem isolation_correct s target e :
  (e ∈ isolated_endpoints_ (isolateEndpoint target s) <-> e = target \/ e ∈ isolated_endpoints_ s)
  /\ (isEndpointIsolated e s = true <-> CallHealthCheck e ∈ healthCheck s)
  /\ (forall ec, ec_bool ec = true -> onHealthCheckResponse ec target s = s)
  /\ (e ∈ isolated_endpoints_ (onHealthCheckResponse Success target s)
        <-> e ∈ isolated_endpoints_ s /\ e <> target)
  /\ (forall hosts, e ∈ isolated_endpoints_ (onRemoteEndpointRemoval hosts s)
        <-> e ∈ isolated_endpoints_ s /\ e ∉ hosts)
  /\ NoDup (healthCheck s).
Proof.
  split_and!.
  - cbn. rewrite elem_of_union, elem_of_singleton. done.
  - unfold isEndpointIsolated, healthCheck. rewrite bool_decide_eq_true, list_elem_of_fmap. split.
    + intros He. exists e. split; [done|]. by apply elem_of_elements.
    + intros (e' & [= ->] & He). by apply elem_of_elements in He.
  - intros ec Hec. unfold onHealthCheckResponse. by rewrite Hec.
  - cbn. rewrite elem_of_difference, elem_of_singleton. done.
  - intros hosts. cbn. rewrite elem_of_filter. tauto.
  - apply (NoDup_fmap_2_strong CallHealthCheck); [|apply NoDup_elements]. by intros x y _ _ [= ->].
Qed.

(** Every broker of every known route, and nobody else, gets one heartbeat per round,
    and one termination notice when the client shuts down. *)
Theorem heartbeat_covers_routes request client_id s e :
  (CallHeartbeat e request ∈ heartbeat request s <->
     exists topic r p, topic_route_table_ s !! topic = Some r /\ p ∈ TopicRouteData.partitions_ r
       /\ e = Broker.serviceAddress (Partition.broker_ p))
  /\ NoDup (heartbeat request s)
  /\ (forall x, x ∈ heartbeat request s -> exists e', x = CallHeartbeat e' request)
  /\ (CallHeartbeat e request ∈ heartbeat request s <->
        exists req, CallNotifyClientTermination e req ∈ snd (shutdown client_id s)).
Proof.
  assert (Hb : CallHeartbeat e request ∈ heartbeat request s <-> e ∈ endpointsInUse s).
  { unfold heartbeat. case_decide as Hh.
    - rewrite Hh. split; intros H; [by apply not_elem_of_nil in H|by apply not_elem_of_empty in H].
    - rewrite list_elem_of_fmap. split.
      + intros (e' & [= ->] & He). by apply elem_of_elements in He.
      + intros He. exists e. split; [done|by apply elem_of_elements]. }
  split_and!.
  - rewrite Hb. apply endpointsInUse_spec.
  - unfold heartbeat. case_decide; [constructor|].
    apply (NoDup_fmap_2_strong (fun target => CallHeartbeat target request)); [|apply NoDup_elements].
    by intros x y _ _ [= ->].
  - unfold heartbeat. case_decide; intros x Hx; [by apply not_elem_of_nil in Hx|].
    apply list_elem_of_fmap in Hx as (e' & -> & _). eauto.
  - rewrite Hb. cbn [shutdown snd]. split.
    + intros He. eexists. rewrite !elem_of_app. right. right. left.
      apply list_elem_of_fmap. exists e. split; [done|by apply elem_of_elements].
    + intros [req Hin]. rewrite !elem_of_app in Hin. destruct Hin as [Hin|[Hin|[Hin|Hin]]].
      * by apply list_elem_of_singleton in Hin.
      * case_match; [by apply not_elem_of_nil in Hin|by apply list_elem_of_singleton in Hin].
      * apply list_elem_of_fmap in Hin as (e' & [= -> _] & He). by apply elem_of_elements.
      * by apply list_elem_of_singleton in Hin.
Qed.

(** The multiplexing channel to a server stays open: whatever the server sends, and
    also when a call fails, exactly one further call to the same server is made or
    scheduled, and no other call. *)
Theorem multiplexing_continues wrap verify client_id b remote x s :
  exists pre e, onMultiplexingResponse wrap verify client_id b remote x s = pre ++ [e]
    /\ (exists request, (exists timeout, e = CallMultiplexing remote request timeout)
                        \/ (status_ok x = false /\ e = ScheduleMultiplexing 3000 remote request))
    /\ Forall (fun p => exists id m, p = ResolveOrphan id m) pre.
Proof.
  unfold onMultiplexingResponse, multiplexing. destruct (status_ok x); cbn [negb].
  - destruct (response x) as [|mid|mid m|m tid|]; try (destruct (wrap m));
      try (exists []; eexists; split; [reflexivity|]; split; [|constructor]; eexists; left; by eexists).
    eexists [_], _. split; [reflexivity|]. split; [eexists; left; by eexists|].
    constructor; [by eexists _, _|constructor].
  - exists []. eexists. split; [reflexivity|]. split; [|constructor]. eexists. by right.
Qed.

End ClientImpl.

(** The client as the manager sees it: its state and the calls it has made. *)
#[export] Instance client_impl_client (request : rmq.HeartbeatRequest)
    : Client (ClientImpl.t * list ClientImpl.effect) := {|
  active := fun c => ClientImpl.active (fst c);
  endpointsInUse := fun c => ClientImpl.endpointsInUse (fst c);
  onRemoteEndpointRemoval := fun hosts c => (ClientImpl.onRemoteEndpointRemoval hosts (fst c), snd c);
  healthCheck := fun c => (fst c, snd c ++ ClientImpl.healthCheck (fst c));
  heartbeat := fun c => (fst c, snd c ++ ClientImpl.heartbeat request (fst c));
|}.
