(* ===== verification/RoutePath.v ===== *)
(** * The route path: the route table of a client on top of the remote calls.

    A route query of [getRouteFor] or [updateRouteInfo] (RouteCache) is a call of the client
    manager to the current name server (rocketmq/ClientImpl.cpp, [fetchRouteFor]); its
    report goes through the callback of [fetchRouteFor] to [onTopicRouteReady] or
    [updateRouteCache].  Callers, refreshes, the network, the poller, the workers and the
    shutdown of the manager interleave.  The file shows that this is an implementation of
    RouteCache, whose answers come out of nowhere, and that every caller is answered. *)

From S2P Require Import Prelude Types Message MixAll Proto Route NameServer Config Codec Concurrency ClientManager.
From S2P Require Import RemoteCalls RouteCache ClientImpl.

Module RoutePath.

(** Whom a query belongs to, and what its callback is told. *)
Inductive owner := Fetching (topic : string) | Refreshing (topic : string).
Abbreviation answer := (error_code * option TopicRouteData.t)%type.
Abbreviation report := (owner * answer)%type.

Definition fetching (o : owner) : option string := match o with Fetching topic => Some topic | _ => None end.
Definition refreshing (o : owner) : option string := match o with Refreshing topic => Some topic | _ => None end.
Definition topic_of (o : owner) : string := match o with Fetching topic | Refreshing topic => topic end.

(** What the calls read of their environment, by the number of the call. *)
Record Env := mkEnv {
  credentials_of : nat -> option Credentials.t;
  date_of : nat -> string;
  clock_of : nat -> Z;
  id_of : nat -> string;
  channels : nat -> nat -> bool;
}.

Section route_path.
Context {C R : Type} `{!NameServerResolver R}.
Context (zlib_crc32 : string -> Z) (MD5 : string -> option (list Z)) (SHA1 : string -> list Z)
  (zlib : Zlib) (fresh : MQMessage.t) (DebugString : rmq.QueryRouteResponse -> string)
  (HMAC_SHA1 : string -> string -> list Z) (stoi : string -> option Z).
Context (config : ClientConfigImpl.t) (env : Env).

Abbreviation network := (@RemoteCalls.t C report).

(** [regs] are the callbacks handed to [getRouteFor] and [evs] what happened to them. *)
Record t := mk {
  cache : RouteCache.t R;
  owners : gmap nat owner;
  net : network;
  regs : list nat;
  evs : list RouteCache.event;
}.

Definition make (r : R) (m : ClientManagerImpl.t C) : t := mk (RouteCache.make r) ∅ (RemoteCalls.ready m) [] [].
Definition set_net (n : network) (x : t) : t := mk (cache x) (owners x) n (regs x) (evs x).

(** [fetchRouteFor] from the request on. *)
Definition fetch (o : owner) (topic name_server : string) (x : t) : option t :=
  let k := length (RemoteCalls.issued (net x)) in
  endpoints ← ClientImpl.setAccessPoint stoi (servers (RouteCache.name_server_resolver_ (cache x))) rmq.Endpoints_default;
  n ← RemoteCalls.perform zlib_crc32 MD5 SHA1 zlib fresh DebugString
        (RemoteCalls.mkSite name_server (Signature.sign HMAC_SHA1 config (credentials_of env k) (date_of env k) ∅)
           (ClientConfigImpl.io_timeout_ config) (clock_of env k) (id_of env k) (channels env k))
        (RemoteCalls.ResolveRouteOp
           (rmq.mkQueryRouteRequest (rmq.mkResource (ClientConfigImpl.resource_namespace_ config) topic) endpoints) (pair o))
        (net x);
  Some (mk (cache x) (<[k := o]> (owners x)) n (regs x) (evs x)).

(** What a step of the table asks for: a query becomes a call. *)
Fixpoint issue (own : string -> owner) (l : list RouteCache.event) (x : t) : option t :=
  match l with
  | [] => Some x
  | RouteCache.Query topic name_server :: l' => y ← fetch (own topic) topic name_server x; issue own l' y
  | RouteCache.Invoke _ _ _ :: l' => issue own l' x
  end.

Definition react (own : string -> owner) (added : list nat) (r : option (RouteCache.t R * list RouteCache.event)) (x : t)
    : option t :=
  '(c, l) ← r;
  issue own l (mk c (owners x) (net x) (regs x ++ added) (evs x ++ l)).

Definition position (topic : string) (l : list string) : option nat := fst <$> list_find (eq topic) l.

(** The callback of a query. *)
Definition handle (r : report) (x : t) : option t :=
  let '(o, (ec, route)) := r in
  match o with
  | Fetching topic =>
      i ← position topic (RouteCache.rpcs_ (cache x)); react Fetching [] (RouteCache.complete i ec route (cache x)) x
  | Refreshing topic =>
      i ← position topic (RouteCache.refreshes_ (cache x)); react Fetching [] (RouteCache.refreshed i ec route (cache x)) x
  end.

Fixpoint handle_all (l : list report) (x : t) : option t :=
  match l with [] => Some x | r :: l' => y ← handle r x; handle_all l' y end.

(** [Enter] is the second part of [getRouteFor], [Deliver] the second part of
    [onTopicRouteReady]; [Refresh] one topic of [updateRouteInfo]. *)
Inductive action :=
  | GetRouteFor (topic : string) (cb : nat)
  | Enter (i : nat)
  | Deliver (i : nat)
  | Refresh (topic : string)
  | Net (a : @RemoteCalls.action report)
  | Finish (k : nat).

Definition no_throw (r : report) : bool := false.

Definition step (a : action) (x : t) : option t :=
  match a with
  | GetRouteFor topic cb => react Fetching [cb] (Some (RouteCache.getRouteFor topic cb (cache x))) x
  | Enter i => react Fetching [] (RouteCache.getRouteFor_enter i (cache x)) x
  | Deliver i => react Fetching [] (RouteCache.deliver i (cache x)) x
  | Refresh topic => react Refreshing [] (RouteCache.refresh topic (cache x)) x
  | Net (RemoteCalls.Perform _ _) | Net (RemoteCalls.Finish _) => None
  | Net a => n ← RemoteCalls.step no_throw zlib_crc32 MD5 SHA1 zlib fresh DebugString a (net x); Some (set_net n x)
  | Finish k =>
      n ← RemoteCalls.finish no_throw k (net x);
      '(j, (_, told)) ← last (RemoteCalls.reports n);
      handle_all told (mk (cache x) (delete j (owners x)) n (regs x) (evs x))
  end.

Fixpoint run (l : list action) (x : t) : option t :=
  match l with [] => Some x | a :: l' => y ← step a x; run l' y end.

(** ** What the callers are told *)

(** The call of an owner: the topic it asks about and the callback it has. *)
Definition tag (o : owner) (c : @RemoteCalls.call C report) : Prop :=
  match c with
  | RemoteCalls.mkCall RemoteCalls.QueryRoute r _ _ cb _ =>
      rmq.route_topic r = rmq.mkResource (ClientConfigImpl.resource_namespace_ config) (topic_of o)
      /\ cb = Some (fun m z => (m, RemoteCalls.tell (resolveRoute_completion (DebugString (response z)) z) (pair o)))
  | _ => False
  end.

(** What gRPC brought for a call, as an answer. *)
Definition answered (c : @RemoteCalls.call C report) : option answer :=
  match c with
  | RemoteCalls.mkCall RemoteCalls.QueryRoute _ _ _ _ r =>
      let z := default (mkCompletion true (RemoteCalls.response_default RemoteCalls.QueryRoute)) r in
      resolveRoute_completion (DebugString (response z)) z
  | _ => None
  end.

(** A route comes with success, and only with it. *)
Definition sound (a : answer) : Prop := match snd a with Some _ => fst a = Success | None => ec_bool (fst a) = true end.

Lemma tag_invoke o c m :
  tag o (RemoteCalls.unanswered c) ->
  exists a, RemoteCalls.invoke c m = (m, [(o, a)]) /\ answered c = Some a /\ sound a.
Proof.
  destruct c as [[] r cl ctx cb res]; try done. cbn. intros [_ ->].
  unfold RemoteCalls.invoke, RemoteCalls.completion_of. cbn [RemoteCalls.callback RemoteCalls.result RemoteCalls.method].
  change (RemoteCalls.response_of RemoteCalls.QueryRoute) with rmq.QueryRouteResponse in *.
  set (z := default _ res). unfold resolveRoute_completion.
  destruct (resolveRoute_ec (status_ok z) _) as [ec|] eqn:E; unfold resolveRoute_ec in E.
  2: { destruct (status_ok z); [|done]. by destruct (rmq.code _). }
  cbn. eexists. split; [reflexivity|]. split; [reflexivity|]. unfold sound. cbn.
  destruct (status_ok z); cbn [negb] in E; [|by injection E as <-]. destruct (rmq.code _); by injection E as <-.
Qed.

(** The reports so far, in order. *)
Definition heard (n : network) : list report := concat (map (fun e => snd (snd e)) (RemoteCalls.reports n)).

(** All the table knows was heard from a name server. *)
Record knows (h : list report) (c : RouteCache.t R) : Prop := {
  k_table topic rt : RouteCache.topic_route_table_ c !! topic = Some rt ->
    exists o, topic_of o = topic /\ (o, (Success, Some rt)) ∈ h;
  k_ready topic ec route : (topic, ec, route) ∈ RouteCache.ready_ c -> (Fetching topic, (ec, route)) ∈ h;
}.

Lemma knows_mono h h' c : h ⊆ h' -> knows h c -> knows h' c.
Proof.
  intros Hh [H1 H2]. split.
  - intros topic rt E. destruct (H1 topic rt E) as (o & Ho & Hin). exists o. split; [done|by apply Hh].
  - intros topic ec route Hin. by apply Hh, H2.
Qed.

Lemma update_knows h c o topic ec route :
  knows h c -> topic_of o = topic -> (o, (ec, route)) ∈ h -> sound (ec, route) ->
  forall topic' rt, RouteCache.updateRouteCache topic ec route (RouteCache.topic_route_table_ c) !! topic' = Some rt ->
  exists o', topic_of o' = topic' /\ (o', (Success, Some rt)) ∈ h.
Proof.
  intros [H1 _] Ho Hin Hs topic' rt. unfold RouteCache.updateRouteCache. destruct route as [r|]; [|apply H1]. unfold sound in Hs. cbn in Hs. subst ec.
  destruct (_ || _); [apply H1|].
  assert (Hi : <[topic := r]> (RouteCache.topic_route_table_ c) !! topic' = Some rt ->
               exists o', topic_of o' = topic' /\ (o', (Success, Some rt)) ∈ h).
  { intros E. apply lookup_insert_Some in E as [[<- <-]|[_ E]]; [by exists o|by apply H1]. }
  destruct (_ !! topic); [|exact Hi]. destruct (TopicRouteData.operator_ne _ _); [exact Hi|apply H1].
Qed.

Lemma on_fetched_sound ec route c : sound (ec, route) -> snd (RouteCache.on_fetched ec route c) = route.
Proof. unfold sound, RouteCache.on_fetched. cbn. destruct route as [r|]; [by intros ->|]. by destruct (ec_bool ec). Qed.

(** A step of the table: an answer it is given was heard; what it tells its callers then was heard too. *)
Lemma knows_step h a c c' l :
  knows h c -> RouteCache.step a c = Some (c', l) ->
  match a with
  | RouteCache.Complete i ec route => forall topic, RouteCache.rpcs_ c !! i = Some topic -> (Fetching topic, (ec, route)) ∈ h /\ sound (ec, route)
  | RouteCache.Refreshed i ec route => forall topic, RouteCache.refreshes_ c !! i = Some topic -> (Refreshing topic, (ec, route)) ∈ h /\ sound (ec, route)
  | _ => True
  end ->
  knows h c' /\ forall cb ec route, RouteCache.Invoke cb ec route ∈ l -> exists o, (o, (ec, route)) ∈ h.
Proof.
  intros Hk E Ha. pose proof Hk as [H1 H2].
  assert (Hnil : forall cb ec route, RouteCache.Invoke cb ec route ∈ ([] : list RouteCache.event) -> exists o, (o, (ec, route)) ∈ h)
    by (intros ? ? ? Hin; by apply not_elem_of_nil in Hin).
  assert (Hone : forall cb topic rt, RouteCache.topic_route_table_ c !! topic = Some rt ->
    forall cb' ec route, RouteCache.Invoke cb' ec route ∈ [RouteCache.Invoke cb Success (Some rt)] -> exists o, (o, (ec, route)) ∈ h).
  { intros cb topic rt Et cb' ec route Hin. apply list_elem_of_singleton in Hin as [= -> -> ->]. destruct (H1 topic rt Et) as (o & _ & Ho). by exists o. }
  assert (Hq : forall topic ns cb ec route, RouteCache.Invoke cb ec route ∈ [RouteCache.Query topic ns] -> exists o, (o, (ec, route)) ∈ h).
  { intros topic ns cb ec route Hin. by apply list_elem_of_singleton in Hin. }
  destruct a as [topic cb|i|i ec route|i|topic|i ec route]; cbn [RouteCache.step] in E.
  - injection E as E. unfold RouteCache.getRouteFor in E. destruct (_ !! topic) as [rt|] eqn:Et; injection E as <- <-.
    + split; [done|by eapply Hone].
    + split; [by split|done].
  - unfold RouteCache.getRouteFor_enter in E. destruct (RouteCache.entering_ c !! i) as [[topic cb]|]; [|done]. cbn in E.
    destruct (RouteCache.topic_route_table_ c !! topic) as [rt|] eqn:Et; [injection E as <- <-; split; [by split|by eapply Hone]|].
    destruct (RouteCache.inflight_route_requests_ c !! topic); [injection E as <- <-; split; [by split|done]|].
    unfold RouteCache.fetchRouteFor in E. destruct (str_empty _); injection E as <- <-; (split; [by split|]); [done|by eapply Hq].
  - unfold RouteCache.complete in E. destruct (RouteCache.rpcs_ c !! i) as [topic|] eqn:Et; [|done].
    destruct (Ha topic eq_refl) as [Hin Hs].
    pose proof (RouteCache.on_fetched_frame ec route (RouteCache.set_rpcs (delete i (RouteCache.rpcs_ c)) c)) as F.
    pose proof (on_fetched_sound ec route (RouteCache.set_rpcs (delete i (RouteCache.rpcs_ c)) c) Hs) as Er.
    destruct (RouteCache.on_fetched _ _ _) as [c1 route1]. cbn in Er. subst route1. destruct F as (F1 & _ & _ & _ & F5 & _).
    injection E as <- <-. split; [|done]. split; cbn.
    + rewrite F1. by apply (update_knows h c (Fetching topic)).
    + intros topic' ec' route' Hr. rewrite F5 in Hr. apply elem_of_app in Hr as [Hr|Hr]; [by apply H2|].
      by apply list_elem_of_singleton in Hr as [= -> -> ->].
  - unfold RouteCache.deliver in E. destruct (RouteCache.ready_ c !! i) as [[[topic ec] route]|] eqn:Et; [|done].
    destruct (RouteCache.inflight_route_requests_ c !! topic) as [cbs|]; [|done]. injection E as <- <-. split.
    + split; cbn; [exact H1|]. intros topic' ec' route' Hr. apply elem_of_delete in Hr. by apply H2.
    + intros cb ec' route' Hin. apply list_elem_of_fmap in Hin as (cb' & [= -> -> ->] & _). exists (Fetching topic). apply H2.
      by eapply list_elem_of_lookup_2.
  - unfold RouteCache.refresh in E. destruct (_ !! topic); [|done]. unfold RouteCache.fetchRouteFor in E.
    destruct (str_empty _); injection E as <- <-; (split; [by split|]); [done|by eapply Hq].
  - unfold RouteCache.refreshed in E. destruct (RouteCache.refreshes_ c !! i) as [topic|] eqn:Et; [|done].
    destruct (Ha topic eq_refl) as [Hin Hs].
    pose proof (RouteCache.on_fetched_frame ec route (RouteCache.set_refreshes (delete i (RouteCache.refreshes_ c)) c)) as F.
    pose proof (on_fetched_sound ec route (RouteCache.set_refreshes (delete i (RouteCache.refreshes_ c)) c) Hs) as Er.
    destruct (RouteCache.on_fetched _ _ _) as [c1 route1]. cbn in Er. subst route1. destruct F as (F1 & _ & _ & _ & F5 & _).
    injection E as <- <-. split; [|done]. split; cbn.
    + rewrite F1. by apply (update_knows h c (Refreshing topic)).
    + rewrite F5. exact H2.
Qed.

(** ** The queries on the wire *)
Definition queries (l : list RouteCache.event) : list string :=
  omap (fun e => match e with RouteCache.Query topic _ => Some topic | _ => None end) l.

Lemma queries_invokes ec route cbs : queries (map (fun cb => RouteCache.Invoke cb ec route) cbs) = [].
Proof. by induction cbs. Qed.

(** The table and the calls agree on the queries under way. *)
Definition matches (c : RouteCache.t R) (m : gmap nat owner) : Prop :=
  RouteCache.rpcs_ c ≡ₚ owned fetching m /\ RouteCache.refreshes_ c ≡ₚ owned refreshing m.

(** What a step of the table adds to its queries, but for the answers. *)
Lemma step_queries a c c' l :
  RouteCache.step a c = Some (c', l) ->
  match a with
  | RouteCache.Complete i _ _ => exists topic, RouteCache.rpcs_ c !! i = Some topic
      /\ RouteCache.rpcs_ c' = delete i (RouteCache.rpcs_ c) /\ RouteCache.refreshes_ c' = RouteCache.refreshes_ c /\ l = []
      /\ length (RouteCache.entering_ c') = length (RouteCache.entering_ c)
      /\ length (RouteCache.ready_ c') = S (length (RouteCache.ready_ c))
  | RouteCache.Refreshed i _ _ => exists topic, RouteCache.refreshes_ c !! i = Some topic
      /\ RouteCache.rpcs_ c' = RouteCache.rpcs_ c /\ RouteCache.refreshes_ c' = delete i (RouteCache.refreshes_ c) /\ l = []
      /\ length (RouteCache.entering_ c') = length (RouteCache.entering_ c)
      /\ length (RouteCache.ready_ c') = length (RouteCache.ready_ c)
  | RouteCache.Refresh _ => RouteCache.rpcs_ c' = RouteCache.rpcs_ c /\ RouteCache.refreshes_ c' = RouteCache.refreshes_ c ++ queries l
  | _ => RouteCache.rpcs_ c' = RouteCache.rpcs_ c ++ queries l /\ RouteCache.refreshes_ c' = RouteCache.refreshes_ c
  end.
Proof.
  destruct a as [topic cb|i|i ec route|i|topic|i ec route]; cbn [RouteCache.step].
  - unfold RouteCache.getRouteFor. destruct (_ !! topic); intros [= <- <-]; cbn; by rewrite app_nil_r.
  - unfold RouteCache.getRouteFor_enter. destruct (RouteCache.entering_ c !! i) as [[topic cb]|]; [|done]. cbn.
    destruct (RouteCache.topic_route_table_ c !! topic); [intros [= <- <-]; cbn; by rewrite app_nil_r|].
    destruct (RouteCache.inflight_route_requests_ c !! topic); [intros [= <- <-]; cbn; by rewrite app_nil_r|].
    unfold RouteCache.fetchRouteFor. destruct (str_empty _); intros [= <- <-]; cbn; by rewrite ?app_nil_r.
  - unfold RouteCache.complete. destruct (RouteCache.rpcs_ c !! i) as [topic|]; [|done].
    pose proof (RouteCache.on_fetched_frame ec route (RouteCache.set_rpcs (delete i (RouteCache.rpcs_ c)) c)) as F.
    destruct (RouteCache.on_fetched _ _ _) as [c1 route1]. destruct F as (_ & _ & F3 & F4 & F5 & F6). intros [= <- <-].
    exists topic. cbn. rewrite F3, F4, F5, F6, length_app. cbn. split_and!; try done. lia.
  - unfold RouteCache.deliver. destruct (RouteCache.ready_ c !! i) as [[[topic ec] route]|]; [|done].
    destruct (RouteCache.inflight_route_requests_ c !! topic) as [cbs|]; [|done]. intros [= <- <-]. cbn. split; [|done].
    by rewrite queries_invokes, app_nil_r.
  - unfold RouteCache.refresh. destruct (_ !! topic); [|done]. unfold RouteCache.fetchRouteFor.
    destruct (str_empty _); intros [= <- <-]; cbn; by rewrite ?app_nil_r.
  - unfold RouteCache.refreshed. destruct (RouteCache.refreshes_ c !! i) as [topic|]; [|done].
    pose proof (RouteCache.on_fetched_frame ec route (RouteCache.set_refreshes (delete i (RouteCache.refreshes_ c)) c)) as F.
    destruct (RouteCache.on_fetched _ _ _) as [c1 route1]. destruct F as (_ & _ & F3 & F4 & F5 & F6). intros [= <- <-].
    exists topic. cbn. by rewrite F3, F4, F5, F6.
Qed.

Abbreviation tracks x := (RemoteCalls.tracked tag (owners x) (net x)).
Abbreviation state_of x := (ClientManagerImpl.state_ (RemoteCalls.manager (net x))).

Record issued_more (own : string -> owner) (l : list RouteCache.event) (x y : t) : Prop := {
  m_tracks : tracks y;
  m_cache : cache y = cache x;
  m_regs : regs y = regs x;
  m_evs : evs y = evs x;
  m_reports : RemoteCalls.reports (net y) = RemoteCalls.reports (net x);
  m_state : state_of y = state_of x;
  m_owned f : owned (A := string) f (owners y) ≡ₚ owned f (owners x) ++ omap f (map own (queries l));
  m_work : RemoteCalls.work (net y) = (RemoteCalls.work (net x) + 4 * length (queries l))%nat;
}.

Lemma query_spec own topic name_server x y :
  (topic_of (own topic) = topic) -> tracks x -> fetch (own topic) topic name_server x = Some y ->
  issued_more own [RouteCache.Query topic name_server] x y.
Proof.
  intros Ho Hx. unfold fetch. destruct (ClientImpl.setAccessPoint _ _ _) as [endpoints|]; [|done]. cbn [mbind option_bind].
  cbn [RemoteCalls.perform]. unfold RemoteCalls.resolveRoute, RemoteCalls.with_client.
  match goal with |- context [ClientManagerImpl.getRpcClient ?ok ?h ?b ?m] =>
    pose proof (RemoteCalls.getRpcClient_state ok h b m) as Hm; destruct (ClientManagerImpl.getRpcClient ok h b m) as [cl m'] end.
  cbn [snd] in Hm. unfold RemoteCalls.asyncQueryRoute. destruct (RemoteCalls.async _ _) as [n|] eqn:E; [|done]. cbn. intros [= <-].
  match type of E with RemoteCalls.async ?c _ = _ =>
    destruct (RemoteCalls.tracked_async tag (owners x) (net x) c m' n (own topic) Hx) as [Hnone Ht] end;
    [cbn; by rewrite Ho|done|done|exact Hm|exact E|].
  unfold RemoteCalls.async in E. cbn in E. destruct (RemoteCalls.queue_shutdown (net x)); [done|]. injection E as <-.
  split; cbn; try done.
  - intros f. rewrite owned_insert by exact Hnone. by destruct (f (own topic)).
  - unfold RemoteCalls.work. cbn. rewrite length_app. cbn. lia.
Qed.

Lemma issue_queries_spec own l : forall x y,
  (forall topic, topic_of (own topic) = topic) -> tracks x -> issue own l x = Some y -> issued_more own l x y.
Proof.
  induction l as [|e l IH]; intros x y Ho Hx; cbn [issue].
  - intros [= <-]. split; try done; [intros f; by rewrite app_nil_r|..]; cbn; lia.
  - destruct e as [cb ec route|topic ns]; [intros E; destruct (IH x y Ho Hx E); by split|].
    destruct (fetch (own topic) topic ns x) as [z|] eqn:Ez; [|done]. cbn [mbind option_bind]. intros E.
    destruct (query_spec own topic ns x z (Ho topic) Hx Ez) as [A1 A2 A3 A4 A5 A6 A7 A8].
    destruct (IH z y Ho A1 E) as [B1 B2 B3 B4 B5 B6 B7 B8].
    split; [exact B1|congruence..| |].
    + intros f. rewrite B7, A7. cbn. rewrite <- app_assoc. by destruct (f (own topic)).
    + rewrite B8, A8. change (queries (RouteCache.Query topic ns :: l)) with (topic :: queries l).
      change (queries [RouteCache.Query topic ns]) with [topic]. cbn [length]. lia.
Qed.

(** ** The invariant *)
Record rinv (r : R) (x : t) : Prop := {
  r_tracks : tracks x;
  r_matches : matches (cache x) (owners x);
  r_steps : RouteCache.steps (RouteCache.make r) (regs x) (evs x) (cache x);
  r_knows : knows (heard (net x)) (cache x);
  r_told cb ec route : RouteCache.Invoke cb ec route ∈ evs x -> exists o, (o, (ec, route)) ∈ heard (net x);
  r_reports j c told : (j, (c, told)) ∈ RemoteCalls.reports (net x) ->
    exists o a, told = [(o, a)] /\ tag o (RemoteCalls.unanswered c) /\ answered c = Some a;
}.

Lemma rinv_make r m : rinv r (make r m).
Proof.
  split; cbn.
  - apply RemoteCalls.tracked_ready.
  - done.
  - constructor.
  - split; [intros topic rt E; cbn in E; by rewrite lookup_empty in E|]. intros ? ? ? Hin. by apply not_elem_of_nil in Hin.
  - intros ? ? ? Hin. by apply not_elem_of_nil in Hin.
  - intros ? ? ? Hin. by apply not_elem_of_nil in Hin.
Qed.

Definition added_by (a : RouteCache.action) : list nat := match a with RouteCache.GetRouteFor _ cb => [cb] | _ => [] end.

(** A step of the table inside the path, with the calls it makes. *)
Lemma react_rinv r own a x y :
  (forall topic, topic_of (own topic) = topic) ->
  tracks x -> RouteCache.steps (RouteCache.make r) (regs x) (evs x) (cache x) -> knows (heard (net x)) (cache x) ->
  (forall cb ec route, RouteCache.Invoke cb ec route ∈ evs x -> exists o, (o, (ec, route)) ∈ heard (net x)) ->
  (forall j c told, (j, (c, told)) ∈ RemoteCalls.reports (net x) ->
     exists o a, told = [(o, a)] /\ tag o (RemoteCalls.unanswered c) /\ answered c = Some a) ->
  (forall c l, RouteCache.step a (cache x) = Some (c, l) ->
     RouteCache.rpcs_ c ≡ₚ owned fetching (owners x) ++ omap fetching (map own (queries l))
     /\ RouteCache.refreshes_ c ≡ₚ owned refreshing (owners x) ++ omap refreshing (map own (queries l))) ->
  match a with
  | RouteCache.Complete i ec route =>
      forall topic, RouteCache.rpcs_ (cache x) !! i = Some topic -> (Fetching topic, (ec, route)) ∈ heard (net x) /\ sound (ec, route)
  | RouteCache.Refreshed i ec route =>
      forall topic, RouteCache.refreshes_ (cache x) !! i = Some topic -> (Refreshing topic, (ec, route)) ∈ heard (net x) /\ sound (ec, route)
  | _ => True
  end ->
  react own (added_by a) (RouteCache.step a (cache x)) x = Some y ->
  rinv r y /\ state_of y = state_of x
  /\ exists c l, RouteCache.step a (cache x) = Some (c, l) /\ cache y = c
     /\ RemoteCalls.work (net y) = (RemoteCalls.work (net x) + 4 * length (queries l))%nat.
Proof.
  intros Hown H1 H2 H3 H4 H5 Hm Ha. unfold react. destruct (RouteCache.step a (cache x)) as [[c l]|] eqn:E; [|done]. cbn [mbind option_bind].
  intros Hi. destruct (knows_step _ a _ c l H3 E Ha) as [Hk Ht].
  destruct (issue_queries_spec own l (mk c (owners x) (net x) (regs x ++ added_by a) (evs x ++ l)) y Hown H1 Hi)
    as [M1 M2 M3 M4 M5 M6 M7 M8]. cbn [cache regs evs owners net] in *.
  destruct (Hm c l eq_refl) as [Q1 Q2].
  assert (Hh : heard (net y) = heard (net x)) by (unfold heard; by rewrite M5).
  split; [|split; [exact M6|exists c, l; split_and!; [done|exact M2|exact M8]]].
  split; [exact M1| | | | |].
  - unfold matches. rewrite M2, !M7. by split.
  - rewrite M2, M3, M4. by eapply RouteCache.steps_snoc.
  - rewrite M2, Hh. exact Hk.
  - intros cb ec route. rewrite M4, Hh. intros Hin. apply elem_of_app in Hin as [Hin|Hin]; [by eapply H4|by eapply Ht].
  - rewrite M5. exact H5.
Qed.

(** The steps of callers and refreshes. *)
Lemma react_query r own a x y :
  rinv r x -> (own = Fetching /\ match a with RouteCache.GetRouteFor _ _ | RouteCache.Enter _ | RouteCache.Deliver _ => True | _ => False end
               \/ own = Refreshing /\ match a with RouteCache.Refresh _ => True | _ => False end) ->
  react own (added_by a) (RouteCache.step a (cache x)) x = Some y ->
  rinv r y /\ state_of y = state_of x
  /\ exists c l, RouteCache.step a (cache x) = Some (c, l) /\ cache y = c
     /\ RemoteCalls.work (net y) = (RemoteCalls.work (net x) + 4 * length (queries l))%nat.
Proof.
  intros [H1 [Q1 Q2] H3 H4 H5 H6] Hown Hr.
  assert (Hf : forall l, omap fetching (map Fetching l) = l /\ omap refreshing (map Fetching l) = []
                 /\ omap fetching (map Refreshing l) = [] /\ omap refreshing (map Refreshing l) = l).
  { induction l as [|b l (E1 & E2 & E3 & E4)]; [done|]. cbn. by rewrite E1, E2, E3, E4. }
  apply (react_rinv r own a x y); try done.
  - by destruct Hown as [[-> _]|[-> _]].
  - intros c l E. pose proof (step_queries a _ c l E) as Hq. destruct (Hf (queries l)) as (F1 & F2 & F3 & F4).
    destruct Hown as [[-> Ha]|[-> Ha]]; destruct a; try done; destruct Hq as [-> ->]; rewrite ?F1, ?F2, ?F3, ?F4, ?app_nil_r, Q1, Q2; done.
  - by destruct Hown as [[_ Ha]|[_ Ha]]; destruct a.
Qed.

Lemma position_spec topic l : topic ∈ l -> exists i, position topic l = Some i /\ l !! i = Some topic.
Proof.
  intros Hin. unfold position. destruct (list_find_elem_of (eq topic) l topic Hin eq_refl) as [[i b] E].
  apply list_find_Some in E as E'. destruct E' as (Ei & <- & _). exists i. rewrite E. by split.
Qed.

(** How far the callers are from their answers. *)
Definition measure (x : t) : nat :=
  (2 * RemoteCalls.work (net x) + length (RouteCache.ready_ (cache x)) + 10 * length (RouteCache.entering_ (cache x)))%nat.

Lemma answers_found c i ec route :
  (is_Some (RouteCache.rpcs_ c !! i) -> is_Some (RouteCache.step (RouteCache.Complete i ec route) c))
  /\ (is_Some (RouteCache.refreshes_ c !! i) -> is_Some (RouteCache.step (RouteCache.Refreshed i ec route) c)).
Proof.
  cbn [RouteCache.step]. unfold RouteCache.complete, RouteCache.refreshed. split; intros [topic ->];
    destruct (RouteCache.on_fetched _ _ _); by eexists.
Qed.

(** The answer of a query, given to the table. *)
Lemma answer_rinv r o ec route x :
  tracks x -> RouteCache.steps (RouteCache.make r) (regs x) (evs x) (cache x) -> knows (heard (net x)) (cache x) ->
  (forall cb ec route, RouteCache.Invoke cb ec route ∈ evs x -> exists o, (o, (ec, route)) ∈ heard (net x)) ->
  (forall j c told, (j, (c, told)) ∈ RemoteCalls.reports (net x) ->
     exists o a, told = [(o, a)] /\ tag o (RemoteCalls.unanswered c) /\ answered c = Some a) ->
  RouteCache.rpcs_ (cache x) ≡ₚ option_list (fetching o) ++ owned fetching (owners x) ->
  RouteCache.refreshes_ (cache x) ≡ₚ option_list (refreshing o) ++ owned refreshing (owners x) ->
  (o, (ec, route)) ∈ heard (net x) -> sound (ec, route) ->
  exists y, handle (o, (ec, route)) x = Some y /\ rinv r y /\ state_of y = state_of x
    /\ (measure y <= S (measure x))%nat.
Proof.
  intros H1 H2 H3 H4 H5 Q1 Q2 Hin Hs. unfold handle.
  destruct o as [topic|topic]; cbn [fetching refreshing option_list app] in Q1, Q2.
  - destruct (position_spec topic (RouteCache.rpcs_ (cache x))) as (i & -> & Ei); [rewrite Q1; left|]. cbn [mbind option_bind].
    destruct (proj1 (answers_found (cache x) i ec route) (ex_intro _ topic Ei)) as [[c l] E].
    pose proof (step_queries _ _ _ _ E) as (topic' & Ei' & E1 & E2 & -> & E3 & E4).
    change (RouteCache.complete i ec route (cache x)) with (RouteCache.step (RouteCache.Complete i ec route) (cache x)).
    destruct (react Fetching [] (RouteCache.step (RouteCache.Complete i ec route) (cache x)) x) as [y|] eqn:Ey.
    2: { exfalso. unfold react in Ey. rewrite E in Ey. done. }
    exists y. split; [reflexivity|].
    destruct (react_rinv r Fetching (RouteCache.Complete i ec route) x y) as (Hy & Hst & c' & l' & E' & Ec & Ew); try done.
    + intros c' l' E'. rewrite E in E'. injection E' as <- <-. rewrite E1, E2, app_nil_r, Q2. split; [|by rewrite app_nil_r].
      rewrite (delete_Permutation _ _ _ Ei) in Q1. by apply Permutation_cons_inv in Q1.
    + intros topic0 E0. rewrite Ei in E0. by injection E0 as <-.
    + split; [done|]. split; [done|]. rewrite E in E'. injection E' as <- <-. unfold measure. rewrite Ec, Ew, E3, E4. cbn. lia.
  - destruct (position_spec topic (RouteCache.refreshes_ (cache x))) as (i & -> & Ei); [rewrite Q2; left|]. cbn [mbind option_bind].
    destruct (proj2 (answers_found (cache x) i ec route) (ex_intro _ topic Ei)) as [[c l] E].
    pose proof (step_queries _ _ _ _ E) as (topic' & Ei' & E1 & E2 & -> & E3 & E4).
    change (RouteCache.refreshed i ec route (cache x)) with (RouteCache.step (RouteCache.Refreshed i ec route) (cache x)).
    destruct (react Fetching [] (RouteCache.step (RouteCache.Refreshed i ec route) (cache x)) x) as [y|] eqn:Ey.
    2: { exfalso. unfold react in Ey. rewrite E in Ey. done. }
    exists y. split; [reflexivity|].
    destruct (react_rinv r Fetching (RouteCache.Refreshed i ec route) x y) as (Hy & Hst & c' & l' & E' & Ec & Ew); try done.
    + intros c' l' E'. rewrite E in E'. injection E' as <- <-. rewrite E1, E2, app_nil_r, Q1. split; [done|]. rewrite app_nil_r.
      rewrite (delete_Permutation _ _ _ Ei) in Q2. by apply Permutation_cons_inv in Q2.
    + intros topic0 E0. rewrite Ei in E0. by injection E0 as <-.
    + split; [done|]. split; [done|]. rewrite E in E'. injection E' as <- <-. unfold measure. rewrite Ec, Ew, E3, E4. cbn. lia.
Qed.

(** A worker that ends the callback of a query. *)
Lemma finish_rinv r k x n :
  rinv r x -> RemoteCalls.finish no_throw k (net x) = Some n ->
  exists y, step (Finish k) x = Some y /\ rinv r y /\ state_of y = state_of x /\ (measure y < measure x)%nat.
Proof.
  intros [H1 [Q1 Q2] H3 H4 H5 H6] En.
  destruct (RemoteCalls.tracked_finish no_throw tag (owners x) k (net x) n H1 En) as (j & c & o & Er & Em & Ho & Ht & Hn & Ei & Ew).
  destruct (tag_invoke o c (RemoteCalls.manager (net x)) Ht) as ([ec route] & Einv & Ea & Hs). rewrite Einv in Er, Em. cbn in Er, Em.
  set (x' := mk (cache x) (delete j (owners x)) n (regs x) (evs x)).
  assert (Hh : heard n = heard (net x) ++ [(o, (ec, route))]) by (unfold heard; by rewrite Er, map_app, concat_app).
  assert (Hsub : heard (net x) ⊆ heard n) by (rewrite Hh; intros z Hz; apply elem_of_app; by left).
  destruct (answer_rinv r o ec route x') as (y & Ey & Hy & Hst & Hmeas); cbn [x' cache owners net regs evs]; try done.
  - by eapply knows_mono.
  - intros cb ec' route' Hin. destruct (H5 cb ec' route' Hin) as (o' & Ho'). exists o'. by apply Hsub.
  - intros j' c' told. rewrite Er. intros Hin. apply elem_of_app in Hin as [Hin|Hin]; [by eapply H6|].
    apply list_elem_of_singleton in Hin as [= -> -> ->]. by exists o, (ec, route).
  - rewrite Q1. by apply owned_delete.
  - rewrite Q2. by apply owned_delete.
  - rewrite Hh. apply elem_of_app. right. left.
  - exists y. split; [|split; [done|split; [rewrite Hst; cbn; by rewrite Em|]]].
    + cbn [step]. rewrite En. cbn [mbind option_bind]. rewrite Er, last_snoc. cbn [mbind option_bind handle_all]. fold x'. by rewrite Ey.
    + assert (Em' : measure x = S (S (measure x'))) by (unfold measure; cbn [x' cache net]; rewrite Ew; lia). lia.
Qed.

Lemma route_net_step a x :
  RemoteCalls.below a ->
  step (Net a) x
  = (n ← RemoteCalls.step no_throw zlib_crc32 MD5 SHA1 zlib fresh DebugString a (net x); Some (set_net n x)).
Proof. by destruct a. Qed.

Lemma net_rinv r a x n :
  rinv r x -> RemoteCalls.below a ->
  RemoteCalls.step no_throw zlib_crc32 MD5 SHA1 zlib fresh DebugString a (net x) = Some n -> rinv r (set_net n x).
Proof.
  intros [H1 H2 H3 H4 H5 H6] Ha E. destruct (RemoteCalls.step_below _ _ _ _ _ _ _ a (net x) n Ha E) as [_ Er].
  assert (Hh : heard n = heard (net x)) by (unfold heard; by rewrite Er).
  split; cbn [set_net cache owners net regs evs]; rewrite ?Hh; try done; [|by rewrite Er].
  by eapply RemoteCalls.tracked_below.
Qed.

Lemma step_rinv r a x y : rinv r x -> step a x = Some y -> rinv r y.
Proof.
  intros Hx. destruct a as [topic cb|i|i|topic|a|k].
  - intros E. apply (react_query r Fetching (RouteCache.GetRouteFor topic cb) x y); [done|by left|exact E].
  - intros E. apply (react_query r Fetching (RouteCache.Enter i) x y); [done|by left|exact E].
  - intros E. apply (react_query r Fetching (RouteCache.Deliver i) x y); [done|by left|exact E].
  - intros E. apply (react_query r Refreshing (RouteCache.Refresh topic) x y); [done|by right|exact E].
  - destruct (decide (RemoteCalls.below a)) as [Ha|Ha].
    + rewrite route_net_step by done. destruct (RemoteCalls.step _ _ _ _ _ _ _ a (net x)) as [n|] eqn:E; [|done]. cbn. intros [= <-].
      by eapply net_rinv.
    + by destruct a.
  - intros E. destruct (RemoteCalls.finish no_throw k (net x)) as [n|] eqn:En.
    + destruct (finish_rinv r k x n Hx En) as (y' & Ey & Hy & _). rewrite Ey in E. by injection E as <-.
    + cbn [step] in E. by rewrite En in E.
Qed.

Lemma run_rinv r l x y : rinv r x -> run l x = Some y -> rinv r y.
Proof.
  revert x. induction l as [|a l IH]; intros x Hx; cbn [run]; [by intros [= <-]|].
  destruct (step a x) as [x1|] eqn:E; [|done]. cbn. apply IH. by eapply step_rinv.
Qed.

(** *** Every caller is answered *)

(** The steps that bring callers to their answers. *)
Definition internal (a : action) : Prop :=
  match a with Enter _ | Deliver _ | Finish _ => True | Net a => RemoteCalls.internal a /\ RemoteCalls.below a | _ => False end.

Lemma enter_enabled c : RouteCache.entering_ c <> [] ->
  exists c' l, RouteCache.step (RouteCache.Enter 0) c = Some (c', l) /\ (length (queries l) <= 1)%nat
    /\ RouteCache.ready_ c' = RouteCache.ready_ c /\ S (length (RouteCache.entering_ c')) = length (RouteCache.entering_ c)
    /\ RouteCache.name_server_resolver_ c' = RouteCache.name_server_resolver_ c.
Proof.
  intros Hne. cbn [RouteCache.step]. unfold RouteCache.getRouteFor_enter. destruct (RouteCache.entering_ c) as [|[topic cb] l] eqn:E; [done|].
  cbn. destruct (RouteCache.topic_route_table_ c !! topic); [eexists _, _; split; [reflexivity|]; cbn; split_and!; done || lia|].
  destruct (RouteCache.inflight_route_requests_ c !! topic); [eexists _, _; split; [reflexivity|]; cbn; split_and!; done || lia|].
  unfold RouteCache.fetchRouteFor. destruct (str_empty _); eexists _, _; (split; [reflexivity|]); cbn; split_and!; done || lia.
Qed.

Lemma fetch_enabled o topic ns x :
  is_Some (ClientImpl.setAccessPoint stoi (servers (RouteCache.name_server_resolver_ (cache x))) rmq.Endpoints_default) ->
  RemoteCalls.queue_shutdown (net x) = false -> is_Some (fetch o topic ns x).
Proof.
  intros [e He] Hq. unfold fetch. rewrite He. cbn [mbind option_bind RemoteCalls.perform].
  unfold RemoteCalls.resolveRoute, RemoteCalls.with_client. destruct (ClientManagerImpl.getRpcClient _ _ _ _) as [cl m'].
  unfold RemoteCalls.asyncQueryRoute, RemoteCalls.async. cbn. rewrite Hq. by eexists.
Qed.

Lemma issue_enabled own l x :
  (length (queries l) <= 1)%nat ->
  is_Some (ClientImpl.setAccessPoint stoi (servers (RouteCache.name_server_resolver_ (cache x))) rmq.Endpoints_default) ->
  RemoteCalls.queue_shutdown (net x) = false -> is_Some (issue own l x).
Proof.
  intros Hl Ha Hq. revert Hl. induction l as [|e l IH]; intros Hl; [by eexists|].
  destruct e as [cb ec route|topic ns]; [by apply IH|]. cbn [issue].
  destruct (fetch_enabled (own topic) topic ns x Ha Hq) as [y ->]. cbn.
  assert (E : queries l = []) by (change (queries (RouteCache.Query topic ns :: l)) with (topic :: queries l) in Hl; destruct (queries l); [done|cbn in Hl; lia]).
  clear -E. revert y. induction l as [|[cb ec route|t' n'] l IH]; intros y; [by eexists|by apply IH|done].
Qed.

Section liveness.
Context (r : R) (access : is_Some (ClientImpl.setAccessPoint stoi (servers r) rmq.Endpoints_default)).

Lemma access_kept x : rinv r x ->
  is_Some (ClientImpl.setAccessPoint stoi (servers (RouteCache.name_server_resolver_ (cache x))) rmq.Endpoints_default).
Proof.
  intros Hx. assert (E : servers (RouteCache.name_server_resolver_ (cache x)) = servers r); [|by rewrite E].
  change (servers r) with (servers (RouteCache.name_server_resolver_ (RouteCache.make r))).
  induction (r_steps _ _ Hx) as [|s regs' evs' s1 a s2 evs'' _ IH H]; [done|]. rewrite <- IH. by eapply RouteCache.step_servers.
Qed.

Lemma route_progress x :
  rinv r x -> state_of x = STARTED -> measure x <> 0%nat -> exists a y, internal a /\ step a x = Some y.
Proof.
  intros Hx Hst Hm. pose proof (r_tracks _ _ Hx) as Ht. pose proof (RemoteCalls.t_inv _ _ _ Ht) as Hi.
  destruct (RemoteCalls.i_started _ Hi Hst) as (_ & Hq & _).
  destruct (decide (RouteCache.entering_ (cache x) = [])) as [He|He].
  2: { destruct (enter_enabled (cache x) He) as (c & l & E & Hl & _ & _ & Ens).
       destruct (issue_enabled Fetching l (mk c (owners x) (net x) (regs x ++ []) (evs x ++ l)) Hl) as [y Ey];
         [cbn [cache]; rewrite Ens; by apply access_kept|done|].
       exists (Enter 0), y. split; [done|]. cbn [step]. unfold react. cbn [RouteCache.step] in E. rewrite E. exact Ey. }
  destruct (RouteCache.ready_ (cache x)) as [|[[topic ec] route] l] eqn:Er.
  2: { destruct (RouteCache.wf_inflight _ (RouteCache.cache_steps_wf _ _ _ _ (r_steps _ _ Hx) (RouteCache.cache_make_wf r)) topic) as [cbs Ec].
       { unfold RouteCache.under_way. rewrite Er. apply elem_of_app. right. left. }
       destruct (issue_enabled Fetching (map (fun cb => RouteCache.Invoke cb ec route) cbs)
         (mk (RouteCache.set_ready l (RouteCache.set_inflight (delete topic (RouteCache.inflight_route_requests_ (cache x))) (cache x)))
            (owners x) (net x) (regs x ++ []) (evs x ++ map (fun cb => RouteCache.Invoke cb ec route) cbs))) as [y Ey].
       { rewrite queries_invokes. cbn. lia. }
       { cbn. by apply access_kept. } { done. }
       exists (Deliver 0), y. split; [done|]. cbn [step]. unfold react, RouteCache.deliver. rewrite Er. cbn. rewrite Ec. exact Ey. }
  assert (Hw : RemoteCalls.work (net x) <> 0%nat) by (intros Hw; apply Hm; unfold measure; by rewrite He, Er, Hw).
  destruct (RemoteCalls.internal_enabled no_throw zlib_crc32 MD5 SHA1 zlib fresh DebugString (net x) Hi
              (or_intror (fun _ => eq_refl)) Hst Hw) as (a & n & Hint & E).
  destruct (decide (RemoteCalls.below a)) as [Hb|Hb].
  - exists (Net a), (set_net n x). split; [done|]. rewrite route_net_step by done. by rewrite E.
  - destruct a; try done. cbn [RemoteCalls.step] in E. destruct (finish_rinv r k x n Hx E) as (y & Ey & _). by exists (Finish k), y.
Qed.

Lemma route_decreases a x y :
  rinv r x -> state_of x = STARTED -> internal a -> step a x = Some y ->
  (measure y < measure x)%nat /\ state_of y = STARTED.
Proof.
  intros Hx Hst Hi. destruct a as [topic cb|i|i|topic|a|k]; try done.
  - intros E. destruct (react_query r Fetching (RouteCache.Enter i) x y Hx) as (_ & Hs & c & l & Ec & Ecy & Ew); [by left|exact E|].
    split; [|congruence]. unfold measure. rewrite Ecy, Ew. cbn [RouteCache.step] in Ec. unfold RouteCache.getRouteFor_enter in Ec.
    destruct (RouteCache.entering_ (cache x) !! i) as [[topic cb]|] eqn:Ei; [|done]. pose proof (RemoteCalls.length_delete i _ _ Ei) as Hd. cbn in Ec.
    destruct (RouteCache.topic_route_table_ (cache x) !! topic); [injection Ec as <- <-; cbn; lia|].
    destruct (RouteCache.inflight_route_requests_ (cache x) !! topic); [injection Ec as <- <-; cbn; lia|].
    unfold RouteCache.fetchRouteFor in Ec. destruct (str_empty _); injection Ec as <- <-; cbn; lia.
  - intros E. destruct (react_query r Fetching (RouteCache.Deliver i) x y Hx) as (_ & Hs & c & l & Ec & Ecy & Ew); [by left|exact E|].
    split; [|congruence]. unfold measure. rewrite Ecy, Ew. cbn [RouteCache.step] in Ec. unfold RouteCache.deliver in Ec.
    destruct (RouteCache.ready_ (cache x) !! i) as [[[topic ec] route]|] eqn:Ei; [|done]. pose proof (RemoteCalls.length_delete i _ _ Ei) as Hd.
    destruct (RouteCache.inflight_route_requests_ (cache x) !! topic) as [cbs|]; [|done]. injection Ec as <- <-.
    rewrite queries_invokes. cbn. lia.
  - destruct Hi as [Hi Hb]. rewrite route_net_step by done. destruct (RemoteCalls.step _ _ _ _ _ _ _ a (net x)) as [n|] eqn:E; [|done].
    cbn [mbind option_bind]. intros [= <-]. destruct (RemoteCalls.internal_decreases _ _ _ _ _ _ _ a (net x) n (RemoteCalls.t_inv _ _ _ (r_tracks _ _ Hx)) Hi Hst E) as [Hw Hs].
    split; [unfold measure; cbn [set_net net cache]; lia|exact Hs].
  - intros E. destruct (RemoteCalls.finish no_throw k (net x)) as [n|] eqn:En.
    + destruct (finish_rinv r k x n Hx En) as (y' & Ey & _ & Hs & Hm). rewrite Ey in E. injection E as <-. split; [exact Hm|congruence].
    + cbn [step] in E. by rewrite En in E.
Qed.

(** When nothing is left to do no query is under way. *)
Lemma route_quiet x :
  rinv r x -> state_of x = STARTED -> measure x = 0%nat ->
  RouteCache.entering_ (cache x) = [] /\ RouteCache.rpcs_ (cache x) = [] /\ RouteCache.ready_ (cache x) = [].
Proof.
  intros Hx Hst Hm. pose proof (r_tracks _ _ Hx) as Ht. pose proof (RemoteCalls.t_inv _ _ _ Ht) as Hi.
  destruct (RemoteCalls.i_started _ Hi Hst) as (Hd & _).
  unfold measure in Hm. split; [apply length_zero_iff_nil; lia|]. split; [|apply length_zero_iff_nil; lia].
  assert (Ho : owners x = ∅).
  { apply map_empty. intros k. apply eq_None_not_Some. rewrite (RemoteCalls.t_owned _ _ _ Ht), (RemoteCalls.i_contexts _ Hi).
    intros [Hlt Hnr]. apply Hnr. assert (Hin : k ∈ RemoteCalls.places (net x)) by (rewrite <- (RemoteCalls.i_places _ Hi); apply elem_of_seq; lia).
    unfold RemoteCalls.places in Hin. unfold RemoteCalls.work in Hm. rewrite Hd in Hin.
    destruct (RemoteCalls.flying _), (RemoteCalls.completed _), (ThreadPoolImpl.posted_ _), (ThreadPoolImpl.busy_ _);
      try (exfalso; cbn in Hm; lia). exact Hin. }
  destruct (r_matches _ _ Hx) as [Q _]. rewrite Ho in Q. unfold owned in Q. rewrite map_to_list_empty in Q. cbn in Q.
  by apply Permutation_nil_r in Q.
Qed.
End liveness.

(** C17: routes over the network.  In every interleaving of callers of [getRouteFor], refreshes of
    the table, the network, the poller, the workers and the shutdown of the manager, the
    client behaves like the route table alone: its history is one of RouteCache, with one
    call on the wire per query it believes to be under way; each callback
    was invoked at most once, with an answer a name server gave, decoded; what the table
    holds was answered for its topic.  While the manager is started and name servers are
    known, as long as anything is under way some thread can take a step, each such step
    brings the callers closer to their answers, and when none is left every callback ever
    handed over was invoked, exactly once. *)
Theorem routes_over_network r m l x :
  run l (make r m) = Some x ->
  RouteCache.steps (RouteCache.make r) (regs x) (evs x) (cache x)
  /\ RouteCache.rpcs_ (cache x) ≡ₚ owned fetching (owners x)
  /\ (forall k, is_Some (owners x !! k) <-> is_Some (RemoteCalls.contexts (net x) !! k))
  /\ RouteCache.invoked (evs x) ++ RouteCache.pending (cache x) ≡ₚ regs x
  /\ (forall cb ec route, RouteCache.Invoke cb ec route ∈ evs x ->
        exists j c told, (j, (c, told)) ∈ RemoteCalls.reports (net x) /\ answered c = Some (ec, route))
  /\ (forall topic rt, RouteCache.topic_route_table_ (cache x) !! topic = Some rt ->
        exists o j c told, (j, (c, told)) ∈ RemoteCalls.reports (net x) /\ answered c = Some (Success, Some rt)
          /\ tag o (RemoteCalls.unanswered c) /\ topic_of o = topic)
  /\ (state_of x = STARTED -> servers r <> [] -> ""%string ∉ servers r ->
       is_Some (ClientImpl.setAccessPoint stoi (servers r) rmq.Endpoints_default) ->
       (measure x <> 0%nat -> exists a y, internal a /\ step a x = Some y)
       /\ (forall a y, internal a -> step a x = Some y -> (measure y < measure x)%nat /\ state_of y = STARTED)
       /\ (measure x = 0%nat -> RouteCache.invoked (evs x) ≡ₚ regs x)).
Proof.
  intros Hr. pose proof (run_rinv r l _ x (rinv_make r m) Hr) as Hx. pose proof Hx as [H1 [Q1 Q2] H3 H4 H5 H6].
  assert (Hheard : forall o a, (o, a) ∈ heard (net x) -> exists j c told, (j, (c, told)) ∈ RemoteCalls.reports (net x)
            /\ answered c = Some a /\ tag o (RemoteCalls.unanswered c)).
  { intros o a Hin. unfold heard in Hin. apply list_elem_of_In, in_concat in Hin as (told & Ht & Hin).
    apply list_elem_of_In in Hin. apply list_elem_of_In, list_elem_of_fmap in Ht as ([j [c told']] & -> & Hrep). cbn in Hin.
    destruct (H6 j c told' Hrep) as (o' & a' & -> & Htag & Ha). apply list_elem_of_singleton in Hin as [= -> ->]. by exists j, c, [(o', a')]. }
  split; [exact H3|]. split; [exact Q1|]. split; [exact (RemoteCalls.t_owned _ _ _ H1)|]. split; [|split; [|split]].
  - pose proof (RouteCache.steps_conserves _ _ _ _ H3) as HC. unfold RouteCache.pending at 2 in HC. cbn in HC.
    rewrite map_to_list_empty in HC. cbn in HC. by rewrite app_nil_r in HC.
  - intros cb ec route Hin. destruct (H5 cb ec route Hin) as (o & Ho). destruct (Hheard o _ Ho) as (j & c & told & Hrep & Ha & _). by exists j, c, told.
  - intros topic rt Et. destruct (k_table _ _ H4 topic rt Et) as (o & Ho & Hin).
    destruct (Hheard o _ Hin) as (j & c & told & Hrep & Ha & Htag). by exists o, j, c, told.
  - intros Hst Hne Hemp Hacc. split; [by apply (route_progress r)|]. split; [intros a y; by apply (route_decreases r)|].
    intros Hm. destruct (route_quiet r x Hx Hst Hm) as (E1 & E2 & E3).
    apply (RouteCache.route_callbacks_all_invoked r _ _ (cache x)); [|done|done|done].
    by apply (RouteCache.steps_available (RouteCache.make r)).
Qed.
End route_path.

(** ** Two callers share a query *)
Definition example_env : Env :=
  mkEnv (fun _ => None) (fun _ => "20211101T000000Z"%string) (fun _ => 0) (fun _ => "0100"%string) (fun _ _ => true).
Definition example_response (m : RemoteCalls.Method) : Completion (RemoteCalls.response_of m) :=
  match m with
  | RemoteCalls.QueryRoute =>
      mkCompletion true (rmq.mkQueryRouteResponse (rmq.mkResponseCommon OK "")
        [rmq.mkPartition (rmq.mkResource "" "TopicTest") 0 rmq.READ_WRITE rmq.Broker_default])
  | m => RemoteCalls.example_answer m
  end.
Definition example_history : list action :=
  [GetRouteFor "TopicTest" 1; GetRouteFor "TopicTest" 2; Enter 0; Enter 0; Net (RemoteCalls.Complete 0 true example_response);
   Net RemoteCalls.Poll; Net RemoteCalls.Begin; Finish 0; Deliver 0; GetRouteFor "TopicTest" 3].
Definition example_run :=
  run (C := gset string) toy_crc32 (fun _ => None) (fun _ => []) toy_zlib toy_fresh (fun _ => ""%string) (fun _ _ => []) (read_decimal 0)
    (ClientConfigImpl.make "group") example_env example_history (make RouteCache.example_resolver RemoteCalls.example_manager).

Lemma route_example_outcome :
  option_map (fun x => (regs x, RouteCache.invoked (evs x), length (RemoteCalls.issued (net x)), measure x,
                        bool_decide (ClientManagerImpl.state_ (RemoteCalls.manager (net x)) = STARTED))) example_run
  = Some ([1; 2; 3], [1; 2; 3], 1, 0, true)%nat.
Proof. vm_compute. reflexivity. Qed.

Lemma routes_over_network_witness :
  exists x, example_run = Some x /\ measure x = 0%nat /\ RouteCache.invoked (evs x) ≡ₚ [1; 2; 3]%nat.
Proof.
  pose proof route_example_outcome as H. destruct example_run as [x|] eqn:E; [|discriminate H]. injection H as H1 _ _ H4 H5.
  apply bool_decide_eq_true in H5.
  destruct (routes_over_network toy_crc32 (fun _ => None) (fun _ => []) toy_zlib toy_fresh (fun _ => ""%string) (fun _ _ => []) (read_decimal 0)
              (ClientConfigImpl.make "group") example_env RouteCache.example_resolver RemoteCalls.example_manager example_history x E)
    as (_ & _ & _ & _ & _ & _ & Hl).
  exists x. split; [reflexivity|]. split; [exact H4|]. rewrite <- H1. apply Hl.
  - exact H5.
  - vm_compute. discriminate.
  - apply (bool_decide_unpack _). vm_compute. exact I.
  - apply (bool_decide_unpack _). vm_compute. exact I.
  - exact H4.
Defined.

End RoutePath.
