(* ===== verification/ProcessQueue.v ===== *)
(** * The process queue: the local cache of one assigned message queue.

    [ProcessQueueImpl] (rocketmq/ProcessQueueImpl.cpp): messages fetched from the broker
    are cached, taken in batches by the consume service (they are then "inflight"), and
    released once they are done with; the counters of cached messages and bytes throttle
    the fetching.  In broadcasting mode a set of offsets yields the offset to commit.

    [ConsumerView] is what a process queue asks of its consumer, which it holds by a weak
    pointer; the methods get [None] once the consumer is gone. *)

From S2P Require Import Prelude Types Message MixAll Proto Codec ClientManager.

Record ConsumerView := mkConsumerView {
  messageModel : MessageModel;
  maxCachedMessageQuantity : Z;
  maxCachedMessageMemory : Z;
  receiveMessageAction : ReceiveMessageAction;
  receiveBatchSize : Z;
  view_client_id : string;
  view_group_name : string;
  view_namespace : string;
  view_long_polling_timeout : Z;
  getFilterExpression : string -> option FilterExpression.t;
  view_credentials_provider : bool;
}.

Module ProcessQueueImpl.

Record OffsetRecord := mkOffsetRecord { offset_ : Z; released_ : bool }.

(** [cached_messages_] in order; [offsets_] is a [std::set] ordered by offset, as the
    ascending list of its elements.  Times are milliseconds. *)
Record t := mk {
  message_queue_ : MQMessageQueue.t;
  filter_expression_ : FilterExpression.t;
  invisible_time_ : Z;
  idle_since_ : Z;
  cached_messages_ : list MQMessage.t;
  cached_message_quantity_ : Z;
  cached_message_memory_ : Z;
  next_offset_ : Z;
  has_fifo_task_bound_ : bool;
  offsets_ : list OffsetRecord;
}.

Definition make (now : Z) (message_queue : MQMessageQueue.t) (filter_expression : FilterExpression.t) : t :=
  mk message_queue filter_expression MixAll.DEFAULT_INVISIBLE_TIME_ now [] 0 0 0 false [].

Definition simpleName (s : t) : string := MQMessageQueue.simpleName (message_queue_ s).
Definition topic (s : t) : string := MQMessageQueue.topic_ (message_queue_ s).

(** ** [std::set<OffsetRecord>] *)
Fixpoint set_emplace (r : OffsetRecord) (l : list OffsetRecord) : list OffsetRecord :=
  match l with
  | [] => [r]
  | x :: l' => if offset_ r <? offset_ x then r :: l
               else if offset_ x <? offset_ r then x :: set_emplace r l'
               else l
  end.
Definition set_erase (o : Z) (l : list OffsetRecord) : list OffsetRecord :=
  List.filter (fun x => negb (offset_ x =? o)) l.

(** ** Throttling and expiry *)
Definition expired (now : Z) (s : t) : bool := MixAll.PROCESS_QUEUE_EXPIRATION_THRESHOLD_ <? now - idle_since_ s.

Definition shouldThrottle (consumer : option ConsumerView) (s : t) : bool :=
  match consumer with
  | None => false
  | Some c =>
      if maxCachedMessageQuantity c <=? cached_message_quantity_ s then true
      else if negb (maxCachedMessageMemory c =? 0)
      then maxCachedMessageMemory c <=? cached_message_memory_ s
      else false
  end.

Definition hasPendingMessages (s : t) : bool := negb (bool_decide (cached_messages_ s = [])).
Definition cachedMessagesSize (s : t) : Z := u32 (zlen (cached_messages_ s)).

(** ** Caching, taking, releasing *)

(** The body of the loop of [cacheMessages] on one message; the second component is the
    message that is acknowledged at once because the filter rejects it. *)
Definition cache_one (c : ConsumerView) (message : MQMessage.t) (s : t) : t * list MQMessage.t :=
  if negb (FilterExpression.accept (filter_expression_ s) message) then (s, [message])
  else
    let offsets :=
      if bool_decide (messageModel c = BROADCASTING) then
        let o := match offsets_ s with
                 | [r] => if released_ r then set_erase (offset_ r) (offsets_ s) else offsets_ s
                 | _ => offsets_ s
                 end in
        set_emplace (mkOffsetRecord (MQMessage.getQueueOffset message) false) o
      else offsets_ s in
    (mk (message_queue_ s) (filter_expression_ s) (invisible_time_ s) (idle_since_ s)
        (cached_messages_ s ++ [message])
        (u32 (cached_message_quantity_ s + 1))
        (u64 (cached_message_memory_ s + MQMessage.body_size message))
        (next_offset_ s) (has_fifo_task_bound_ s) offsets, []).

Fixpoint cache_loop (c : ConsumerView) (messages : list MQMessage.t) (s : t) : t * list MQMessage.t :=
  match messages with
  | [] => (s, [])
  | m :: messages' =>
      let '(s, acks) := cache_one c m s in
      let '(s, acks') := cache_loop c messages' s in
      (s, acks ++ acks')
  end.

Definition cacheMessages (consumer : option ConsumerView) (messages : list MQMessage.t) (s : t)
    : t * list MQMessage.t :=
  match consumer with None => (s, []) | Some c => cache_loop c messages s end.

Definition set_cached (l : list MQMessage.t) (s : t) : t :=
  mk (message_queue_ s) (filter_expression_ s) (invisible_time_ s) (idle_since_ s) l
     (cached_message_quantity_ s) (cached_message_memory_ s) (next_offset_ s) (has_fifo_task_bound_ s) (offsets_ s).

(** The loop of [take]: [batch_size] is a [uint32_t] tested and then decremented. *)
Fixpoint take_loop (batch_size : Z) (l : list MQMessage.t) : list MQMessage.t * list MQMessage.t :=
  match l with
  | [] => ([], [])
  | m :: l' => if 0 =? batch_size then ([], l)
               else let '(taken, rest) := take_loop (u32 (batch_size - 1)) l' in (m :: taken, rest)
  end.

(** Whether more messages are cached, the messages taken, and the new state. *)
Definition take (batch_size : Z) (s : t) : bool * list MQMessage.t * t :=
  if bool_decide (cached_messages_ s = []) then (false, [], s)
  else
    let '(taken, rest) := take_loop batch_size (cached_messages_ s) in
    (negb (bool_decide (rest = [])), taken, set_cached rest s).

Definition committedOffset (s : t) : option Z :=
  match offsets_ s with
  | [] => None
  | r :: _ => Some (if released_ r then offset_ r + 1 else offset_ r)
  end.

Definition release (consumer : option ConsumerView) (body_size offset : Z) (s : t) : t :=
  match consumer with
  | None => s
  | Some c =>
      let offsets :=
        if bool_decide (messageModel c = BROADCASTING) then
          if 1 <? zlen (offsets_ s) then set_erase offset (offsets_ s)
          else set_emplace (mkOffsetRecord offset true) (set_erase offset (offsets_ s))
        else offsets_ s in
      mk (message_queue_ s) (filter_expression_ s) (invisible_time_ s) (idle_since_ s) (cached_messages_ s)
         (u32 (cached_message_quantity_ s - 1)) (u64 (cached_message_memory_ s - body_size))
         (next_offset_ s) (has_fifo_task_bound_ s) offsets
  end.

Definition set_fifo (b : bool) (s : t) : t :=
  mk (message_queue_ s) (filter_expression_ s) (invisible_time_ s) (idle_since_ s) (cached_messages_ s)
     (cached_message_quantity_ s) (cached_message_memory_ s) (next_offset_ s) b (offsets_ s).
Definition bindFifoConsumeTask (s : t) : bool * t :=
  if has_fifo_task_bound_ s then (false, s) else (true, set_fifo true s).
Definition unbindFifoConsumeTask (s : t) : bool * t :=
  if has_fifo_task_bound_ s then (true, set_fifo false s) else (false, s).

Definition syncIdleState (now : Z) (s : t) : t :=
  mk (message_queue_ s) (filter_expression_ s) (invisible_time_ s) now (cached_messages_ s)
     (cached_message_quantity_ s) (cached_message_memory_ s) (next_offset_ s) (has_fifo_task_bound_ s) (offsets_ s).
Definition nextOffset (o : Z) (s : t) : t :=
  mk (message_queue_ s) (filter_expression_ s) (invisible_time_ s) (idle_since_ s) (cached_messages_ s)
     (cached_message_quantity_ s) (cached_message_memory_ s) o (has_fifo_task_bound_ s) (offsets_ s).

(** ** Requests *)
Definition wrapFilterExpression (c : ConsumerView) (s : t) : rmq.FilterExpression :=
  match getFilterExpression c (topic s) with
  | Some e => match FilterExpression.type_ e with
              | TAG => rmq.mkFilterExpression rmq.TAG (FilterExpression.content_ e)
              | SQL92 => rmq.mkFilterExpression rmq.SQL (FilterExpression.content_ e)
              end
  | None => rmq.mkFilterExpression rmq.TAG "*"
  end.

Definition request_partition (c : ConsumerView) (s : t) : rmq.Partition :=
  rmq.mkPartition (rmq.mkResource (view_namespace c) (topic s)) (MQMessageQueue.queue_id_ (message_queue_ s))
    rmq.NONE rmq.Broker_default.

Definition wrapPopMessageRequest (c : ConsumerView) (s : t) : rmq.ReceiveMessageRequest :=
  rmq.mkReceiveMessageRequest (rmq.mkResource (view_namespace c) (view_group_name c)) (view_client_id c)
    (request_partition c s) (wrapFilterExpression c s) rmq.RESUME (receiveBatchSize c)
    (rmq.mkTimestamp (Z.quot (invisible_time_ s) 1000)
       (i32 ((invisible_time_ s - Z.quot (invisible_time_ s) 1000 * 1000) * 1000000)))
    (rmq.mkTimestamp 0 0) false.

Definition wrapPullMessageRequest (c : ConsumerView) (s : t) : rmq.PullMessageRequest :=
  rmq.mkPullMessageRequest (rmq.mkResource (view_namespace c) (view_group_name c)) (request_partition c s)
    (next_offset_ s) (receiveBatchSize c) (rmq.mkTimestamp 0 0) (wrapFilterExpression c s) (view_client_id c).

(** ** Receiving: the call made on the client manager.  A pull is not signed. *)
Inductive receive_call :=
  | PopCall (target : string) (signed : bool) (request : rmq.ReceiveMessageRequest) (timeout : Z)
  | PullCall (target : string) (signed : bool) (request : rmq.PullMessageRequest) (timeout : Z).

Definition popMessage (now : Z) (consumer : option ConsumerView) (s : t) : t * option receive_call :=
  match consumer with
  | None => (s, None)
  | Some c =>
      let s := syncIdleState now s in
      (s, Some (PopCall (MQMessageQueue.service_address_ (message_queue_ s)) true
                  (wrapPopMessageRequest c s) (view_long_polling_timeout c)))
  end.

Definition pullMessage (now : Z) (c : ConsumerView) (s : t) : t * option receive_call :=
  let request := wrapPullMessageRequest c s in
  let s := syncIdleState now s in
  (s, Some (PullCall (MQMessageQueue.service_address_ (message_queue_ s)) false request
              (view_long_polling_timeout c))).

Definition receiveMessage (now : Z) (consumer : option ConsumerView) (s : t) : t * option receive_call :=
  match consumer with
  | None => (s, None)
  | Some c => match receiveMessageAction c with
              | POLLING => popMessage now consumer s
              | PULL => pullMessage now c s
              end
  end.

(** The completion of a pull: what the receive callback is given; [Success] stands for
    [onSuccess] with the processed result. *)
Definition pull_ec (ok : bool) (c : Code) : error_code :=
  if ok then
    match c with
    | OK => Success
    | PERMISSION_DENIED => Forbidden
    | UNAUTHENTICATED => Unauthorized
    | DEADLINE_EXCEEDED => GatewayTimeout
    | INVALID_ARGUMENT => BadRequest
    | FAILED_PRECONDITION => PreconditionRequired
    | INTERNAL => InternalServerError
    | _ => NotImplemented
    end
  else RequestTimeout.

(** ** Quota accounting

    Histories of a queue whose consumer is alive; [inflight] are the messages taken and
    not yet released. *)
Section accounting.
Context (c : ConsumerView).

Inductive action :=
  | Cache (messages : list MQMessage.t)
  | Take (batch_size : Z)
  | Release (i : nat).

(** A state, the messages taken and not yet released. *)
Definition astate : Type := t * list MQMessage.t.

Definition astep (a : action) (x : astate) : option astate :=
  let '(s, inflight) := x in
  match a with
  | Cache messages => Some (fst (cacheMessages (Some c) messages s), inflight)
  | Take batch_size => let '(_, taken, s') := take batch_size s in Some (s', inflight ++ taken)
  | Release i =>
      match inflight !! i with
      | None => None
      | Some m => Some (release (Some c) (MQMessage.body_size m) (MQMessage.getQueueOffset m) s, delete i inflight)
      end
  end.

Fixpoint arun (l : list action) (x : astate) : option astate :=
  match l with [] => Some x | a :: l' => x' ← astep a x; arun l' x' end.

Definition total_size (l : list MQMessage.t) : Z := foldr (fun m acc => MQMessage.body_size m + acc) 0 l.

(** The messages the queue is accountable for. *)
Definition held (x : astate) : list MQMessage.t := cached_messages_ (fst x) ++ snd x.

Record accounted (x : astate) : Prop := {
  acc_quantity : cached_message_quantity_ (fst x) = u32 (zlen (held x));
  acc_memory : cached_message_memory_ (fst x) = u64 (total_size (held x));
}.

Lemma total_size_app a b : total_size (a ++ b) = total_size a + total_size b.
Proof. induction a as [|m a IH]; cbn; [done|]. unfold total_size in *. cbn. lia. Qed.

Lemma total_size_perm a b : a ≡ₚ b -> total_size a = total_size b.
Proof. induction 1; unfold total_size in *; cbn in *; lia. Qed.

Lemma cache_one_accounted m s inflight :
  accounted (s, inflight) -> accounted (fst (cache_one c m s), inflight).
Proof.
  intros [Hq Hm]. unfold cache_one. destruct (negb _); [done|]. unfold held in *. cbn in *.
  split; unfold held; cbn [fst snd cached_messages_ cached_message_quantity_ cached_message_memory_].
  - rewrite Hq, u32_add_l. f_equal. unfold zlen. rewrite !length_app. cbn. lia.
  - rewrite Hm, u64_add_l. f_equal. rewrite !total_size_app. unfold total_size at 4. cbn. lia.
Qed.

Lemma cache_loop_accounted messages s inflight :
  accounted (s, inflight) -> accounted (fst (cache_loop c messages s), inflight).
Proof.
  revert s. induction messages as [|m l IH]; intros s H; cbn [cache_loop]; [done|].
  pose proof (cache_one_accounted m s inflight H) as H1. destruct (cache_one c m s) as [s1 a1].
  specialize (IH s1 H1). by destruct (cache_loop c l s1) as [s2 a2].
Qed.

Lemma take_loop_app n l : let '(taken, rest) := take_loop n l in l = taken ++ rest.
Proof.
  revert n. induction l as [|m l IH]; intros n; cbn [take_loop]; [done|].
  destruct (0 =? n); [done|]. specialize (IH (u32 (n - 1))).
  destruct (take_loop (u32 (n - 1)) l) as [a b]. cbn. by rewrite IH.
Qed.

Lemma accounted_perm x y :
  accounted x -> held x ≡ₚ held y ->
  cached_message_quantity_ (fst y) = cached_message_quantity_ (fst x) ->
  cached_message_memory_ (fst y) = cached_message_memory_ (fst x) -> accounted y.
Proof.
  intros [Hq Hm] HP E1 E2. split.
  - rewrite E1, Hq. unfold zlen. by rewrite HP.
  - rewrite E2, Hm. by rewrite (total_size_perm _ _ HP).
Qed.

Lemma astep_accounted a x x' : accounted x -> astep a x = Some x' -> accounted x'.
Proof.
  destruct x as [s inflight]. intros H. destruct a as [messages|n|i]; cbn [astep].
  - intros [= <-]. by apply cache_loop_accounted.
  - unfold take. destruct (bool_decide (cached_messages_ s = [])); [intros [= <-]; by rewrite app_nil_r|].
    pose proof (take_loop_app n (cached_messages_ s)) as E. destruct (take_loop _ _) as [taken rest].
    intros [= <-]. apply (accounted_perm _ _ H); [|done..]. unfold held. cbn. rewrite E.
    rewrite <- app_assoc. rewrite (Permutation_app_comm inflight taken), !app_assoc.
    by rewrite (Permutation_app_comm taken rest).
  - destruct (inflight !! i) as [m|] eqn:E; [|done]. intros [= <-]. destruct H as [Hq Hm].
    unfold held in *. cbn in Hq, Hm.
    assert (HP : cached_messages_ s ++ inflight ≡ₚ m :: cached_messages_ s ++ delete i inflight).
    { rewrite (delete_Permutation _ _ _ E) at 1. by rewrite <- Permutation_middle. }
    split; unfold held; cbn [fst snd release cached_messages_ cached_message_quantity_ cached_message_memory_].
    + rewrite Hq, u32_sub_l. f_equal. unfold zlen. rewrite HP. cbn. lia.
    + rewrite Hm, u64_sub_l. f_equal. rewrite (total_size_perm _ _ HP). unfold total_size. cbn. lia.
Qed.

Lemma arun_accounted l x x' : accounted x -> arun l x = Some x' -> accounted x'.
Proof.
  revert x. induction l as [|a l IH]; intros x H; cbn; [by intros [= <-]|].
  destruct (astep a x) as [x1|] eqn:E; cbn; [|done]. intros Hr. eauto using astep_accounted.
Qed.

Lemma total_size_nonneg l : 0 <= total_size l.
Proof. induction l as [|m l IH]; cbn; [lia|]. pose proof (MQMessage.body_size_nonneg m). unfold total_size in *. lia. Qed.

Lemma make_accounted now mq f : accounted (make now mq f, []).
Proof. split; reflexivity. Qed.

(** C20: the counters of a process queue are exact in every history of caching, taking and
    releasing, so a queue is throttled exactly when the messages it still answers for,
    cached or inflight, reach the configured number or amount of bytes. *)
Theorem quota_exact now mq f l s inflight :
  arun l (make now mq f, []) = Some (s, inflight) ->
  zlen (cached_messages_ s ++ inflight) < 2 ^ 32 -> total_size (cached_messages_ s ++ inflight) < 2 ^ 64 ->
  cached_message_quantity_ s = zlen (cached_messages_ s ++ inflight)
  /\ cached_message_memory_ s = total_size (cached_messages_ s ++ inflight)
  /\ (shouldThrottle (Some c) s = true <->
        maxCachedMessageQuantity c <= zlen (cached_messages_ s ++ inflight)
        \/ (maxCachedMessageMemory c <> 0
            /\ maxCachedMessageMemory c <= total_size (cached_messages_ s ++ inflight))).
Proof.
  intros Hr Hn Hm. destruct (arun_accounted _ _ _ (make_accounted now mq f) Hr) as [Hq Hmm].
  unfold held in Hq, Hmm. cbn [fst snd] in Hq, Hmm.
  rewrite u32_small in Hq by (split; [apply zlen_nonneg|done]).
  rewrite u64_small in Hmm by (split; [apply total_size_nonneg|done]).
  split_and!; [done..|]. unfold shouldThrottle. rewrite Hq, Hmm.
  destruct (Z.leb_spec (maxCachedMessageQuantity c) (zlen (cached_messages_ s ++ inflight))); [split; auto|].
  destruct (Z.eqb_spec (maxCachedMessageMemory c) 0); cbn [negb].
  - split; [done|]. intros [?|[? ?]]; lia.
  - rewrite Z.leb_le. split; [auto|]. intros [?|[_ ?]]; [lia|done].
Qed.

End accounting.

(** ** Order and filtering *)

Lemma take_loop_firstn n l :
  0 <= n < 2 ^ 32 -> take_loop n l = (firstn (Z.to_nat n) l, skipn (Z.to_nat n) l).
Proof.
  revert n. induction l as [|m l IH]; intros n Hn; cbn [take_loop].
  { by rewrite firstn_nil, skipn_nil. }
  destruct (Z.eqb_spec 0 n) as [<-|]; [done|].
  rewrite u32_small by lia. rewrite IH by lia.
  replace (Z.to_nat n) with (S (Z.to_nat (n - 1))) by lia. done.
Qed.

Lemma cache_loop_spec c messages s :
  cached_messages_ (fst (cache_loop c messages s))
    = cached_messages_ s ++ List.filter (FilterExpression.accept (filter_expression_ s)) messages
  /\ snd (cache_loop c messages s)
    = List.filter (fun m => negb (FilterExpression.accept (filter_expression_ s) m)) messages
  /\ filter_expression_ (fst (cache_loop c messages s)) = filter_expression_ s.
Proof.
  revert s. induction messages as [|m l IH]; intros s; cbn [cache_loop List.filter].
  { cbn. by rewrite app_nil_r. }
  unfold cache_one. destruct (FilterExpression.accept (filter_expression_ s) m) eqn:E; cbn [negb].
  - match goal with |- context [cache_loop c l ?x] => specialize (IH x); destruct (cache_loop c l x) as [s2 a2] end.
    cbn in IH |- *. destruct IH as (-> & -> & ->). by rewrite <- app_assoc.
  - specialize (IH s). destruct (cache_loop c l s) as [s2 a2]. cbn in IH |- *.
    destruct IH as (-> & -> & ->). done.
Qed.

(** A process queue is first-in first-out: a batch is the oldest [batch_size] cached
    messages, in the order they were received, and the flag says whether any is left;
    a message the filter rejects is acknowledged at once and never cached. *)
Theorem queue_fifo c messages batch_size s :
  0 <= batch_size < 2 ^ 32 ->
  let '(s1, acks) := cacheMessages (Some c) messages s in
  let '(more, taken, s2) := take batch_size s1 in
  taken ++ cached_messages_ s2
    = cached_messages_ s ++ List.filter (FilterExpression.accept (filter_expression_ s)) messages
  /\ zlen taken = Z.min batch_size (zlen (cached_messages_ s1))
  /\ (more = true <-> cached_messages_ s2 <> [])
  /\ acks = List.filter (fun m => negb (FilterExpression.accept (filter_expression_ s) m)) messages.
Proof.
  intros Hb. unfold cacheMessages. pose proof (cache_loop_spec c messages s) as H.
  destruct (cache_loop c messages s) as [s1 acks]. cbn in H. destruct H as (<- & -> & _).
  unfold take. case_bool_decide as E.
  - rewrite E. split_and!; [done|rewrite zlen_nil; lia|done|done].
  - rewrite take_loop_firstn by done. cbn [cached_messages_ set_cached]. split_and!.
    + apply firstn_skipn.
    + unfold zlen. rewrite length_firstn. lia.
    + case_bool_decide as E2; cbn; [by rewrite E2|done].
    + done.
Qed.

(** At most one FIFO task is bound to a queue: binding succeeds exactly when none is
    bound, and again only after an unbinding. *)
Theorem fifo_task_exclusive s :
  let '(ok, s1) := bindFifoConsumeTask s in
  (ok = true <-> has_fifo_task_bound_ s = false)
  /\ has_fifo_task_bound_ s1 = true
  /\ bindFifoConsumeTask s1 = (false, s1)
  /\ fst (unbindFifoConsumeTask s1) = true
  /\ fst (bindFifoConsumeTask (snd (unbindFifoConsumeTask s1))) = true.
Proof.
  unfold bindFifoConsumeTask, unbindFifoConsumeTask. destruct (has_fifo_task_bound_ s) eqn:E; cbn; rewrite ?E; cbn; done.
Qed.

(** ** Broadcasting: the offset to commit *)
Section broadcasting.
Context (c : ConsumerView).
Hypothesis broadcasting : messageModel c = BROADCASTING.

Definition offsets_of (l : list MQMessage.t) : list Z := map MQMessage.getQueueOffset l.

Definition ascending : list OffsetRecord -> Prop := StronglySorted (fun a b => offset_ a < offset_ b).

(** The offset set of a state that answers for the offsets [u]. *)
Record tracks (u : list Z) (l : list OffsetRecord) : Prop := {
  tr_sorted : ascending l;
  tr_open o : o ∈ u <-> mkOffsetRecord o false ∈ l;
  tr_closed r : r ∈ l -> released_ r = true -> l = [r];
}.

Lemma set_emplace_spec r l :
  ascending l -> (forall x, x ∈ l -> offset_ x <> offset_ r) ->
  ascending (set_emplace r l) /\ forall x, x ∈ set_emplace r l <-> x = r \/ x ∈ l.
Proof.
  intros Hs. induction Hs as [|y l Hs IH Hy]; intros Hf; cbn [set_emplace].
  - split; [constructor; constructor|]. intros x. rewrite elem_of_cons. done.
  - assert (Hne : offset_ y <> offset_ r) by (apply Hf; left).
    destruct (Z.ltb_spec (offset_ r) (offset_ y)).
    + split; [|intros x; rewrite !elem_of_cons; tauto].
      constructor; [by constructor|]. constructor; [done|].
      eapply Forall_impl; [exact Hy|]. cbn. lia.
    + destruct (Z.ltb_spec (offset_ y) (offset_ r)); [|lia].
      destruct IH as [IH1 IH2]; [intros x Hx; apply Hf; by right|].
      split; [|intros x; rewrite !elem_of_cons, IH2; tauto].
      constructor; [done|]. apply Forall_forall. intros x Hx. apply IH2 in Hx as [->|Hx]; [done|].
      by eapply Forall_forall in Hy.
Qed.

Lemma set_erase_spec o l :
  ascending l -> ascending (set_erase o l) /\ forall x, x ∈ set_erase o l <-> x ∈ l /\ offset_ x <> o.
Proof.
  intros Hs. unfold set_erase. split.
  - induction Hs as [|y l Hs IH Hy]; cbn; [constructor|]. destruct (negb _); [|done]. constructor; [done|].
    apply Forall_forall. intros x Hx. apply list_elem_of_In, filter_In in Hx as [Hx _].
    eapply Forall_forall in Hy; [exact Hy|by apply list_elem_of_In].
  - intros x. rewrite list_elem_of_In, filter_In, <- list_elem_of_In, negb_true_iff, Z.eqb_neq. done.
Qed.

(** Two records of the set with the same offset are the same record. *)
Lemma ascending_inj l x y : ascending l -> x ∈ l -> y ∈ l -> offset_ x = offset_ y -> x = y.
Proof.
  intros Hs. induction Hs as [|z l Hs IH Hz]; intros Hx Hy E; [by apply not_elem_of_nil in Hx|].
  apply elem_of_cons in Hx as [->|Hx], Hy as [->|Hy]; [done|..|by apply IH].
  - eapply Forall_forall in Hz; [|exact Hy]. cbn in Hz. lia.
  - eapply Forall_forall in Hz; [|exact Hx]. cbn in Hz. lia.
Qed.

Lemma tracks_cache u l o :
  tracks u l -> o ∉ u ->
  tracks (u ++ [o])
    (set_emplace (mkOffsetRecord o false)
       (match l with
        | [r] => if released_ r then set_erase (offset_ r) l else l
        | _ => l
        end)).
Proof.
  intros [Hs Ho Hc] Hfresh.
  assert (Hl : exists l', (match l with
        | [r] => if released_ r then set_erase (offset_ r) l else l
        | _ => l end) = l' /\ ascending l' /\ (forall r, r ∈ l' -> released_ r = false)
        /\ forall o', mkOffsetRecord o' false ∈ l <-> mkOffsetRecord o' false ∈ l').
  { destruct l as [|r [|r' l]].
    - exists []. split_and!; [done|constructor| |done]. intros r Hr. by apply not_elem_of_nil in Hr.
    - destruct (released_ r) eqn:Er.
      + exists []. split_and!.
        * unfold set_erase. cbn. by rewrite Z.eqb_refl.
        * constructor.
        * intros x Hx. by apply not_elem_of_nil in Hx.
        * intros o'. rewrite list_elem_of_singleton. split; [intros <-; done|intros H; by apply not_elem_of_nil in H].
      + exists [r]. split_and!; try done. intros x Hx. apply list_elem_of_singleton in Hx as ->. done.
    - exists (r :: r' :: l). split_and!; try done. intros x Hx.
      destruct (released_ x) eqn:Ex; [|done]. by apply Hc in Hx. }
  destruct Hl as (l' & -> & Hs' & Hopen & Heq).
  destruct (set_emplace_spec (mkOffsetRecord o false) l' Hs') as [S1 S2].
  { intros x Hx. cbn. intros E. apply Hfresh, Ho, Heq.
    destruct x as [xo xr]. cbn in E. subst xo. rewrite <- (Hopen _ Hx). done. }
  split; [done| |].
  - intros o'. rewrite elem_of_app, list_elem_of_singleton, S2, Ho, Heq. split; [intros [?| ->]; auto|].
    intros [[= ->]|?]; auto.
  - intros r Hr Er. apply S2 in Hr as [->|Hr]; [done|]. by rewrite (Hopen r Hr) in Er.
Qed.

Lemma tracks_release u l o :
  tracks u l -> o ∈ u -> NoDup u ->
  tracks (filter (fun x => x <> o) u)
    (if 1 <? zlen l then set_erase o l else set_emplace (mkOffsetRecord o true) (set_erase o l)).
Proof.
  intros [Hs Ho Hc] Hin Hnd. pose proof (proj1 (Ho o) Hin) as Hrec.
  destruct (set_erase_spec o l Hs) as [E1 E2].
  destruct (Z.ltb_spec 1 (zlen l)) as [Hlen|Hlen].
  - split; [done| |].
    + intros o'. rewrite list_elem_of_filter, E2, Ho. cbn. tauto.
    + intros r Hr Er. apply E2 in Hr as [Hr _]. pose proof (Hc r Hr Er) as El. rewrite El in Hlen.
      rewrite zlen_cons, zlen_nil in Hlen. lia.
  - assert (El : l = [mkOffsetRecord o false]).
    { destruct l as [|r [|r' l]]; [by apply not_elem_of_nil in Hrec| |].
      - by apply list_elem_of_singleton in Hrec as ->.
      - rewrite !zlen_cons in Hlen. pose proof (zlen_nonneg l). lia. }
    rewrite El. unfold set_erase. cbn. rewrite Z.eqb_refl. cbn. split.
    + constructor; constructor.
    + intros o'. rewrite list_elem_of_filter, list_elem_of_singleton, Ho, El, list_elem_of_singleton.
      split; [intros [Hne [= ->]]; done|done].
    + intros r Hr _. by apply list_elem_of_singleton in Hr as ->.
Qed.

Lemma tracks_set u v l : (forall o, o ∈ u <-> o ∈ v) -> tracks u l -> tracks v l.
Proof. intros E [H1 H2 H3]. split; [done| |done]. intros o. by rewrite <- E. Qed.

Lemma offsets_of_app a b : offsets_of (a ++ b) = offsets_of a ++ offsets_of b.
Proof. apply map_app. Qed.

Lemma cache_loop_tracks messages s inflight :
  tracks (offsets_of (held (s, inflight))) (offsets_ s) ->
  NoDup (offsets_of (held (s, inflight)
           ++ List.filter (FilterExpression.accept (filter_expression_ s)) messages)) ->
  tracks (offsets_of (held (fst (cache_loop c messages s), inflight))) (offsets_ (fst (cache_loop c messages s))).
Proof.
  unfold held. cbn [fst snd]. revert s. induction messages as [|m l IH]; intros s Ht Hn; [done|].
  cbn [cache_loop List.filter] in *. unfold cache_one.
  destruct (FilterExpression.accept (filter_expression_ s) m) eqn:E; cbn [negb].
  2: { specialize (IH s Ht Hn). by destruct (cache_loop c l s). }
  match goal with |- context [cache_loop c l ?x] => specialize (IH x); destruct (cache_loop c l x) as [s2 a2] end.
  cbn [fst cached_messages_ offsets_ filter_expression_] in IH |- *. apply IH.
  - rewrite broadcasting, bool_decide_eq_true_2 by done.
    eapply tracks_set; [|apply tracks_cache; [exact Ht|]].
    + intros o. rewrite !offsets_of_app, !elem_of_app. cbn. tauto.
    + rewrite !offsets_of_app in Hn. cbn in Hn. apply NoDup_app in Hn as (_ & Hd & _).
      rewrite offsets_of_app. intros Hin. apply (Hd _ Hin). left.
  - rewrite !offsets_of_app in Hn |- *. cbn in Hn |- *.
    rewrite <- !app_assoc in Hn |- *. cbn.
    rewrite (offsets_of_app _ [m]), <- app_assoc. cbn. by rewrite (Permutation_middle (offsets_of inflight)).
Qed.

(** The offsets a step brings in are new to the queue. *)
Definition fresh_action (a : action) (x : astate) : Prop :=
  match a with
  | Cache messages =>
      NoDup (offsets_of (held x ++ List.filter (FilterExpression.accept (filter_expression_ (fst x))) messages))
  | _ => True
  end.

(** The offset a step releases. *)
Definition released_by (a : action) (x : astate) : list Z :=
  match a with Release i => offsets_of (option_list (snd x !! i)) | _ => [] end.

(** Histories, with the offsets released so far. *)
Inductive bsteps : astate -> list Z -> astate -> Prop :=
  | bsteps_refl x : bsteps x [] x
  | bsteps_snoc x y a z done_ :
      bsteps x done_ y -> fresh_action a y -> astep c a y = Some z -> bsteps x (done_ ++ released_by a y) z.

(** A closed record stands for an offset that was released. *)
Definition closed_in (done_ : list Z) (l : list OffsetRecord) : Prop :=
  forall r, r ∈ l -> released_ r = true -> offset_ r ∈ done_.

Lemma set_emplace_sub r l x : x ∈ set_emplace r l -> x = r \/ x ∈ l.
Proof.
  induction l as [|y l IH]; cbn [set_emplace]; [rewrite list_elem_of_singleton; tauto|].
  destruct (_ <? _); [rewrite elem_of_cons; tauto|]. destruct (_ <? _); [|tauto].
  rewrite !elem_of_cons. tauto.
Qed.

Lemma set_erase_sub o l x : x ∈ set_erase o l -> x ∈ l.
Proof. unfold set_erase. rewrite !list_elem_of_In, filter_In. tauto. Qed.

Lemma cache_loop_closed messages s done_ :
  closed_in done_ (offsets_ s) -> closed_in done_ (offsets_ (fst (cache_loop c messages s))).
Proof.
  revert s. induction messages as [|m l IH]; intros s H; [done|]. cbn [cache_loop]. unfold cache_one.
  destruct (negb _).
  { specialize (IH s H). by destruct (cache_loop c l s). }
  match goal with |- context [cache_loop c l ?x] => specialize (IH x); destruct (cache_loop c l x) end.
  apply IH. cbn [offsets_]. destruct (bool_decide _); [|exact H].
  intros r Hr Er. apply set_emplace_sub in Hr as [->|Hr]; [done|]. apply H; [|done].
  destruct (offsets_ s) as [|r1 [|r2 l']]; [done| |done].
  destruct (released_ r1); [by apply set_erase_sub in Hr|done].
Qed.

Lemma astep_closed a x x' done_ :
  closed_in done_ (offsets_ (fst x)) -> astep c a x = Some x' ->
  closed_in (done_ ++ released_by a x) (offsets_ (fst x')).
Proof.
  destruct x as [s inflight]. intros H. destruct a as [messages|n|i]; cbn [astep released_by]; rewrite ?app_nil_r.
  - intros [= <-]. cbn [fst]. by apply cache_loop_closed.
  - unfold take. destruct (bool_decide _); [intros [= <-]; done|].
    destruct (take_loop _ _). intros [= <-]. done.
  - cbn [snd]. destruct (inflight !! i) as [m|]; [|done]. intros [= <-]. cbn [fst release offsets_ option_list].
    intros r Hr Er. apply elem_of_app.
    destruct (bool_decide _); [|left; by apply H]. destruct (1 <? _).
    + left. apply H; [by eapply set_erase_sub|done].
    + apply set_emplace_sub in Hr as [->|Hr]; [right; left|left]. apply H; [by eapply set_erase_sub|done].
Qed.

Lemma bsteps_closed x done_ y :
  bsteps x done_ y -> closed_in [] (offsets_ (fst x)) -> closed_in done_ (offsets_ (fst y)).
Proof. induction 1; [done|]. eauto using astep_closed. Qed.

Definition binv (x : astate) : Prop :=
  NoDup (offsets_of (held x)) /\ tracks (offsets_of (held x)) (offsets_ (fst x)).

Lemma astep_binv a x x' : binv x -> fresh_action a x -> astep c a x = Some x' -> binv x'.
Proof.
  destruct x as [s inflight]. intros [Hn Ht] Hf. unfold binv. destruct a as [messages|n|i]; cbn [astep].
  - intros [= <-]. split; [|by apply cache_loop_tracks].
    unfold held. cbn [fst snd cacheMessages]. rewrite (proj1 (cache_loop_spec c messages s)).
    cbn in Hf. unfold held in Hf. cbn in Hf. rewrite !offsets_of_app in Hf |- *.
    rewrite <- app_assoc in Hf |- *. by rewrite (Permutation_app_comm _ (offsets_of inflight)).
  - unfold take. destruct (bool_decide _); [intros [= <-]; by rewrite app_nil_r|].
    pose proof (take_loop_app n (cached_messages_ s)) as E. destruct (take_loop _ _) as [taken rest].
    intros [= <-]. unfold held in *. cbn in *. rewrite E in Hn, Ht.
    assert (HP : offsets_of ((taken ++ rest) ++ inflight) ≡ₚ offsets_of (rest ++ inflight ++ taken)).
    { apply Permutation_map. rewrite <- app_assoc, (Permutation_app_comm taken), <- app_assoc. done. }
    split; [by rewrite <- HP|]. eapply tracks_set; [|exact Ht]. intros o. by rewrite HP.
  - destruct (inflight !! i) as [m|] eqn:E; [|done]. intros [= <-].
    unfold held in *. cbn [fst snd release cached_messages_ offsets_] in *.
    assert (HP : offsets_of (cached_messages_ s ++ inflight)
                 ≡ₚ MQMessage.getQueueOffset m :: offsets_of (cached_messages_ s ++ delete i inflight)).
    { change (MQMessage.getQueueOffset m :: offsets_of (cached_messages_ s ++ delete i inflight))
        with (offsets_of (m :: cached_messages_ s ++ delete i inflight)).
      apply Permutation_map. rewrite (delete_Permutation _ _ _ E) at 1. by rewrite <- Permutation_middle. }
    pose proof Hn as Hn'. rewrite HP in Hn'. apply NoDup_cons in Hn' as [Hm Hn']. split; [done|].
    rewrite broadcasting, bool_decide_eq_true_2 by done.
    eapply tracks_set; [|apply tracks_release; [exact Ht|rewrite HP; left|done]].
    intros o. rewrite list_elem_of_filter, HP, elem_of_cons. split.
    + intros [Hne [->|?]]; done.
    + intros Ho. split; [|by right]. intros ->. done.
Qed.

Lemma bsteps_binv x done_ y : bsteps x done_ y -> binv x -> binv y.
Proof. induction 1; [done|]. eauto using astep_binv. Qed.

(** C21: in broadcasting mode the offset to commit is never beyond a message that has not
    been released: it is the smallest offset still held, cached or inflight; once nothing
    is held it is the offset after a released message.  So a restart from it redelivers
    whatever was not processed. *)
Theorem committedOffset_safe now mq f done_ s inflight :
  bsteps (make now mq f, []) done_ (s, inflight) ->
  match committedOffset s with
  | None => cached_messages_ s ++ inflight = []
  | Some o =>
      (forall m, m ∈ cached_messages_ s ++ inflight -> o <= MQMessage.getQueueOffset m)
      /\ (cached_messages_ s ++ inflight <> [] ->
            exists m, m ∈ cached_messages_ s ++ inflight /\ MQMessage.getQueueOffset m = o)
      /\ (cached_messages_ s ++ inflight = [] -> exists p, p ∈ done_ /\ o = p + 1)
  end.
Proof.
  intros H. pose proof (bsteps_closed _ _ _ H) as Hdone. destruct (bsteps_binv _ _ _ H) as [_ [Hs Ho Hc]].
  { split; [constructor|]. split; [constructor| |]; cbn.
    - intros o. split; intros Hx; by apply not_elem_of_nil in Hx.
    - intros r Hr. by apply not_elem_of_nil in Hr. }
  specialize (Hdone ltac:(intros r Hr; by apply not_elem_of_nil in Hr)).
  unfold held in *. cbn [fst snd] in *. set (u := cached_messages_ s ++ inflight) in *.
  assert (Hu : forall m, m ∈ u -> mkOffsetRecord (MQMessage.getQueueOffset m) false ∈ offsets_ s).
  { intros m Hm. apply Ho, list_elem_of_fmap. by exists m. }
  unfold committedOffset. destruct (offsets_ s) as [|r l] eqn:El.
  - destruct u as [|m u'] eqn:Eu; [done|]. exfalso.
    apply (not_elem_of_nil (mkOffsetRecord (MQMessage.getQueueOffset m) false)), Hu. left.
  - destruct (released_ r) eqn:Er.
    + assert (Hl : r :: l = [r]) by (apply Hc; [left|done]).
      assert (Hun : forall m, m ∉ u).
      { intros m Hm. apply Hu in Hm. rewrite Hl in Hm. apply list_elem_of_singleton in Hm. by rewrite <- Hm in Er. }
      split_and!; [intros m Hm; by apply Hun in Hm| |].
      * intros Hne. destruct u as [|m u']; [done|]. exfalso. apply (Hun m). left.
      * intros _. exists (offset_ r). split; [apply Hdone; [left|done]|done].
    + split_and!.
      * intros m Hm. apply Hu in Hm. apply elem_of_cons in Hm as [Hm|Hm].
        -- rewrite <- Hm. cbn. lia.
        -- apply StronglySorted_inv in Hs as [_ Hs]. eapply Forall_forall in Hs; [|exact Hm]. cbn in Hs. lia.
      * intros _. assert (Hin : offset_ r ∈ offsets_of u).
        { apply Ho. destruct r as [o b]. cbn in *. subst b. left. }
        apply list_elem_of_fmap in Hin as (m & E & Hm). exists m. done.
      * intros Eu. exfalso. apply (not_elem_of_nil (offset_ r)).
        change [] with (offsets_of []). rewrite <- Eu. apply Ho. destruct r as [o b]. cbn in *. subst b. left.
Qed.

End broadcasting.

(** ** Concrete histories *)
Definition example_view : ConsumerView :=
  mkConsumerView BROADCASTING 1024 0 POLLING 32 "client" "group" "" 30000 (fun _ => None) true.
Definition example_message (o : Z) : MQMessage.t :=
  MessageAccessor.setQueueOffset o (MQMessage.make "host" 0 "id" None "TopicTest" "TagA" "" "hello").
Definition example_queue : t :=
  make 0 (MQMessageQueue.make "TopicTest" "broker" 1) (FilterExpression.make 0 "*" TAG).

Lemma quota_exact_witness :
  exists s inflight,
    arun example_view [Cache [example_message 1; example_message 2; example_message 3]; Take 2; Release 0]
      (example_queue, []) = Some (s, inflight)
    /\ cached_message_quantity_ s = zlen (cached_messages_ s ++ inflight)
    /\ zlen (cached_messages_ s ++ inflight) = 2.
Proof.
  eexists _, _. split; [vm_compute; reflexivity|]. split; [|vm_compute; reflexivity].
  apply (quota_exact example_view 0 (MQMessageQueue.make "TopicTest" "broker" 1) (FilterExpression.make 0 "*" TAG)
           [Cache [example_message 1; example_message 2; example_message 3]; Take 2; Release 0]);
    vm_compute; reflexivity.
Defined.

Lemma queue_fifo_witness :
  let '(s1, acks) := cacheMessages (Some example_view) [example_message 1; example_message 2] example_queue in
  let '(more, taken, s2) := take 1 s1 in
  taken ++ cached_messages_ s2 = [example_message 1; example_message 2] /\ more = true.
Proof.
  pose proof (queue_fifo example_view [example_message 1; example_message 2] 1 example_queue) as H.
  specialize (H ltac:(lia)).
  destruct (cacheMessages _ _ _) as [s1 acks] eqn:E1. destruct (take 1 s1) as [[more taken] s2] eqn:E2.
  destruct H as (H1 & _ & H3 & _). split; [exact H1|]. apply H3.
  injection E1 as <- <-. vm_compute in E2. injection E2 as _ _ <-. discriminate.
Defined.

Lemma committedOffset_safe_witness :
  exists done_ s inflight, bsteps example_view (example_queue, []) done_ (s, inflight)
    /\ committedOffset s = Some 5
    /\ match committedOffset s with
       | None => cached_messages_ s ++ inflight = []
       | Some o =>
           (forall m, m ∈ cached_messages_ s ++ inflight -> o <= MQMessage.getQueueOffset m)
           /\ (cached_messages_ s ++ inflight <> [] ->
                 exists m, m ∈ cached_messages_ s ++ inflight /\ MQMessage.getQueueOffset m = o)
           /\ (cached_messages_ s ++ inflight = [] -> exists p, p ∈ done_ /\ o = p + 1)
       end.
Proof.
  assert (H : exists done_ s inflight,
             bsteps example_view (example_queue, []) done_ (s, inflight) /\ committedOffset s = Some 5).
  { eexists _, _, _. split.
    - eapply (bsteps_snoc _ _ _ (Release 1)).
      + eapply (bsteps_snoc _ _ _ (Take 2)).
        * eapply (bsteps_snoc _ _ _ (Cache [example_message 5; example_message 6])); [constructor| |reflexivity].
          apply (bool_decide_unpack _). vm_compute. exact I.
        * exact I.
        * reflexivity.
      + exact I.
      + reflexivity.
    - vm_compute. reflexivity. }
  destruct H as (done_ & s & inflight & H & E). exists done_, s, inflight. split; [exact H|]. split; [exact E|].
  exact (committedOffset_safe example_view eq_refl 0 _ _ done_ s inflight H).
Defined.

(** Releasing out of order: with 5 and 6 both released, 6 first, the offset to commit is
    6, so message 6 is delivered again after a restart. *)
Lemma committedOffset_after_out_of_order_release :
  exists s, arun example_view [Cache [example_message 5; example_message 6]; Take 2; Release 1; Release 0]
              (example_queue, []) = Some (s, []) /\ committedOffset s = Some 6.
Proof. eexists. split; vm_compute; reflexivity. Qed.

End ProcessQueueImpl.
