(* ===== verification/ConsumeService.v ===== *)
(** * The consume services: from cached messages to the listener and back to the broker.

    [ConsumeMessageService], [ConsumeStandardMessageService] and
    [ConsumeFifoMessageService] (rocketmq/Consume*MessageService.cpp), on one process
    queue.  Of the tracing spans of the standard service only the access key is part
    of the model. *)

From S2P Require Import Prelude Types Message MixAll RateLimiter Concurrency ProcessQueue.
Import ProcessQueueImpl.

(** ** ConsumeMessageService *)
Module ConsumeMessageService.

Inductive effect := PoolStart (workers : Z) | PoolShutdown | DispatcherStart | DispatcherJoin | ObserverStop.

Record t := mk {
  state_ : State;
  thread_count_ : Z;
  rate_limiter_table_ : gmap string RateLimiter.t;
  observed : list RateLimiter.t;
}.

Definition make (thread_count : Z) : t := mk CREATED thread_count ∅ [].

Definition set_state (st : State) (s : t) : t := mk st (thread_count_ s) (rate_limiter_table_ s) (observed s).

(** The inherited [start] and [shutdown]; [start] is [None] when the pool has no worker it
    could wait for. *)
Definition base_start (s : t) : option (t * list effect) :=
  let '(ok, st) := compare_exchange_strong (state_ s) CREATED STARTING in
  if negb ok then Some (s, [])
  else if negb (ThreadPoolImpl.starts (thread_count_ s)) then None
  else Some (set_state st s, [PoolStart (ThreadPoolImpl.workers (thread_count_ s)); DispatcherStart]).

Definition base_shutdown (s : t) : t * list effect :=
  let '(ok, st) := compare_exchange_strong (state_ s) STOPPING STOPPED in
  if negb ok then (set_state st s, []) else (set_state st s, [PoolShutdown; DispatcherJoin; ObserverStop]).

(** Those of the standard service, around the inherited ones; [shutdown] is [None] while it
    waits for [start] to end. *)
Definition start (s : t) : option (t * list effect) :=
  '(s, effects) ← base_start s;
  let '(_, st) := compare_exchange_strong (state_ s) STARTING STARTED in
  Some (set_state st s, effects).

Definition shutdown (s : t) : option (t * list effect) :=
  if decide (state_ s = STARTING) then None
  else
    let '(ok, st) := compare_exchange_strong (state_ s) STARTED STOPPING in
    if negb ok then Some (s, []) else Some (base_shutdown (set_state st s)).

(** [throttle]: a fresh limiter replaces the old one and is observed. *)
Definition throttle (topic : string) (threshold : Z) (s : t) : t :=
  let limiter := RateLimiter.make 10 threshold in
  mk (state_ s) (thread_count_ s) (<[topic := limiter]> (rate_limiter_table_ s)) (observed s ++ [limiter]).

Definition hasConsumeRateLimiter (topic : string) (s : t) : bool := bool_decide (is_Some (rate_limiter_table_ s !! topic)).
Definition rateLimiter (topic : string) (s : t) : option RateLimiter.t :=
  if hasConsumeRateLimiter topic s then rate_limiter_table_ s !! topic else None.

End ConsumeMessageService.

(** What a consume service does, in order: a permit of the topic's rate limiter, a task
    given to the custom executor or else to the pool, the listener called, and the calls
    made on the consumer. *)
Inductive consume_effect :=
  | AcquirePermit
  | SubmitBatch (batch : list MQMessage.t)
  | Consumed (batch : list MQMessage.t) (result : ConsumeMessageResult)
  | Ack (m : MQMessage.t)
  | Nack (m : MQMessage.t)
  | UpdateOffset (mq : MQMessageQueue.t) (offset : Z).

(** ** ConsumeStandardMessageService *)
Module ConsumeStandardMessageService.
Section standard.
Context (c : ConsumerView) (service : ConsumeMessageService.t) (consumeBatchSize : Z).

(** The loop of [submitConsumeTask]: each round takes a batch and hands it over; [fuel]
    bounds the rounds. *)
Fixpoint submit_loop (fuel : nat) (q : ProcessQueueImpl.t) : option (list consume_effect * ProcessQueueImpl.t) :=
  match fuel with
  | O => None
  | S fuel' =>
      let '(has_more, messages, q) := take consumeBatchSize q in
      if bool_decide (messages = []) then Some ([], q)
      else if has_more then
        '(effects, q) ← submit_loop fuel' q;
        Some (SubmitBatch messages :: effects, q)
      else Some ([SubmitBatch messages], q)
  end.

(** A round that continues takes at least one message, so one more round than there are
    cached messages is enough. *)
Definition submitConsumeTask (q : ProcessQueueImpl.t) : option (list consume_effect * ProcessQueueImpl.t) :=
  submit_loop (S (length (cached_messages_ q))) q.

Definition settlement (status : ConsumeMessageResult) (m : MQMessage.t) : consume_effect :=
  match status with SUCCESS => Ack m | FAILURE => Nack m end.

(** The end of [consumeTask] in clustering mode. *)
Fixpoint settle (status : ConsumeMessageResult) (msgs : list MQMessage.t) (q : ProcessQueueImpl.t)
    : list consume_effect * ProcessQueueImpl.t :=
  match msgs with
  | [] => ([], q)
  | m :: msgs' =>
      let q := release (Some c) (MQMessage.body_size m) (MQMessage.getQueueOffset m) q in
      let '(effects, q) := settle status msgs' q in
      (settlement status m :: effects, q)
  end.

(** [consumeTask] while consumer and process queue are alive (it returns at once
    otherwise), without the spans, which are in [Spans]; [status] is what the listener returned, [FAILURE] if it
    threw. *)
Definition consume_batch (status : ConsumeMessageResult) (msgs : list MQMessage.t) (q : ProcessQueueImpl.t)
    : list consume_effect * ProcessQueueImpl.t :=
  match msgs with
  | [] => ([], q)
  | m :: _ =>
      let permits := match ConsumeMessageService.rateLimiter (MQMessage.getTopic m) service with
                     | Some _ => replicate (length msgs) AcquirePermit
                     | None => []
                     end in
      let '(effects, q) :=
        match messageModel c with
        | CLUSTERING => settle status msgs q
        | BROADCASTING =>
            (match committedOffset q with
             | Some o => [UpdateOffset (message_queue_ q) o]
             | None => []
             end, q)
        end in
      (permits ++ Consumed msgs status :: effects, q)
  end.

(** The spans of a message carry the access key, which is asked of the credentials provider
    without a test that there is one; [None] is the dereference of a null pointer. *)
Definition consumeTask (status : ConsumeMessageResult) (msgs : list MQMessage.t) (q : ProcessQueueImpl.t)
    : option (list consume_effect * ProcessQueueImpl.t) :=
  if negb (bool_decide (msgs = [])) && negb (view_credentials_provider c) then None
  else Some (consume_batch status msgs q).

(** The tasks of several batches of a consumer that has a credentials provider, each with the
    result of the listener, in the order the pool runs them. *)
Fixpoint consume_all (work : list (list MQMessage.t * ConsumeMessageResult)) (q : ProcessQueueImpl.t)
    : list consume_effect * ProcessQueueImpl.t :=
  match work with
  | [] => ([], q)
  | (msgs, status) :: work' =>
      let '(effects, q) := consume_batch status msgs q in
      let '(effects', q) := consume_all work' q in
      (effects ++ effects', q)
  end.

(** The batches submitted and the settlements made by a list of effects. *)
Definition batches (l : list consume_effect) : list (list MQMessage.t) :=
  omap (fun e => match e with SubmitBatch b => Some b | _ => None end) l.
Definition settlements (l : list consume_effect) : list consume_effect :=
  List.filter (fun e => match e with Ack _ | Nack _ => true | _ => false end) l.

(** *** Properties *)

Hypothesis Hbatch : 1 <= consumeBatchSize < 2 ^ 32.

Lemma submit_loop_spec fuel q :
  (length (cached_messages_ q) < fuel)%nat ->
  exists effects q', submit_loop fuel q = Some (effects, q')
    /\ cached_messages_ q' = [] /\ concat (batches effects) = cached_messages_ q
    /\ Forall (fun b => b <> [] /\ zlen b <= consumeBatchSize) (batches effects)
    /\ q' = set_cached [] q.
Proof.
  revert q. induction fuel as [|fuel IH]; intros q Hf; [lia|]. cbn [submit_loop]. unfold take.
  case_bool_decide as E.
  { rewrite bool_decide_eq_true_2 by done. exists [], q. split_and!; try done. destruct q. cbn in *. by subst. }
  rewrite take_loop_firstn by lia.
  set (n := Z.to_nat consumeBatchSize). assert (Hn : (0 < n)%nat) by (unfold n; lia).
  assert (Hne : firstn n (cached_messages_ q) <> []).
  { destruct (cached_messages_ q); [done|]. destruct n; [lia|done]. }
  rewrite bool_decide_eq_false_2 by done.
  assert (Hlen : zlen (firstn n (cached_messages_ q)) <= consumeBatchSize).
  { unfold zlen. rewrite length_firstn. unfold n. lia. }
  case_bool_decide as E2; cbn [negb].
  - eexists [_], _. split; [reflexivity|]. rewrite E2. split_and!; try done.
    + cbn. rewrite app_nil_r. rewrite <- (firstn_skipn n (cached_messages_ q)) at 2. by rewrite E2, app_nil_r.
    + constructor; [done|constructor].
  - destruct (IH (set_cached (skipn n (cached_messages_ q)) q)) as (effects & q' & E3 & Hc & Hb & Hf' & Hq').
    { cbn. rewrite length_skipn. destruct (cached_messages_ q); [done|]. cbn in *. lia. }
    rewrite E3. eexists _, q'. split; [reflexivity|]. split_and!; try done.
    + cbn. unfold batches in Hb. rewrite Hb. cbn. apply firstn_skipn.
    + cbn. constructor; [done|exact Hf'].
Qed.

Lemma settle_spec status msgs q :
  fst (settle status msgs q) = map (settlement status) msgs
  /\ cached_message_quantity_ (snd (settle status msgs q)) =
       (if bool_decide (msgs = []) then cached_message_quantity_ q
        else u32 (cached_message_quantity_ q - zlen msgs))
  /\ cached_message_memory_ (snd (settle status msgs q)) =
       (if bool_decide (msgs = []) then cached_message_memory_ q
        else u64 (cached_message_memory_ q - total_size msgs)).
Proof.
  revert q. induction msgs as [|m l IH]; intros q; cbn [settle]; [done|].
  match goal with |- context [settle status l ?x] => specialize (IH x); destruct (settle status l x) as [e q'] end.
  cbn [fst snd map] in IH |- *. destruct IH as (-> & -> & ->). split; [done|].
  cbn [release cached_message_quantity_ cached_message_memory_].
  rewrite (bool_decide_eq_false_2 (m :: l = [])) by done.
  destruct l as [|m' l']; [split; [done|]; unfold total_size; cbn; f_equal; lia|].
  rewrite !bool_decide_eq_false_2 by done. rewrite u32_sub_l, u64_sub_l, !zlen_cons.
  split; f_equal; [lia|]. unfold total_size. cbn. lia.
Qed.

Lemma settlements_app a b : settlements (a ++ b) = settlements a ++ settlements b.
Proof. apply List.filter_app. Qed.

Lemma settlements_map status msgs : settlements (map (settlement status) msgs) = map (settlement status) msgs.
Proof. induction msgs as [|m l IH]; cbn; [done|]. destruct status; cbn; by rewrite <- IH at 2. Qed.

Lemma consumeTask_provided status msgs q :
  view_credentials_provider c = true -> consumeTask status msgs q = Some (consume_batch status msgs q).
Proof. intros H. unfold consumeTask. by rewrite H, andb_false_r. Qed.

Lemma consumeTask_Some status msgs q x : consumeTask status msgs q = Some x -> x = consume_batch status msgs q.
Proof. unfold consumeTask. destruct (_ && _); [done|]. by intros [= <-]. Qed.

(** Without a provider the first batch ends the process, whatever the listener does. *)
Lemma consume_without_provider status m msgs q :
  view_credentials_provider c = false -> consumeTask status (m :: msgs) q = None.
Proof. intros H. unfold consumeTask. by rewrite H. Qed.

Lemma consume_batch_spec status msgs q :
  messageModel c = CLUSTERING ->
  settlements (fst (consume_batch status msgs q)) = map (settlement status) msgs
  /\ (msgs <> [] ->
        cached_message_quantity_ (snd (consume_batch status msgs q)) = u32 (cached_message_quantity_ q - zlen msgs)
        /\ cached_message_memory_ (snd (consume_batch status msgs q))
             = u64 (cached_message_memory_ q - total_size msgs)).
Proof.
  intros Hmodel. unfold consume_batch. destruct msgs as [|m l]; [done|]. rewrite Hmodel.
  pose proof (settle_spec status (m :: l) q) as H. destruct (settle status (m :: l) q) as [e q'].
  cbn [fst snd] in H |- *. rewrite !bool_decide_eq_false_2 in H by done. destruct H as (-> & -> & ->).
  split; [|done]. rewrite settlements_app. change (Consumed (m :: l) status :: ?x) with ([Consumed (m :: l) status] ++ x).
  rewrite settlements_app, settlements_map. destruct (ConsumeMessageService.rateLimiter _ _); [|done].
  replace (settlements (replicate _ _)) with (@nil consume_effect); [done|].
  generalize (length (m :: l)). intros n. by induction n.
Qed.

Lemma consume_all_spec work q :
  messageModel c = CLUSTERING -> Forall (fun x => fst x <> []) work ->
  cached_message_quantity_ q = u32 (zlen (concat (map fst work))) ->
  cached_message_memory_ q = u64 (total_size (concat (map fst work))) ->
  settlements (fst (consume_all work q)) = concat (map (fun x => map (settlement (snd x)) (fst x)) work)
  /\ cached_message_quantity_ (snd (consume_all work q)) = 0
  /\ cached_message_memory_ (snd (consume_all work q)) = 0.
Proof.
  intros Hmodel. revert q. induction work as [|[b st] work IH]; intros q Hne Hq Hm.
  { cbn. by rewrite Hq, Hm. }
  apply Forall_cons in Hne as [Hb Hne]. cbn [consume_all map concat fst snd] in *.
  destruct (consume_batch_spec st b q Hmodel) as [He Hc]. destruct (Hc Hb) as [Hq' Hm'].
  destruct (consume_batch st b q) as [e q']. cbn [fst snd] in *.
  destruct (IH q' Hne) as (IH1 & IH2 & IH3).
  - rewrite Hq', Hq, u32_sub_l, zlen_app. f_equal. lia.
  - rewrite Hm', Hm, u64_sub_l, total_size_app. f_equal. lia.
  - destruct (consume_all work q') as [e' q'']. cbn [fst snd] in *.
    by rewrite settlements_app, He, IH1.
Qed.

(** The standard service loses no message and gives back all of its quota: a dispatch
    empties the cache into batches of at most the configured size, in order; and once
    every batch has been consumed (in clustering mode, in any order, with any outcome),
    each message has been acknowledged or negatively acknowledged exactly once, as its
    batch succeeded or failed, and the counters are back to zero. *)
Theorem standard_settles_all q :
  messageModel c = CLUSTERING -> accounted (q, []) ->
  exists effects q1, submitConsumeTask q = Some (effects, q1)
    /\ cached_messages_ q1 = [] /\ concat (batches effects) = cached_messages_ q
    /\ Forall (fun b => b <> [] /\ zlen b <= consumeBatchSize) (batches effects)
    /\ forall work, map fst work ≡ₚ batches effects ->
       settlements (fst (consume_all work q1))
         = concat (map (fun x => map (settlement (snd x)) (fst x)) work)
       /\ cached_message_quantity_ (snd (consume_all work q1)) = 0
       /\ cached_message_memory_ (snd (consume_all work q1)) = 0.
Proof.
  intros Hmodel [Hq Hm].
  destruct (submit_loop_spec (S (length (cached_messages_ q))) q ltac:(lia))
    as (effects & q1 & E & Hc & Hb & Hf & Hq1).
  exists effects, q1. split_and!; [exact E|done|done|done|]. intros work Hw.
  unfold held in Hq, Hm. cbn [fst snd] in Hq, Hm. rewrite app_nil_r in Hq, Hm.
  pose proof (concat_perm _ _ Hw) as Hconc. rewrite Hb in Hconc.
  apply consume_all_spec; [done| | |].
  - apply Forall_fmap with (f := fst) (P := fun b => b <> []). change (fst <$> work) with (map fst work).
    rewrite Hw. eapply Forall_impl; [exact Hf|]. by intros b [? _].
  - rewrite Hq1. cbn. rewrite Hq. f_equal. unfold zlen. by rewrite Hconc.
  - rewrite Hq1. cbn. rewrite Hm. f_equal. by rewrite (total_size_perm _ _ Hconc).
Qed.

End standard.

Definition clustering_view : ConsumerView :=
  mkConsumerView CLUSTERING 1024 0 POLLING 32 "client" "group" "" 30000 (fun _ => None) true.

Lemma standard_settles_all_witness :
  let q := fst (cacheMessages (Some clustering_view) (map example_message [1; 2; 3]) example_queue) in
  exists effects q1, submitConsumeTask 2 q = Some (effects, q1)
    /\ batches effects = [map example_message [1; 2]; [example_message 3]]
    /\ cached_message_quantity_
         (snd (consume_all clustering_view (ConsumeMessageService.make 20)
                 [([example_message 3], FAILURE); (map example_message [1; 2], SUCCESS)] q1)) = 0.
Proof.
  intros q.
  destruct (standard_settles_all clustering_view (ConsumeMessageService.make 20) 2 ltac:(lia) q eq_refl)
    as (effects & q1 & E & _ & _ & _ & H).
  { split; vm_compute; reflexivity. }
  exists effects, q1. split; [exact E|].
  assert (Hb : batches effects = [map example_message [1; 2]; [example_message 3]]).
  { assert (E' : submitConsumeTask 2 q = Some (effects, q1)) by exact E.
    vm_compute in E'. injection E' as <- _. vm_compute. reflexivity. }
  split; [exact Hb|].
  refine (proj1 (proj2 (H [([example_message 3], FAILURE); (map example_message [1; 2], SUCCESS)] _))).
  rewrite Hb. apply Permutation_swap.
Defined.

(** In broadcasting mode the counters are not given back: the task leaves the queue as it
    was, so the quota of its messages stays taken. *)
Lemma broadcasting_keeps_quota service status m msgs q :
  snd (consume_batch example_view service status (m :: msgs) q) = q.
Proof. done. Qed.

End ConsumeStandardMessageService.

(** ** ConsumeFifoMessageService

    One message of a queue is in progress at a time.  What is pending for it is a [task]:
    a consume task given to an executor, an acknowledgement or a forwarding in flight, or
    one of the timers that retry them. *)
Module ConsumeFifoMessageService.

(** The same as in the standard service, in the same words. *)
Definition start (s : ConsumeMessageService.t)
    : option (ConsumeMessageService.t * list ConsumeMessageService.effect) :=
  '(s, effects) ← ConsumeMessageService.base_start s;
  let '(_, st) := compare_exchange_strong (ConsumeMessageService.state_ s) STARTING STARTED in
  Some (ConsumeMessageService.set_state st s, effects).

Definition shutdown (s : ConsumeMessageService.t)
    : option (ConsumeMessageService.t * list ConsumeMessageService.effect) :=
  if decide (ConsumeMessageService.state_ s = STARTING) then None
  else
    let '(ok, st) := compare_exchange_strong (ConsumeMessageService.state_ s) STARTED STOPPING in
    if negb ok then Some (s, []) else Some (ConsumeMessageService.base_shutdown (ConsumeMessageService.set_state st s)).

(** The resources of a service are given back once, by the first [shutdown] after its
    [start]; without a [start], or again, [shutdown] does nothing.  A service is not started
    twice, nor after its end. *)
Lemma service_lifecycle s :
  ConsumeMessageService.state_ s = CREATED -> 0 < u16 (ConsumeMessageService.thread_count_ s) ->
  exists s1 s2, start s = Some (s1, [ConsumeMessageService.PoolStart (u16 (ConsumeMessageService.thread_count_ s)); ConsumeMessageService.DispatcherStart])
    /\ shutdown s1 = Some (s2, [ConsumeMessageService.PoolShutdown; ConsumeMessageService.DispatcherJoin;
                                ConsumeMessageService.ObserverStop])
    /\ shutdown s = Some (s, []) /\ start s1 = Some (s1, []) /\ start s2 = Some (s2, []) /\ shutdown s2 = Some (s2, [])
    /\ ConsumeMessageService.start s = start s /\ ConsumeMessageService.shutdown s1 = shutdown s1.
Proof.
  destruct s as [st n tbl obs]. cbn [ConsumeMessageService.state_ ConsumeMessageService.thread_count_]. intros -> Hn.
  assert (Hb : ThreadPoolImpl.starts n = true) by (apply Z.ltb_lt; exact Hn).
  assert (E : start (ConsumeMessageService.mk CREATED n tbl obs)
    = Some (ConsumeMessageService.mk STARTED n tbl obs, [ConsumeMessageService.PoolStart (u16 n); ConsumeMessageService.DispatcherStart])).
  { unfold start, ConsumeMessageService.base_start. cbn. by rewrite Hb. }
  eexists _, _. split; [exact E|]. split_and!; try reflexivity.
Qed.

Inductive task :=
  | Submitted (m : MQMessage.t)
  | Acking (m : MQMessage.t)
  | AckLater (m : MQMessage.t)
  | ConsumeLater (m : MQMessage.t)
  | Forwarding (m : MQMessage.t)
  | ForwardLater (m : MQMessage.t).

Definition task_message (t : task) : MQMessage.t :=
  match t with
  | Submitted m | Acking m | AckLater m | ConsumeLater m | Forwarding m | ForwardLater m => m
  end.

(** The delays of the timers, in milliseconds. *)
Definition task_delay (t : task) : option Z :=
  match t with
  | ConsumeLater _ => Some 1000
  | AckLater _ | ForwardLater _ => Some 100
  | _ => None
  end.

Section fifo.
Context (c : ConsumerView) (service : ConsumeMessageService.t) (consumeBatchSize maxDeliveryAttempts : Z).

Definition submitConsumeTask0 (m : MQMessage.t) : list task := [Submitted m].

(** The new task, and the messages that were taken from the queue and not submitted,
    which go out of scope with the local vector. *)
Definition submitConsumeTask (q : ProcessQueueImpl.t) : ProcessQueueImpl.t * list task * list MQMessage.t :=
  let '(bound, q) := bindFifoConsumeTask q in
  if negb bound then (q, [], [])
  else
    let '(more, messages, q) := take consumeBatchSize q in
    if more then
      match messages with
      | m :: _ => (q, submitConsumeTask0 m, [])
      | [] => (q, [], [])
      end
    else (q, [], messages).

Definition consumeTask (result : ConsumeMessageResult) (m : MQMessage.t) (q : ProcessQueueImpl.t)
    : ProcessQueueImpl.t * list task * list consume_effect :=
  let permits := match ConsumeMessageService.rateLimiter (MQMessage.getTopic m) service with
                 | Some _ => [AcquirePermit]
                 | None => []
                 end in
  let called := permits ++ [Consumed [m] result] in
  match messageModel c with
  | CLUSTERING =>
      match result with
      | SUCCESS =>
          (release (Some c) (MQMessage.body_size m) (MQMessage.getQueueOffset m) q, [Acking m], called)
      | FAILURE =>
          let m := MessageAccessor.setDeliveryAttempt (i32 (MQMessage.getDeliveryAttempt m + 1)) m in
          if MQMessage.getDeliveryAttempt m <? maxDeliveryAttempts then (q, [ConsumeLater m], called)
          else (q, [Forwarding m], called)
      end
  | BROADCASTING =>
      let q := release (Some c) (MQMessage.body_size m) (MQMessage.getQueueOffset m) q in
      (q, [], called ++ match committedOffset q with
                        | Some o => [UpdateOffset (message_queue_ q) o]
                        | None => []
                        end)
  end.

(** The flag says whether the dispatcher is signalled. *)
Definition onAck (m : MQMessage.t) (ec : error_code) (q : ProcessQueueImpl.t) : ProcessQueueImpl.t * list task * bool :=
  if ec_bool ec then (q, [AckLater m], false) else (snd (unbindFifoConsumeTask q), [], true).

Definition onForwardToDeadLetterQueue (m : MQMessage.t) (ok : bool) (q : ProcessQueueImpl.t)
    : ProcessQueueImpl.t * list task :=
  if ok then (snd (unbindFifoConsumeTask q), []) else (q, [ForwardLater m]).

Definition scheduleForwardDeadLetterQueueTask (m : MQMessage.t) : list task := [Forwarding m].
Definition scheduleAckTask (m : MQMessage.t) : list task := [Acking m].
Definition scheduleConsumeTask (m : MQMessage.t) : list task := submitConsumeTask0 m.

(** *** Histories of one queue

    [arrived]: the messages cached so far; [settled]: those acknowledged or forwarded;
    [dropped]: those taken and not submitted; [log]: the calls of the listener. *)
Record fstate := mkF {
  queue : ProcessQueueImpl.t;
  tasks : list task;
  arrived : list MQMessage.t;
  settled : list MQMessage.t;
  dropped : list MQMessage.t;
  log : list consume_effect;
}.

Inductive event :=
  | EReceived (messages : list MQMessage.t)
  | EDispatch
  | EListener (i : nat) (result : ConsumeMessageResult)
  | EAcked (i : nat) (ec : error_code)
  | EForwarded (i : nat) (ok : bool)
  | ETimer (i : nat).

(** [dispatch] visits a queue only when it has pending messages. *)
Definition fstep (e : event) (x : fstate) : option fstate :=
  match e with
  | EReceived messages =>
      Some (mkF (fst (cacheMessages (Some c) messages (queue x))) (tasks x)
              (arrived x ++ List.filter (FilterExpression.accept (filter_expression_ (queue x))) messages)
              (settled x) (dropped x) (log x))
  | EDispatch =>
      if hasPendingMessages (queue x) then
        let '(q, ts, lost) := submitConsumeTask (queue x) in
        Some (mkF q (tasks x ++ ts) (arrived x) (settled x) (dropped x ++ lost) (log x))
      else Some x
  | EListener i result =>
      match tasks x !! i with
      | Some (Submitted m) =>
          let '(q, ts, effects) := consumeTask result m (queue x) in
          Some (mkF q (delete i (tasks x) ++ ts) (arrived x) (settled x) (dropped x) (log x ++ effects))
      | _ => None
      end
  | EAcked i ec =>
      match tasks x !! i with
      | Some (Acking m) =>
          let '(q, ts, _) := onAck m ec (queue x) in
          Some (mkF q (delete i (tasks x) ++ ts) (arrived x)
                  (settled x ++ if ec_bool ec then [] else [m]) (dropped x) (log x))
      | _ => None
      end
  | EForwarded i ok =>
      match tasks x !! i with
      | Some (Forwarding m) =>
          let '(q, ts) := onForwardToDeadLetterQueue m ok (queue x) in
          Some (mkF q (delete i (tasks x) ++ ts) (arrived x)
                  (settled x ++ if ok then [m] else []) (dropped x) (log x))
      | _ => None
      end
  | ETimer i =>
      let resume ts := Some (mkF (queue x) (delete i (tasks x) ++ ts) (arrived x) (settled x) (dropped x) (log x)) in
      match tasks x !! i with
      | Some (AckLater m) => resume (scheduleAckTask m)
      | Some (ConsumeLater m) => resume (scheduleConsumeTask m)
      | Some (ForwardLater m) => resume (scheduleForwardDeadLetterQueueTask m)
      | _ => None
      end
  end.

Fixpoint frun (l : list event) (x : fstate) : option fstate :=
  match l with [] => Some x | e :: l' => x' ← fstep e x; frun l' x' end.

Definition finit (now : Z) (mq : MQMessageQueue.t) (f : FilterExpression.t) : fstate :=
  mkF (ProcessQueueImpl.make now mq f) [] [] [] [] [].

(** *** Properties *)
Definition ids (l : list MQMessage.t) : list string := map MQMessage.getMsgId l.

(** A pending task is justified by what the listener returned. *)
Definition justified (log : list consume_effect) (t : task) : Prop :=
  match t with
  | Acking m | AckLater m => Consumed [m] SUCCESS ∈ log
  | Forwarding m | ForwardLater m => maxDeliveryAttempts <= MQMessage.getDeliveryAttempt m
  | Submitted _ => True
  | ConsumeLater m => MQMessage.getDeliveryAttempt m < maxDeliveryAttempts
  end.

Definition settled_ok (log : list consume_effect) (m : MQMessage.t) : Prop :=
  Consumed [m] SUCCESS ∈ log \/ maxDeliveryAttempts <= MQMessage.getDeliveryAttempt m.

Record finv (x : fstate) : Prop := {
  fi_order : ids (arrived x)
             = ids (settled x) ++ ids (map task_message (tasks x)) ++ ids (dropped x)
               ++ ids (cached_messages_ (queue x));
  fi_one : (length (tasks x) + length (dropped x) <= 1)%nat;
  fi_bound : tasks x ++ map Submitted (dropped x) <> [] -> has_fifo_task_bound_ (queue x) = true;
  fi_tasks : Forall (justified (log x)) (tasks x);
  fi_settled : Forall (settled_ok (log x)) (settled x);
}.

Context (clustering : messageModel c = CLUSTERING) (one : consumeBatchSize = 1).

Lemma justified_mono log1 log2 t : justified log1 t -> justified (log1 ++ log2) t.
Proof. destruct t; cbn; try done; rewrite elem_of_app; tauto. Qed.

Lemma settled_ok_mono log1 log2 m : settled_ok log1 m -> settled_ok (log1 ++ log2) m.
Proof. unfold settled_ok. rewrite elem_of_app. tauto. Qed.

(** With a task pending, it is the only one and nothing was dropped. *)
Lemma finv_single x i t : finv x -> tasks x !! i = Some t -> i = 0%nat /\ tasks x = [t] /\ dropped x = [].
Proof.
  intros [_ H _ _ _] E. pose proof (lookup_lt_Some _ _ _ E) as Hl.
  destruct (tasks x) as [|t0 [|t1 l]], (dropped x); cbn in *; try lia.
  destruct i; [|lia]. by injection E as ->.
Qed.

Lemma cache_loop_bound messages q :
  has_fifo_task_bound_ (fst (cache_loop c messages q)) = has_fifo_task_bound_ q.
Proof.
  revert q. induction messages as [|m l IH]; intros q; cbn [cache_loop]; [done|].
  unfold cache_one. destruct (negb _).
  - specialize (IH q). by destruct (cache_loop c l q).
  - match goal with |- context [cache_loop c l ?y] => specialize (IH y); destruct (cache_loop c l y) end. done.
Qed.

(** A task replaced by another one for the same message. *)
Lemma finv_replace x t t' q effects m' :
  finv x -> tasks x = [t] -> dropped x = [] ->
  cached_messages_ q = cached_messages_ (queue x) -> has_fifo_task_bound_ q = has_fifo_task_bound_ (queue x) ->
  task_message t' = m' -> MQMessage.getMsgId m' = MQMessage.getMsgId (task_message t) ->
  justified (log x ++ effects) t' ->
  finv (mkF q [t'] (arrived x) (settled x) [] (log x ++ effects)).
Proof.
  intros [H1 H2 H3 H4 H5] Et Ed Hc Hb <- Hid Hj. rewrite Et, Ed in *. split; cbn in *.
  - by rewrite Hc, Hid.
  - lia.
  - intros _. rewrite Hb. by apply H3.
  - by constructor.
  - eapply Forall_impl; [exact H5|]. intros. by apply settled_ok_mono.
Qed.

(** A task that settles its message. *)
Lemma finv_settle x t :
  finv x -> tasks x = [t] -> dropped x = [] -> settled_ok (log x) (task_message t) ->
  finv (mkF (snd (unbindFifoConsumeTask (queue x))) [] (arrived x) (settled x ++ [task_message t]) [] (log x)).
Proof.
  intros [H1 H2 H3 H4 H5] Et Ed Hok. rewrite Et, Ed in *.
  unfold unbindFifoConsumeTask. rewrite H3 by done. split; cbn in *.
  - unfold ids in *. rewrite H1, map_app, <- app_assoc. done.
  - lia.
  - done.
  - constructor.
  - apply Forall_app. split; [done|by constructor].
Qed.

Lemma finv_dispatch x x' : finv x -> fstep EDispatch x = Some x' -> finv x'.
Proof.
  intros Hx. cbn [fstep]. destruct (hasPendingMessages (queue x)) eqn:Hp; [|by intros [= <-]].
  unfold submitConsumeTask, bindFifoConsumeTask.
  destruct (has_fifo_task_bound_ (queue x)) eqn:Hb; cbn [negb].
  { intros [= <-]. rewrite !app_nil_r. by destruct x. }
  destruct Hx as [H1 H2 H3 H4 H5].
  assert (He : tasks x = [] /\ dropped x = []).
  { destruct (tasks x), (dropped x); try done; exfalso; rewrite Hb in H3; by discriminate H3. }
  destruct He as [Et Ed]. rewrite Et, Ed in *. cbn [map app] in *.
  unfold take. unfold hasPendingMessages in Hp. apply negb_true_iff, bool_decide_eq_false in Hp.
  cbn [cached_messages_ set_fifo]. rewrite bool_decide_eq_false_2 by done. rewrite one, take_loop_firstn by lia.
  destruct (cached_messages_ (queue x)) as [|m [|m2 l]] eqn:Ec; [done| |]; cbn; intros [= <-]; split; cbn;
    try (by rewrite H1); try lia; try done; repeat constructor.
Qed.

Lemma finv_step e x x' : finv x -> fstep e x = Some x' -> finv x'.
Proof.
  intros Hx. destruct e as [messages| |i result|i ec|i ok|i]; [|by apply finv_dispatch|cbn [fstep]..].
  - intros [= <-]. destruct Hx as [H1 H2 H3 H4 H5]. cbn [cacheMessages]. split; cbn.
    + rewrite (proj1 (cache_loop_spec c messages (queue x))). unfold ids in *. rewrite !map_app, H1, <- !app_assoc. done.
    + done.
    + intros Hne. rewrite cache_loop_bound. by apply H3.
    + done.
    + done.
  - destruct (tasks x !! i) as [[m|m|m|m|m|m]|] eqn:E; try done.
    destruct (finv_single _ _ _ Hx E) as (-> & Et & Ed). unfold consumeTask. rewrite clustering.
    destruct result; [|destruct (Z.ltb_spec (MQMessage.getDeliveryAttempt
      (MessageAccessor.setDeliveryAttempt (i32 (MQMessage.getDeliveryAttempt m + 1)) m)) maxDeliveryAttempts)];
      intros [= <-]; rewrite Ed, Et; cbn [delete list_delete app];
      (eapply (finv_replace x (Submitted m)); [done|done|done|done|done|reflexivity|by destruct m as [[? ? [] ?] ? ?]|]); cbn in *; try done.
    apply elem_of_app. right. apply elem_of_app. right. by left.
  - destruct (tasks x !! i) as [[m|m|m|m|m|m]|] eqn:E; try done.
    destruct (finv_single _ _ _ Hx E) as (-> & Et & Ed). pose proof (fi_tasks _ Hx) as Hj. rewrite Et in Hj.
    apply Forall_cons in Hj as [Hj _]. unfold onAck. destruct (ec_bool ec); intros [= <-];
      rewrite Ed, Et; cbn [delete list_delete app]; rewrite ?app_nil_r.
    + rewrite <- (app_nil_r (log x)). eapply finv_replace; try done. cbn. by rewrite app_nil_r.
    + apply (finv_settle x (Acking m)); try done. by left.
  - destruct (tasks x !! i) as [[m|m|m|m|m|m]|] eqn:E; try done.
    destruct (finv_single _ _ _ Hx E) as (-> & Et & Ed). pose proof (fi_tasks _ Hx) as Hj. rewrite Et in Hj.
    apply Forall_cons in Hj as [Hj _]. unfold onForwardToDeadLetterQueue. destruct ok; intros [= <-];
      rewrite Ed, Et; cbn [delete list_delete app]; rewrite ?app_nil_r.
    + apply (finv_settle x (Forwarding m)); try done. by right.
    + rewrite <- (app_nil_r (log x)). eapply finv_replace; done.
  - destruct (tasks x !! i) as [[m|m|m|m|m|m]|] eqn:E; try done;
    destruct (finv_single _ _ _ Hx E) as (-> & Et & Ed); pose proof (fi_tasks _ Hx) as Hj; rewrite Et in Hj;
    apply Forall_cons in Hj as [Hj _]; intros [= <-]; rewrite Ed, Et; cbn [delete list_delete app];
    rewrite <- (app_nil_r (log x)); eapply finv_replace; try done; cbn in *; by rewrite ?app_nil_r.
Qed.

Lemma finv_run l x x' : finv x -> frun l x = Some x' -> finv x'.
Proof.
  revert x. induction l as [|e l IH]; intros x H; cbn; [by intros [= <-]|].
  destruct (fstep e x) as [x1|] eqn:E; cbn; [|done]. eauto using finv_step.
Qed.

Lemma finit_finv now mq f : finv (finit now mq f).
Proof. by split; cbn; try constructor. Qed.

(** C13: ordered consumption in clustering mode, for every history of receptions,
    dispatches, listener results, responses and timers: messages are settled in the order
    they arrived, at most one is in progress at any time, and the listener is given a
    message only when every message before it has been settled; a message is settled only
    after the listener succeeded on it or after it used up its delivery attempts. *)
Theorem fifo_order now mq f l x :
  frun l (finit now mq f) = Some x ->
  ids (settled x) `prefix_of` ids (arrived x)
  /\ (length (tasks x) <= 1)%nat
  /\ (forall m, Submitted m ∈ tasks x ->
        exists rest, ids (arrived x) = ids (settled x) ++ MQMessage.getMsgId m :: rest)
  /\ (forall m, m ∈ settled x ->
        Consumed [m] SUCCESS ∈ log x \/ maxDeliveryAttempts <= MQMessage.getDeliveryAttempt m).
Proof.
  intros Hr. destruct (finv_run _ _ _ (finit_finv now mq f) Hr) as [H1 H2 _ _ H5].
  refine (conj _ (conj _ (conj _ _))).
  - rewrite H1. by apply prefix_app_r.
  - lia.
  - intros m Hm. apply list_elem_of_lookup in Hm as [i Hi].
    destruct (tasks x) as [|t0 [|t1 ts]]; cbn in *; [done| |lia].
    destruct i; [|done]. injection Hi as ->. eexists. rewrite H1. done.
  - intros m Hm. by eapply Forall_forall in H5.
Qed.

End fifo.

Lemma fifo_order_witness :
  exists x, frun ConsumeStandardMessageService.clustering_view (ConsumeMessageService.make 20) 1 16
      [EReceived [example_message 1; example_message 2; example_message 3]; EDispatch; EListener 0 FAILURE; ETimer 0;
       EListener 0 SUCCESS; EAcked 0 RequestTimeout; ETimer 0; EAcked 0 Success; EDispatch]
      (finit 0 (MQMessageQueue.make "TopicTest" "broker" 1) (FilterExpression.make 0 "*" TAG)) = Some x
    /\ tasks x = [Submitted (example_message 2)]
    /\ ids (settled x) `prefix_of` ids (arrived x).
Proof.
  eexists. split; [vm_compute; reflexivity|]. split; [vm_compute; reflexivity|].
  eapply (fifo_order ConsumeStandardMessageService.clustering_view (ConsumeMessageService.make 20) 1 16 eq_refl eq_refl
    0 (MQMessageQueue.make "TopicTest" "broker" 1) (FilterExpression.make 0 "*" TAG)
    [EReceived [example_message 1; example_message 2; example_message 3]; EDispatch; EListener 0 FAILURE; ETimer 0;
       EListener 0 SUCCESS; EAcked 0 RequestTimeout; ETimer 0; EAcked 0 Success; EDispatch]).
  vm_compute. reflexivity.
Defined.

(** The last cached message is taken and not submitted, because [take] answers whether
    more messages are left; and the queue stays bound, so nothing is dispatched on it
    again. *)
Lemma last_cached_message_dropped q m :
  cached_messages_ q = [m] -> has_fifo_task_bound_ q = false ->
  exists q', submitConsumeTask 1 q = (q', [], [m]) /\ cached_messages_ q' = []
    /\ forall q'', has_fifo_task_bound_ q'' = has_fifo_task_bound_ q' -> submitConsumeTask 1 q'' = (q'', [], []).
Proof.
  intros Hc Hb. unfold submitConsumeTask, bindFifoConsumeTask, take. rewrite Hb. cbn. rewrite Hc. cbn.
  eexists. split; [done|]. split; [done|]. intros q'' E. cbn in E. by rewrite E.
Qed.

(** Forwarding to the dead letter queue gives back no quota. *)
Lemma dead_letter_keeps_quota m q :
  cached_message_quantity_ (fst (onForwardToDeadLetterQueue m true q)) = cached_message_quantity_ q.
Proof. cbn. unfold unbindFifoConsumeTask. by destruct (has_fifo_task_bound_ q). Qed.

(** In broadcasting mode no task follows, and the queue stays bound. *)
Lemma broadcasting_stays_bound service max result m q :
  let '(q', ts, _) := consumeTask example_view service max result m q in
  ts = [] /\ has_fifo_task_bound_ q' = has_fifo_task_bound_ q.
Proof. by destruct result. Qed.

End ConsumeFifoMessageService.
