(* ===== verification/ConsumeThreads.v ===== *)
(** * The threads of a consume service.

    [ConsumeMessageService] (rocketmq/ConsumeMessageService.cpp) owns a thread pool, the
    dispatcher thread and the observer thread that refills the rate limiters of the
    throttled topics.  This file composes them: [start] and [shutdown] of the service
    (with the overrides of the standard and the FIFO service, which are alike), the loop of
    the dispatcher, the tasks of the pool up to the end of their wait for permits, and the
    ticks of the observer (base/RateLimiter.cpp).  Every critical section is a step, and
    steps of the different threads interleave freely.

    What a dispatch finds in the process queues and what a task does once it has its
    permits are the subject of Delivery: here a task is the topic and the number of its
    messages.  [start] and [shutdown] are each called once, as [PushConsumerImpl] does, but
    at any time. *)

From S2P Require Import Prelude Types RateLimiter Concurrency.

Module ConsumeThreads.

(** ** The state *)

(** A task before it looked its limiter up, between two calls of [acquire], inside the wait
    of [acquire] about to test the predicate, and asleep on the condition variable. *)
Inductive phase := Queued | Running | Woken | Asleep.
#[export] Instance phase_eq_dec : EqDecision phase.
Proof. solve_decision. Defined.

(** [limiter] is the shared pointer the task holds, [needed] the permits it still has to
    acquire. *)
Record task := mkTask { topic : string; needed : nat; limiter : option nat; phase_ : phase }.

Inductive dispatcher_pc := Absent | Test | Dispatching | Waiting | Ended.
Inductive starter_pc := Idle | PoolStarting | Spawning | Ending | Started.
Inductive stopper_pc :=
  | NotCalled | Called | Skipped | Exchanged | PoolExchanging | PoolStopping | PoolJoining | JoiningDispatcher
  | StoppingObserver | JoiningObserver | Returned.

(** The limiters are objects of the heap: a limiter that was replaced in the table lives on
    as long as a task waits for it, and the observer goes on refilling it. *)
Record t := mk {
  state_ : State;
  limiters : list RateLimiter.t;
  rate_limiter_table_ : gmap string nat;
  pool_ : ThreadPoolImpl.t task;
  dispatcher : dispatcher_pc;
  observer_stopped : bool;
  observer_ended : bool;
  starter : starter_pc;
  stopper : stopper_pc;
}.

Definition make : t := mk CREATED [] ∅ ThreadPoolImpl.make Absent false false Idle NotCalled.

Definition set_state (st : State) (s : t) : t :=
  mk st (limiters s) (rate_limiter_table_ s) (pool_ s) (dispatcher s) (observer_stopped s) (observer_ended s) (starter s) (stopper s).
Definition set_limiters (l : list RateLimiter.t) (s : t) : t :=
  mk (state_ s) l (rate_limiter_table_ s) (pool_ s) (dispatcher s) (observer_stopped s) (observer_ended s) (starter s) (stopper s).
Definition set_pool (p : ThreadPoolImpl.t task) (s : t) : t :=
  mk (state_ s) (limiters s) (rate_limiter_table_ s) p (dispatcher s) (observer_stopped s) (observer_ended s) (starter s) (stopper s).
Definition set_dispatcher (d : dispatcher_pc) (s : t) : t :=
  mk (state_ s) (limiters s) (rate_limiter_table_ s) (pool_ s) d (observer_stopped s) (observer_ended s) (starter s) (stopper s).
Definition set_observer (stopped ended : bool) (s : t) : t :=
  mk (state_ s) (limiters s) (rate_limiter_table_ s) (pool_ s) (dispatcher s) stopped ended (starter s) (stopper s).
Definition set_starter (x : starter_pc) (s : t) : t :=
  mk (state_ s) (limiters s) (rate_limiter_table_ s) (pool_ s) (dispatcher s) (observer_stopped s) (observer_ended s) x (stopper s).
Definition set_stopper (x : stopper_pc) (s : t) : t :=
  mk (state_ s) (limiters s) (rate_limiter_table_ s) (pool_ s) (dispatcher s) (observer_stopped s) (observer_ended s) (starter s) x.

(** ** Throttling *)
Definition throttle (topic : string) (threshold : Z) (s : t) : t :=
  mk (state_ s) (limiters s ++ [RateLimiter.make 10 threshold]) (<[topic := length (limiters s)]> (rate_limiter_table_ s))
    (pool_ s) (dispatcher s) (observer_stopped s) (observer_ended s) (starter s) (stopper s).

(** ** [start] *)
Definition start_exchange (s : t) : option t :=
  match starter s with
  | Idle =>
      let '(ok, st) := compare_exchange_strong (state_ s) CREATED STARTING in
      if ok then Some (set_starter PoolStarting (set_state st s)) else None
  | _ => None
  end.
(** [pool_->start()] spawns the workers and waits for the first of them. *)
Definition worker_up (s : t) : option t :=
  match starter s with Idle => None | _ => Some (set_pool (ThreadPoolImpl.worker_up (pool_ s)) s) end.
Definition start_pool (s : t) : option t :=
  match starter s with
  | PoolStarting => if decide (ThreadPoolImpl.state_ (pool_ s) = CREATED) then None else Some (set_starter Spawning s)
  | _ => None
  end.
Definition start_spawn (s : t) : option t :=
  match starter s with Spawning => Some (set_starter Ending (set_dispatcher Test s)) | _ => None end.
(** The end of the overriding [start]. *)
Definition start_end (s : t) : option t :=
  match starter s with
  | Ending => Some (set_starter Started (set_state (snd (compare_exchange_strong (state_ s) STARTING STARTED)) s))
  | _ => None
  end.

(** ** The dispatcher thread *)
Definition dispatch_test (s : t) : option t :=
  match dispatcher s with
  | Test => Some (set_dispatcher (if bool_decide (state_ s = STOPPED) || bool_decide (state_ s = STOPPING) then Ended
                                  else Dispatching) s)
  | _ => None
  end.
(** [dispatch]: the batches found in the queues are submitted. *)
Definition dispatch (batches : list (string * nat)) (s : t) : option t :=
  match dispatcher s with
  | Dispatching =>
      Some (set_dispatcher Waiting
        (set_pool (foldl (fun p b => ThreadPoolImpl.submit (mkTask (fst b) (snd b) None Queued) p) (pool_ s) batches) s))
  | _ => None
  end.
(** The wait ends with a signal or after 100 milliseconds. *)
Definition dispatch_wake (s : t) : option t :=
  match dispatcher s with Waiting => Some (set_dispatcher Test s) | _ => None end.

(** ** The tasks *)
Definition set_task (k : nat) (x : task) (s : t) : t :=
  set_pool (ThreadPoolImpl.mk (ThreadPoolImpl.state_ (pool_ s)) (ThreadPoolImpl.stopped_ (pool_ s))
              (ThreadPoolImpl.posted_ (pool_ s)) (<[k := x]> (ThreadPoolImpl.busy_ (pool_ s)))) s.

Definition take (s : t) : option t := '(p, _) ← ThreadPoolImpl.take (pool_ s); Some (set_pool p s).

(** [rateLimiter(topic)]: a task of a topic without limiter needs no permits. *)
Definition lookup_limiter (k : nat) (s : t) : option t :=
  x ← ThreadPoolImpl.busy_ (pool_ s) !! k;
  match phase_ x with
  | Queued =>
      match rate_limiter_table_ s !! topic x with
      | Some i => Some (set_task k (mkTask (topic x) (needed x) (Some i) Running) s)
      | None => Some (set_task k (mkTask (topic x) 0 None Running) s)
      end
  | _ => None
  end.

(** One call of [acquire] of the loop over the messages, up to its wait. *)
Definition permit (k : nat) (ms : Z) (s : t) : option t :=
  x ← ThreadPoolImpl.busy_ (pool_ s) !! k;
  i ← limiter x;
  l ← limiters s !! i;
  match phase_ x, needed x with
  | Running, S n =>
      match RateLimiter.acquire 10 ms l with
      | Some l' => Some (set_task k (mkTask (topic x) n (Some i) Running) (set_limiters (<[i := l']> (limiters s)) s))
      | None => Some (set_task k (mkTask (topic x) (S n) (Some i) Woken) s)
      end
  | _, _ => None
  end.

(** The predicate of the wait is tested at [ms]; when it holds the slot is read again at
    [ms'] and [acquire] returns, otherwise the worker sleeps until the next notification. *)
Definition recheck (k : nat) (ms ms' : Z) (s : t) : option t :=
  x ← ThreadPoolImpl.busy_ (pool_ s) !! k;
  i ← limiter x;
  l ← limiters s !! i;
  match phase_ x, needed x with
  | Woken, S n =>
      match RateLimiter.acquire_wakeup 10 ms ms' l with
      | Some l' => Some (set_task k (mkTask (topic x) n (Some i) Running) (set_limiters (<[i := l']> (limiters s)) s))
      | None => Some (set_task k (mkTask (topic x) (S n) (Some i) Asleep) s)
      end
  | _, _ => None
  end.

(** The rest of the task. *)
Definition finish (k : nat) (s : t) : option t :=
  x ← ThreadPoolImpl.busy_ (pool_ s) !! k;
  match phase_ x, needed x with
  | Running, O => Some (set_pool (ThreadPoolImpl.done k (pool_ s)) s)
  | _, _ => None
  end.

(** ** The observer thread *)

(** [notify_all] wakes the tasks that sleep on this limiter. *)
Definition notify (i : nat) (x : task) : task :=
  if bool_decide (limiter x = Some i) && bool_decide (phase_ x = Asleep) then mkTask (topic x) (needed x) (limiter x) Woken
  else x.

(** The tick of one limiter in a round. *)
Definition tick (i : nat) (ms : Z) (s : t) : option t :=
  if observer_ended s then None
  else
    l ← limiters s !! i;
    Some (set_pool (ThreadPoolImpl.mk (ThreadPoolImpl.state_ (pool_ s)) (ThreadPoolImpl.stopped_ (pool_ s))
                      (ThreadPoolImpl.posted_ (pool_ s)) (map (notify i) (ThreadPoolImpl.busy_ (pool_ s))))
            (set_limiters (<[i := RateLimiter.tick 10 ms l]> (limiters s)) s)).

(** The loop of the observer ends at its next test of [stopped_]. *)
Definition observer_end (s : t) : option t :=
  if observer_stopped s then Some (set_observer true true s) else None.

(** ** [shutdown] *)
Definition shutdown_call (s : t) : option t :=
  match stopper s with NotCalled => Some (set_stopper Called s) | _ => None end.
(** The override waits for [start] to end; its exchange fails when the service is not
    started. *)
Definition shutdown_exchange (s : t) : option t :=
  match stopper s with
  | Called =>
      if decide (state_ s = STARTING) then None
      else let '(ok, st) := compare_exchange_strong (state_ s) STARTED STOPPING in
           Some (set_stopper (if ok then Exchanged else Skipped) (set_state st s))
  | _ => None
  end.
(** The inherited [shutdown]: the state, the pool, ... *)
Definition shutdown_stopped (s : t) : option t :=
  match stopper s with
  | Exchanged =>
      let '(ok, st) := compare_exchange_strong (state_ s) STOPPING STOPPED in
      Some (set_stopper (if ok then PoolExchanging else Skipped) (set_state st s))
  | _ => None
  end.
Definition shutdown_pool_exchange (s : t) : option t :=
  match stopper s with
  | PoolExchanging =>
      match ThreadPoolImpl.shutdown_exchange (pool_ s) with
      | Some p => Some (set_stopper PoolStopping (set_pool p s))
      | None => Some (set_stopper JoiningDispatcher s)
      end
  | _ => None
  end.
Definition shutdown_pool_stop (s : t) : option t :=
  match stopper s with
  | PoolStopping => p ← ThreadPoolImpl.shutdown_stop (pool_ s); Some (set_stopper PoolJoining (set_pool p s))
  | _ => None
  end.
Definition shutdown_pool_join (s : t) : option t :=
  match stopper s with
  | PoolJoining => p ← ThreadPoolImpl.shutdown_join (pool_ s); Some (set_stopper JoiningDispatcher (set_pool p s))
  | _ => None
  end.
(** ... the dispatcher, if there is one, ... *)
Definition shutdown_join_dispatcher (s : t) : option t :=
  match stopper s, dispatcher s with
  | JoiningDispatcher, (Absent | Ended) => Some (set_stopper StoppingObserver s)
  | _, _ => None
  end.
(** ... and the observer. *)
Definition shutdown_stop_observer (s : t) : option t :=
  match stopper s with
  | StoppingObserver => Some (set_stopper JoiningObserver (set_observer true (observer_ended s) s))
  | _ => None
  end.
Definition shutdown_join_observer (s : t) : option t :=
  match stopper s with
  | JoiningObserver => if observer_ended s then Some (set_stopper Returned s) else None
  | _ => None
  end.

(** ** Histories *)
Inductive action :=
  | Throttle (topic : string) (threshold : Z)
  | StartExchange | WorkerUp | StartPool | StartSpawn | StartEnd
  | DispatchTest | Dispatch (batches : list (string * nat)) | DispatchWake
  | Take | Lookup (k : nat) | Permit (k : nat) (ms : Z) | Recheck (k : nat) (ms ms' : Z) | Finish (k : nat)
  | Tick (i : nat) (ms : Z) | ObserverEnd
  | ShutdownCall | ShutdownExchange | ShutdownStopped | ShutdownPoolExchange | ShutdownPoolStop | ShutdownPoolJoin
  | ShutdownJoinDispatcher | ShutdownStopObserver | ShutdownJoinObserver.

Definition step (a : action) (s : t) : option t :=
  match a with
  | Throttle topic threshold => if (0 <=? threshold) && (threshold <? 2 ^ 32) then Some (throttle topic threshold s) else None
  | StartExchange => start_exchange s
  | WorkerUp => worker_up s
  | StartPool => start_pool s
  | StartSpawn => start_spawn s
  | StartEnd => start_end s
  | DispatchTest => dispatch_test s
  | Dispatch batches => dispatch batches s
  | DispatchWake => dispatch_wake s
  | Take => take s
  | Lookup k => lookup_limiter k s
  | Permit k ms => permit k ms s
  | Recheck k ms ms' => recheck k ms ms' s
  | Finish k => finish k s
  | Tick i ms => tick i ms s
  | ObserverEnd => observer_end s
  | ShutdownCall => shutdown_call s
  | ShutdownExchange => shutdown_exchange s
  | ShutdownStopped => shutdown_stopped s
  | ShutdownPoolExchange => shutdown_pool_exchange s
  | ShutdownPoolStop => shutdown_pool_stop s
  | ShutdownPoolJoin => shutdown_pool_join s
  | ShutdownJoinDispatcher => shutdown_join_dispatcher s
  | ShutdownStopObserver => shutdown_stop_observer s
  | ShutdownJoinObserver => shutdown_join_observer s
  end.

Fixpoint run (l : list action) (s : t) : option t :=
  match l with [] => Some s | a :: l' => y ← step a s; run l' y end.

(** ** How the threads fit together *)

Definition pool_up (s : t) : Prop :=
  ThreadPoolImpl.state_ (pool_ s) = STARTED /\ ThreadPoolImpl.stopped_ (pool_ s) = false.
Definition observer_up (s : t) : Prop := observer_stopped s = false /\ observer_ended s = false.
Definition pool_down (s : t) : Prop :=
  ThreadPoolImpl.state_ (pool_ s) = STOPPED /\ ThreadPoolImpl.stopped_ (pool_ s) = true
  /\ ThreadPoolImpl.busy_ (pool_ s) = [].

Definition pool_fresh (s : t) : Prop :=
  ThreadPoolImpl.stopped_ (pool_ s) = false /\ ThreadPoolImpl.posted_ (pool_ s) = [] /\ ThreadPoolImpl.busy_ (pool_ s) = [].

(** How far [start] has come. *)
Definition start_coherent (s : t) : Prop :=
  match starter s with
  | Idle => state_ s = CREATED /\ ThreadPoolImpl.state_ (pool_ s) = CREATED /\ pool_fresh s /\ dispatcher s = Absent
  | PoolStarting =>
      state_ s = STARTING /\ (ThreadPoolImpl.state_ (pool_ s) = CREATED \/ ThreadPoolImpl.state_ (pool_ s) = STARTED)
      /\ pool_fresh s /\ dispatcher s = Absent
  | Spawning => state_ s = STARTING /\ ThreadPoolImpl.state_ (pool_ s) = STARTED /\ pool_fresh s /\ dispatcher s = Absent
  | Ending => state_ s = STARTING /\ pool_up s /\ dispatcher s <> Absent
  | Started => state_ s = STARTED /\ pool_up s /\ dispatcher s <> Absent
  end.

(** How far [shutdown] has come. *)
Definition coherent (s : t) : Prop :=
  match stopper s with
  | NotCalled | Called | Skipped => observer_up s /\ start_coherent s
  | Exchanged => starter s = Started /\ state_ s = STOPPING /\ pool_up s /\ dispatcher s <> Absent /\ observer_up s
  | PoolExchanging => starter s = Started /\ state_ s = STOPPED /\ pool_up s /\ dispatcher s <> Absent /\ observer_up s
  | PoolStopping =>
      starter s = Started /\ state_ s = STOPPED /\ ThreadPoolImpl.state_ (pool_ s) = STOPPING
      /\ dispatcher s <> Absent /\ observer_up s
  | PoolJoining =>
      starter s = Started /\ state_ s = STOPPED
      /\ (ThreadPoolImpl.state_ (pool_ s) = STOPPING /\ ThreadPoolImpl.stopped_ (pool_ s) = true)
      /\ dispatcher s <> Absent /\ observer_up s
  | JoiningDispatcher => starter s = Started /\ state_ s = STOPPED /\ pool_down s /\ dispatcher s <> Absent /\ observer_up s
  | StoppingObserver => starter s = Started /\ state_ s = STOPPED /\ pool_down s /\ dispatcher s = Ended /\ observer_up s
  | JoiningObserver => starter s = Started /\ state_ s = STOPPED /\ pool_down s /\ dispatcher s = Ended /\ observer_stopped s = true
  | Returned =>
      starter s = Started /\ state_ s = STOPPED /\ pool_down s /\ dispatcher s = Ended
      /\ observer_stopped s = true /\ observer_ended s = true
  end.

Lemma submit_state p l :
  let p' := foldl (fun p b => ThreadPoolImpl.submit (mkTask (fst b) (snd b) None Queued) p) p l in
  ThreadPoolImpl.state_ p' = ThreadPoolImpl.state_ p /\ ThreadPoolImpl.stopped_ p' = ThreadPoolImpl.stopped_ p
  /\ ThreadPoolImpl.busy_ p' = ThreadPoolImpl.busy_ p.
Proof.
  revert p. induction l as [|b l IH]; intros p; cbn; [done|].
  destruct (IH (ThreadPoolImpl.submit (mkTask (fst b) (snd b) None Queued) p)) as (-> & -> & ->).
  unfold ThreadPoolImpl.submit. by destruct (decide _).
Qed.

Lemma coherent_step a s s' : coherent s -> step a s = Some s' -> coherent s'.
Proof.
  destruct s as [st lims tab [ps pst posted busy] disp os oe sr sp].
  intros Hc E. destruct a; cbn [step] in E;
    unfold start_exchange, worker_up, start_pool, start_spawn, start_end, dispatch_test, dispatch, dispatch_wake, take,
      lookup_limiter, permit, recheck, finish, tick, observer_end, shutdown_call, shutdown_exchange, shutdown_stopped,
      shutdown_pool_exchange, shutdown_pool_stop, shutdown_pool_join, shutdown_join_dispatcher, shutdown_stop_observer,
      shutdown_join_observer, ThreadPoolImpl.take, ThreadPoolImpl.shutdown_exchange, ThreadPoolImpl.shutdown_stop,
      ThreadPoolImpl.shutdown_join, ThreadPoolImpl.worker_up, compare_exchange_strong, mbind, option_bind in E; cbn in E.
  all: try match type of E with context [foldl ?f ?p ?l] => pose proof (submit_state p l) as (Hp1 & Hp2 & Hp3); set (p1 := foldl f p l) in * end.
  all: try (destruct p1; cbn in * |-; subst).
  all: repeat (case_match; simplify_eq/=).
  all: unfold coherent, start_coherent, pool_up, pool_down, pool_fresh, observer_up in *; cbn in *.
  all: try (destruct sp); try (destruct sr); destruct_and?; destruct_or?; simplify_eq/=; try done.
  all: try split_and!; try done; try congruence; auto.
  all: try (rewrite lookup_nil in *; done).
Qed.

(** *** The limiters and the tasks that wait for them *)

Definition task_ok (n : nat) (x : task) : Prop :=
  match limiter x with
  | Some i => (i < n)%nat /\ phase_ x <> Queued /\ (phase_ x = Running \/ needed x <> 0%nat)
  | None => phase_ x = Queued \/ (phase_ x = Running /\ needed x = 0%nat)
  end.

Record tinv (s : t) : Prop := {
  ti_coherent : coherent s;
  ti_limiters : Forall (fun l => RateLimiter.wf 10 l /\ RateLimiter.interval_ l = 100) (limiters s);
  ti_table topic i : rate_limiter_table_ s !! topic = Some i -> (i < length (limiters s))%nat;
  ti_posted : Forall (task_ok (length (limiters s))) (ThreadPoolImpl.posted_ (pool_ s));
  ti_busy : Forall (task_ok (length (limiters s))) (ThreadPoolImpl.busy_ (pool_ s));
}.

Lemma task_ok_le n m x : (n <= m)%nat -> task_ok n x -> task_ok m x.
Proof. unfold task_ok. destruct (limiter x); [|done]. intros ? (? & ? & ?). split_and!; [lia|done|done]. Qed.

Lemma notify_ok n i x : task_ok n x -> task_ok n (notify i x).
Proof.
  intros H. unfold notify. destruct (_ && _) eqn:B; [|done]. apply andb_true_iff in B as [B1 B2].
  apply bool_decide_eq_true in B1, B2. unfold task_ok in *. cbn. rewrite B1, B2 in *.
  destruct H as (H1 & H2 & [H3|H3]); [done|]. split_and!; [done|done|by right].
Qed.

Lemma take_permit_wf i l : RateLimiter.wf 10 l -> RateLimiter.wf 10 (RateLimiter.take_permit i l).
Proof.
  intros (H1 & H2 & H3 & H4 & H5). unfold RateLimiter.take_permit, RateLimiter.wf. cbn. rewrite RateLimiter.wr_length.
  split_and!; try done. apply RateLimiter.wr_Forall; [done|apply u32_range].
Qed.

(** What is done to a limiter leaves its shares alone. *)
Definition same_shares (l l' : RateLimiter.t) : Prop :=
  RateLimiter.partition_ l' = RateLimiter.partition_ l /\ RateLimiter.interval_ l' = RateLimiter.interval_ l
  /\ (RateLimiter.wf 10 l -> RateLimiter.wf 10 l').

Lemma acquire_shares ms l l' : RateLimiter.acquire 10 ms l = Some l' -> same_shares l l'.
Proof.
  unfold RateLimiter.acquire. repeat case_match; intros; simplify_eq; (split; [done|split; [done|apply take_permit_wf]]).
Qed.
Lemma wakeup_shares ms ms' l l' : RateLimiter.acquire_wakeup 10 ms ms' l = Some l' -> same_shares l l'.
Proof. unfold RateLimiter.acquire_wakeup. case_match; intros; simplify_eq. split; [done|split; [done|apply take_permit_wf]]. Qed.
Lemma tick_shares ms l : same_shares l (RateLimiter.tick 10 ms l).
Proof. split; [done|]. split; [done|]. intros H. by apply (RateLimiter.tick_spec 10 ltac:(lia) ms l). Qed.

Lemma limiters_insert ls i l l' :
  Forall (fun l => RateLimiter.wf 10 l /\ RateLimiter.interval_ l = 100) ls -> ls !! i = Some l -> same_shares l l' ->
  Forall (fun l => RateLimiter.wf 10 l /\ RateLimiter.interval_ l = 100) (<[i := l']> ls).
Proof.
  intros H E (_ & S2 & S3). apply Forall_insert; [done|]. destruct (proj1 (Forall_lookup _ _) H i l E) as [W I].
  split; [by apply S3|congruence].
Qed.

Lemma submit_ok n p l :
  Forall (task_ok n) (ThreadPoolImpl.posted_ p) ->
  Forall (task_ok n)
    (ThreadPoolImpl.posted_ (foldl (fun p b => ThreadPoolImpl.submit (mkTask (fst b) (snd b) None Queued) p) p l)).
Proof.
  revert p. induction l as [|b l IH]; intros p H; cbn; [done|]. apply IH. unfold ThreadPoolImpl.submit.
  destruct (decide _); [|done]. cbn. apply Forall_app. split; [done|]. constructor; [by left|constructor].
Qed.

Lemma tinv_make : tinv make.
Proof. split; cbn; try constructor; try done. Qed.

(** A step of a worker: the task it works for, and perhaps a limiter. *)
Lemma tinv_task k x s l :
  tinv s -> coherent (set_task k x (set_limiters l s)) -> length l = length (limiters s) ->
  Forall (fun l => RateLimiter.wf 10 l /\ RateLimiter.interval_ l = 100) l ->
  task_ok (length (limiters s)) x -> tinv (set_task k x (set_limiters l s)).
Proof.
  intros [H1 H2 H3 H4 H5] Hc Hl Hw Hx. split; cbn; rewrite ?Hl; try done. by apply Forall_insert.
Qed.

Lemma tinv_retask k x s :
  tinv s -> coherent (set_task k x s) -> task_ok (length (limiters s)) x -> tinv (set_task k x s).
Proof. intros [H1 H2 H3 H4 H5] Hc Hx. split; cbn; try done. by apply Forall_insert. Qed.

(** A limiter without permits and without shares. *)
Definition empty_limiter (l : RateLimiter.t) : Prop :=
  (forall j, RateLimiter.rd (RateLimiter.permits_ l) j = 0) /\ (forall j, RateLimiter.rd (RateLimiter.partition_ l) j = 0).

Lemma empty_acquire ms l : empty_limiter l -> RateLimiter.acquire 10 ms l = None.
Proof.
  intros [H1 H2]. unfold RateLimiter.acquire. rewrite H1. cbn.
  destruct (RateLimiter.first_avail _ _) as [j|] eqn:E; [|done]. apply RateLimiter.first_avail_spec in E as [_ E]. rewrite H1 in E. lia.
Qed.

Lemma empty_wakeup ms ms' l : empty_limiter l -> RateLimiter.acquire_wakeup 10 ms ms' l = None.
Proof. intros [H1 H2]. unfold RateLimiter.acquire_wakeup. by rewrite H1. Qed.

(** What a call of [acquire] does to a task and to its limiter, whether it is the first
    attempt or a test of the wait: it gets a permit, or it waits on. *)
Definition served (k : nat) (s s' : t) : Prop :=
  exists x i l n r ph, ThreadPoolImpl.busy_ (pool_ s) !! k = Some x /\ limiter x = Some i /\ limiters s !! i = Some l
    /\ needed x = S n /\ ph <> Queued /\ (empty_limiter l -> r = None)
    /\ match r with
       | Some l' =>
           same_shares l l' /\ s' = set_task k (mkTask (topic x) n (Some i) Running) (set_limiters (<[i := l']> (limiters s)) s)
       | None => s' = set_task k (mkTask (topic x) (S n) (Some i) ph) s
       end.

Lemma permit_served k ms s s' : permit k ms s = Some s' -> served k s s'.
Proof.
  unfold permit. destruct (_ !! k) as [x|] eqn:Ex; [|done]. cbn [mbind option_bind].
  destruct (limiter x) as [i|] eqn:Ei; [|done]. cbn [mbind option_bind].
  destruct (limiters s !! i) as [l|] eqn:El; [|done]. cbn [mbind option_bind].
  destruct (phase_ x); try done. destruct (needed x) as [|n] eqn:En; [done|]. intros E.
  exists x, i, l, n, (RateLimiter.acquire 10 ms l), Woken. split_and!; try done; [apply empty_acquire|].
  destruct (RateLimiter.acquire 10 ms l) as [l'|] eqn:Ea; injection E as <-; [|done]. split; [by eapply acquire_shares|done].
Qed.

Lemma recheck_served k ms ms' s s' : recheck k ms ms' s = Some s' -> served k s s'.
Proof.
  unfold recheck. destruct (_ !! k) as [x|] eqn:Ex; [|done]. cbn [mbind option_bind].
  destruct (limiter x) as [i|] eqn:Ei; [|done]. cbn [mbind option_bind].
  destruct (limiters s !! i) as [l|] eqn:El; [|done]. cbn [mbind option_bind].
  destruct (phase_ x); try done. destruct (needed x) as [|n] eqn:En; [done|]. intros E.
  exists x, i, l, n, (RateLimiter.acquire_wakeup 10 ms ms' l), Asleep. split_and!; try done; [apply empty_wakeup|].
  destruct (RateLimiter.acquire_wakeup 10 ms ms' l) as [l'|] eqn:Ea; injection E as <-; [|done]. split; [by eapply wakeup_shares|done].
Qed.

Lemma tinv_served k s s' : tinv s -> coherent s' -> served k s s' -> tinv s'.
Proof.
  intros Hs Hc (x & i & l & n & r & ph & Ex & Ei & El & En & Hph & _ & H). pose proof (lookup_lt_Some _ _ _ El) as Hlt.
  destruct r as [l'|]; [destruct H as [Hsh ->]|subst s'].
  - apply tinv_task; [done|done|by rewrite length_insert| |split_and!; [done|done|by left]].
    eapply limiters_insert; [apply Hs|exact El|done].
  - apply tinv_retask; try done. split_and!; [done|done|by right].
Qed.

Lemma tinv_throttle topic threshold s :
  tinv s -> coherent (throttle topic threshold s) -> 0 <= threshold < 2 ^ 32 -> tinv (throttle topic threshold s).
Proof.
  intros [H1 H2 H3 H4 H5] Hc Ht. split; cbn; rewrite ?length_app; cbn.
  - done.
  - apply Forall_app. split; [done|]. constructor; [|constructor]. split; [|done].
    by apply (RateLimiter.limiter_make_wf 10 ltac:(lia)).
  - intros y i Hi. destruct (decide (topic = y)) as [->|Hne].
    + rewrite lookup_insert_eq in Hi. injection Hi as <-. lia.
    + rewrite lookup_insert_ne in Hi by done. specialize (H3 y i Hi). lia.
  - eapply Forall_impl; [exact H4|]. intros y. apply task_ok_le. lia.
  - eapply Forall_impl; [exact H5|]. intros y. apply task_ok_le. lia.
Qed.

(** A step that leaves the limiters and the tasks alone. *)
Lemma tinv_quiet s s' :
  tinv s -> coherent s' -> limiters s' = limiters s -> rate_limiter_table_ s' = rate_limiter_table_ s ->
  ThreadPoolImpl.posted_ (pool_ s') = ThreadPoolImpl.posted_ (pool_ s) ->
  ThreadPoolImpl.busy_ (pool_ s') = ThreadPoolImpl.busy_ (pool_ s) \/ ThreadPoolImpl.busy_ (pool_ s') = [] -> tinv s'.
Proof.
  intros [H1 H2 H3 H4 H5] Hc E1 E2 E3 [E4|E4]; split; by rewrite ?E1, ?E2, ?E3, ?E4.
Qed.

Lemma tinv_step a s s' : tinv s -> step a s = Some s' -> tinv s'.
Proof.
  intros Hs E. pose proof (coherent_step a s s' (ti_coherent _ Hs) E) as Hc.
  assert (Hq := tinv_quiet s s' Hs Hc). destruct a; cbn [step] in E.
  2-7,9,16-25: unfold start_exchange, worker_up, start_pool, start_spawn, start_end, dispatch_test, dispatch_wake, observer_end,
    shutdown_call, shutdown_exchange, shutdown_stopped, shutdown_pool_exchange, shutdown_pool_stop, shutdown_pool_join,
    shutdown_join_dispatcher, shutdown_stop_observer, shutdown_join_observer, ThreadPoolImpl.shutdown_exchange,
    ThreadPoolImpl.shutdown_stop, ThreadPoolImpl.shutdown_join, ThreadPoolImpl.worker_up in E;
    repeat (case_match; simplify_eq/=); apply Hq; auto.
  - destruct (_ && _) eqn:B; [|done]. injection E as <-. apply andb_true_iff in B as [B1 B2].
    apply Z.leb_le in B1. apply Z.ltb_lt in B2. by apply tinv_throttle.
  - destruct Hs as [H1 H2 H3 H4 H5]. unfold dispatch in E. destruct (dispatcher s); try done. injection E as <-.
    pose proof (submit_state (pool_ s) batches) as (_ & _ & P3). split; cbn; [done|done|done|by apply submit_ok|by rewrite P3].
  - destruct Hs as [H1 H2 H3 H4 H5]. unfold take, ThreadPoolImpl.take in E.
    destruct (ThreadPoolImpl.posted_ (pool_ s)) as [|x l] eqn:Ep; [done|].
    destruct (_ || _); [done|]. injection E as <-. apply Forall_cons in H4 as [Hx H4]. split; cbn; try done.
    apply Forall_app. split; [done|]. by constructor.
  - unfold lookup_limiter in E. destruct (_ !! k) as [x|] eqn:Ex; [|done]. cbn [mbind option_bind] in E. destruct (phase_ x); try done.
    destruct (rate_limiter_table_ s !! topic x) as [i|] eqn:Ei; injection E as <-; apply tinv_retask; try done.
    + split_and!; [by apply (ti_table _ Hs) in Ei|done|by left].
    + by right.
  - by eapply tinv_served; [..|eapply permit_served].
  - by eapply tinv_served; [..|eapply recheck_served].
  - destruct Hs as [H1 H2 H3 H4 H5]. unfold finish in E. destruct (_ !! k) as [x|] eqn:Ex; [|done]. cbn [mbind option_bind] in E.
    destruct (phase_ x), (needed x); try done. injection E as <-. split; cbn; try done.
    apply Forall_forall. intros y Hy. apply (proj1 (Forall_forall _ _) H5). by eapply elem_of_delete.
  - destruct Hs as [H1 H2 H3 H4 H5]. unfold tick in E. destruct (observer_ended s); [done|].
    destruct (limiters s !! i) as [l|] eqn:El; [|done]. injection E as <-. split; cbn; rewrite ?length_insert; try done.
    + eapply limiters_insert; [done|exact El|apply tick_shares].
    + apply Forall_fmap. eapply Forall_impl; [exact H5|]. intros y. apply notify_ok.
Qed.

Lemma tinv_run l s s' : tinv s -> run l s = Some s' -> tinv s'.
Proof.
  revert s. induction l as [|a l IH]; intros s Hs; cbn [run]; [by intros [= <-]|].
  destruct (step a s) as [s1|] eqn:E; [|done]. cbn. apply IH. by eapply tinv_step.
Qed.

(** ** Shutting down *)

(** The steps the threads of the service take on their own. *)
Definition internal (a : action) : Prop := match a with Throttle _ _ | ShutdownCall => False | _ => True end.

Definition leads (s s' : t) : Prop := exists l, Forall internal l /\ run l s = Some s'.

Lemma run_app l k s : run (l ++ k) s = (s1 ← run l s; run k s1).
Proof.
  revert s. induction l as [|a l IH]; intros s; cbn [run app]; [done|]. destruct (step a s) as [s1|]; [|done]. cbn. apply IH.
Qed.

#[local] Instance leads_preorder : PreOrder leads.
Proof.
  split; [intros s; by exists []|]. intros a b c (l & Hl & El) (k & Hk & Ek). exists (l ++ k).
  split; [by apply Forall_app|]. by rewrite run_app, El.
Qed.

Lemma leads_step a s s' : internal a -> step a s = Some s' -> leads s s'.
Proof. intros Ha E. exists [a]. split; [by constructor|]. cbn. by rewrite E. Qed.

Lemma tinv_leads s s' : leads s s' -> tinv s -> tinv s'.
Proof. intros (l & _ & E) Hs. by eapply tinv_run. Qed.

(** Every limiter has a slot with a share. *)
Definition positive (shares : list Z) : Prop := exists j, 0 <= j < 10 /\ 0 < RateLimiter.rd shares j.
Definition shares (s : t) : list (list Z) := map RateLimiter.partition_ (limiters s).
Definition generous (s : t) : Prop := Forall positive (shares s).

Lemma shares_insert s i l l' :
  limiters s !! i = Some l -> same_shares l l' -> shares (set_limiters (<[i := l']> (limiters s)) s) = shares s.
Proof.
  intros E (S1 & _). unfold shares. cbn.
  rewrite <- (list_insert_id (map RateLimiter.partition_ (limiters s)) i (RateLimiter.partition_ l)).
  - rewrite <- S1. apply list_fmap_insert.
  - rewrite list_lookup_fmap, E. done.
Qed.

(** A worker that waits for a permit gets one after a tick in a slot with a share. *)
Lemma grant_waiting s k x n :
  tinv s -> generous s -> observer_ended s = false ->
  ThreadPoolImpl.busy_ (pool_ s) !! k = Some x -> phase_ x = Woken \/ phase_ x = Asleep -> needed x = S n ->
  exists s' x', leads s s' /\ stopper s' = stopper s /\ observer_ended s' = observer_ended s /\ shares s' = shares s
    /\ length (ThreadPoolImpl.busy_ (pool_ s')) = length (ThreadPoolImpl.busy_ (pool_ s))
    /\ ThreadPoolImpl.busy_ (pool_ s') !! k = Some x' /\ needed x' = n /\ phase_ x' = Running.
Proof.
  intros Hs Hg Ho Ek Hph En. pose proof (proj1 (Forall_lookup _ _) (ti_busy _ Hs) k x Ek) as Hx. unfold task_ok in Hx.
  destruct (limiter x) as [i|] eqn:Ei; [|destruct Hph, Hx as [Hx|[Hx _]]; congruence].
  destruct Hx as (Hlt & _ & _). destruct (lookup_lt_is_Some_2 _ _ Hlt) as [l El].
  destruct (proj1 (Forall_lookup _ _) (ti_limiters _ Hs) i l El) as [Hwf Hitv].
  assert (Hp : positive (RateLimiter.partition_ l)).
  { apply (proj1 (Forall_forall _ _) Hg). unfold shares. apply list_elem_of_fmap. exists l. split; [done|].
    by eapply list_elem_of_lookup_2. }
  destruct Hp as (j & Hj & Hpos). set (ms := j * 100). set (l1 := RateLimiter.tick 10 ms l).
  assert (Hslot : RateLimiter.slot 10 l ms = j).
  { unfold RateLimiter.slot. rewrite Hitv. unfold ms. rewrite Z.div_mul by lia. apply Z.mod_small. lia. }
  assert (Hw : RateLimiter.acquire_wakeup 10 ms ms l1 = Some (RateLimiter.take_permit j l1)).
  { unfold RateLimiter.acquire_wakeup. change (RateLimiter.slot 10 l1 ms) with (RateLimiter.slot 10 l ms). rewrite Hslot.
    unfold l1, RateLimiter.tick. cbn [RateLimiter.permits_]. rewrite Hslot, RateLimiter.rd_wr.
    - rewrite decide_True by done. apply Z.ltb_lt in Hpos. by rewrite Hpos.
    - destruct Hwf as (W1 & _). lia.
    - lia. }
  set (s1 := set_pool (ThreadPoolImpl.mk (ThreadPoolImpl.state_ (pool_ s)) (ThreadPoolImpl.stopped_ (pool_ s))
               (ThreadPoolImpl.posted_ (pool_ s)) (map (notify i) (ThreadPoolImpl.busy_ (pool_ s))))
               (set_limiters (<[i := l1]> (limiters s)) s)).
  assert (E1 : step (Tick i ms) s = Some s1) by (cbn [step]; unfold tick; by rewrite Ho, El).
  assert (Ex1 : ThreadPoolImpl.busy_ (pool_ s1) !! k = Some (mkTask (topic x) (S n) (Some i) Woken)).
  { cbn. rewrite list_lookup_fmap, Ek. cbn. f_equal. unfold notify. rewrite Ei, bool_decide_eq_true_2 by done. cbn.
    destruct Hph as [Hph|Hph]; [rewrite bool_decide_eq_false_2 by congruence|rewrite bool_decide_eq_true_2 by done];
      destruct x; cbn in *; congruence. }
  assert (El1 : limiters s1 !! i = Some l1) by (cbn; apply list_lookup_insert_eq; exact Hlt).
  assert (E2 : step (Recheck k ms ms) s1 = Some (set_task k (mkTask (topic x) n (Some i) Running)
             (set_limiters (<[i := RateLimiter.take_permit j l1]> (limiters s1)) s1))).
  { cbn [step]. unfold recheck. rewrite Ex1. cbn [mbind option_bind limiter]. rewrite El1. cbn [mbind option_bind phase_ needed topic].
    by rewrite Hw. }
  eexists _, (mkTask (topic x) n (Some i) Running).
  split; [etransitivity; [by eapply (leads_step (Tick i ms))|by eapply (leads_step (Recheck k ms ms))]|].
  split; [done|]. split; [done|]. split.
  - transitivity (shares s1).
    + apply (shares_insert s1 i l1); [done|]. by eapply wakeup_shares.
    + apply (shares_insert s i l); [done|]. apply tick_shares.
  - cbn. rewrite length_insert, length_map. split; [done|]. split; [|by split].
    apply list_lookup_insert_eq. rewrite length_map. by apply lookup_lt_Some in Ek.
Qed.

(** A task that runs gets all its permits, and then ends. *)
Lemma task_ends n s k x :
  tinv s -> generous s -> observer_ended s = false ->
  ThreadPoolImpl.busy_ (pool_ s) !! k = Some x -> phase_ x <> Queued -> needed x = n ->
  exists s', leads s s' /\ stopper s' = stopper s /\ observer_ended s' = observer_ended s /\ shares s' = shares s
    /\ S (length (ThreadPoolImpl.busy_ (pool_ s'))) = length (ThreadPoolImpl.busy_ (pool_ s)).
Proof.
  revert s x. induction n as [|n IH]; intros s x Hs Hg Ho Ek Hph En.
  { assert (Hr : phase_ x = Running).
    { pose proof (proj1 (Forall_lookup _ _) (ti_busy _ Hs) k x Ek) as Hx. unfold task_ok in Hx.
      destruct (limiter x); [by destruct Hx as (_ & _ & [?|?])|by destruct Hx as [?|[? _]]]. }
    eexists. split; [eapply (leads_step (Finish k)); [done|]; cbn [step]; unfold finish; rewrite Ek; cbn; by rewrite Hr, En|].
    split_and!; try done. exact (eq_sym (Permutation_length (delete_Permutation _ _ _ Ek))). }
  (* one permit, and the rest *)
  assert (H1 : exists s' x', leads s s' /\ stopper s' = stopper s /\ observer_ended s' = observer_ended s /\ shares s' = shares s
    /\ length (ThreadPoolImpl.busy_ (pool_ s')) = length (ThreadPoolImpl.busy_ (pool_ s))
    /\ ThreadPoolImpl.busy_ (pool_ s') !! k = Some x' /\ needed x' = n /\ phase_ x' = Running).
  { destruct (phase_ x) eqn:Ephase; [done| |eapply grant_waiting; eauto|eapply grant_waiting; eauto].
    pose proof (proj1 (Forall_lookup _ _) (ti_busy _ Hs) k x Ek) as Hx. unfold task_ok in Hx.
    destruct (limiter x) as [i|] eqn:Ei; [|destruct Hx as [?|[_ ?]]; congruence]. destruct Hx as (Hlt & _ & _).
    destruct (lookup_lt_is_Some_2 _ _ Hlt) as [l El]. pose proof (lookup_lt_Some _ _ _ Ek) as Hk.
    destruct (RateLimiter.acquire 10 0 l) as [l'|] eqn:Ea.
    - eexists _, (mkTask (topic x) n (Some i) Running). split.
      { eapply (leads_step (Permit k 0)); [done|]. cbn [step]. unfold permit. rewrite Ek. cbn [mbind option_bind]. rewrite Ei.
        cbn [mbind option_bind]. rewrite El. cbn [mbind option_bind]. by rewrite Ephase, En, Ea. }
      split_and!; try done; cbn; [|by rewrite length_insert|by apply list_lookup_insert_eq].
      apply (shares_insert s i l); [done|]. by eapply acquire_shares.
    - set (s1 := set_task k (mkTask (topic x) (S n) (Some i) Woken) s).
      assert (E1 : step (Permit k 0) s = Some s1).
      { cbn [step]. unfold permit. rewrite Ek. cbn [mbind option_bind]. rewrite Ei.
        cbn [mbind option_bind]. rewrite El. cbn [mbind option_bind]. by rewrite Ephase, En, Ea. }
      destruct (grant_waiting s1 k (mkTask (topic x) (S n) (Some i) Woken) n) as (s' & x' & L & W1 & W2 & W3 & W4 & W5);
        [by eapply tinv_step|done|done|cbn; by apply list_lookup_insert_eq|by left|done|].
      exists s', x'. split; [etransitivity; [by eapply (leads_step (Permit k 0))|exact L]|].
      split_and!; try done; [|apply W5..]. rewrite W4. cbn. by rewrite length_insert. }
  destruct H1 as (s1 & x1 & L1 & W1 & W2 & W3 & W4 & W5 & W6 & W7).
  destruct (IH s1 x1) as (s' & L & V1 & V2 & V3 & V4); [by eapply tinv_leads|unfold generous; by rewrite W3|congruence|done|congruence|done|].
  exists s'. split; [by etransitivity|]. split_and!; congruence.
Qed.

Lemma pool_drains s :
  tinv s -> generous s -> observer_ended s = false ->
  exists s', leads s s' /\ stopper s' = stopper s /\ shares s' = shares s /\ ThreadPoolImpl.busy_ (pool_ s') = [].
Proof.
  remember (length (ThreadPoolImpl.busy_ (pool_ s))) as m eqn:Em. revert s Em.
  induction m as [|m IH]; intros s Em Hs Hg Ho.
  { exists s. split_and!; try done. by apply nil_length_inv. }
  destruct (ThreadPoolImpl.busy_ (pool_ s)) as [|x b] eqn:Eb; [done|].
  assert (H1 : exists s1 x1, leads s s1 /\ stopper s1 = stopper s /\ observer_ended s1 = observer_ended s /\ shares s1 = shares s
    /\ length (ThreadPoolImpl.busy_ (pool_ s1)) = S m /\ ThreadPoolImpl.busy_ (pool_ s1) !! 0%nat = Some x1 /\ phase_ x1 <> Queued).
  { destruct (decide (phase_ x = Queued)) as [Hq|Hq]; [|exists s, x; rewrite Eb; by split_and!].
    destruct (rate_limiter_table_ s !! topic x) as [i|] eqn:Ei.
    - exists (set_task 0 (mkTask (topic x) (needed x) (Some i) Running) s), (mkTask (topic x) (needed x) (Some i) Running).
      split; [apply (leads_step (Lookup 0)); [done|]; cbn [step]; unfold lookup_limiter; rewrite Eb; cbn; by rewrite Hq, Ei|].
      split_and!; try done; cbn; rewrite Eb; cbn; [done|reflexivity].
    - exists (set_task 0 (mkTask (topic x) 0 None Running) s), (mkTask (topic x) 0 None Running).
      split; [apply (leads_step (Lookup 0)); [done|]; cbn [step]; unfold lookup_limiter; rewrite Eb; cbn; by rewrite Hq, Ei|].
      split_and!; try done; cbn; rewrite Eb; cbn; [done|reflexivity]. }
  destruct H1 as (s1 & x1 & L1 & V1 & V2 & V3 & V4 & V5 & V6).
  destruct (task_ends (needed x1) s1 0 x1) as (s2 & L2 & W1 & W2 & W3 & W4);
    [by eapply tinv_leads|unfold generous; by rewrite V3|congruence|done|done|done|].
  destruct (IH s2) as (s3 & L3 & U1 & U2 & U3);
    [lia|by eapply tinv_leads; [exact L2|eapply tinv_leads]|unfold generous; by rewrite W3, V3|congruence|].
  exists s3. split; [etransitivity; [exact L1|by etransitivity]|]. split_and!; congruence.
Qed.

(** *** The way to the end of [shutdown] *)
Definition ends (s : t) : Prop :=
  exists s', leads s s' /\ (stopper s' = Returned \/ stopper s' = Skipped).

Lemma ends_leads s s' : leads s s' -> ends s' -> ends s.
Proof. intros L (s2 & L2 & H). exists s2. split; [by etransitivity|done]. Qed.

Lemma ends_step a s s' : internal a -> step a s = Some s' -> ends s' -> ends s.
Proof. intros Ha E. apply ends_leads. by eapply leads_step. Qed.

(** The end of [shutdown], once the pool is gone. *)
Lemma joining_ends s : tinv s -> stopper s = JoiningDispatcher -> ends s.
Proof.
  intros Hs Hst. pose proof (ti_coherent _ Hs) as Hc. unfold coherent in Hc. rewrite Hst in Hc.
  destruct Hc as (_ & Hstate & _ & Hd & Ho1 & Ho2).
  assert (Hlast : forall s, stopper s = JoiningDispatcher -> dispatcher s = Ended -> ends s).
  { clear. intros s Hst Hd.
    eapply (ends_step ShutdownJoinDispatcher); [done|cbn [step]; unfold shutdown_join_dispatcher; by rewrite Hst, Hd|].
    eapply (ends_step ShutdownStopObserver); [done|reflexivity|].
    eapply (ends_step ObserverEnd); [done|reflexivity|].
    eapply (ends_step ShutdownJoinObserver); [done|reflexivity|].
    eexists. split; [reflexivity|by left]. }
  assert (Htest : forall s, stopper s = JoiningDispatcher -> state_ s = STOPPED -> dispatcher s = Test -> ends s).
  { intros s1 H1 H2 H3. eapply (ends_step DispatchTest); [done|cbn [step]; unfold dispatch_test; by rewrite H3, H2|].
    by apply Hlast. }
  destruct (dispatcher s) eqn:Ed; [done|by apply Htest| | |by apply Hlast].
  - eapply (ends_step (Dispatch [])); [done|cbn [step]; unfold dispatch; by rewrite Ed|].
    eapply (ends_step DispatchWake); [done|reflexivity|]. by apply Htest.
  - eapply (ends_step DispatchWake); [done|cbn [step]; unfold dispatch_wake; by rewrite Ed|]. by apply Htest.
Qed.

(** The pool waits for its workers, which get their permits from the observer. *)
Lemma pool_joining_ends s : tinv s -> generous s -> stopper s = PoolJoining -> ends s.
Proof.
  intros Hs Hg Hst. pose proof (ti_coherent _ Hs) as Hc. unfold coherent in Hc. rewrite Hst in Hc.
  destruct Hc as (_ & _ & _ & _ & _ & Ho). destruct (pool_drains s Hs Hg Ho) as (s1 & L1 & V1 & _ & V3).
  apply (ends_leads s s1 L1). pose proof (tinv_leads _ _ L1 Hs) as Hs1. pose proof (ti_coherent _ Hs1) as Hc.
  unfold coherent in Hc. rewrite V1, Hst in Hc. destruct Hc as (_ & _ & (Hp1 & Hp2) & _).
  destruct (step ShutdownPoolJoin s1) as [s2|] eqn:E2.
  - eapply (ends_step ShutdownPoolJoin); [done|exact E2|]. apply joining_ends; [by eapply tinv_step|].
    cbn [step] in E2. unfold shutdown_pool_join, ThreadPoolImpl.shutdown_join in E2. rewrite V1, Hst, Hp2, V3 in E2.
    by injection E2 as <-.
  - exfalso. cbn [step] in E2. unfold shutdown_pool_join, ThreadPoolImpl.shutdown_join in E2. by rewrite V1, Hst, Hp2, V3 in E2.
Qed.

(** A few steps that are bound to be enabled. *)
Lemma ends_run l s s' : Forall internal l -> run l s = Some s' -> ends s' -> ends s.
Proof. intros Hl E. apply ends_leads. by exists l. Qed.

Lemma stopping_ends s :
  tinv s -> generous s -> stopper s = Exchanged \/ stopper s = PoolExchanging \/ stopper s = PoolStopping -> ends s.
Proof.
  intros Hs Hg Hst.
  assert (E : exists l, Forall internal l /\ run l s
     = Some (set_stopper PoolJoining (set_pool (ThreadPoolImpl.mk STOPPING true (ThreadPoolImpl.posted_ (pool_ s))
               (ThreadPoolImpl.busy_ (pool_ s))) (set_state STOPPED s)))).
  { pose proof (ti_coherent _ Hs) as Hc. unfold coherent in Hc.
    destruct s as [st lims tab [ps pst posted busy] disp os oe sr sp]. cbn in *.
    destruct Hst as [->|[->| ->]]; unfold pool_up in Hc; cbn in Hc; destruct_and?; subst;
      [exists [ShutdownStopped; ShutdownPoolExchange; ShutdownPoolStop]|exists [ShutdownPoolExchange; ShutdownPoolStop]
      |exists [ShutdownPoolStop]]; (split; [by repeat constructor|reflexivity]). }
  destruct E as (l & Hl & E). eapply ends_run; [exact Hl|exact E|].
  apply pool_joining_ends; [by eapply tinv_run|done|done].
Qed.

Lemma observer_ends s : tinv s -> stopper s = StoppingObserver \/ stopper s = JoiningObserver -> ends s.
Proof.
  intros Hs Hst. pose proof (ti_coherent _ Hs) as Hc. unfold coherent in Hc.
  destruct s as [st lims tab pool disp os oe sr sp]. cbn in *. destruct Hst as [->| ->].
  - eapply (ends_run [ShutdownStopObserver; ObserverEnd; ShutdownJoinObserver]); [by repeat constructor|reflexivity|].
    eexists. split; [reflexivity|by left].
  - destruct Hc as (_ & _ & _ & _ & ->).
    eapply (ends_run [ObserverEnd; ShutdownJoinObserver]); [by repeat constructor|reflexivity|].
    eexists. split; [reflexivity|by left].
Qed.

(** A [shutdown] that is called waits for [start] to end, if it has begun. *)
Lemma called_ends s : tinv s -> generous s -> stopper s = Called -> ends s.
Proof.
  assert (Hend : forall s, tinv s -> generous s -> stopper s = Called -> starter s = Idle \/ starter s = Started -> ends s).
  { intros s0 Hs Hg Hst Hr. pose proof (ti_coherent _ Hs) as Hc. unfold coherent in Hc. rewrite Hst in Hc.
    destruct Hc as [_ Hc]. unfold start_coherent in Hc.
    destruct s0 as [st lims tab pool disp os oe sr sp]. cbn in *. subst sp. destruct Hr as [->| ->]; destruct Hc as [-> _].
    - eapply (ends_run [ShutdownExchange]); [by repeat constructor|reflexivity|]. eexists. split; [reflexivity|by right].
    - eapply (ends_run [ShutdownExchange]); [by repeat constructor|reflexivity|].
      apply stopping_ends; [|done|by left]. by eapply (tinv_step ShutdownExchange). }
  assert (Hgo : forall l s s', Forall internal l -> run l s = Some s' -> tinv s -> generous s' -> stopper s' = Called ->
                  starter s' = Started -> ends s).
  { intros l s0 s' Hl E Hs Hg Hst Hr. eapply ends_run; [exact Hl|exact E|]. apply Hend; [by eapply tinv_run|done|done|by right]. }
  intros Hs Hg Hst. destruct (starter s) eqn:Er; [by apply Hend; [..|left]| | | |by apply Hend; [..|right]];
    pose proof (ti_coherent _ Hs) as Hc; unfold coherent in Hc; rewrite Hst in Hc; destruct Hc as [_ Hc]; unfold start_coherent in Hc;
    rewrite Er in Hc; destruct s as [st lims tab [ps pst posted busy] disp os oe sr sp]; cbn in *; subst.
  - destruct Hc as (-> & [->| ->] & _).
    + by eapply (Hgo [WorkerUp; StartPool; StartSpawn; StartEnd]); [by repeat constructor|reflexivity|..].
    + by eapply (Hgo [StartPool; StartSpawn; StartEnd]); [by repeat constructor|reflexivity|..].
  - destruct Hc as (-> & _). by eapply (Hgo [StartSpawn; StartEnd]); [by repeat constructor|reflexivity|..].
  - destruct Hc as (-> & _). by eapply (Hgo [StartEnd]); [by repeat constructor|reflexivity|..].
Qed.

(** *** Thresholds *)

(** The application gives every topic it throttles a threshold of at least one. *)
Definition sensible (a : action) : Prop := match a with Throttle _ threshold => 1 <= threshold | _ => True end.

Lemma sum_positive l : Forall (fun v => 0 <= v < 2 ^ 32) l -> 0 < RateLimiter.sum l ->
  exists j, 0 <= j < zlen l /\ 0 < RateLimiter.rd l j.
Proof.
  induction l as [|v l IH]; intros Hl Hs; [cbn in Hs; lia|]. apply Forall_cons in Hl as [Hv Hl].
  change (0 < v + RateLimiter.sum l) in Hs.
  destruct (decide (0 < v)) as [Hp|Hn].
  - exists 0. unfold zlen. cbn. split; [lia|done].
  - destruct IH as (j & Hj & Hp); [done|lia|]. exists (j + 1). unfold zlen in *. cbn. split; [lia|].
    rewrite RateLimiter.rd_lookup in * by lia. replace (Z.to_nat (j + 1)) with (S (Z.to_nat j)) by lia. done.
Qed.

Lemma threshold_positive threshold :
  1 <= threshold < 2 ^ 32 -> positive (RateLimiter.partition_ (RateLimiter.make 10 threshold)).
Proof.
  intros Ht. destruct (RateLimiter.limiter_make_wf 10 ltac:(lia) threshold ltac:(lia)) as [(_ & H2 & _ & _ & H5) Hs].
  destruct (sum_positive _ H5) as (j & Hj & Hp); [lia|]. exists j. split; [lia|done].
Qed.

Lemma generous_step a s s' : sensible a -> step a s = Some s' -> generous s -> generous s'.
Proof.
  intros Ha E Hg.
  assert (Hsame : shares s' = shares s -> generous s') by (intros Hs; unfold generous; by rewrite Hs).
  destruct a; cbn [step] in E.
  { destruct (_ && _) eqn:B; [|done]. injection E as <-. apply andb_true_iff in B as [_ B]. apply Z.ltb_lt in B.
    unfold generous, shares. cbn. rewrite map_app. apply Forall_app. split; [done|]. constructor; [|constructor].
    apply threshold_positive. cbn in Ha. lia. }
  all: apply Hsame.
  all: unfold start_exchange, worker_up, start_pool, start_spawn, start_end, dispatch_test, dispatch, dispatch_wake, take,
      lookup_limiter, permit, recheck, finish, tick, observer_end, shutdown_call, shutdown_exchange, shutdown_stopped,
      shutdown_pool_exchange, shutdown_pool_stop, shutdown_pool_join, shutdown_join_dispatcher, shutdown_stop_observer,
      shutdown_join_observer, mbind, option_bind in E; cbn in E.
  all: repeat (case_match; simplify_eq/=); try done.
  all: eapply (shares_insert s); [eassumption|]; eauto using acquire_shares, wakeup_shares, tick_shares.
Qed.

Lemma generous_run l s s' : Forall sensible l -> run l s = Some s' -> generous s -> generous s'.
Proof.
  revert s. induction l as [|a l IH]; intros s Hl; cbn [run]; [by intros [= <-]|]. apply Forall_cons in Hl as [Ha Hl].
  destruct (step a s) as [s1|] eqn:E; [|done]. cbn. intros Hr Hg. eapply IH; [done|exact Hr|]. by eapply generous_step.
Qed.

(** C12: shutting a consume service down never hangs: in every interleaving of [start], the
    dispatcher, the workers, the ticks of the rate limiters, changes of the thresholds and
    [shutdown], once [shutdown] is called the threads of the service can bring it to its
    end by themselves, however many tasks still wait for permits, as long as every
    threshold is at least one. *)
Theorem shutdown_never_hangs l s :
  Forall sensible l -> run l make = Some s -> stopper s <> NotCalled ->
  exists l' s', Forall internal l' /\ run l' s = Some s' /\ (stopper s' = Returned \/ stopper s' = Skipped).
Proof.
  intros Hl Hr Hst. pose proof (tinv_run l _ s tinv_make Hr) as Hs.
  assert (Hg : generous s) by (eapply generous_run; [exact Hl|exact Hr|constructor]).
  enough (ends s) as (s' & (l' & Hl' & Hr') & H) by (by exists l', s').
  destruct (stopper s) eqn:E; [done|by apply called_ends| |by apply stopping_ends; auto|by apply stopping_ends; auto
    |by apply stopping_ends; auto|by apply pool_joining_ends|by apply joining_ends|by apply observer_ends; auto
    |by apply observer_ends; auto|].
  - exists s. split; [reflexivity|by right].
  - exists s. split; [reflexivity|by left].
Qed.

(** Nothing of the service runs once [shutdown] has returned. *)
Theorem shutdown_is_final l s l' s' :
  run l make = Some s -> stopper s = Returned -> run l' s = Some s' ->
  stopper s' = Returned /\ state_ s' = STOPPED /\ ThreadPoolImpl.busy_ (pool_ s') = [] /\ dispatcher s' = Ended
  /\ observer_ended s' = true.
Proof.
  intros Hr Hst Hr'. pose proof (tinv_run l _ s tinv_make Hr) as Hs. pose proof (tinv_run l' s s' Hs Hr') as Hs'.
  assert (Hst' : stopper s' = Returned).
  { clear Hs Hs' Hr. revert s Hst Hr'. induction l' as [|a l' IH]; intros s Hst; cbn [run]; [by intros [= <-]|].
    destruct (step a s) as [s1|] eqn:E; [|done]. cbn. apply IH. destruct s as [st lims tab pool disp os oe sr sp]. cbn in Hst. subst sp.
    destruct a; cbn [step] in E;
      unfold start_exchange, worker_up, start_pool, start_spawn, start_end, dispatch_test, dispatch, dispatch_wake, take,
        lookup_limiter, permit, recheck, finish, tick, observer_end, shutdown_call, shutdown_exchange, shutdown_stopped,
        shutdown_pool_exchange, shutdown_pool_stop, shutdown_pool_join, shutdown_join_dispatcher, shutdown_stop_observer,
        shutdown_join_observer, mbind, option_bind in E; cbn in E; repeat (case_match; simplify_eq/=); done. }
  pose proof (ti_coherent _ Hs') as Hc. unfold coherent in Hc. rewrite Hst' in Hc. destruct Hc as (_ & H2 & (_ & _ & H3) & H4 & _ & H5).
  by split_and!.
Qed.

(** *** A threshold of zero *)

Definition starving (i : nat) (x : task) : Prop := limiter x = Some i /\ needed x <> 0%nat /\ phase_ x <> Queued.

(** The shutdown waits for a task that waits for a limiter that never has a permit. *)
Definition starved (i : nat) (s : t) : Prop :=
  stopper s = PoolJoining
  /\ (exists l, limiters s !! i = Some l /\ empty_limiter l)
  /\ (exists k x, ThreadPoolImpl.busy_ (pool_ s) !! k = Some x /\ starving i x).

Lemma rd_zeros n j : RateLimiter.rd (replicate n 0) j = 0.
Proof.
  unfold RateLimiter.rd, at_. destruct (decide (0 <= j)); [|done].
  destruct (replicate n 0 !! Z.to_nat j) as [v|] eqn:E; [|done]. by apply lookup_replicate in E as [-> _].
Qed.

Lemma rd_wr_zero l i j : RateLimiter.rd l j = 0 -> RateLimiter.rd (RateLimiter.wr l i 0) j = 0.
Proof.
  unfold RateLimiter.rd, RateLimiter.wr, at_. intros H. destruct (decide (0 <= j)); [|done].
  destruct (decide (Z.to_nat i = Z.to_nat j)) as [E|E].
  - rewrite <- E. destruct (decide (Z.to_nat i < length l)%nat).
    + by rewrite list_lookup_insert_eq.
    + rewrite lookup_ge_None_2; [done|]. rewrite length_insert. lia.
  - by rewrite list_lookup_insert_ne.
Qed.

Lemma empty_tick ms l : empty_limiter l -> empty_limiter (RateLimiter.tick 10 ms l).
Proof. intros [H1 H2]. split; [|done]. intros j. cbn. rewrite H2. apply rd_wr_zero, H1. Qed.

Lemma starving_insert i k j x y (b : list task) :
  b !! k = Some x -> starving i x -> (j = k -> starving i y) -> exists k' x', <[j := y]> b !! k' = Some x' /\ starving i x'.
Proof.
  intros Ek Hx Hy. exists k. destruct (decide (j = k)) as [->|Hne].
  - exists y. rewrite list_lookup_insert_eq; [by split; [|apply Hy]|by eapply lookup_lt_Some].
  - exists x. by rewrite list_lookup_insert_ne.
Qed.

(** The tasks of other limiters, and what is done to these, do not feed a starving one. *)
Lemma starved_task i k x s ls :
  starved i s -> (exists l, ls !! i = Some l /\ empty_limiter l) ->
  (forall y, ThreadPoolImpl.busy_ (pool_ s) !! k = Some y -> starving i y -> starving i x) ->
  starved i (set_task k x (set_limiters ls s)).
Proof.
  intros (H1 & H2 & (k' & y & Ey & Hy)) Hl Hx. split; [done|]. split; [done|]. cbn.
  eapply starving_insert; [exact Ey|done|]. intros ->. by eapply Hx.
Qed.

Lemma starved_retask i k x s :
  starved i s -> (forall y, ThreadPoolImpl.busy_ (pool_ s) !! k = Some y -> starving i y -> starving i x) ->
  starved i (set_task k x s).
Proof.
  intros Hs Hx. pose proof (starved_task i k x s (limiters s) Hs (proj1 (proj2 Hs)) Hx) as H. by destruct s.
Qed.

Lemma limiter_insert_empty i j (ls : list RateLimiter.t) l l' :
  ls !! j = Some l -> (exists e, ls !! i = Some e /\ empty_limiter e) -> (j = i -> empty_limiter l') ->
  exists e, <[j := l']> ls !! i = Some e /\ empty_limiter e.
Proof.
  intros Ej (e & Ee & He) Hl. destruct (decide (j = i)) as [->|Hne].
  - exists l'. rewrite list_lookup_insert_eq; [by split; [|apply Hl]|by eapply lookup_lt_Some].
  - exists e. by rewrite list_lookup_insert_ne.
Qed.

Lemma starved_served i k s s' : starved i s -> served k s s' -> starved i s'.
Proof.
  intros Hs (x & j & l & n & r & ph & Ex & Ej & El & En & Hph & Hempty & H). pose proof Hs as (_ & (e & Ee & He) & _).
  destruct r as [l'|]; [destruct H as [_ ->]|subst s'].
  - assert (Hne : j <> i) by (intros ->; rewrite Ee in El; injection El as ->; by specialize (Hempty He)).
    apply starved_task; [done|by eapply limiter_insert_empty; [exact El|eauto|]|].
    intros y Ey Hy. rewrite Ex in Ey. injection Ey as <-. destruct Hy as (Hy & _). congruence.
  - apply starved_retask; [done|]. intros y Ey (H1 & _). rewrite Ex in Ey. injection Ey as <-. rewrite Ej in H1. by injection H1 as ->.
Qed.

Lemma starved_step i a s s' : starved i s -> step a s = Some s' -> starved i s'.
Proof.
  intros Hs E. pose proof Hs as (Hst & (e & Ee & He) & (k & x & Ek & Hx)).
  assert (Hsame : stopper s' = stopper s -> limiters s' = limiters s ->
            (exists k', ThreadPoolImpl.busy_ (pool_ s') !! k' = Some x) -> starved i s').
  { intros S1 S2 (k' & S3). split; [congruence|]. rewrite S2. split; eauto. }
  destruct a; cbn [step] in E.
  2-7,9,16: unfold start_exchange, worker_up, start_pool, start_spawn, start_end, dispatch_test, dispatch_wake, observer_end,
    ThreadPoolImpl.worker_up in E; repeat (case_match; simplify_eq/=); apply Hsame; eauto.
  9-17: unfold shutdown_call, shutdown_exchange, shutdown_stopped, shutdown_pool_exchange, shutdown_pool_stop, shutdown_pool_join,
    shutdown_join_dispatcher, shutdown_stop_observer, shutdown_join_observer, ThreadPoolImpl.shutdown_join in E; rewrite Hst in E; try done.
  - destruct (_ && _); [|done]. injection E as <-. split; [done|]. split; [|by eauto]. exists e. split; [|done]. cbn.
    by apply lookup_app_l_Some.
  - unfold dispatch in E. destruct (dispatcher s); try done. injection E as <-. apply Hsame; [done|done|]. cbn.
    destruct (submit_state (pool_ s) batches) as (_ & _ & ->). eauto.
  - unfold take, ThreadPoolImpl.take in E. repeat (case_match; simplify_eq/=). apply Hsame; [done|done|]. cbn.
    exists k. by apply lookup_app_l_Some.
  - unfold lookup_limiter in E. destruct (_ !! k0) as [y|] eqn:Ey; [|done]. cbn in E. destruct (phase_ y) eqn:Ep; try done.
    repeat (case_match; simplify_eq/=); (apply starved_retask; [done|]); intros z Ez (_ & _ & Hz); congruence.
  - by eapply starved_served, permit_served.
  - by eapply starved_served, recheck_served.
  - unfold finish in E. destruct (_ !! k0) as [y|] eqn:Ey; [|done]. cbn in E.
    destruct (phase_ y) eqn:Ep, (needed y) eqn:En; try done. injection E as <-. apply Hsame; [done|done|]. cbn.
    destruct (decide (k0 = k)) as [->|Hne]; [exfalso; destruct Hx as (_ & Hx & _); congruence|].
    destruct (decide (k < k0)%nat).
    + exists k. by rewrite list_lookup_delete_lt.
    + exists (Nat.pred k). rewrite list_lookup_delete_ge by lia. by replace (S (Nat.pred k)) with k by lia.
  - unfold tick in E. destruct (observer_ended s); [done|]. destruct (limiters s !! i0) as [l|] eqn:El; [|done]. injection E as <-.
    split; [done|]. split.
    + cbn. eapply limiter_insert_empty; [exact El|by eauto|]. intros ->. rewrite Ee in El. injection El as ->. by apply empty_tick.
    + exists k, (notify i0 x). cbn. rewrite list_lookup_fmap, Ek. split; [done|]. destruct Hx as (X1 & X2 & X3). unfold notify.
      destruct (_ && _); by split_and!.
  - destruct (ThreadPoolImpl.stopped_ _); [|done]. by destruct (ThreadPoolImpl.busy_ (pool_ s)).
Qed.

(** A service with a started pool and a task of the topic. *)
Definition example_history (threshold : Z) : list action :=
  [Throttle "TopicTest" threshold; StartExchange; WorkerUp; StartPool; StartSpawn; StartEnd; DispatchTest;
   Dispatch [("TopicTest"%string, 2%nat)]; Take; Lookup 0; Permit 0 0; ShutdownCall; ShutdownExchange; ShutdownStopped;
   ShutdownPoolExchange; ShutdownPoolStop].

(** With a threshold of zero a task of the topic never ends, and neither does [shutdown]. *)
Lemma zero_threshold_hangs :
  exists s, run (example_history 0) make = Some s
    /\ forall l s', run l s = Some s' -> stopper s' = PoolJoining.
Proof.
  destruct (run (example_history 0) make) as [s|] eqn:E; [|vm_compute in E; discriminate]. exists s. split; [done|].
  assert (Hs : starved 0 s).
  { vm_compute in E. injection E as <-. split; [reflexivity|]. split.
    - eexists. split; [reflexivity|]. split; intros j; apply (rd_zeros 10).
    - eexists 0%nat, _. split; [reflexivity|]. split_and!; done. }
  intros l s' Hr. clear E. revert s Hs Hr. induction l as [|a l IH]; intros s Hs; cbn [run]; [intros [= <-]; apply Hs|].
  destruct (step a s) as [s1|] eqn:E; [|done]. cbn. apply IH. by eapply starved_step.
Qed.

Lemma shutdown_never_hangs_witness :
  exists s l' s', run (example_history 1) make = Some s /\ stopper s = PoolJoining
    /\ map needed (ThreadPoolImpl.busy_ (pool_ s)) = [2%nat]
    /\ run l' s = Some s' /\ (stopper s' = Returned \/ stopper s' = Skipped).
Proof.
  destruct (run (example_history 1) make) as [s|] eqn:E; [|vm_compute in E; discriminate].
  assert (Hs : stopper s = PoolJoining /\ map needed (ThreadPoolImpl.busy_ (pool_ s)) = [2%nat]).
  { vm_compute in E. injection E as <-. split; reflexivity. }
  destruct Hs as [Hst Hn]. assert (Hl : Forall sensible (example_history 1)).
  { repeat constructor. cbn. lia. }
  destruct (shutdown_never_hangs (example_history 1) s Hl E) as (l' & s' & _ & Hr & Hend); [congruence|].
  exists s, l', s'. split; [reflexivity|]. split; [exact Hst|]. split; [exact Hn|]. split; [exact Hr|exact Hend].
Defined.

Lemma shutdown_is_final_witness :
  exists s, run (example_history 1 ++ [Tick 0 0; Recheck 0 0 0; Tick 0 0; Permit 0 0; Finish 0; ShutdownPoolJoin; DispatchWake;
                   DispatchTest; ShutdownJoinDispatcher; ShutdownStopObserver; ObserverEnd; ShutdownJoinObserver]) make = Some s
    /\ stopper s = Returned /\ ThreadPoolImpl.busy_ (pool_ s) = [].
Proof.
  destruct (run _ make) as [s|] eqn:E; [|vm_compute in E; discriminate]. exists s. split; [reflexivity|].
  assert (Hst : stopper s = Returned) by (vm_compute in E; injection E as <-; reflexivity). split; [exact Hst|].
  exact (proj1 (proj2 (proj2 (shutdown_is_final _ s [] s E Hst eq_refl)))).
Defined.
End ConsumeThreads.
