(* ===== verification/Producer.v ===== *)
(** * The producer: queue selection, retried sends and transactions.

    [ProducerImpl] (rocketmq/ProducerImpl.cpp), the callbacks of rocketmq/SendCallbacks.cpp
    and [TransactionImpl].  A send is a sequence of attempts; [Env] holds what attempt [k]
    meets outside the producer (the clock, a fresh id, the trace header of its span, the
    completion of its call, whether the producer still exists when it fails).  The tracing
    spans are in [Spans]; here only their access key matters: it is asked of the
    credentials provider without a test that there is one, and [None] is then the
    dereference of a null pointer. *)

From S2P Require Import Prelude Types Message MixAll Proto Route Config Codec ClientManager ClientImpl.

Record Env := mkEnv {
  hostname : string;
  clock : Z -> Z;
  fresh_id : Z -> string;
  trace_header : Z -> string;
  answer : Z -> error_code + SendResult.t;
  alive : Z -> bool;
  deflate : string -> ZStatus * string;
  hash : string -> Z;
}.

(** ** SendCallbacks *)

(** [AwaitSendCallback]. *)
Module AwaitSendCallback.
Record t := mk { completed_ : bool; send_result_ : SendResult.t; ec_ : error_code }.
Definition make : t := mk false SendResult.empty Success.
Definition onSuccess (r : SendResult.t) (s : t) : t := mk true (SendResult.assign (send_result_ s) r) (ec_ s).
Definition onFailure (ec : error_code) (s : t) : t := mk true (send_result_ s) ec.
Definition operator_bool (s : t) : bool := negb (ec_bool (ec_ s)).
End AwaitSendCallback.

(** [RetrySendCallback]; the span it holds is represented by its trace header. *)
Module RetrySendCallback.
Record t := mk {
  message_ : MQMessage.t;
  attempt_times_ : Z;
  max_attempt_times_ : Z;
  candidates_ : list MQMessageQueue.t;
  span_ : string;
}.

Definition make (message : MQMessage.t) (max_attempt_times : Z) (candidates : list MQMessageQueue.t) : t :=
  mk (MQMessage.copy message) 0 max_attempt_times candidates "".

(** [None]: a remainder by zero, on no candidates. *)
Definition messageQueue (s : t) : option MQMessageQueue.t :=
  if bool_decide (candidates_ s = []) then None
  else at_ (candidates_ s) (attempt_times_ s mod zlen (candidates_ s)).

Definition set_attempt (n : Z) (s : t) : t := mk (message_ s) n (max_attempt_times_ s) (candidates_ s) (span_ s).

(** The result handed to the caller's callback. *)
Definition onSuccess (r : SendResult.t) (s : t) : SendResult.t :=
  SendResult.set_traceContext (span_ s) (SendResult.setMessageQueue (default MQMessageQueue.empty (messageQueue s)) r).

(** [inl]: the caller's callback fails with this code; [inr]: another attempt is made. *)
Definition onFailure (alive : bool) (ec : error_code) (s : t) : error_code + t :=
  let s := set_attempt (i32 (attempt_times_ s + 1)) s in
  if max_attempt_times_ s <=? attempt_times_ s then inl ec
  else if negb alive then inl ec
  else if bool_decide (candidates_ s = []) then inl ec
  else inr s.
End RetrySendCallback.

(** ** ProducerImpl *)
Module ProducerImpl.
Import RetrySendCallback.

Record t := mk {
  client : ClientImpl.t;
  topic_publish_info_table_ : gmap string TopicPublishInfo.t;
  max_attempt_times : Z;
  failed_times_ : Z;
  compress_body_threshold_ : Z;
  transaction_state_checker_ : option (MQMessage.t -> TransactionState);
}.

Definition make (group_name : string) : t :=
  mk (ClientImpl.make group_name) ∅ MixAll.MAX_SEND_MESSAGE_ATTEMPT_TIMES_ 0
     MixAll.DEFAULT_COMPRESS_BODY_THRESHOLD_ None.

Definition set_client (c : ClientImpl.t) (s : t) : t :=
  mk c (topic_publish_info_table_ s) (max_attempt_times s) (failed_times_ s) (compress_body_threshold_ s)
     (transaction_state_checker_ s).
Definition set_table (m : gmap string TopicPublishInfo.t) (s : t) : t :=
  mk (client s) m (max_attempt_times s) (failed_times_ s) (compress_body_threshold_ s) (transaction_state_checker_ s).
Definition maxAttemptTimes (times : Z) (s : t) : t :=
  mk (client s) (topic_publish_info_table_ s) times (failed_times_ s) (compress_body_threshold_ s)
     (transaction_state_checker_ s).
Definition compressBodyThreshold (threshold : Z) (s : t) : t :=
  mk (client s) (topic_publish_info_table_ s) (max_attempt_times s) (failed_times_ s) threshold
     (transaction_state_checker_ s).
Definition setLocalTransactionStateChecker (checker : MQMessage.t -> TransactionState) (s : t) : t :=
  mk (client s) (topic_publish_info_table_ s) (max_attempt_times s) (failed_times_ s) (compress_body_threshold_ s)
     (Some checker).

Definition resource_namespace_ (s : t) : string := ClientConfigImpl.resource_namespace_ (ClientImpl.config (client s)).
Definition group_name_ (s : t) : string := ClientConfigImpl.group_name_ (ClientImpl.config (client s)).
Definition credentialsProvider (s : t) : bool := ClientConfigImpl.credentials_provider_ (ClientImpl.config (client s)).

(** *** Lifecycle; the last component says whether the producer registers itself with the
    client manager. *)
Definition start (handle : Z) (s : t) : t * list ClientImpl.effect * bool :=
  let '(c, effects) := ClientImpl.start handle (client s) in
  (set_client c s, effects, bool_decide (ClientImpl.state_ c = STARTED)).

Definition shutdown (client_id : string) (s : t) : t * list ClientImpl.effect :=
  let '(c, effects) := ClientImpl.shutdown client_id (client s) in
  let '(_, st) := compare_exchange_strong (ClientImpl.state_ c) STOPPING STOPPED in
  (set_client (ClientImpl.set_state st c) s, effects).

Definition isRunning (s : t) : bool := bool_decide (ClientImpl.state_ (client s) = STARTED).
(** The code is left alone while the producer runs. *)
Definition ensureRunning (ec : error_code) (s : t) : error_code := if isRunning s then ec else IllegalState.
Definition validate (message : MQMessage.t) : bool := MixAll.validate message.

(** *** The request *)
Definition wire_type (x : option MessageType) : rmq.MessageType :=
  match x with
  | Some NORMAL => rmq.NORMAL
  | Some DELAY => rmq.DELAY
  | Some TRANSACTION => rmq.TRANSACTION
  | Some FIFO => rmq.FIFO
  | None => rmq.NORMAL
  end.

(** [k] is the attempt.  Tag, keys and digest are not set. *)
Definition wrapSendMessageRequest (e : Env) (k : Z) (message : MQMessage.t) (message_queue : MQMessageQueue.t) (s : t)
    : rmq.SendMessageRequest :=
  let duration := clock e k in
  let seconds := Z.quot duration 1000000000 in
  let compressed := compress_body_threshold_ s <=? MQMessage.bodyLength message in
  let attribute :=
    rmq.mkSystemAttribute "" [] (fresh_id e k) (rmq.mkDigest rmq.CRC32 "")
      (if compressed then rmq.GZIP else rmq.IDENTITY)
      (wire_type (MQMessage.messageType message))
      (Some (rmq.mkTimestamp seconds (i32 (duration - seconds * 1000000000))))
      (hostname e) None "" rmq.TIMED_DELIVERY_NOT_SET ""
      (MQMessageQueue.queue_id_ message_queue) 0 None 0
      (rmq.mkResource (resource_namespace_ s) (group_name_ s)) "" "" in
  rmq.mkSendMessageRequest
    (rmq.mkMessage (rmq.mkResource (resource_namespace_ s) (MQMessage.getTopic message))
       (MQMessage.getProperties message) attribute
       (if compressed then snd (UtilAll.compress (deflate e) (MQMessage.getBody message) "")
        else MQMessage.getBody message))
    rmq.Partition_default.

(** *** Sending *)

(** What a send does: a call to a broker, and the end of the caller's callback. *)
Inductive event :=
  | CallSend (target : string) (request : rmq.SendMessageRequest)
  | Complete (outcome : error_code + SendResult.t).

(** [sendImpl]: a failure without a call, or a call and the callback object as updated. *)
Definition sendImpl (e : Env) (s : t) (cb : RetrySendCallback.t)
    : option (error_code + (string * rmq.SendMessageRequest * RetrySendCallback.t)) :=
  let mq := default MQMessageQueue.empty (messageQueue cb) in
  let target := MQMessageQueue.service_address_ mq in
  if str_empty target then Some (inl BadGateway)
  else if negb (credentialsProvider s) then None
  else
    let k := attempt_times_ cb in
    let header := trace_header e k in
    Some (inr (target, wrapSendMessageRequest e k (message_ cb) mq s,
               RetrySendCallback.mk (MQMessage.set_traceContext header (message_ cb)) k (max_attempt_times_ cb)
                 (candidates_ cb) header)).

(** The attempts of one send, each started by [sendImpl] and ended by its completion;
    [fuel] bounds their number. *)
Fixpoint attempts (e : Env) (s : t) (fuel : nat) (cb : RetrySendCallback.t) : option (list event) :=
  match fuel with
  | O => None
  | S fuel' =>
      let fail ec cb :=
        match onFailure (alive e (attempt_times_ cb)) ec cb with
        | inl ec => Some [Complete (inl ec)]
        | inr cb => attempts e s fuel' cb
        end in
      started ← sendImpl e s cb;
      match started with
      | inl ec => fail ec cb
      | inr (target, request, cb) =>
          rest ← match answer e (attempt_times_ cb) with
                 | inl ec => fail ec cb
                 | inr r => Some [Complete (inr (onSuccess r cb))]
                 end;
          Some (CallSend target request :: rest)
      end
  end.

(** A failed attempt raises [attempt_times_], so [max_attempt_times] of them are enough. *)
Definition send0 (e : Env) (s : t) (message : MQMessage.t) (queues : list MQMessageQueue.t) (max_attempt_times : Z)
    : option (list event) :=
  if negb (validate message) then Some [Complete (inl BadRequest)]
  else if bool_decide (queues = []) then Some [Complete (inl NotFound)]
  else if max_attempt_times <=? 0 then Some [Complete (inl BadConfiguration)]
  else attempts e s (Z.to_nat max_attempt_times) (RetrySendCallback.make message max_attempt_times queues).

(** *** Publish information *)

(** [route] is what [getRouteFor] gives its callback. *)
Definition asyncPublishInfo (route : error_code * option TopicRouteData.t) (topic : string) (s : t)
    : t * (error_code * option TopicPublishInfo.t) :=
  match topic_publish_info_table_ s !! topic with
  | Some info => (s, (Success, Some info))
  | None =>
      let '(ec, r) := route in
      if ec_bool ec then (s, (ec, None))
      else match r with
           | Some r =>
               let info := TopicPublishInfo.make topic r in
               (set_table (<[topic := info]> (topic_publish_info_table_ s)) s, (ec, Some info))
           | None => (s, (ec, None))
           end
  end.

Definition getPublishInfo (route : error_code * option TopicRouteData.t) (topic : string) (s : t)
    : t * option TopicPublishInfo.t :=
  let '(s, (_, info)) := asyncPublishInfo route topic s in (s, info).

Definition listMessageQueue (route : error_code * option TopicRouteData.t) (topic : string) (s : t)
    : t * (error_code * list MQMessageQueue.t) :=
  let '(s, (ec, info)) := asyncPublishInfo route topic s in
  if ec_bool ec then (s, (ec, []))
  else (s, (ec, match info with Some i => TopicPublishInfo.getMessageQueueList i | None => [] end)).

Definition isolatedEndpoints (s : t) : gset string := ClientImpl.isolated_endpoints_ (client s).

Definition takeMessageQueuesRoundRobin (swq : Z) (info : TopicPublishInfo.t) (number : Z) (s : t)
    : Z * list MQMessageQueue.t :=
  let '(swq, (_, l)) := TopicPublishInfo.takeMessageQueues swq (isolatedEndpoints s) number [] info in (swq, l).

Definition withServiceAddress (route : error_code * option TopicRouteData.t) (mq : MQMessageQueue.t) (s : t)
    : t * (error_code + MQMessageQueue.t) :=
  if negb (str_empty (MQMessageQueue.service_address_ mq)) then (s, inr mq)
  else if str_empty (MQMessageQueue.topic_ mq) || str_empty (MQMessageQueue.broker_name_ mq)
          || (MQMessageQueue.queue_id_ mq <? 0)
  then (s, inl BadRequest)
  else
    let '(s, (ec, l)) := listMessageQueue route (MQMessageQueue.topic_ mq) s in
    if ec_bool ec then (s, inl ec)
    else match List.find (fun item => MQMessageQueue.operator_eq item mq) l with
         | Some item => (s, inr item)
         | None => match l with [] => (s, inl NotFound) | item :: _ => (s, inr item) end
         end.

(** The queues of a message bound to a group or to a queue; [None] is a remainder by
    zero. *)
Definition bound_queues (e : Env) (message : MQMessage.t) (l : list MQMessageQueue.t) : option (list MQMessageQueue.t) :=
  if negb (str_empty (MQMessage.message_group_ message)) then
    if bool_decide (l = []) then None
    else
      let hash_code := Z.land (hash e (MQMessage.message_group_ message)) (2 ^ 64 - 1) in
      Some (match at_ l (hash_code mod zlen l) with Some q => [q] | None => [] end)
  else
    Some (match List.find (fun entry => MQMessageQueue.operator_eq entry (MQMessage.message_queue_ message)) l with
          | Some entry => [entry]
          | None => []
          end).

Definition is_bound (message : MQMessage.t) : bool :=
  negb (str_empty (MQMessage.message_group_ message)) || MQMessageQueue.operator_bool (MQMessage.message_queue_ message).

(** The result of a synchronous send: the error code, the result returned, the calls. *)
Record sync_result := mkSync { sync_ec : error_code; sync_value : SendResult.t; sync_calls : list event }.

Definition failed (ec : error_code) : sync_result := mkSync ec SendResult.empty [].

(** The end of [send]: wait for the callback and read it. *)
Definition await (events : list event) : option AwaitSendCallback.t :=
  match last events with
  | Some (Complete (inl ec)) => Some (AwaitSendCallback.onFailure ec AwaitSendCallback.make)
  | Some (Complete (inr r)) => Some (AwaitSendCallback.onSuccess r AwaitSendCallback.make)
  | _ => None
  end.

(** The end of [send(message, ec)], once the queues are chosen. *)
Definition send_to (e : Env) (swq : Z) (message : MQMessage.t) (queues : list MQMessageQueue.t) (s : t)
    : option (t * Z * sync_result) :=
  if bool_decide (queues = []) then Some (s, swq, failed ServiceUnavailable)
  else
    events ← send0 e s message queues (max_attempt_times s);
    cb ← await events;
    Some (s, swq,
          if AwaitSendCallback.operator_bool cb
          then mkSync Success (SendResult.copy (AwaitSendCallback.send_result_ cb)) events
          else mkSync (AwaitSendCallback.ec_ cb) SendResult.empty events).

(** [send(message, ec)] with [ec] clear; [None] if it does not return. *)
Definition send (e : Env) (route : error_code * option TopicRouteData.t) (swq : Z) (message : MQMessage.t) (s : t)
    : option (t * Z * sync_result) :=
  let ec := ensureRunning Success s in
  if ec_bool ec then Some (s, swq, failed ec)
  else
    let topic := MQMessage.getTopic message in
    let '(s, info) := getPublishInfo route topic s in
    match info with
    | None => Some (s, swq, failed NotFound)
    | Some info =>
        if is_bound message then
          let '(s, (ec, l)) := listMessageQueue route topic s in
          if ec_bool ec then Some (s, swq, failed ec)
          else if bool_decide (l = []) then Some (s, swq, failed ServiceUnavailable)
          else queues ← bound_queues e message l; send_to e swq message queues s
        else
          let '(swq, queues) := takeMessageQueuesRoundRobin swq info (max_attempt_times s) s in
          send_to e swq message queues s
    end.

(** The callback of the asynchronous [send], which captures a copy of the message. *)
Definition on_publish_info (e : Env) (swq : Z) (message : MQMessage.t) (ec : error_code)
    (info : option TopicPublishInfo.t) (s : t) : option (Z * list event) :=
  let message := MQMessage.copy message in
  if ec_bool ec then Some (swq, [Complete (inl ec)])
  else
    info ← info;
    '(swq, queues) ← (if is_bound message
                      then l ← bound_queues e message (TopicPublishInfo.getMessageQueueList info); Some (swq, l)
                      else Some (takeMessageQueuesRoundRobin swq info (max_attempt_times s) s));
    match queues with
    | [] => Some (swq, [Complete (inl ServiceUnavailable)])
    | _ => events ← send0 e s message queues (max_attempt_times s); Some (swq, events)
    end.

(** [send(message, cb)]: when the producer is not running the callback fails, and the send
    goes on. *)
Definition send_async (e : Env) (route : error_code * option TopicRouteData.t) (swq : Z) (message : MQMessage.t) (s : t)
    : option (t * Z * list event) :=
  let ec := ensureRunning Success s in
  let early := if ec_bool ec then [Complete (inl ec)] else [] in
  let '(s, (ec, info)) := asyncPublishInfo route (MQMessage.getTopic message) s in
  '(swq, events) ← on_publish_info e swq message ec info s;
  Some (s, swq, early ++ events).

Definition sendOneway (e : Env) (route : error_code * option TopicRouteData.t) (swq : Z) (message : MQMessage.t) (s : t)
    : option (t * Z * error_code) :=
  '(s, swq, r) ← send e route swq message s; Some (s, swq, sync_ec r).

Definition prepareHeartbeatData (client_id : string) (s : t) : rmq.HeartbeatRequest :=
  rmq.mkHeartbeatRequest client_id (rmq.producer_data (rmq.mkResource (resource_namespace_ s) (group_name_ s))) false.

(** *** Transactions *)

Definition wire_resolution (x : TransactionState) : rmq.TransactionResolution :=
  match x with COMMIT => rmq.COMMIT | ROLLBACK => rmq.ROLLBACK end.

(** The call made; group, source and trace context are not set. *)
Record end_call := mkEndCall { end_target : string; end_request : rmq.EndTransactionRequest; end_timeout : Z }.

(** The call and, from the code its callback gets, the flag returned. *)
Definition endTransaction0 (target message_id transaction_id : string) (resolution : TransactionState)
    (ec : error_code) (s : t) : option (end_call * bool) :=
  if negb (credentialsProvider s) then None
  else
    Some (mkEndCall target
            (rmq.mkEndTransactionRequest rmq.Resource_default message_id transaction_id (wire_resolution resolution)
               rmq.CLIENT "")
            (ClientConfigImpl.io_timeout_ (ClientImpl.config (client s))),
          negb (ec_bool ec)).

Definition commit (message_id transaction_id target : string) (ec : error_code) (s : t) : option (end_call * bool) :=
  endTransaction0 target message_id transaction_id COMMIT ec s.
Definition rollback (message_id transaction_id target : string) (ec : error_code) (s : t) : option (end_call * bool) :=
  endTransaction0 target message_id transaction_id ROLLBACK ec s.

(** [checkLocalTransactionState] is the application's; nothing is done without a checker. *)
Definition resolveOrphanedTransactionalMessage (transaction_id : string) (message : MQMessage.t) (ec : error_code) (s : t)
    : option (option end_call * bool) :=
  match transaction_state_checker_ s with
  | Some checker =>
      '(c, ok) ← endTransaction0 (MessageAccessor.targetEndpoint message) (MQMessage.getMsgId message) transaction_id
                   (checker message) ec s;
      Some (Some c, ok)
  | None => Some (None, false)
  end.

End ProducerImpl.

(** [TransactionImpl]: [producer] is the producer it points to, if it still exists. *)
Module TransactionImpl.
Record t := mk { message_id_ : string; transaction_id_ : string; endpoint_ : string; trace_context_ : string }.

Definition commit (producer : option ProducerImpl.t) (ec : error_code) (x : t)
    : option (option ProducerImpl.end_call * bool) :=
  match producer with
  | None => Some (None, false)
  | Some p => '(c, ok) ← ProducerImpl.commit (message_id_ x) (transaction_id_ x) (endpoint_ x) ec p; Some (Some c, ok)
  end.
Definition rollback (producer : option ProducerImpl.t) (ec : error_code) (x : t)
    : option (option ProducerImpl.end_call * bool) :=
  match producer with
  | None => Some (None, false)
  | Some p => '(c, ok) ← ProducerImpl.rollback (message_id_ x) (transaction_id_ x) (endpoint_ x) ec p; Some (Some c, ok)
  end.
Definition messageId (x : t) : string := message_id_ x.
Definition transactionId (x : t) : string := transaction_id_ x.
End TransactionImpl.

(** [ProducerImpl::prepare]. *)
Definition prepare (e : Env) (route : error_code * option TopicRouteData.t) (swq : Z) (message : MQMessage.t)
    (s : ProducerImpl.t) : option (ProducerImpl.t * Z * (error_code * option TransactionImpl.t)) :=
  let message := MQMessage.set_messageType TRANSACTION message in
  '(s, swq, r) ← ProducerImpl.send e route swq message s;
  if ec_bool (ProducerImpl.sync_ec r) then Some (s, swq, (ProducerImpl.sync_ec r, None))
  else
    let v := ProducerImpl.sync_value r in
    Some (s, swq, (Success,
      Some (TransactionImpl.mk (SendResult.message_id_ v) (SendResult.transaction_id_ v)
              (MQMessageQueue.service_address_ (SendResult.message_queue_ v)) (SendResult.trace_context_ v)))).

(** ** Properties *)
Section sending.
Import ProducerImpl RetrySendCallback.
Context (e : Env) (s : ProducerImpl.t).
(** The application set a credentials provider; see [send_without_provider]. *)
Hypothesis provided : credentialsProvider s = true.

(** The queue of attempt [k], what the attempt calls and how it ends. *)
Definition attempt_queue (candidates : list MQMessageQueue.t) (k : Z) : MQMessageQueue.t :=
  default MQMessageQueue.empty (at_ candidates (k mod zlen candidates)).

Definition attempt_call (message : MQMessage.t) (candidates : list MQMessageQueue.t) (k : Z) : list event :=
  let mq := attempt_queue candidates k in
  if str_empty (MQMessageQueue.service_address_ mq) then []
  else [CallSend (MQMessageQueue.service_address_ mq) (wrapSendMessageRequest e k message mq s)].

Definition attempt_outcome (candidates : list MQMessageQueue.t) (k : Z) : error_code + SendResult.t :=
  let mq := attempt_queue candidates k in
  if str_empty (MQMessageQueue.service_address_ mq) then inl BadGateway
  else match answer e k with
       | inl ec => inl ec
       | inr r => inr (SendResult.set_traceContext (trace_header e k) (SendResult.setMessageQueue mq r))
       end.

Definition is_failure {A B} (x : A + B) : Prop := match x with inl _ => True | inr _ => False end.

Lemma wrap_ext k m m' mq :
  MQMessage.getTopic m = MQMessage.getTopic m' -> MQMessage.getBody m = MQMessage.getBody m' ->
  MQMessage.getProperties m = MQMessage.getProperties m' -> MQMessage.messageType m = MQMessage.messageType m' ->
  wrapSendMessageRequest e k m mq s = wrapSendMessageRequest e k m' mq s.
Proof.
  intros H1 H2 H3 H4. unfold wrapSendMessageRequest, MQMessage.bodyLength, MQMessage.body_size.
  by rewrite H1, H2, H3, H4.
Qed.

(** The message of the callback object is the one that was given to it, as far as the
    request goes. *)
Definition same_payload (m m' : MQMessage.t) : Prop :=
  MQMessage.getTopic m = MQMessage.getTopic m' /\ MQMessage.getBody m = MQMessage.getBody m'
  /\ MQMessage.getProperties m = MQMessage.getProperties m' /\ MQMessage.messageType m = MQMessage.messageType m'.

Lemma set_traceContext_payload h m m' : same_payload m m' -> same_payload (MQMessage.set_traceContext h m) m'.
Proof. by destruct m as [[? ? [] ?] ? ?]. Qed.

Section attempts.
Context (message : MQMessage.t) (candidates : list MQMessageQueue.t) (max : Z).

(** The trace of the attempts [k .. n-1]: each but the last failed, and the last one ends
    the send, because it succeeded or because no further attempt is possible. *)
Definition ends (k n : Z) (trace : list event) : Prop :=
  k < n <= max
  /\ trace = concat (map (attempt_call message candidates) (seqZ k (n - k)))
             ++ [Complete (attempt_outcome candidates (n - 1))]
  /\ (forall j, k <= j < n - 1 -> is_failure (attempt_outcome candidates j))
  /\ (is_failure (attempt_outcome candidates (n - 1)) -> n = max \/ alive e (n - 1) = false).

Lemma seqZ_first k n : k < n -> seqZ k (n - k) = k :: seqZ (k + 1) (n - (k + 1)).
Proof. intros Hn. replace (n - k) with (Z.succ (n - (k + 1))) by lia. rewrite seqZ_cons by lia. f_equal; f_equal; lia. Qed.

Lemma ends_last k :
  k < max -> (is_failure (attempt_outcome candidates k) -> k + 1 = max \/ alive e k = false) ->
  ends k (k + 1) (attempt_call message candidates k ++ [Complete (attempt_outcome candidates k)]).
Proof.
  intros Hk Hend. unfold ends. replace (k + 1 - 1) with k by lia. rewrite seqZ_first by lia.
  replace (k + 1 - (k + 1)) with 0 by lia. cbn. rewrite app_nil_r. split_and!; try done; lia.
Qed.

Lemma ends_retry k n trace :
  is_failure (attempt_outcome candidates k) -> ends (k + 1) n trace -> ends k n (attempt_call message candidates k ++ trace).
Proof.
  intros Hf (Hn & -> & H1 & H2). unfold ends. rewrite (seqZ_first k) by lia. cbn [map concat].
  split_and!; [lia|lia|by rewrite app_assoc| |done].
  intros j Hj. destruct (decide (j = k)) as [->|]; [done|apply H1; lia].
Qed.

Hypothesis Hne : candidates <> [].
Hypothesis Hmax : max < 2 ^ 31.

(** A callback object at attempt [k] of this send. *)
Definition at_attempt (k : Z) (cb : RetrySendCallback.t) : Prop :=
  attempt_times_ cb = k /\ 0 <= k < max /\ candidates_ cb = candidates /\ max_attempt_times_ cb = max
  /\ same_payload (message_ cb) message.

Lemma onFailure_spec k ec cb fuel :
  at_attempt k cb -> attempt_outcome candidates k = inl ec ->
  (forall cb', at_attempt (k + 1) cb' -> exists n trace, attempts e s fuel cb' = Some trace /\ ends (k + 1) n trace) ->
  exists n rest, match onFailure (alive e k) ec cb with
                 | inl ec => Some [Complete (inl ec)]
                 | inr cb => attempts e s fuel cb
                 end = Some rest /\ ends k n (attempt_call message candidates k ++ rest).
Proof.
  intros (Ek & Hk & Ec & Em & Hp) Hout IH. unfold onFailure.
  cbn [set_attempt attempt_times_ max_attempt_times_ candidates_]. rewrite Ek, Ec, Em, i32_small by lia.
  destruct (Z.leb_spec max (k + 1)); [|destruct (alive e k) eqn:Ha; cbn [negb]].
  - exists (k + 1). eexists. split; [done|]. rewrite <- Hout. apply ends_last; lia.
  - rewrite bool_decide_eq_false_2 by done.
    destruct (IH (set_attempt (k + 1) cb)) as (n & trace & E & H'); [unfold at_attempt; cbn; split_and!; try done; lia|].
    exists n, trace. split; [done|]. apply ends_retry; [by rewrite Hout|done].
  - exists (k + 1). eexists. split; [done|]. rewrite <- Hout. apply ends_last; [lia|by right].
Qed.

Lemma attempts_spec fuel k cb :
  at_attempt k cb -> (Z.to_nat (max - k) <= fuel)%nat ->
  exists n trace, attempts e s fuel cb = Some trace /\ ends k n trace.
Proof.
  revert k cb. induction fuel as [|fuel IH]; intros k cb Hcb Hf; pose proof Hcb as (Ek & Hk & Ec & Em & Hp); [lia|].
  assert (Hmq : default MQMessageQueue.empty (messageQueue cb) = attempt_queue candidates k).
  { unfold messageQueue. by rewrite Ec, Ek, bool_decide_eq_false_2 by done. }
  assert (IH' : forall cb', at_attempt (k + 1) cb' -> exists n trace, attempts e s fuel cb' = Some trace /\ ends (k + 1) n trace).
  { intros cb' H'. apply IH; [done|lia]. }
  pose proof (onFailure_spec k) as Hfail. cbn [attempts]. unfold sendImpl. rewrite Hmq, Ek, provided.
  unfold attempt_call, attempt_outcome in Hfail.
  destruct (str_empty (MQMessageQueue.service_address_ (attempt_queue candidates k))) eqn:Ea.
  { by apply Hfail. }
  cbn [mbind option_bind negb attempt_times_].
  rewrite (wrap_ext k (message_ cb) message) by apply Hp.
  set (cb' := RetrySendCallback.mk _ _ _ _ _).
  assert (Hcb' : at_attempt k cb') by (unfold at_attempt; split_and!; try done; [lia..|by apply set_traceContext_payload]).
  destruct (answer e k) as [ec|r] eqn:Eans.
  - destruct (Hfail ec cb' fuel Hcb' eq_refl IH') as (n & rest & -> & H). by exists n; eexists.
  - exists (k + 1). eexists. split; [reflexivity|].
    replace (onSuccess r cb') with (SendResult.set_traceContext (trace_header e k)
      (SendResult.setMessageQueue (attempt_queue candidates k) r)).
    2: { unfold onSuccess. f_equal. f_equal. rewrite <- Hmq. unfold messageQueue, cb'. cbn. by rewrite Ek. }
    pose proof (ends_last k) as H. unfold attempt_call, attempt_outcome in H. rewrite Ea, Eans in H. apply H; [lia|done].
Qed.

End attempts.

(** C1: with a credentials provider, a send makes at most [max_attempt_times] attempts, attempt [k] against the candidate
    [k] modulo their number, and ends the caller's callback exactly once, after the last
    one: with the result of the first attempt that succeeds, or with the error of the last
    one when all of them failed or the producer is gone.  It always ends. *)
Theorem send_retries message queues max :
  validate message = true -> queues <> [] -> 1 <= max < 2 ^ 31 ->
  exists n, 1 <= n <= max
    /\ send0 e s message queues max
       = Some (concat (map (attempt_call message queues) (seqZ 0 n)) ++ [Complete (attempt_outcome queues (n - 1))])
    /\ (forall k, 0 <= k < n - 1 -> is_failure (attempt_outcome queues k))
    /\ (is_failure (attempt_outcome queues (n - 1)) -> n = max \/ alive e (n - 1) = false).
Proof.
  intros Hv Hq Hm. unfold send0. rewrite Hv, bool_decide_eq_false_2 by done. cbn [negb].
  destruct (Z.leb_spec max 0); [lia|].
  destruct (attempts_spec message queues max Hq ltac:(lia) (Z.to_nat max) 0 (RetrySendCallback.make message max queues))
    as (n & trace & -> & H1 & -> & H2 & H3).
  { unfold at_attempt. split_and!; try done; lia. } { lia. }
  exists n. rewrite Z.sub_0_r. split_and!; try done; lia.
Qed.

(** The same for [send0] in one piece, for the callers below. *)
Lemma send0_cases message queues max :
  queues <> [] -> max < 2 ^ 31 ->
  exists trace, send0 e s message queues max = Some trace
    /\ ((exists n, ends message queues max 0 n trace) \/ exists ec, ec <> Success /\ trace = [Complete (inl ec)]).
Proof.
  intros Hq Hm. unfold send0. destruct (validate message); cbn [negb]; [|eexists; split; [done|right; by exists BadRequest]].
  rewrite bool_decide_eq_false_2 by done.
  destruct (Z.leb_spec max 0); [eexists; split; [done|right; by exists BadConfiguration]|].
  destruct (attempts_spec message queues max Hq ltac:(lia) (Z.to_nat max) 0 (RetrySendCallback.make message max queues))
    as (n & trace & -> & H'); [|lia|].
  - unfold at_attempt. split_and!; try done; lia.
  - exists trace. split; [done|]. left. by exists n.
Qed.

(** How a synchronous send over chosen queues ends; an asynchronous completion never fails
    with [Success]. *)
Hypothesis answers : forall k, answer e k <> inl Success.

Lemma outcome_not_success queues k : attempt_outcome queues k <> inl Success.
Proof.
  unfold attempt_outcome. destruct (str_empty _); [done|]. pose proof (answers k). by destruct (answer e k).
Qed.

Lemma send_to_cases swq message queues :
  max_attempt_times s < 2 ^ 31 ->
  exists r, send_to e swq message queues s = Some (s, swq, r)
    /\ ((sync_ec r <> Success /\ sync_value r = SendResult.empty /\ forall t q, CallSend t q ∉ sync_calls r)
        \/ exists n, ends message queues (max_attempt_times s) 0 n (sync_calls r) /\ queues <> []
            /\ match attempt_outcome queues (n - 1) with
               | inl ec => sync_ec r = ec /\ ec <> Success /\ sync_value r = SendResult.empty
               | inr v => sync_ec r = Success /\ sync_value r = SendResult.copy v
               end).
Proof.
  intros Hm. unfold send_to. case_bool_decide as Hq.
  { eexists. split; [done|]. left. cbn. split_and!; try done. intros t q Hin. by apply not_elem_of_nil in Hin. }
  destruct (send0_cases message queues _ Hq Hm) as (trace & -> & [(n & Hn)|(ec & Hec & ->)]); cbn [mbind option_bind].
  - pose proof Hn as (_ & Et & _ & _). unfold await.
    assert (El : last trace = Some (Complete (attempt_outcome queues (n - 1)))) by (rewrite Et; apply last_snoc).
    rewrite El.
    pose proof (outcome_not_success queues (n - 1)) as Hns.
    destruct (attempt_outcome queues (n - 1)) as [ec|v] eqn:Eo; cbn [mbind option_bind];
      (eexists; split; [reflexivity|right; exists n]).
    + assert (Hec : ec <> Success) by (intros ->; done).
      unfold AwaitSendCallback.operator_bool. cbn [AwaitSendCallback.ec_ AwaitSendCallback.onFailure].
      rewrite (proj2 (ec_bool_spec ec) Hec). rewrite Eo. done.
    + rewrite Eo. done.
  - cbn. unfold AwaitSendCallback.operator_bool. cbn [AwaitSendCallback.ec_ AwaitSendCallback.onFailure].
    rewrite (proj2 (ec_bool_spec ec) Hec). eexists. split; [done|]. left. cbn. split_and!; try done.
    intros t q Hin. by apply list_elem_of_singleton in Hin.
Qed.

End sending.

(** ** Synchronous sends *)
Section sync.
Import ProducerImpl.
Context (e : Env) (route : error_code * option TopicRouteData.t).
(** A completion that fails carries an error; see [send_completion]. *)
Hypothesis answers : forall k, answer e k <> inl Success.

Lemma asyncPublishInfo_spec topic s s' ec info :
  asyncPublishInfo route topic s = (s', (ec, info)) ->
  client s' = client s /\ max_attempt_times s' = max_attempt_times s
  /\ compress_body_threshold_ s' = compress_body_threshold_ s
  /\ (forall i, info = Some i -> ec = Success /\ topic_publish_info_table_ s' !! topic = Some i).
Proof.
  unfold asyncPublishInfo. destruct (topic_publish_info_table_ s !! topic) as [i|] eqn:E.
  - intros [= <- <- <-]. split_and!; try done. by intros i' [= ->].
  - destruct route as [ec0 r0]. destruct (ec_bool ec0) eqn:Eb; [intros [= <- <- <-]; by split_and!|].
    apply ec_bool_false in Eb as ->. destruct r0 as [r0|]; intros [= <- <- <-]; split_and!; try done.
    intros i [= <-]. split; [done|]. cbn. by rewrite lookup_insert_eq.
Qed.

Lemma asyncPublishInfo_cached topic s info :
  topic_publish_info_table_ s !! topic = Some info -> asyncPublishInfo route topic s = (s, (Success, Some info)).
Proof. intros E. unfold asyncPublishInfo. by rewrite E. Qed.

(** The two ways a synchronous send can end: without any call, or after attempts over the
    queues chosen for the message. *)
Definition refused (r : sync_result) : Prop :=
  sync_ec r <> Success /\ sync_value r = SendResult.empty /\ forall t q, CallSend t q ∉ sync_calls r.

Definition attempted (swq : Z) (m : MQMessage.t) (s s' : ProducerImpl.t) (r : sync_result) : Prop :=
  exists info queues n,
    topic_publish_info_table_ s' !! MQMessage.getTopic m = Some info
    /\ (is_bound m = true -> bound_queues e m (TopicPublishInfo.getMessageQueueList info) = Some queues)
    /\ (is_bound m = false -> queues = snd (takeMessageQueuesRoundRobin swq info (max_attempt_times s) s'))
    /\ queues <> []
    /\ ends e s' m queues (max_attempt_times s) 0 n (sync_calls r)
    /\ match attempt_outcome e queues (n - 1) with
       | inl ec => sync_ec r = ec /\ ec <> Success /\ sync_value r = SendResult.empty
       | inr v => sync_ec r = Success /\ sync_value r = SendResult.copy v
       end.

Lemma failed_refused ec : ec <> Success -> refused (failed ec).
Proof. intros H. split_and!; try done. intros t q Hin. by apply not_elem_of_nil in Hin. Qed.

Lemma send_cases swq m s :
  credentialsProvider s = true -> max_attempt_times s < 2 ^ 31 ->
  exists s' swq' r, send e route swq m s = Some (s', swq', r) /\ client s' = client s
    /\ (refused r \/ (isRunning s = true /\ attempted swq m s s' r)).
Proof.
  intros Hpr Hm. unfold send, ensureRunning.
  destruct (isRunning s) eqn:Hrun; [|eexists _, _, _; split_and!; [done|done|left; by apply failed_refused]].
  change (ec_bool Success) with false. cbn iota. unfold getPublishInfo.
  destruct (asyncPublishInfo route (MQMessage.getTopic m) s) as [s1 [ec info]] eqn:E1.
  destruct (asyncPublishInfo_spec _ _ _ _ _ E1) as (Hc & Ha & _ & Hi).
  destruct info as [info|]; [|eexists _, _, _; split_and!; [done|done|left; by apply failed_refused]].
  destruct (Hi info eq_refl) as [-> Ht].
  assert (Hgo : forall w queues,
    (is_bound m = true -> bound_queues e m (TopicPublishInfo.getMessageQueueList info) = Some queues) ->
    (is_bound m = false -> queues = snd (takeMessageQueuesRoundRobin swq info (max_attempt_times s) s1)) ->
    exists s' swq' r, send_to e w m queues s1 = Some (s', swq', r) /\ client s' = client s
      /\ (refused r \/ (true = true /\ attempted swq m s s' r))).
  { intros w queues Hb Hr. destruct (send_to_cases e s1 ltac:(unfold credentialsProvider; by rewrite Hc) answers w m queues) as (r & E & H); [by rewrite Ha|].
    exists s1, w, r. split_and!; [done|done|]. destruct H as [H|(n & H1 & H2 & H3)]; [by left|right; split; [done|]].
    exists info, queues, n. rewrite Ha in H1. by split_and!. }
  destruct (is_bound m) eqn:Eb.
  - unfold listMessageQueue. rewrite (asyncPublishInfo_cached _ _ _ Ht).
    change (ec_bool Success) with false. cbn iota. change (ec_bool Success) with false. cbn iota.
    case_bool_decide as El; [eexists _, _, _; split_and!; [done|done|left; by apply failed_refused]|].
    assert (Hq : exists queues, bound_queues e m (TopicPublishInfo.getMessageQueueList info) = Some queues).
    { unfold bound_queues. rewrite bool_decide_eq_false_2 by done. destruct (negb _); by eexists. }
    destruct Hq as [queues Hq]. rewrite Hq. cbn [mbind option_bind]. by apply Hgo.
  - rewrite Ha. destruct (takeMessageQueuesRoundRobin swq info (max_attempt_times s) s1) as [w queues] eqn:Et.
    apply (f_equal snd) in Et. apply Hgo; [done|]. done.
Qed.

(** A send leaves the client and the settings alone. *)
Lemma send_keeps swq m s s' swq' r :
  send e route swq m s = Some (s', swq', r) ->
  client s' = client s /\ max_attempt_times s' = max_attempt_times s /\ compress_body_threshold_ s' = compress_body_threshold_ s.
Proof.
  assert (Hto : forall w queues s1, send_to e w m queues s1 = Some (s', swq', r) -> s' = s1).
  { intros w queues s1. unfold send_to. case_bool_decide; [by intros [= <- _ _]|].
    destruct (send0 _ _ _ _ _); cbn; [|done]. destruct (await _); cbn; [|done]. by intros [= <- _ _]. }
  unfold send, getPublishInfo, listMessageQueue. destruct (ec_bool (ensureRunning _ _)); [by intros [= <- _ _]|].
  destruct (asyncPublishInfo route _ s) as [s1 [ec [info|]]] eqn:E1;
    destruct (asyncPublishInfo_spec _ _ _ _ _ E1) as (<- & <- & <- & Hi); [|by intros [= <- _ _]].
  destruct (Hi info eq_refl) as [-> Ht]. destruct (is_bound m).
  - rewrite (asyncPublishInfo_cached _ _ _ Ht). change (ec_bool Success) with false. cbn iota.
    change (ec_bool Success) with false. cbn iota. case_bool_decide; [by intros [= <- _ _]|].
    destruct (bound_queues _ _ _); cbn; [|done]. by intros ->%Hto.
  - destruct (takeMessageQueuesRoundRobin _ _ _ _). by intros ->%Hto.
Qed.

(** The calls among the events of a send. *)
Definition calls_of (l : list event) : list (string * rmq.SendMessageRequest) :=
  omap (fun x => match x with CallSend target request => Some (target, request) | Complete _ => None end) l.

Lemma elem_of_calls_of l target request : (target, request) ∈ calls_of l <-> CallSend target request ∈ l.
Proof.
  unfold calls_of. rewrite list_elem_of_omap. split.
  - intros ([] & Hin & E); [by injection E as <- <-|done].
  - intros Hin. by eexists.
Qed.

Lemma ends_number m queues max k n trace s :
  ends e s m queues max k n trace -> Z.of_nat (length (calls_of trace)) <= n - k.
Proof.
  intros (Hn & -> & _ & _). unfold calls_of. rewrite omap_app, length_app. cbn [omap list_omap length].
  rewrite <- (Z2Nat.id (n - k)) at 2 by lia. rewrite <- (length_seqZ k (n - k)).
  induction (seqZ k (n - k)) as [|i l IH]; cbn [map concat length]; [done|].
  rewrite omap_app, length_app. unfold attempt_call at 1. destruct (str_empty _); cbn; lia.
Qed.

(** An attempted call goes to one of the queues, with the payload of the message. *)
Lemma ends_calls m queues max k n trace s target request :
  ends e s m queues max k n trace -> CallSend target request ∈ trace ->
  exists i, k <= i < n /\ target = MQMessageQueue.service_address_ (attempt_queue queues i)
    /\ request = wrapSendMessageRequest e i m (attempt_queue queues i) s /\ target <> ""%string.
Proof.
  intros (_ & -> & _ & _) Hin. apply elem_of_app in Hin as [Hin|Hin]; [|by apply list_elem_of_singleton in Hin].
  apply list_elem_of_In, in_concat in Hin as (l & Hl & Hin). apply in_map_iff in Hl as (i & <- & Hi).
  apply list_elem_of_In, elem_of_seqZ in Hi. exists i. split; [lia|].
  unfold attempt_call in Hin. destruct (str_empty _) eqn:E; [done|]. destruct Hin as [[= <- <-]|[]].
  split_and!; try done. intros E'. by rewrite E' in E.
Qed.

(** C27: ordering by message group: whatever else differs between them, all messages of one
    group and topic that are sent synchronously are sent, at every attempt, to the one
    queue of the topic that the hash of the group selects. *)
Theorem group_sticks swq m s s' swq' r target request :
  credentialsProvider s = true -> max_attempt_times s < 2 ^ 31 -> MQMessage.message_group_ m <> ""%string ->
  send e route swq m s = Some (s', swq', r) -> CallSend target request ∈ sync_calls r ->
  exists info q,
    topic_publish_info_table_ s' !! MQMessage.getTopic m = Some info
    /\ at_ (TopicPublishInfo.getMessageQueueList info)
         (Z.land (hash e (MQMessage.message_group_ m)) (2 ^ 64 - 1) mod zlen (TopicPublishInfo.getMessageQueueList info))
       = Some q
    /\ target = MQMessageQueue.service_address_ q
    /\ rmq.partition_id (rmq.system_attribute (rmq.send_message request)) = MQMessageQueue.queue_id_ q.
Proof.
  intros Hpr Hm Hg E Hin. destruct (send_cases swq m s Hpr Hm) as (s1 & w1 & r1 & E1 & _ & H).
  rewrite E in E1. injection E1 as <- <- <-. destruct H as [(_ & _ & H)|(_ & info & queues & n & Ht & Hb & _ & Hne & He & _)].
  { by apply H in Hin. }
  assert (Hgr : str_empty (MQMessage.message_group_ m) = false).
  { destruct (MQMessage.message_group_ m); done. }
  assert (Hbound : is_bound m = true) by (unfold is_bound; by rewrite Hgr).
  specialize (Hb Hbound). unfold bound_queues in Hb. rewrite Hgr in Hb. cbn [negb] in Hb.
  case_bool_decide; [done|]. destruct (at_ _ _) as [q|] eqn:Eq; injection Hb as <-; [|done].
  exists info, q. split; [done|]. split; [done|].
  destruct (ends_calls _ _ _ _ _ _ _ _ _ He Hin) as (i & _ & -> & -> & _).
  assert (Hq : attempt_queue [q] i = q) by (unfold attempt_queue; cbn; by rewrite Z.mod_1_r).
  by rewrite Hq.
Qed.

(** Attempt [k] over these queues reached a broker, which answered [v]. *)
Definition accepted (queues : list MQMessageQueue.t) (k : Z) (v : SendResult.t) : Prop :=
  MQMessageQueue.service_address_ (attempt_queue queues k) <> ""%string /\ answer e k = inr v.

Lemma accepted_outcome queues k v :
  accepted queues k v ->
  attempt_outcome e queues k
  = inr (SendResult.set_traceContext (trace_header e k) (SendResult.setMessageQueue (attempt_queue queues k) v)).
Proof.
  intros [Ha Hv]. unfold attempt_outcome. destruct (str_empty _) eqn:E; [by apply str_empty_spec in E|]. by rewrite Hv.
Qed.

Lemma outcome_accepted queues k : ~ is_failure (attempt_outcome e queues k) -> exists v, accepted queues k v.
Proof.
  unfold attempt_outcome, accepted. destruct (str_empty _) eqn:E; [intros H; by destruct H|].
  destruct (answer e k) as [ec|v]; [intros H; by destruct H|]. intros _. exists v. split; [|done].
  intros E'. by rewrite E' in E.
Qed.

(** What a synchronous send that made attempts did, and how it ended: the attempts [0 .. n-1]
    over the queues, none accepted but the last, whose outcome is the one reported. *)
Record sent_over (m : MQMessage.t) (s s' : ProducerImpl.t) (r : sync_result) (queues : list MQMessageQueue.t) (n : Z) : Prop := {
  so_queues : queues <> [];
  so_number : 1 <= n <= max_attempt_times s;
  so_calls : calls_of (sync_calls r) = concat (map (fun k => calls_of (attempt_call e s' m queues k)) (seqZ 0 n));
  so_earlier k v : 0 <= k < n - 1 -> ~ accepted queues k v;
  so_success v : accepted queues (n - 1) v ->
    sync_ec r = Success
    /\ SendResult.message_id_ (sync_value r) = SendResult.message_id_ v
    /\ SendResult.transaction_id_ (sync_value r) = SendResult.transaction_id_ v
    /\ SendResult.message_queue_ (sync_value r) = attempt_queue queues (n - 1);
  so_failure : (forall v, ~ accepted queues (n - 1) v) ->
    sync_ec r <> Success /\ (n = max_attempt_times s \/ alive e (n - 1) = false);
}.

Lemma calls_of_concat l : calls_of (concat l) = concat (map calls_of l).
Proof. unfold calls_of. induction l as [|a l IH]; cbn [map concat]; [done|]. by rewrite omap_app, IH. Qed.

Lemma ends_sent_over m s s' r queues n :
  queues <> [] -> ends e s' m queues (max_attempt_times s) 0 n (sync_calls r) ->
  match attempt_outcome e queues (n - 1) with
  | inl ec => sync_ec r = ec /\ ec <> Success /\ sync_value r = SendResult.empty
  | inr v => sync_ec r = Success /\ sync_value r = SendResult.copy v
  end ->
  sent_over m s s' r queues n.
Proof.
  intros Hne (Hn & Et & H1 & H2) Ho. rewrite Z.sub_0_r in Et. split; [done|lia|..].
  - rewrite Et. unfold calls_of at 1. rewrite omap_app. cbn [omap list_omap]. rewrite app_nil_r.
    rewrite <- (map_map (attempt_call e s' m queues) calls_of). exact (calls_of_concat _).
  - intros k v Hk Hv. specialize (H1 k ltac:(lia)). by rewrite (accepted_outcome _ _ _ Hv) in H1.
  - intros v Hv. rewrite (accepted_outcome _ _ _ Hv) in Ho. destruct Ho as [-> ->]. by destruct v.
  - intros Hv. destruct (attempt_outcome e queues (n - 1)) as [ec|v] eqn:Eo.
    + destruct Ho as (-> & Hec & _). split; [done|by apply H2].
    + destruct (outcome_accepted queues (n - 1)) as [v' Hv']; [rewrite Eo; cbn; tauto|]. by apply Hv in Hv'.
Qed.

(** A synchronous send returns: without a call and with an error, or after attempts. *)
Lemma send_outcome swq m s :
  credentialsProvider s = true -> max_attempt_times s < 2 ^ 31 ->
  exists s' swq' r, send e route swq m s = Some (s', swq', r)
    /\ ((sync_ec r <> Success /\ calls_of (sync_calls r) = [])
        \/ (isRunning s = true /\ exists info queues n,
              topic_publish_info_table_ s' !! MQMessage.getTopic m = Some info /\ sent_over m s s' r queues n)).
Proof.
  intros Hpr Hm. destruct (send_cases swq m s Hpr Hm) as (s' & w' & r & E & _ & H). exists s', w', r. split; [done|].
  destruct H as [(H1 & _ & H3)|(Hrun & Hatt)]; [left|right; split; [done|]].
  2: { destruct Hatt as (info & queues & n & Ht & _ & _ & Hne & He & Ho). exists info, queues, n. split; [done|].
       by apply ends_sent_over. }
  split; [done|]. destruct (calls_of (sync_calls r)) as [|[t q] l] eqn:Ec; [done|]. exfalso. apply (H3 t q), elem_of_calls_of.
  rewrite Ec. left.
Qed.

(** C29: a prepared transaction is ended at the broker that accepted the half message.  The
    half message was sent, as a transactional one, in attempts over some queues of which the
    last one, and no earlier one, was accepted; commit and rollback go to the broker of the
    queue of that attempt, under the message and transaction identifiers of its answer. *)
Theorem transaction_ends_where_prepared swq m s s' swq' ec tx :
  credentialsProvider s = true -> max_attempt_times s < 2 ^ 31 -> prepare e route swq m s = Some (s', swq', (ec, Some tx)) ->
  exists queues n v r,
    send e route swq (MQMessage.set_messageType TRANSACTION m) s = Some (s', swq', r)
    /\ sent_over (MQMessage.set_messageType TRANSACTION m) s s' r queues n
    /\ accepted queues (n - 1) v
    /\ (forall target request, (target, request) ∈ calls_of (sync_calls r) ->
          rmq.message_type (rmq.system_attribute (rmq.send_message request)) = rmq.TRANSACTION)
    /\ forall p ec', credentialsProvider p = true -> exists timeout,
         TransactionImpl.commit (Some p) ec' tx
           = Some (Some (mkEndCall (MQMessageQueue.service_address_ (attempt_queue queues (n - 1)))
                      (rmq.mkEndTransactionRequest rmq.Resource_default (SendResult.message_id_ v)
                         (SendResult.transaction_id_ v) rmq.COMMIT rmq.CLIENT "") timeout), negb (ec_bool ec'))
         /\ TransactionImpl.rollback (Some p) ec' tx
           = Some (Some (mkEndCall (MQMessageQueue.service_address_ (attempt_queue queues (n - 1)))
                      (rmq.mkEndTransactionRequest rmq.Resource_default (SendResult.message_id_ v)
                         (SendResult.transaction_id_ v) rmq.ROLLBACK rmq.CLIENT "") timeout), negb (ec_bool ec')).
Proof.
  intros Hpr Hm. unfold prepare. set (m' := MQMessage.set_messageType TRANSACTION m).
  destruct (send_cases swq m' s Hpr Hm) as (s1 & w1 & r & E & _ & H). rewrite E. cbn [mbind option_bind].
  destruct (ec_bool (sync_ec r)) eqn:Eb; [done|]. apply ec_bool_false in Eb. intros [= <- <- _ <-].
  destruct H as [(H & _)|(_ & Hatt)]; [done|].
  destruct Hatt as (info & queues & n & Ht & _ & _ & Hne & He & Ho).
  destruct (outcome_accepted queues (n - 1)) as [v Hv].
  { destruct (attempt_outcome e queues (n - 1)) as [ec0|v0]; [|tauto]. destruct Ho as (E1 & E2 & _). congruence. }
  assert (Hso : sent_over m' s s1 r queues n) by (by apply ends_sent_over).
  destruct (so_success _ _ _ _ _ _ Hso v Hv) as (_ & H1 & H2 & H3).
  exists queues, n, v, r. split_and!; try done.
  - intros target request Hin%elem_of_calls_of. destruct (ends_calls _ _ _ _ _ _ _ _ _ He Hin) as (i & _ & _ & -> & _).
    subst m'. by destruct m as [[? ? [] ?] ? ?].
  - intros p ec' Hp. eexists. unfold TransactionImpl.commit, TransactionImpl.rollback, commit, rollback, endTransaction0.
    rewrite Hp. cbn. rewrite H1, H2, H3. split; reflexivity.
Qed.

End sync.

(** ** From the producer to the consumer *)
Section end_to_end.
Import ProducerImpl.
Context (zlib_crc32 : string -> Z) (MD5 : string -> option (list Z)) (SHA1 : string -> list Z)
  (zlib : Zlib) (e : Env).
(** zlib: compression completes, and decompression undoes it. *)
Hypothesis deflate_ends : forall src, exists out, deflate e src = (Z_STREAM_END, out).
Hypothesis zlib_inverse : UtilAll.inverse zlib (deflate e).

(** What of a message reaches the consumer as it was sent.  The rest, the digest, the receipt,
    the offset and the attempt included, is the broker's. *)
Record forwarded (sent item : rmq.Message) : Prop := {
  fw_topic : rmq.message_topic item = rmq.message_topic sent;
  fw_properties : rmq.user_attribute item = rmq.user_attribute sent;
  fw_body : rmq.body item = rmq.body sent;
  fw_tag : rmq.tag (rmq.system_attribute item) = rmq.tag (rmq.system_attribute sent);
  fw_keys : rmq.keys (rmq.system_attribute item) = rmq.keys (rmq.system_attribute sent);
  fw_id : rmq.message_id (rmq.system_attribute item) = rmq.message_id (rmq.system_attribute sent);
  fw_encoding : rmq.body_encoding (rmq.system_attribute item) = rmq.body_encoding (rmq.system_attribute sent);
  fw_type : rmq.message_type (rmq.system_attribute item) = rmq.message_type (rmq.system_attribute sent);
  fw_partition : rmq.partition_id (rmq.system_attribute item) = rmq.partition_id (rmq.system_attribute sent);
}.

(** The checksum on the message, of a type the client knows, is that of the body. *)
Definition sealed (item : rmq.Message) : Prop :=
  let d := rmq.body_digest (rmq.system_attribute item) in
  match rmq.digest_type d with
  | rmq.DigestType_unrecognized _ => True
  | t => checksum_of zlib_crc32 MD5 SHA1 t (rmq.body item) = Some (rmq.checksum d)
  end.

Lemma sealed_matches item :
  sealed item ->
  BodyDigest.body_digest_match zlib_crc32 MD5 SHA1 (rmq.body item) (rmq.body_digest (rmq.system_attribute item)) = true.
Proof.
  unfold sealed, BodyDigest.body_digest_match. destruct (str_empty (rmq.body item)); [done|].
  destruct (rmq.digest_type _); cbn; try done; [intros [= <-]|intros ->|intros [= <-]]; apply String.eqb_refl.
Qed.

(** C22: a message survives the trip.  What the producer puts on the wire, compressed or not,
    and the broker hands to a consumer with these parts unchanged and with a checksum of the
    body, is accepted there and decodes to the topic, body, properties and type it was given,
    under the identifier the producer generated and in the queue it chose; receipt, offset and
    attempt are the broker's; tag and keys are not transmitted.  The decompression is the loop
    of [UtilAll::uncompress]. *)
Theorem message_survives k m mq s item now fresh h :
  MQMessage.getProperties fresh = ∅ ->
  forwarded (rmq.send_message (wrapSendMessageRequest e k m mq s)) item -> sealed item ->
  let '(ok, m', _) := Decode.wrapMessage zlib_crc32 MD5 SHA1 zlib now item fresh h in
  ok = true
  /\ MQMessage.getTopic m' = MQMessage.getTopic m
  /\ MQMessage.getBody m' = MQMessage.getBody m
  /\ MQMessage.getProperties m' = MQMessage.getProperties m
  /\ (forall t, MQMessage.messageType m = Some t -> MQMessage.messageType m' = Some t)
  /\ MQMessage.getMsgId m' = fresh_id e k
  /\ MQMessage.getQueueId m' = MQMessageQueue.queue_id_ mq
  /\ MQMessage.receiptHandle m' = rmq.receipt_handle (rmq.system_attribute item)
  /\ MQMessage.getQueueOffset m' = rmq.partition_offset (rmq.system_attribute item)
  /\ MQMessage.getDeliveryAttempt m' = rmq.delivery_attempt (rmq.system_attribute item)
  /\ MQMessage.getTags m' = ""%string /\ MQMessage.getKeys m' = [].
Proof.
  intros Hf [F1 F2 F3 F4 F5 F6 F7 F8 F9] Hs.
  pose proof (wrapMessage_fields zlib_crc32 MD5 SHA1 zlib now item fresh h Hf) as H.
  pose proof (wrapMessage_decoded zlib_crc32 MD5 SHA1 zlib now item fresh h) as Hd.
  unfold decoded in Hd. rewrite (sealed_matches item Hs) in Hd. rewrite Hd in H |- *. specialize (H eq_refl).
  split; [done|]. destruct H as (-> & -> & -> & -> & -> & -> & -> & -> & -> & _ & -> & ->).
  rewrite F1, F2, F3, F4, F5, F6, F7, F8, F9.
  cbn [wrapSendMessageRequest rmq.send_message rmq.message_topic rmq.name rmq.system_attribute rmq.body_encoding
       rmq.body rmq.message_type].
  refine (conj eq_refl (conj _ (conj eq_refl (conj _ _)))); [| |by split_and!].
  - destruct (compress_body_threshold_ s <=? MQMessage.bodyLength m); [|done].
    destruct (deflate_ends (MQMessage.getBody m)) as [out E].
    rewrite (uncompress_compress zlib (deflate e) (MQMessage.getBody m)); [done|done|].
    unfold UtilAll.compress. by rewrite E.
  - intros t ->. by destruct t.
Qed.
End end_to_end.

(** ** Concrete sends *)
Definition example_env : Env :=
  mkEnv "host" (fun k => 1000000000 * (k + 1)) to_string (fun k => "span-" +:+ to_string k)%string
    (fun k => if k =? 0 then inl RequestTimeout
              else inr (SendResult.setTransactionId "tx-1" (SendResult.setMsgId "id-1" SendResult.empty)))
    (fun _ => true) toy_deflate (fun g => Z.of_nat (String.length g)).

Definition example_client : ClientImpl.t :=
  ClientImpl.with_config (ClientConfigImpl.setCredentialsProvider true) (ClientImpl.make "group").

Definition example_producer : ProducerImpl.t :=
  ProducerImpl.set_table {["TopicTest"%string := example_publish]}
    (ProducerImpl.set_client (ClientImpl.set_state STARTED example_client) (ProducerImpl.make "group")).

Definition example_outgoing : MQMessage.t := MQMessage.make "host" 0 "id" (Some NORMAL) "TopicTest" "TagA" "" "hello".

Lemma example_answers k : answer example_env k <> inl Success.
Proof. unfold example_env, answer. by destruct (k =? 0). Qed.

Lemma send_retries_witness :
  let queues := TopicPublishInfo.getMessageQueueList example_publish in
  exists n, 1 <= n <= 3
    /\ ProducerImpl.send0 example_env example_producer example_outgoing queues 3
       = Some (concat (map (attempt_call example_env example_producer example_outgoing queues) (seqZ 0 n))
               ++ [ProducerImpl.Complete (attempt_outcome example_env queues (n - 1))]).
Proof.
  intros queues.
  destruct (send_retries example_env example_producer eq_refl example_outgoing queues 3) as (n & H1 & H2 & _);
    [vm_compute; reflexivity|vm_compute; discriminate|lia|]. exists n. split; [exact H1|exact H2].
Defined.

Definition example_grouped : MQMessage.t := MQMessage.bindMessageGroup "order-42" example_outgoing.

Lemma group_sticks_witness :
  exists s' swq' r target request,
    ProducerImpl.send example_env (Success, None) 7 example_grouped example_producer = Some (s', swq', r)
    /\ ProducerImpl.CallSend target request ∈ ProducerImpl.sync_calls r
    /\ exists info q,
         ProducerImpl.topic_publish_info_table_ s' !! "TopicTest"%string = Some info
         /\ at_ (TopicPublishInfo.getMessageQueueList info)
              (Z.land 8 (2 ^ 64 - 1) mod zlen (TopicPublishInfo.getMessageQueueList info)) = Some q
         /\ target = MQMessageQueue.service_address_ q.
Proof.
  eexists _, _, _, _, _. split; [vm_compute; reflexivity|]. split; [left|].
  match goal with |- exists _ _, ProducerImpl.topic_publish_info_table_ ?s !! _ = _ /\ _ /\ ?t = _ =>
    refine (match group_sticks example_env (Success, None) example_answers 7 example_grouped example_producer s _ _ t _ eq_refl _ _ _ _ with
            | ex_intro _ info (ex_intro _ q (conj A (conj B (conj C _)))) =>
                ex_intro _ info (ex_intro _ q (conj A (conj B C)))
            end) end.
  - vm_compute. reflexivity.
  - discriminate.
  - vm_compute. reflexivity.
  - left.
Defined.

Lemma transaction_ends_where_prepared_witness :
  exists s' swq' tx, prepare example_env (Success, None) 7 example_outgoing example_producer = Some (s', swq', (Success, Some tx))
    /\ exists queues n v timeout, accepted example_env queues (n - 1) v
         /\ TransactionImpl.commit (Some example_producer) Success tx
           = Some (Some (ProducerImpl.mkEndCall (MQMessageQueue.service_address_ (attempt_queue queues (n - 1)))
                      (rmq.mkEndTransactionRequest rmq.Resource_default (SendResult.message_id_ v)
                         (SendResult.transaction_id_ v) rmq.COMMIT rmq.CLIENT "") timeout), true).
Proof.
  eexists _, _, _. split; [vm_compute; reflexivity|].
  edestruct (transaction_ends_where_prepared example_env (Success, None) example_answers 7 example_outgoing example_producer)
    as (queues & n & v & r & _ & _ & Ha & _ & H); [reflexivity|vm_compute; reflexivity|vm_compute; reflexivity|].
  destruct (H example_producer Success eq_refl) as (timeout & Hc & _). exists queues, n, v, timeout.
  split; [exact Ha|exact Hc].
Defined.

(** The example as a broker hands it on: with a checksum, a receipt, an offset and an attempt. *)
Definition example_sent : rmq.Message :=
  rmq.send_message (ProducerImpl.wrapSendMessageRequest example_env 1 (MQMessage.setProperty "k" "v" example_outgoing)
    (MQMessageQueue.make "TopicTest" "broker" 3) (ProducerImpl.compressBodyThreshold 4 example_producer)).
Definition example_stored : rmq.Message :=
  let a := rmq.system_attribute example_sent in
  rmq.mkMessage (rmq.message_topic example_sent) (rmq.user_attribute example_sent)
    (rmq.mkSystemAttribute (rmq.tag a) (rmq.keys a) (rmq.message_id a) (rmq.mkDigest rmq.CRC32 "00000006")
       (rmq.body_encoding a) (rmq.message_type a) (rmq.born_timestamp a) (rmq.born_host a) (rmq.store_timestamp a)
       "store" (rmq.timed_delivery a) "handle" (rmq.partition_id a) 42 (rmq.invisible_period a) 1 (rmq.producer_group a)
       (rmq.message_group a) (rmq.trace_context a))
    (rmq.body example_sent).

Lemma message_survives_witness :
  let '(ok, m', _) := Decode.wrapMessage toy_crc32 (fun _ => None) (fun _ => []) toy_zlib 0 example_stored
                        toy_fresh (Histogram.make "" 11) in
  rmq.body example_stored = "zhello"%string /\ ok = true /\ MQMessage.getBody m' = "hello"%string
  /\ MQMessage.getQueueId m' = 3 /\ MQMessage.receiptHandle m' = "handle"%string.
Proof.
  assert (H1 : forall src, exists out, deflate example_env src = (Z_STREAM_END, out)) by (intros src; by eexists).
  pose proof (message_survives toy_crc32 (fun _ => None) (fun _ => []) toy_zlib example_env H1 toy_zlib_inverse 1
    (MQMessage.setProperty "k" "v" example_outgoing) (MQMessageQueue.make "TopicTest" "broker" 3)
    (ProducerImpl.compressBodyThreshold 4 example_producer) example_stored 0 toy_fresh
    (Histogram.make "" 11) eq_refl) as H.
  destruct (Decode.wrapMessage _ _ _ _ _ _ _ _) as [[ok m'] h'].
  destruct H as (Hok & _ & Hb & _ & _ & _ & Hq & Hr & _); [by split|vm_compute; reflexivity|].
  split; [vm_compute; reflexivity|]. split; [exact Hok|]. split; [exact Hb|]. split; [exact Hq|exact Hr].
Defined.

(** The asynchronous send works on a copy of the message, which has lost its group and its
    queue: it always takes queues round robin. *)
Lemma async_send_ignores_group e swq m ec info s :
  ProducerImpl.on_publish_info e swq m ec info s
  = ProducerImpl.on_publish_info e swq (MQMessage.bindMessageGroup "" (MQMessage.bindMessageQueue MQMessageQueue.empty m)) ec info s.
Proof. by destruct m. Qed.

(** A producer that is not running reports the failure and sends all the same: the caller's
    callback is ended twice. *)
Lemma async_send_not_running :
  exists s' w target request outcome,
    ProducerImpl.send_async example_env (Success, None) 7 example_outgoing
      (ProducerImpl.set_client example_client (ProducerImpl.maxAttemptTimes 1 example_producer))
    = Some (s', w, [ProducerImpl.Complete (inl IllegalState); ProducerImpl.CallSend target request;
                    ProducerImpl.Complete outcome]).
Proof. eexists _, _, _, _, _. vm_compute. reflexivity. Qed.

(** Publish information, once cached, is used whatever the route becomes. *)
Lemma publish_info_never_refreshed route topic info s :
  ProducerImpl.topic_publish_info_table_ s !! topic = Some info ->
  ProducerImpl.asyncPublishInfo route topic s = (s, (Success, Some info)).
Proof. apply asyncPublishInfo_cached. Qed.

(** Without a credentials provider the first attempt at a known address crashes, and so does
    the end of a transaction. *)
Lemma send_without_provider e s message q queues max :
  ProducerImpl.credentialsProvider s = false -> ProducerImpl.validate message = true -> 1 <= max ->
  MQMessageQueue.service_address_ q <> ""%string ->
  ProducerImpl.send0 e s message (q :: queues) max = None
  /\ forall target message_id transaction_id resolution ec,
       ProducerImpl.endTransaction0 target message_id transaction_id resolution ec s = None.
Proof.
  intros Hp Hv Hm Hq. split; [|intros; unfold ProducerImpl.endTransaction0; by rewrite Hp].
  unfold ProducerImpl.send0. rewrite Hv. cbn [negb]. destruct (Z.leb_spec max 0); [lia|].
  rewrite bool_decide_eq_false_2 by done. replace (Z.to_nat max) with (S (Z.to_nat (max - 1))) by lia.
  cbn [ProducerImpl.attempts]. unfold ProducerImpl.sendImpl, RetrySendCallback.messageQueue.
  cbn [RetrySendCallback.make RetrySendCallback.candidates_ RetrySendCallback.attempt_times_].
  rewrite bool_decide_eq_false_2 by done. rewrite Zmod_0_l.
  change (default MQMessageQueue.empty (at_ (q :: queues) 0)) with q.
  assert (Hs : str_empty (MQMessageQueue.service_address_ q) = false).
  { destruct (MQMessageQueue.service_address_ q) as [|c l]; [by destruct Hq|reflexivity]. }
  rewrite Hp, Hs. reflexivity.
Qed.
