(* ===== verification/SendPath.v ===== *)
(** * The send path: the producer on top of the remote calls.

    [ProducerImpl::send0] and its callbacks (Producer) take the outcome of an attempt as
    given; here it is what [ClientManagerImpl::send] reports through the completion queue
    and the callback pool (RemoteCalls) for the status and the response that come back. *)

From S2P Require Import Prelude Types Message MixAll Proto Route Config Codec Concurrency ClientManager RemoteCalls.
From S2P Require Import ClientImpl Producer.

Module SendPath.

(** The attempts of a producer whose [k]-th call of the network ends with [network k], under
    a manager that is started. *)
Definition attempt_report (x : Completion rmq.SendMessageResponse) : error_code + SendResult.t :=
  default (inl IllegalState) (send_completion (Some STARTED) x).

Definition over_rpc (network : Z -> Completion rmq.SendMessageResponse) (e : Env) : Env :=
  mkEnv (hostname e) (clock e) (fresh_id e) (trace_header e) (fun k => attempt_report (network k)) (alive e)
    (deflate e) (hash e).

Section send_path.
Context {C : Type} `{!Client C}.
Context (zlib_crc32 : string -> Z) (MD5 : string -> option (list Z)) (SHA1 : string -> list Z)
  (zlib : Zlib) (fresh : MQMessage.t) (DebugString : rmq.QueryRouteResponse -> string).

(** One attempt through the machine of remote calls: the call is issued, completes, is
    polled and reported, and the report is the one the producer sees. *)
Lemma attempt_through_machine throws (m : ClientManagerImpl.t C) i r (x : forall m, Completion (RemoteCalls.response_of m)) :
  ClientManagerImpl.state_ m = STARTED ->
  exists s, RemoteCalls.run throws zlib_crc32 MD5 SHA1 zlib fresh DebugString
      (RemoteCalls.one_call i (RemoteCalls.SendOp r id) x) (RemoteCalls.ready m) = Some s
    /\ map (fun e => snd (snd e)) (RemoteCalls.reports s) = [[attempt_report (x RemoteCalls.SendMessage)]].
Proof.
  intros Hm.
  pose proof (RemoteCalls.getRpcClient_state (RemoteCalls.channel_ok i) (RemoteCalls.target_host i) true m) as Hs.
  destruct (ClientManagerImpl.getRpcClient (RemoteCalls.channel_ok i) (RemoteCalls.target_host i) true m)
    as [client m'] eqn:Eg. cbn [snd] in Hs. rewrite Hm in Hs.
  edestruct (RemoteCalls.one_call_spec throws zlib_crc32 MD5 SHA1 zlib fresh DebugString m i (RemoteCalls.SendOp r id) x)
    as (s & E & Hr).
  { cbn [RemoteCalls.perform]. unfold RemoteCalls.send, RemoteCalls.with_client.
    cbn [RemoteCalls.manager RemoteCalls.ready]. rewrite Eg. reflexivity. }
  exists s. split; [exact E|]. rewrite Hr. cbn [map snd].
  unfold RemoteCalls.invoke. cbn -[send_completion]. rewrite Hs. unfold attempt_report.
  pose proof (send_completion_correct (Some STARTED) (x RemoteCalls.SendMessage)) as Hc.
  revert Hc. destruct (send_completion (Some STARTED) (x RemoteCalls.SendMessage)); [done|]. by intros [].
Qed.
End send_path.

(** The report of an attempt is a success exactly when the network and the broker say so. *)
Lemma attempt_report_spec x :
  match attempt_report x with
  | inr v => status_ok x = true /\ rmq.code (rmq.send_common (response x)) = OK
             /\ SendResult.message_id_ v = rmq.send_message_id (response x)
             /\ SendResult.transaction_id_ v = rmq.send_transaction_id (response x)
  | inl ec => ec <> Success /\ ~ (status_ok x = true /\ rmq.code (rmq.send_common (response x)) = OK)
  end.
Proof.
  unfold attempt_report. pose proof (send_completion_correct (Some STARTED) x) as H.
  destruct (send_completion (Some STARTED) x) as [[ec|v]|]; cbn; [|by destruct H as (_ & H)|done].
  destruct H as (_ & H1 & H2). split; [|done]. by apply ec_bool_spec.
Qed.

Lemma over_rpc_answers network e k : answer (over_rpc network e) k <> inl Success.
Proof.
  change (answer (over_rpc network e) k) with (attempt_report (network k)).
  pose proof (attempt_report_spec (network k)) as H. revert H.
  destruct (attempt_report (network k)); [intros [H _]; congruence|discriminate].
Qed.

(** Attempt [k] over these queues went to a broker, and came back from the network with an OK
    status and the code OK. *)
Definition came_back_ok (network : Z -> Completion rmq.SendMessageResponse) (queues : list MQMessageQueue.t) (k : Z) : Prop :=
  MQMessageQueue.service_address_ (attempt_queue queues k) <> ""%string
  /\ status_ok (network k) = true /\ rmq.code (rmq.send_common (response (network k))) = OK.

Lemma came_back_ok_accepted network e queues k v :
  accepted (over_rpc network e) queues k v ->
  came_back_ok network queues k /\ SendResult.message_id_ v = rmq.send_message_id (response (network k))
  /\ SendResult.transaction_id_ v = rmq.send_transaction_id (response (network k)).
Proof.
  intros [Ha Hv]. change (answer (over_rpc network e) k) with (attempt_report (network k)) in Hv.
  pose proof (attempt_report_spec (network k)) as H. rewrite Hv in H. destruct H as (H1 & H2 & H3 & H4). done.
Qed.

Lemma accepted_came_back_ok network e queues k :
  came_back_ok network queues k -> exists v, accepted (over_rpc network e) queues k v.
Proof.
  intros (Ha & Hs & Hc). unfold accepted. change (answer (over_rpc network e) k) with (attempt_report (network k)).
  pose proof (attempt_report_spec (network k)) as H. destruct (attempt_report (network k)) as [ec|v]; [|by exists v].
  destruct H as [_ []]. done.
Qed.


(** The first attempt times out and the second is accepted. *)
Definition example_network (k : Z) : Completion rmq.SendMessageResponse :=
  if k =? 0 then mkCompletion false (rmq.mkSendMessageResponse (rmq.mkResponseCommon OK "") "" "")
  else mkCompletion true (rmq.mkSendMessageResponse (rmq.mkResponseCommon OK "") "id-1" "tx-1").

End SendPath.
