(* ===== verification/SendNode.v ===== *)
(** * Sends over the network, many at a time.

    [ProducerImpl::send0] and [sendImpl] (rocketmq/ProducerImpl.cpp) with the
    [RetrySendCallback] of each send (rocketmq/SendCallbacks.cpp), on the machine of
    RemoteCalls.  An attempt is a call of the client manager that holds the callback object;
    its report ends the caller's callback or makes the next attempt, on the worker that runs
    it.  New sends, the network, the poller, the workers and the shutdown of the manager
    interleave.  Producer follows one send alone, with the answers of the brokers given. *)

From S2P Require Import Prelude Types Message MixAll Proto Route Config Codec Concurrency ClientManager RemoteCalls.
From S2P Require Import ClientImpl Producer.
Import RetrySendCallback ProducerImpl.

Module SendNode.

Abbreviation outcome := (error_code + SendResult.t)%type.

(** A send: what [send0] was given, and what its caller's callback was told. *)
Record send := mkSend {
  send_message : MQMessage.t;
  send_queues : list MQMessageQueue.t;
  told : list outcome;
}.

(** What the calls read of their environment, by the number of the call; [attempt_env] is
    what the attempt itself reads, of which [answer] and [alive] are not used here. *)
Record CallEnv := mkCallEnv {
  attempt_env : nat -> Producer.Env;
  credentials_of : nat -> option Credentials.t;
  date_of : nat -> string;
  id_of : nat -> string;
  channels : nat -> nat -> bool;
}.

Section send_node.
Context {C : Type}.
Context (zlib_crc32 : string -> Z) (MD5 : string -> option (list Z)) (SHA1 : string -> list Z)
  (zlib : Zlib) (fresh : MQMessage.t) (DebugString : rmq.QueryRouteResponse -> string)
  (HMAC_SHA1 : string -> string -> list Z).
Context (env : CallEnv).

Abbreviation network := (@RemoteCalls.t C outcome).
Abbreviation call := (@RemoteCalls.call C outcome).
(** The send an attempt belongs to, and its callback object. *)
Abbreviation owner := (nat * RetrySendCallback.t)%type.

(** [owners] are the callback objects of the calls under way; [log] remembers those of all
    calls, by their numbers. *)
Record t := mk {
  producer : ProducerImpl.t;
  sends : list send;
  owners : gmap nat owner;
  log : list owner;
  net : network;
}.

Definition make (s : ProducerImpl.t) (m : ClientManagerImpl.t C) : t := mk s [] ∅ [] (RemoteCalls.ready m).
Definition set_net (n : network) (x : t) : t := mk (producer x) (sends x) (owners x) (log x) n.
Definition set_sends (l : list send) (x : t) : t := mk (producer x) l (owners x) (log x) (net x).

(** The caller's callback is invoked. *)
Definition hear (v : outcome) (w : send) : send := mkSend (send_message w) (send_queues w) (told w ++ [v]).
Definition tell (i : nat) (v : outcome) (x : t) : t := set_sends (alter (hear v) i (sends x)) x.

(** [ClientManagerImpl::send] with the callback object of send [i]. *)
Definition issue (i : nat) (target : string) (request : rmq.SendMessageRequest) (cb : RetrySendCallback.t) (x : t) : option t :=
  let k := length (RemoteCalls.issued (net x)) in
  let metadata := Signature.sign HMAC_SHA1 (ClientImpl.config (client (producer x))) (credentials_of env k) (date_of env k) ∅ in
  n ← RemoteCalls.perform zlib_crc32 MD5 SHA1 zlib fresh DebugString
        (RemoteCalls.mkSite target metadata 0 0 (id_of env k) (channels env k)) (RemoteCalls.SendOp request id) (net x);
  Some (mk (producer x) (sends x) (<[k := (i, cb)]> (owners x)) (log x ++ [(i, cb)]) n).

(** [sendImpl]: an attempt without an address fails at once, and its failure makes the next
    one; the producer exists as long as it runs.  [fuel] bounds the attempts. *)
Fixpoint attempt (fuel : nat) (i : nat) (cb : RetrySendCallback.t) (x : t) : option t :=
  match fuel with
  | O => None
  | S fuel' =>
      started ← sendImpl (attempt_env env (length (RemoteCalls.issued (net x)))) (producer x) cb;
      match started with
      | inl ec =>
          match onFailure true ec cb with
          | inl ec => Some (tell i (inl ec) x)
          | inr cb => attempt fuel' i cb x
          end
      | inr (target, request, cb) => issue i target request cb x
      end
  end.

(** Every attempt raises [attempt_times_]. *)
Definition attempts_left (cb : RetrySendCallback.t) : nat := Z.to_nat (max_attempt_times_ cb - attempt_times_ cb).

Definition send0 (message : MQMessage.t) (queues : list MQMessageQueue.t) (x : t) : option t :=
  let i := length (sends x) in
  let max := max_attempt_times (producer x) in
  let x := set_sends (sends x ++ [mkSend message queues []]) x in
  if negb (validate message) then Some (tell i (inl BadRequest) x)
  else if bool_decide (queues = []) then Some (tell i (inl NotFound) x)
  else if max <=? 0 then Some (tell i (inl BadConfiguration) x)
  else let cb := RetrySendCallback.make message max queues in attempt (attempts_left cb) i cb x.

(** The callback of a call: [producer_alive] is whether the producer can still be locked. *)
Definition on_report (producer_alive : bool) (i : nat) (cb : RetrySendCallback.t) (v : outcome) (x : t) : option t :=
  match v with
  | inr r => Some (tell i (inr (onSuccess r cb)) x)
  | inl ec =>
      match onFailure producer_alive ec cb with
      | inl ec => Some (tell i (inl ec) x)
      | inr cb => attempt (attempts_left cb) i cb x
      end
  end.

Fixpoint on_reports (producer_alive : bool) (i : nat) (cb : RetrySendCallback.t) (l : list outcome) (x : t) : option t :=
  match l with [] => Some x | v :: l' => y ← on_report producer_alive i cb v x; on_reports producer_alive i cb l' y end.

(** [Net] is a step of the network, the poller, a worker that begins, or shutdown; [Finish] a
    worker that runs the callback of a call to its end. *)
Inductive action :=
  | Send (message : MQMessage.t) (queues : list MQMessageQueue.t)
  | Net (a : @RemoteCalls.action outcome)
  | Finish (k : nat) (producer_alive : bool).

Definition no_throw (r : outcome) : bool := false.

Definition step (a : action) (x : t) : option t :=
  match a with
  | Send message queues => send0 message queues x
  | Net a =>
      if decide (RemoteCalls.below a) then
        n ← RemoteCalls.step no_throw zlib_crc32 MD5 SHA1 zlib fresh DebugString a (net x); Some (set_net n x)
      else None
  | Finish k alive =>
      n ← RemoteCalls.finish no_throw k (net x);
      '(j, (_, l)) ← last (RemoteCalls.reports n);
      '(i, cb) ← owners x !! j;
      on_reports alive i cb l (mk (producer x) (sends x) (delete j (owners x)) (log x) n)
  end.

Fixpoint run (l : list action) (x : t) : option t :=
  match l with [] => Some x | a :: l' => y ← step a x; run l' y end.

(** ** The calls on the wire *)

Definition send_callback : @RemoteCalls.callback_of C outcome RemoteCalls.SendMessage :=
  fun m z => (m, RemoteCalls.tell (send_completion (Some (ClientManagerImpl.state_ m)) z) id).

Definition is_send (o : owner) (c : call) : Prop :=
  match c with RemoteCalls.mkCall RemoteCalls.SendMessage _ _ _ cb _ => cb = Some send_callback | _ => False end.

(** What gRPC brought for a call. *)
Definition came_back (c : call) : option (Completion rmq.SendMessageResponse) :=
  match c with
  | RemoteCalls.mkCall RemoteCalls.SendMessage _ _ _ _ r =>
      Some (default (mkCompletion true (RemoteCalls.response_default RemoteCalls.SendMessage)) r)
  | _ => None
  end.

Definition accepted (z : Completion rmq.SendMessageResponse) : Prop :=
  status_ok z = true /\ rmq.code (rmq.send_common (response z)) = OK.

(** The call of an attempt: the message of the send, for the queue of the attempt, at the
    address of that queue's broker. *)
Definition call_of (s : ProducerImpl.t) (n : nat) (w : send) (cb : RetrySendCallback.t) (c : call) : Prop :=
  match c with
  | RemoteCalls.mkCall RemoteCalls.SendMessage r _ ctx f _ =>
      let q := attempt_queue (send_queues w) (attempt_times_ cb) in
      let target := MQMessageQueue.service_address_ q in
      target <> ""%string /\ f = Some send_callback
      /\ r = wrapSendMessageRequest (attempt_env env n) (attempt_times_ cb) (send_message w) q s
      /\ ctx = send_context (id_of env n) target
                 (Signature.sign HMAC_SHA1 (ClientImpl.config (client s)) (credentials_of env n) (date_of env n) ∅)
  | _ => False
  end.

(** A callback object of send [w]. *)
Definition belongs (max : Z) (w : send) (cb : RetrySendCallback.t) : Prop :=
  at_attempt (send_message w) (send_queues w) max (attempt_times_ cb) cb /\ send_queues w <> [].


(** ** The invariant *)

(** No report of send [i] was a success. *)
Definition unaccepted (i : nat) (x : t) : Prop :=
  forall n cb c l r, log x !! n = Some (i, cb) -> (n, (c, l)) ∈ RemoteCalls.reports (net x) -> inr r ∉ l.

Abbreviation state_of x := (ClientManagerImpl.state_ (RemoteCalls.manager (net x))).

(** [skip] is the send whose callback is being run. *)
Record sinv (s : ProducerImpl.t) (skip : option nat) (x : t) : Prop := {
  v_producer : producer x = s;
  v_tracked : RemoteCalls.tracked is_send (owners x) (net x);
  v_log : length (log x) = length (RemoteCalls.issued (net x));
  v_owner n o : owners x !! n = Some o -> log x !! n = Some o;
  v_call n i cb : log x !! n = Some (i, cb) ->
    exists w c, sends x !! i = Some w /\ RemoteCalls.issued (net x) !! n = Some c
      /\ belongs (max_attempt_times s) w cb /\ call_of s n w cb c;
  v_order n n' i cb cb' : log x !! n = Some (i, cb) -> log x !! n' = Some (i, cb') -> (n < n')%nat ->
    attempt_times_ cb < attempt_times_ cb';
  v_last n i cb n' cb' : owners x !! n = Some (i, cb) -> log x !! n' = Some (i, cb') -> (n' <= n)%nat;
  v_silent n i cb w : owners x !! n = Some (i, cb) -> sends x !! i = Some w -> told w = [];
  v_once i w : sends x !! i = Some w -> (length (told w) <= 1)%nat;
  v_success i w v : sends x !! i = Some w -> told w = [inr v] ->
    exists n cb c l r, log x !! n = Some (i, cb) /\ (n, (c, l)) ∈ RemoteCalls.reports (net x) /\ inr r ∈ l
      /\ v = onSuccess r cb;
  v_accepted i w n cb c l r : skip <> Some i -> sends x !! i = Some w -> log x !! n = Some (i, cb) ->
    (n, (c, l)) ∈ RemoteCalls.reports (net x) -> inr r ∈ l -> told w = [inr (onSuccess r cb)];
  v_pending i w : state_of x = STARTED -> skip <> Some i -> sends x !! i = Some w -> told w = [] ->
    exists n cb, owners x !! n = Some (i, cb);
}.

(** Send [i] has been told nothing and no call of it is under way. *)
Definition vacant (i : nat) (w : send) (x : t) : Prop :=
  sends x !! i = Some w /\ told w = [] /\ forall n cb, owners x !! n <> Some (i, cb).

Lemma sinv_make s m : sinv s None (make s m).
Proof.
  split; cbn [make producer sends owners log net]; try done; try (by intros; rewrite ?lookup_nil in *; done).
  apply RemoteCalls.tracked_ready.
Qed.

Lemma lookup_tell i v x j w :
  sends (tell i v x) !! j = Some w <->
  (j <> i /\ sends x !! j = Some w) \/ (j = i /\ exists w0, sends x !! i = Some w0 /\ w = hear v w0).
Proof.
  cbn. destruct (decide (j = i)) as [->|Hj].
  - rewrite list_lookup_alter_eq, fmap_Some. split; [|by intros [[? _]|[_ H]]]. intros H. right. by split.
  - rewrite list_lookup_alter_ne by done. split; [by left|]. by intros [[_ H]|[? _]].
Qed.

(** The caller's callback ends the send. *)
Lemma sinv_tell s i w v x :
  sinv s (Some i) x -> vacant i w x ->
  (match v with
   | inl _ => unaccepted i x
   | inr v => (exists n cb c l r, log x !! n = Some (i, cb) /\ (n, (c, l)) ∈ RemoteCalls.reports (net x) /\ inr r ∈ l
                 /\ v = onSuccess r cb)
              /\ forall n cb c l r, log x !! n = Some (i, cb) -> (n, (c, l)) ∈ RemoteCalls.reports (net x) -> inr r ∈ l ->
                   v = onSuccess r cb
   end) ->
  sinv s None (tell i v x).
Proof.
  intros [H1 H2 H3 H4 H5 H6 H7 H8 H9 H10 H11 H12] (Hw & Ht & Ho) Hv.
  split; try done.
  - intros n j cb E. destruct (H5 n j cb E) as (w' & c & E1 & E2 & E3 & E4).
    destruct (decide (j = i)) as [->|Hj].
    + rewrite Hw in E1. injection E1 as <-. exists (hear v w), c. split; [apply lookup_tell; right; eauto|]. done.
    + exists w', c. split; [apply lookup_tell; by left|done].
  - intros n j cb w' E. rewrite lookup_tell. intros [[Hj E1]|[-> _]]; [by eapply H8|by apply Ho in E].
  - intros j w'. rewrite lookup_tell. intros [[Hj E1]|[-> (w0 & E1 & ->)]]; [by apply (H9 j)|].
    rewrite Hw in E1. injection E1 as <-. cbn. rewrite Ht. cbn. lia.
  - intros j w' v'. rewrite lookup_tell. intros [[Hj E1]|[-> (w0 & E1 & ->)]]; [by apply H10|].
    rewrite Hw in E1. injection E1 as <-. cbn. rewrite Ht. cbn. intros [= ->]. by destruct Hv.
  - intros j w' n cb c l r _. rewrite lookup_tell. intros [[Hj E1]|[-> (w0 & E1 & ->)]] El Hin Hr.
    { eapply (H11 j); try done. congruence. }
    rewrite Hw in E1. injection E1 as <-. cbn. rewrite Ht. cbn. destruct v as [ec|v]; [by destruct (Hv n cb c l r El Hin)|].
    destruct Hv as [_ Hv]. by rewrite (Hv n cb c l r El Hin Hr).
  - intros j w' Hst _. rewrite lookup_tell. intros [[Hj E1]|[-> (w0 & E1 & ->)]] Hn.
    { eapply (H12 j); try done. congruence. }
    cbn in Hn. by apply app_eq_nil in Hn as [_ ?].
Qed.

(** The attempts a callback object may still make after the one under way, and the steps
    until every send has ended. *)
Definition credit (o : owner) : nat := (attempts_left (snd o) - 1)%nat.
Definition credits (m : gmap nat owner) : nat := sum_list (owned (fun o => Some (credit o)) m).
Definition potential (x : t) : nat := (RemoteCalls.work (net x) + 4 * credits (owners x))%nat.

#[local] Instance sum_list_perm : Proper (Permutation ==> eq) sum_list.
Proof. intros l l' H. induction H; cbn; lia. Qed.

Lemma sum_list_snoc l n : sum_list (l ++ [n]) = (sum_list l + n)%nat.
Proof. induction l as [|a l IH]; cbn; [lia|]. rewrite IH. lia. Qed.

Lemma credits_insert m k o : m !! k = None -> credits (<[k := o]> m) = (credits m + credit o)%nat.
Proof. intros E. unfold credits. rewrite (owned_insert _ m k o E). apply sum_list_snoc. Qed.
Lemma credits_delete m k o : m !! k = Some o -> credits m = (credit o + credits (delete k m))%nat.
Proof. intros E. unfold credits. by rewrite (owned_delete _ m k o E). Qed.

(** A further attempt is issued. *)
Lemma sinv_issue s i w cb x y target request :
  sinv s (Some i) x -> vacant i w x -> unaccepted i x -> belongs (max_attempt_times s) w cb ->
  (forall n cb', log x !! n = Some (i, cb') -> attempt_times_ cb' < attempt_times_ cb) ->
  let k := length (RemoteCalls.issued (net x)) in
  let q := attempt_queue (send_queues w) (attempt_times_ cb) in
  target = MQMessageQueue.service_address_ q -> target <> ""%string ->
  request = wrapSendMessageRequest (attempt_env env k) (attempt_times_ cb) (send_message w) q s ->
  issue i target request cb x = Some y ->
  sinv s None y /\ state_of y = state_of x /\ potential y = (potential x + 4 + 4 * credit (i, cb))%nat.
Proof.
  intros Hx (Hw & Ht & Ho) Hu Hb Hlt k q Etarget Hne Erequest. pose proof Hx as [H1 H2 H3 H4 H5 H6 H7 H8 H9 H10 H11 H12].
  unfold issue. cbn [RemoteCalls.perform]. unfold RemoteCalls.send, RemoteCalls.with_client. fold k.
  match goal with |- context [ClientManagerImpl.getRpcClient ?ok ?h ?b ?m] =>
    pose proof (RemoteCalls.getRpcClient_state ok h b m) as Hm; destruct (ClientManagerImpl.getRpcClient ok h b m) as [cl m'] end.
  cbn [snd RemoteCalls.manager] in Hm. unfold RemoteCalls.asyncSend. destruct (RemoteCalls.async _ _) as [n|] eqn:E; [|done].
  cbn [mbind option_bind]. intros [= <-].
  assert (Htr : owners x !! k = None /\ RemoteCalls.tracked is_send (<[k := (i, cb)]> (owners x)) n)
    by (eapply RemoteCalls.tracked_async; [exact H2| | | |exact Hm|exact E]; done).
  destruct Htr as [Hk Htr]. unfold RemoteCalls.async in E. cbn in E. destruct (RemoteCalls.queue_shutdown (net x)); [done|]. injection E as <-.
  assert (Hlk : length (log x) = k) by done.
  assert (Hlog : forall n o, (log x ++ [(i, cb)]) !! n = Some o <-> log x !! n = Some o \/ (n = k /\ o = (i, cb))).
  { intros n o. rewrite lookup_app_Some, list_lookup_singleton_Some, Hlk. split; [intros [?|(? & ? & <-)]|intros [?|[-> ->]]]; try tauto.
    - right. split; [lia|done].
    - right. split; [lia|]. split; [lia|done]. }
  assert (Hfresh : forall n o, log x !! n = Some o -> (n < k)%nat) by (intros n o E; rewrite <- Hlk; by eapply lookup_lt_Some).
  split; [|split; [exact Hm|]].
  2: { unfold potential. cbn [owners net]. rewrite credits_insert by done. unfold RemoteCalls.work. cbn. rewrite length_app. cbn. lia. }
  split; cbn [producer sends owners log net RemoteCalls.set_manager RemoteCalls.issued RemoteCalls.reports RemoteCalls.manager]; try done.
  - rewrite !length_app. cbn. lia.
  - intros n o E. rewrite Hlog. apply lookup_insert_Some in E as [[<- <-]|[_ E]]; [by right|left; by apply H4].
  - intros n j cb' E. apply Hlog in E as [E|[-> [= -> ->]]].
    + destruct (H5 n j cb' E) as (w' & c & E1 & E2 & E3 & E4). exists w', c. split_and!; try done. by apply lookup_app_l_Some.
    + exists w. eexists. split; [done|]. split; [rewrite lookup_app_r, Nat.sub_diag by done; reflexivity|]. split; [done|].
      subst s. cbn. fold q. rewrite <- Etarget. by split_and!.
  - intros n n' j a b E E' Hn. apply Hlog in E as [E|[-> E]]; apply Hlog in E' as [E'|[-> E']].
    + by eapply H6.
    + injection E' as -> ->. by eapply Hlt.
    + apply Hfresh in E'. lia.
    + lia.
  - intros n j a n' b E E'. apply lookup_insert_Some in E as [[<- [= <- <-]]|[Hnk E]]; apply Hlog in E' as [E'|[-> E']].
    + apply Hfresh in E'. lia.
    + done.
    + by eapply H7.
    + injection E' as -> ->. by apply Ho in E.
  - intros n j a w' E Ew. apply lookup_insert_Some in E as [[<- [= <- <-]]|[_ E]]; [congruence|by eapply H8].
  - intros j w' v Ew Hv. destruct (H10 j w' v Ew Hv) as (n & a & c & l & r & E1 & E2). exists n, a, c, l, r.
    split; [|done]. apply Hlog. by left.
  - intros j w' n a c l r _ Ew El Hin Hr. apply Hlog in El as [El|[-> [= -> ->]]].
    + destruct (decide (j = i)) as [->|Hj]; [by destruct (Hu n a c l r El Hin)|]. eapply (H11 j); try done. congruence.
    + exfalso. destruct (RemoteCalls.i_reports _ (RemoteCalls.t_inv _ _ _ H2) k c l Hin) as [El _]. apply lookup_lt_Some in El. unfold k in El. lia.
  - intros j w' Hst _ Ew Hn. destruct (decide (j = i)) as [->|Hj]; [exists k, cb; by rewrite lookup_insert_eq|].
    destruct (H12 j w') as (n & a & E); try done; [by rewrite <- Hm|congruence|]. exists n, a. rewrite lookup_insert_ne; [done|].
    intros <-. by rewrite E in Hk.
Qed.

Section sending.
Context (s : ProducerImpl.t).
Hypothesis provided : credentialsProvider s = true.
Hypothesis bounded : max_attempt_times s < 2 ^ 31.

Abbreviation max := (max_attempt_times s).

(** A failure ends the send or moves its callback object to the next attempt. *)
Lemma onFailure_cases w cb ec alive :
  belongs max w cb ->
  match onFailure alive ec cb with
  | inl ec' => ec' = ec
  | inr cb' => belongs max w cb' /\ attempt_times_ cb' = attempt_times_ cb + 1
  end.
Proof.
  intros [(_ & Hk & Ec & Em & Hp) Hq]. unfold onFailure, set_attempt.
  cbn [max_attempt_times_ attempt_times_ candidates_]. rewrite i32_small by lia.
  destruct (Z.leb_spec (max_attempt_times_ cb) (attempt_times_ cb + 1)); [done|]. destruct alive; cbn [negb]; [|done].
  destruct (bool_decide (candidates_ cb = [])); [done|]. split; [|done]. split; [|done].
  unfold at_attempt. cbn. split_and!; try done; lia.
Qed.

Lemma attempt_issued i target request cb x :
  RemoteCalls.inv (net x) -> state_of x = STARTED -> is_Some (issue i target request cb x).
Proof.
  intros Hi Hst. unfold issue. cbn [RemoteCalls.perform]. unfold RemoteCalls.send, RemoteCalls.with_client, RemoteCalls.asyncSend.
  destruct (ClientManagerImpl.getRpcClient _ _ _ _) as [cl m']. unfold RemoteCalls.async. cbn.
  destruct (RemoteCalls.i_started _ Hi Hst) as (_ & -> & _). by eexists.
Qed.

Lemma attempt_spec fuel i w cb x :
  sinv s (Some i) x -> vacant i w x -> unaccepted i x -> belongs max w cb -> (attempts_left cb <= fuel)%nat ->
  (forall n cb', log x !! n = Some (i, cb') -> attempt_times_ cb' < attempt_times_ cb) ->
  (forall y, attempt fuel i cb x = Some y ->
     sinv s None y /\ state_of y = state_of x /\ (potential y <= potential x + 4 * attempts_left cb)%nat)
  /\ (state_of x = STARTED -> is_Some (attempt fuel i cb x)).
Proof.
  intros Hx Hv Hu. revert cb. induction fuel as [|fuel IH]; intros cb Hb Hf Hlt;
    pose proof Hb as [(_ & Hk & Ec & Em & Hp) Hq]; unfold attempts_left in Hf; [lia|].
  assert (Hmq : default MQMessageQueue.empty (messageQueue cb) = attempt_queue (send_queues w) (attempt_times_ cb)).
  { unfold messageQueue. by rewrite Ec, bool_decide_eq_false_2 by done. }
  cbn [attempt]. rewrite (v_producer _ _ _ Hx). unfold sendImpl. rewrite Hmq, provided.
  set (q := attempt_queue (send_queues w) (attempt_times_ cb)).
  destruct (str_empty (MQMessageQueue.service_address_ q)) eqn:Ea; cbn [mbind option_bind negb].
  - pose proof (onFailure_cases w cb BadGateway true Hb) as Ho. destruct (onFailure true BadGateway cb) as [ec|cb'].
    + subst ec. split; [|by eexists]. intros y [= <-]. split; [by eapply sinv_tell|]. split; [done|]. unfold potential. cbn. lia.
    + destruct Ho as [Hb' Ek]. pose proof Hb' as [(_ & Hk' & _ & Em' & _) _].
      destruct (IH cb' Hb') as [IH1 IH2]; [unfold attempts_left; lia|intros n c E; specialize (Hlt n c E); lia|].
      split; [|exact IH2]. intros y Ey. destruct (IH1 y Ey) as (Y1 & Y2 & Y3). split_and!; try done. unfold attempts_left in *. lia.
  - set (cb' := RetrySendCallback.mk _ _ _ _ _). set (request := wrapSendMessageRequest _ _ _ _ _).
    assert (Hb' : belongs max w cb').
    { split; [|done]. refine (conj eq_refl (conj Hk (conj Ec (conj Em _)))). by apply set_traceContext_payload. }
    split; [|intros Hst; apply attempt_issued; [exact (RemoteCalls.t_inv _ _ _ (v_tracked _ _ _ Hx))|done]].
    intros y Ey. eapply sinv_issue in Ey as (Y1 & Y2 & Y3); try done.
    + split_and!; try done. rewrite Y3. unfold credit, attempts_left. cbn. lia.
    + cbn. fold q. intros E. by rewrite E in Ea.
    + subst request. cbn. fold q. apply wrap_ext; apply Hp.
Qed.

(** [send0] adds a send and starts it. *)
Lemma sinv_new x w :
  sinv s None x -> told w = [] ->
  let y := set_sends (sends x ++ [w]) x in
  sinv s (Some (length (sends x))) y /\ vacant (length (sends x)) w y /\ unaccepted (length (sends x)) y
  /\ forall n cb, log x !! n <> Some (length (sends x), cb).
Proof.
  intros [H1 H2 H3 H4 H5 H6 H7 H8 H9 H10 H11 H12] Ht y. set (i := length (sends x)) in *.
  assert (Hnone : forall n cb, log x !! n <> Some (i, cb)).
  { intros n cb E. destruct (H5 n i cb E) as (w' & _ & E' & _). apply lookup_lt_Some in E'. unfold i in E'. lia. }
  assert (Hget : forall j w', sends y !! j = Some w' <-> sends x !! j = Some w' \/ (j = i /\ w' = w)).
  { intros j w'. cbn. rewrite lookup_app_Some, list_lookup_singleton_Some. fold i. split; [intros [?|(? & ? & <-)]|intros [?|[-> ->]]]; try tauto.
    - right. split; [lia|done].
    - right. split; [lia|]. split; [lia|done]. }
  split; [|split; [|split; [|done]]].
  - split; try done.
    + intros n j cb E. destruct (H5 n j cb E) as (w' & c & E1 & E2). exists w', c. split; [apply Hget; by left|done].
    + intros n j cb w' E [E'|[-> ->]]%Hget; [by eapply H8|done].
    + intros j w' [E'|[-> ->]]%Hget; [by eapply H9|]. rewrite Ht. cbn. lia.
    + intros j w' v [E'|[-> ->]]%Hget; [by eapply H10|by rewrite Ht].
    + intros j w' n cb c l r Hj [E'|[-> ->]]%Hget; [by eapply H11|done].
    + intros j w' Hst Hj [E'|[-> ->]]%Hget; [by eapply H12|done].
  - split; [apply Hget; by right|]. split; [done|]. intros n cb E. by apply H4, Hnone in E.
  - intros n cb c l r E. by apply Hnone in E.
Qed.

Lemma sinv_send message queues x y :
  sinv s None x -> send0 message queues x = Some y -> sinv s None y /\ state_of y = state_of x.
Proof.
  intros Hx. unfold send0. rewrite (v_producer _ _ _ Hx).
  destruct (sinv_new x (mkSend message queues []) Hx eq_refl) as (Hi & Hv & Hu & Hn).
  set (i := length (sends x)) in *. set (x1 := set_sends _ x) in *.
  destruct (validate message); cbn [negb]; [|intros [= <-]; split; [by eapply sinv_tell|done]].
  case_bool_decide as Hq; [intros [= <-]; split; [by eapply sinv_tell|done]|].
  destruct (Z.leb_spec max 0); [intros [= <-]; split; [by eapply sinv_tell|done]|].
  intros E. cut (sinv s None y /\ state_of y = state_of x1 /\ (potential y <= potential x1 + 4 * attempts_left (RetrySendCallback.make message max queues))%nat).
  { intros (Y1 & Y2 & _). by split. }
  refine (proj1 (attempt_spec _ i _ _ x1 Hi Hv Hu _ (le_n _) _) y E).
  - split; [|done]. unfold at_attempt. cbn. split_and!; try done; lia.
  - intros n cb El. by apply Hn in El.
Qed.

(** *** The callback of a call *)

Lemma invoke_send o c m :
  is_send o (RemoteCalls.unanswered c) ->
  exists z, came_back c = Some z
    /\ RemoteCalls.invoke c m = (m, RemoteCalls.tell (send_completion (Some (ClientManagerImpl.state_ m)) z) id).
Proof.
  destruct c as [[] r cl ctx cb res]; cbn; try done. intros ->. eexists. split; [reflexivity|]. reflexivity.
Qed.

(** Once its callback is over, the send of a call is between two attempts. *)
Lemma sinv_reported x k n' :
  sinv s None x -> RemoteCalls.finish no_throw k (net x) = Some n' ->
  exists j i cb c l w,
    let x1 := mk (producer x) (sends x) (delete j (owners x)) (log x) n' in
    last (RemoteCalls.reports n') = Some (j, (c, l)) /\ owners x !! j = Some (i, cb)
    /\ sinv s (Some i) x1 /\ vacant i w x1 /\ belongs max w cb
    /\ log x !! j = Some (i, cb) /\ (j, (c, l)) ∈ RemoteCalls.reports n'
    /\ (forall n cb', log x !! n = Some (i, cb') -> attempt_times_ cb' <= attempt_times_ cb)
    /\ (forall n cb' c' l' r, log x !! n = Some (i, cb') -> (n, (c', l')) ∈ RemoteCalls.reports n' -> inr r ∈ l' -> n = j /\ l' = l)
    /\ (exists z, came_back c = Some z /\ l = RemoteCalls.tell (send_completion (Some (state_of x)) z) id)
    /\ state_of x1 = state_of x /\ potential x = S (potential x1 + 4 * credit (i, cb)).
Proof.
  intros [H1 H2 H3 H4 H5 H6 H7 H8 H9 H10 H11 H12] Ef.
  destruct (RemoteCalls.tracked_finish no_throw is_send (owners x) k (net x) n' H2 Ef)
    as (j & c & [i cb] & Er & Em & Ho & Htag & Htr & Ei & Ew).
  destruct (invoke_send _ c (RemoteCalls.manager (net x)) Htag) as (z & Ez & Einv). rewrite Einv in Er, Em. cbn [fst snd] in Er, Em.
  pose proof (H4 j _ Ho) as Elog. destruct (H5 j i cb Elog) as (w & c0 & Esend & _ & Hb & _).
  set (l := RemoteCalls.tell _ id) in Er.
  assert (Hrep : forall n c' l', (n, (c', l')) ∈ RemoteCalls.reports n' <-> (n, (c', l')) ∈ RemoteCalls.reports (net x) \/ (n = j /\ c' = c /\ l' = l)).
  { intros n c' l'. rewrite Er, elem_of_app, list_elem_of_singleton. split; [intros [?|[= -> -> ->]]|intros [?|(-> & -> & ->)]]; tauto. }
  exists j, i, cb, c, l, w. cbn zeta. set (x1 := mk _ _ _ _ n').
  assert (Ht : told w = []) by (by eapply H8).
  split; [by rewrite Er, last_snoc|]. split; [done|]. split; [|split; [|split; [done|split; [done|split; [by apply Hrep; right|split; [|split; [|split; [by exists z|split]]]]]]]].
  - split; cbn [x1 producer sends owners log net]; try done.
    + by rewrite Ei.
    + intros n o [_ E]%lookup_delete_Some. by apply H4.
    + rewrite Ei. exact H5.
    + intros n i' a n0 b [_ E]%lookup_delete_Some. by eapply H7.
    + intros n i' a w' [_ E]%lookup_delete_Some. by eapply H8.
    + intros i' w' v E1 E2. destruct (H10 i' w' v E1 E2) as (n & a & c' & l' & r & F1 & F2 & F3). exists n, a, c', l', r.
      split; [done|]. split; [apply Hrep; by left|done].
    + intros i' w' n a c' l' r Hi E1 E2 [Hin|(-> & -> & ->)]%Hrep; [by eapply H11|]. congruence.
    + intros i' w' Hst Hi E1 E2. destruct (H12 i' w') as (n & a & E); try done; [by rewrite <- Em|].
      exists n, a. rewrite lookup_delete_ne; [done|]. intros <-. congruence.
  - split_and!; [done|done|]. intros n a E. cbn in E. apply lookup_delete_Some in E as [Hn E].
    pose proof (H7 n i a j cb E Elog). pose proof (H7 j i cb n a Ho (H4 _ _ E)). lia.
  - intros n cb' E. pose proof (H7 j i cb n cb' Ho E) as Hle. destruct (decide (n = j)) as [->|Hn]; [rewrite Elog in E; injection E as <-; lia|].
    pose proof (H6 n j i cb' cb E Elog ltac:(lia)). lia.
  - intros n cb' c' l' r E [Hin|(-> & -> & ->)]%Hrep Hr; [|done]. exfalso.
    assert (X : told w = [inr (onSuccess r cb')]) by (by eapply H11). by rewrite Ht in X.
  - cbn. by rewrite Em.
  - unfold potential. cbn [x1 owners net]. rewrite (credits_delete _ _ _ Ho). lia.
Qed.

Lemma sinv_unskip i x : sinv s (Some i) x -> unaccepted i x -> state_of x <> STARTED -> sinv s None x.
Proof.
  intros [H1 H2 H3 H4 H5 H6 H7 H8 H9 H10 H11 H12] Hu Hst. split; try done.
  intros j w n cb c l r _ E1 E2 E3 E4. destruct (decide (j = i)) as [->|Hj]; [by destruct (Hu n cb c l r E2 E3)|].
  eapply H11; try done. congruence.
Qed.

Lemma sinv_finish k alive x :
  sinv s None x ->
  (forall y, step (Finish k alive) x = Some y ->
     sinv s None y /\ state_of y = state_of x /\ (potential y < potential x)%nat)
  /\ (state_of x = STARTED -> (k < length (ThreadPoolImpl.busy_ (RemoteCalls.pool (net x))))%nat -> is_Some (step (Finish k alive) x)).
Proof.
  intros Hx. cbn [step].
  assert (Hen : (k < length (ThreadPoolImpl.busy_ (RemoteCalls.pool (net x))))%nat -> is_Some (RemoteCalls.finish no_throw k (net x))).
  { intros Hk. by eapply RemoteCalls.finish_enabled; [exact (v_tracked _ _ _ Hx)| |]. }
  destruct (RemoteCalls.finish no_throw k (net x)) as [n'|] eqn:Ef; [|split; [done|]; intros _ Hk; by destruct (Hen Hk)].
  destruct (sinv_reported x k n' Hx Ef) as (j & i & cb & c & l & w & El & Eo & Hi & Hv & Hb & Elog & Hin & Hle & Honly & (z & Ez & Etold) & Est & Ep).
  cbn [mbind option_bind]. rewrite El. cbn [mbind option_bind]. rewrite Eo. cbn [mbind option_bind].
  set (x1 := mk (producer x) (sends x) (delete j (owners x)) (log x) n') in *.
  assert (Hun : (forall r, inr r ∉ l) -> unaccepted i x1).
  { intros Hl n cb' c' l' r E Hin' Hr. destruct (Honly n cb' c' l' r E Hin' Hr) as [_ ->]. by apply Hl in Hr. }
  pose proof (send_completion_correct (Some (state_of x)) z) as Hc.
  destruct (send_completion (Some (state_of x)) z) as [[ec|r]|]; cbn in Etold; subst l; cbn [on_reports on_report].
  - assert (Hu : unaccepted i x1) by (apply Hun; intros r; by rewrite list_elem_of_singleton).
    pose proof (onFailure_cases w cb ec alive Hb) as Ho. cbn [id].
    destruct (onFailure alive ec cb) as [ec'|cb']; cbn [mbind option_bind].
    + split; [|by eexists]. intros y [= <-]. split; [by eapply sinv_tell|]. split; [exact Est|].
      change (potential (tell i (inl ec') x1)) with (potential x1). lia.
    + destruct Ho as [Hb' Ek]. pose proof Hb as [(_ & Hk0 & _ & Em & _) _]. pose proof Hb' as [(_ & Hk' & _ & Em' & _) _].
      destruct (attempt_spec (attempts_left cb') i w cb' x1 Hi Hv Hu Hb' (le_n _)) as [A1 A2].
      { intros n cb0 E. specialize (Hle n cb0 E). lia. }
      split.
      * intros y E. destruct (attempt (attempts_left cb') i cb' x1) as [y'|] eqn:Ea; [|done]. injection E as <-.
        destruct (A1 y' eq_refl) as (Y1 & Y2 & Y3). split; [done|]. split; [congruence|].
        unfold credit, attempts_left in *. cbn [snd] in Ep. lia.
      * intros Hst _. destruct A2 as [y' ->]; [by rewrite Est|]. by eexists.
  - split; [|by eexists]. intros y [= <-]. split; [|split; [exact Est|change (potential (tell i (inr (onSuccess r cb)) x1)) with (potential x1); lia]].
    eapply sinv_tell; [exact Hi|exact Hv|]. split.
    + exists j, cb, c, [inr r], r. split_and!; try done. by rewrite list_elem_of_singleton.
    + intros n cb' c' l' r' E Hin' Hr. destruct (Honly n cb' c' l' r' E Hin' Hr) as [-> ->].
      apply list_elem_of_singleton in Hr as [= ->]. cbn in E. rewrite Elog in E. by injection E as <-.
  - split; [|by eexists]. intros y [= <-]. split; [|split; [exact Est|lia]]. apply (sinv_unskip i); [done| |].
    + apply Hun. intros r. apply not_elem_of_nil.
    + rewrite Est. intros E. by rewrite E in Hc.
Qed.

Lemma sinv_net a x n :
  sinv s None x -> RemoteCalls.below a ->
  RemoteCalls.step no_throw zlib_crc32 MD5 SHA1 zlib fresh DebugString a (net x) = Some n -> sinv s None (set_net n x).
Proof.
  intros [H1 H2 H3 H4 H5 H6 H7 H8 H9 H10 H11 H12] Ha E. destruct (RemoteCalls.step_below _ _ _ _ _ _ _ a (net x) n Ha E) as [Ei Er].
  pose proof (RemoteCalls.below_started _ _ _ _ _ _ _ a (net x) n Ha E) as Hst.
  split; cbn [set_net producer sends owners log net]; rewrite ?Ei, ?Er; try done.
  - by eapply RemoteCalls.tracked_below.
  - intros i w Hn. apply H12. by apply Hst.
Qed.

Lemma sinv_step a x y : sinv s None x -> step a x = Some y -> sinv s None y.
Proof.
  intros Hx. destruct a as [message queues|a|k alive].
  - intros E. by apply (sinv_send message queues x y Hx E).
  - cbn [step]. case_decide as Ha; [|done]. destruct (RemoteCalls.step _ _ _ _ _ _ _ a (net x)) as [n|] eqn:E; [|done].
    cbn. intros [= <-]. by eapply sinv_net.
  - intros E. by apply (sinv_finish k alive x Hx).
Qed.

Lemma sinv_run l x y : sinv s None x -> run l x = Some y -> sinv s None y.
Proof.
  revert x. induction l as [|a l IH]; intros x Hx; cbn [run]; [by intros [= <-]|].
  destruct (step a x) as [x1|] eqn:E; [|done]. cbn. apply IH. by eapply sinv_step.
Qed.

(** *** While the manager is started every report tells something *)

Lemma issue_reports i target request cb x y :
  issue i target request cb x = Some y -> RemoteCalls.reports (net y) = RemoteCalls.reports (net x).
Proof.
  unfold issue. cbn [RemoteCalls.perform]. unfold RemoteCalls.send, RemoteCalls.with_client.
  destruct (ClientManagerImpl.getRpcClient _ _ _ _) as [cl m']. unfold RemoteCalls.asyncSend, RemoteCalls.async. cbn.
  destruct (RemoteCalls.queue_shutdown (net x)); [done|]. by intros [= <-].
Qed.

Lemma attempt_reports fuel i cb x y :
  attempt fuel i cb x = Some y -> RemoteCalls.reports (net y) = RemoteCalls.reports (net x).
Proof.
  revert cb. induction fuel as [|fuel IH]; intros cb; cbn [attempt]; [done|].
  destruct (sendImpl _ _ _) as [[ec|[[target request] cb']]|]; cbn [mbind option_bind]; [|by apply issue_reports|done].
  destruct (onFailure true ec cb) as [ec'|cb']; [by intros [= <-]|by apply IH].
Qed.

Lemma on_reports_reports alive i cb l x y :
  on_reports alive i cb l x = Some y -> RemoteCalls.reports (net y) = RemoteCalls.reports (net x).
Proof.
  revert x. induction l as [|v l IH]; intros x; cbn [on_reports]; [by intros [= <-]|].
  destruct (on_report alive i cb v x) as [x1|] eqn:E; [|done]. cbn [mbind option_bind]. intros H. rewrite (IH _ H). revert E.
  unfold on_report. destruct v as [ec|r]; [|by intros [= <-]].
  destruct (onFailure alive ec cb) as [ec'|cb']; [by intros [= <-]|apply attempt_reports].
Qed.

Definition reports_tell (x : t) : Prop :=
  state_of x = STARTED -> forall n c l, (n, (c, l)) ∈ RemoteCalls.reports (net x) -> l <> [].

Lemma reports_tell_send message queues x y : send0 message queues x = Some y -> RemoteCalls.reports (net y) = RemoteCalls.reports (net x).
Proof.
  unfold send0. destruct (validate message); cbn [negb]; [|by intros [= <-]].
  case_bool_decide; [by intros [= <-]|]. destruct (_ <=? 0); [by intros [= <-]|]. intros E. by rewrite (attempt_reports _ _ _ _ _ E).
Qed.

Lemma reports_tell_step a x y : sinv s None x -> reports_tell x -> step a x = Some y -> reports_tell y.
Proof.
  intros Hx Ht E Hst. pose proof E as E'. destruct a as [message queues|a|k alive]; cbn [step] in E.
  - rewrite (reports_tell_send _ _ _ _ E). apply Ht. rewrite <- Hst. symmetry. by apply (sinv_send message queues x y Hx).
  - case_decide as Ha; [|done]. destruct (RemoteCalls.step _ _ _ _ _ _ _ a (net x)) as [n|] eqn:En; [|done].
    injection E as <-. cbn [set_net net] in *. destruct (RemoteCalls.step_below _ _ _ _ _ _ _ a (net x) n Ha En) as [_ ->].
    apply Ht. by apply (RemoteCalls.below_started _ _ _ _ _ _ _ a (net x) n Ha En).
  - destruct (proj1 (sinv_finish k alive x Hx) y E') as (_ & Est & _). rewrite Hst in Est.
    destruct (RemoteCalls.finish no_throw k (net x)) as [n'|] eqn:Ef; [|done].
    destruct (sinv_reported x k n' Hx Ef) as (j & i & cb & c & l & w & El & Eo & _ & _ & _ & _ & _ & _ & _ & (z & _ & Etold) & _).
    cbn [mbind option_bind] in E. rewrite El in E. cbn [mbind option_bind] in E. rewrite Eo in E. cbn [mbind option_bind] in E.
    rewrite (on_reports_reports _ _ _ _ _ _ E). cbn [net].
    destruct (RemoteCalls.tracked_finish no_throw is_send (owners x) k (net x) n' (v_tracked _ _ _ Hx) Ef)
      as (j' & c' & o' & Er & _). rewrite Er in El. rewrite last_snoc in El. injection El as -> -> El. rewrite Er, El.
    intros n c0 l0 [Hin|[= -> -> ->]%list_elem_of_singleton]%elem_of_app; [by eapply (Ht (eq_sym Est))|].
    pose proof (send_completion_correct (Some (state_of x)) z) as Hc. rewrite Etold.
    destruct (send_completion (Some (state_of x)) z); [done|]. by rewrite <- Est in Hc.
Qed.

Lemma reports_tell_run l x y : sinv s None x -> reports_tell x -> run l x = Some y -> reports_tell y.
Proof.
  revert x. induction l as [|a l IH]; intros x Hx Ht; cbn [run]; [by intros [= <-]|].
  destruct (step a x) as [x1|] eqn:E; [|done]. cbn. apply IH; [by eapply sinv_step|by eapply reports_tell_step].
Qed.

(** What the report of a call of a send told. *)
Lemma report_of x n i cb c l :
  sinv s None x -> log x !! n = Some (i, cb) -> (n, (c, l)) ∈ RemoteCalls.reports (net x) ->
  exists z st, came_back c = Some z /\ l = RemoteCalls.tell (send_completion (Some st) z) id.
Proof.
  intros Hx El Hin. pose proof (v_tracked _ _ _ Hx) as Ht.
  destruct (RemoteCalls.i_reports _ (RemoteCalls.t_inv _ _ _ Ht) n c l Hin) as (Ei & m0 & E).
  destruct (v_call _ _ _ Hx n i cb El) as (w' & c' & _ & E5 & _ & Hc). rewrite Ei in E5. injection E5 as <-.
  destruct (invoke_send (i, cb) c m0) as (z & Ez & Einv).
  { destruct c as [[] ? ? ? ? ?]; cbn in Hc; try done. by destruct Hc as (_ & -> & _). }
  rewrite Einv in E. by exists z, (ClientManagerImpl.state_ m0).
Qed.

(** The steps that bring the sends to their end. *)
Definition internal (a : action) : Prop :=
  match a with Net a => RemoteCalls.internal a /\ RemoteCalls.below a | Finish _ _ => True | Send _ _ => False end.

Lemma sends_progress x n alive :
  sinv s None x -> state_of x = STARTED -> is_Some (owners x !! n) -> exists a y, internal a /\ step a x = Some y
    /\ match a with Finish _ b => b = alive | _ => True end.
Proof.
  intros Hx Hst Hn. pose proof (RemoteCalls.t_inv _ _ _ (v_tracked _ _ _ Hx)) as Hinv.
  apply (RemoteCalls.t_owned _ _ _ (v_tracked _ _ _ Hx)), (RemoteCalls.context_works _ n Hinv Hst) in Hn as Hw.
  destruct (RemoteCalls.internal_enabled no_throw zlib_crc32 MD5 SHA1 zlib fresh DebugString (net x) Hinv
              (or_intror (fun _ => eq_refl)) Hst Hw) as (a & n' & Hi & E).
  destruct (decide (RemoteCalls.below a)) as [Hb|Hb].
  - exists (Net a), (set_net n' x). split; [done|]. split; [|done]. cbn [step]. rewrite decide_True by done. by rewrite E.
  - destruct a as [o op|k ok z| | |k| | | | |]; try (by destruct Hb).
    cbn [RemoteCalls.step] in E. unfold RemoteCalls.finish in E.
    destruct (ThreadPoolImpl.busy_ (RemoteCalls.pool (net x)) !! k) as [[j ok]|] eqn:Eb; [|done]. apply lookup_lt_Some in Eb.
    destruct (proj2 (sinv_finish k alive x Hx) Hst Eb) as [y Ey]. by exists (Finish k alive), y.
Qed.

Lemma sends_decrease a x y :
  sinv s None x -> state_of x = STARTED -> internal a -> step a x = Some y ->
  (potential y < potential x)%nat /\ state_of y = STARTED.
Proof.
  intros Hx Hst Hi. destruct a as [message queues|a|k alive]; try done.
  - destruct Hi as [Hi Hb]. cbn [step]. rewrite decide_True by done.
    destruct (RemoteCalls.step _ _ _ _ _ _ _ a (net x)) as [n|] eqn:E; [|done]. cbn [mbind option_bind]. intros [= <-].
    destruct (RemoteCalls.internal_decreases _ _ _ _ _ _ _ a _ _ (RemoteCalls.t_inv _ _ _ (v_tracked _ _ _ Hx)) Hi Hst E) as [Hd Hs].
    unfold potential. cbn [set_net owners net]. split; [lia|exact Hs].
  - intros E. destruct (proj1 (sinv_finish k alive x Hx) y E) as (_ & E1 & E2). split; [done|congruence].
Qed.

(** C2: many sends at a time over the network.  In every interleaving of new sends with the
    network, the poller, the workers and the shutdown of the manager, under a producer with
    a credentials provider: the callback of each send is invoked at most once; attempt [k]
    of a send is a call to the broker of its candidate [k] modulo their number, with the
    message of the send; the attempts of one send are numbered upwards below the configured
    maximum; a success is the answer of a call of that send which the broker accepted.
    Conversely the report of an accepted call has told the callback success, with the
    identifiers of the answer, unless the manager was no longer started when it was
    reported: the report is then dropped.  While the manager is started no report is
    dropped, a send that was not answered has a call under way; as long as there is one the
    network, the poller or a worker can take a step, each of which brings the sends nearer to
    their end, retries included. *)
Theorem sends_over_network m l x :
  run l (make s m) = Some x ->
  (forall i w, sends x !! i = Some w ->
     (length (told w) <= 1)%nat
     /\ (forall n cb, log x !! n = Some (i, cb) -> 0 <= attempt_times_ cb < max
           /\ exists c, RemoteCalls.issued (net x) !! n = Some c /\ call_of s n w cb c)
     /\ (forall n n' cb cb', log x !! n = Some (i, cb) -> log x !! n' = Some (i, cb') -> (n < n')%nat ->
           attempt_times_ cb < attempt_times_ cb')
     /\ (forall v, told w = [inr v] -> exists n cb c l r z,
           log x !! n = Some (i, cb) /\ (n, (c, l)) ∈ RemoteCalls.reports (net x) /\ came_back c = Some z /\ accepted z
           /\ SendResult.message_id_ r = rmq.send_message_id (response z)
           /\ SendResult.transaction_id_ r = rmq.send_transaction_id (response z) /\ v = onSuccess r cb)
     /\ (forall n cb c l, log x !! n = Some (i, cb) -> (n, (c, l)) ∈ RemoteCalls.reports (net x) ->
           exists z, came_back c = Some z
             /\ (accepted z ->
                  (exists r, told w = [inr (onSuccess r cb)] /\ SendResult.message_id_ r = rmq.send_message_id (response z)
                     /\ SendResult.transaction_id_ r = rmq.send_transaction_id (response z))
                  \/ (l = [] /\ state_of x <> STARTED))))
  /\ (state_of x = STARTED ->
        (forall i w, sends x !! i = Some w -> told w = [] -> exists n cb, owners x !! n = Some (i, cb))
        /\ (forall alive n, is_Some (owners x !! n) ->
              exists a y, internal a /\ step a x = Some y /\ match a with Finish _ b => b = alive | _ => True end)
        /\ (forall a y, internal a -> step a x = Some y -> (potential y < potential x)%nat /\ state_of y = STARTED)).
Proof.
  intros Hr. pose proof (sinv_run l _ x (sinv_make s m) Hr) as Hx. split.
  - intros i w Hw. split; [by apply (v_once _ _ _ Hx i)|]. split; [|split; [|split]].
    + intros n cb E. destruct (v_call _ _ _ Hx n i cb E) as (w' & c & E1 & E2 & [(_ & Hk & _) _] & Hc).
      rewrite Hw in E1. injection E1 as <-. split; [done|]. by exists c.
    + intros n n' cb cb'. apply (v_order _ _ _ Hx).
    + intros v Hv. destruct (v_success _ _ _ Hx i w v Hw Hv) as (n & cb & c & l0 & r & E1 & E2 & E3 & E4).
      destruct (report_of x n i cb c l0 Hx E1 E2) as (z & st & Ez & El).
      pose proof (send_completion_correct (Some st) z) as Hs.
      exists n, cb, c, l0, r, z. destruct (send_completion _ z) as [[ec|r']|]; cbn [RemoteCalls.tell] in El; subst l0.
      * by apply list_elem_of_singleton in E3.
      * apply list_elem_of_singleton in E3 as [= ->]. destruct Hs as (_ & S1 & S2 & S3 & S4). by split_and!.
      * by apply not_elem_of_nil in E3.
    + intros n cb c l0 E1 E2. destruct (report_of x n i cb c l0 Hx E1 E2) as (z & st & Ez & El). exists z. split; [done|].
      intros [Hok Hcode]. pose proof (send_completion_correct (Some st) z) as Hs.
      destruct (send_completion (Some st) z) as [[ec|r]|]; cbn [RemoteCalls.tell] in El.
      * destruct Hs as (_ & _ & Hs). by destruct Hs.
      * left. exists r. destruct Hs as (_ & _ & _ & S3 & S4). split; [|done].
        eapply (v_accepted _ _ _ Hx); try done. rewrite El. by apply list_elem_of_singleton.
      * right. split; [done|]. intros Hst. eapply (reports_tell_run l _ x (sinv_make s m)); try done.
        intros _ n' c' l' H'. by apply not_elem_of_nil in H'.
  - intros Hst. split; [|split].
    + intros i w. by apply (v_pending _ _ _ Hx).
    + intros alive n. by apply sends_progress.
    + intros a y. by apply sends_decrease.
Qed.
End sending.
End send_node.

(** ** Two sends, of which the first is retried *)
Definition example_call_env : CallEnv :=
  mkCallEnv (fun _ => example_env) (fun _ => None) (fun _ => "20211101T000000Z"%string) (fun _ => "0100"%string) (fun _ _ => true).
Definition example_refusal (m : RemoteCalls.Method) : Completion (RemoteCalls.response_of m) :=
  mkCompletion false (RemoteCalls.response_default m).
Definition example_acceptance (m : RemoteCalls.Method) : Completion (RemoteCalls.response_of m) :=
  match m with
  | RemoteCalls.SendMessage => mkCompletion true (rmq.mkSendMessageResponse (rmq.mkResponseCommon OK "") "id-1" "tx-1")
  | m => RemoteCalls.example_answer m
  end.
(** The second send is accepted first; the first one times out and is tried again. *)
Definition example_history : list action :=
  let queues := TopicPublishInfo.getMessageQueueList example_publish in
  [Send example_outgoing queues; Send example_outgoing queues;
   Net (RemoteCalls.Complete 1 true example_acceptance); Net (RemoteCalls.Complete 0 true example_refusal);
   Net RemoteCalls.Poll; Net RemoteCalls.Poll; Net RemoteCalls.Begin; Net RemoteCalls.Begin; Finish 0 true; Finish 0 true].
Definition example_run :=
  run (C := gset string) toy_crc32 (fun _ => None) (fun _ => []) toy_zlib toy_fresh (fun _ => ""%string) (fun _ _ => [])
    example_call_env example_history (make example_producer RemoteCalls.example_manager).

Lemma sends_example_outcome :
  option_map (fun x => (map (fun w => map (fun v => match v with inr r => SendResult.message_id_ r | inl _ => ""%string end) (told w))
                          (sends x),
                        map (fun o => (fst o, attempt_times_ (snd o))) (log x),
                        bool_decide (ClientManagerImpl.state_ (RemoteCalls.manager (net x)) = STARTED))) example_run
  = Some ([[]; ["id-1"%string]], [(0%nat, 0); (1%nat, 0); (0%nat, 1)], true).
Proof. vm_compute. reflexivity. Qed.

(** A call the broker accepted whose callback runs once shutdown has begun: its report is
    dropped, and the caller of the send is told nothing. *)
Lemma accepted_report_dropped :
  option_map (fun x => (map told (sends x),
      map (fun e => (option_map (fun z => (status_ok z, rmq.code (rmq.send_common (response z)))) (came_back (fst (snd e))), snd (snd e)))
        (RemoteCalls.reports (net x)), size (owners x)))
    (run (C := gset string) toy_crc32 (fun _ => None) (fun _ => []) toy_zlib toy_fresh (fun _ => ""%string) (fun _ _ => [])
       example_call_env
       [Send example_outgoing (TopicPublishInfo.getMessageQueueList example_publish);
        Net (RemoteCalls.Complete 0 true example_acceptance); Net RemoteCalls.Poll; Net RemoteCalls.Begin;
        Net RemoteCalls.ShutdownBegin; Finish 0 true]
       (make example_producer RemoteCalls.example_manager))
  = Some ([[]], [(Some (true, OK), [])], 0%nat).
Proof. vm_compute. reflexivity. Qed.

Lemma sends_over_network_witness :
  exists x w0 w1, example_run = Some x /\ sends x = [w0; w1] /\ told w0 = []
    /\ (exists n cb, owners x !! n = Some (0%nat, cb))
    /\ exists v, told w1 = [inr v] /\ SendResult.message_id_ v = "id-1"%string.
Proof.
  pose proof sends_example_outcome as H. destruct example_run as [x|] eqn:E; [|discriminate]. injection H as H1 _ H3.
  destruct (sends_over_network toy_crc32 (fun _ => None) (fun _ => []) toy_zlib toy_fresh (fun _ => ""%string) (fun _ _ => [])
              example_call_env example_producer eq_refl eq_refl RemoteCalls.example_manager example_history x E) as [Hs Hp].
  destruct (sends x) as [|w0 [|w1 [|? ?]]] eqn:Ew; try discriminate H1. injection H1 as H0 H1.
  apply bool_decide_eq_true in H3. destruct (Hp H3) as [Hlive _].
  exists x, w0, w1. split; [reflexivity|]. split; [exact Ew|].
  assert (Ht : told w0 = []) by (destruct (told w0); [reflexivity|discriminate H0]).
  split; [exact Ht|]. split; [exact (Hlive 0%nat w0 eq_refl Ht)|].
  destruct (told w1) as [|[ec|v] [|? ?]] eqn:Et; try discriminate H1.
  exists v. split; [reflexivity|]. injection H1 as H1. exact H1.
Defined.
End SendNode.
