(* ===== verification/ProducerFacade.v ===== *)
(** * The producer as the application configures it.

    The settings of [DefaultMQProducer] (rocketmq/DefaultMQProducer.cpp), which forward to
    [ProducerImpl] and [ClientConfigImpl], the choice of the name server resolver, and [start]
    and [shutdown]; the flavours of sending are in Facade.  [None] is [abort()], the
    dereference of a null pointer or a discovery endpoint that is refused. *)

From S2P Require Import Prelude Types Message MixAll Proto Route NameServer Config Codec ClientManager ClientImpl Producer.

Module ProducerFacade.

(** [impl_], with the member of its base class that Producer does not have. *)
Record t := mk {
  impl_ : ProducerImpl.t;
  name_server_resolver_ : option Resolver;
}.

Definition make (group_name : string) : t := mk (ProducerImpl.make group_name) None.

Definition set_impl (f : ProducerImpl.t -> ProducerImpl.t) (s : t) : t :=
  mk (f (impl_ s)) (name_server_resolver_ s).

Definition set_config (f : ClientConfigImpl.t -> ClientConfigImpl.t) : t -> t :=
  set_impl (fun p => ProducerImpl.set_client (ClientImpl.with_config f (ProducerImpl.client p)) p).

Definition config (s : t) : ClientConfigImpl.t := ClientImpl.config (ProducerImpl.client (impl_ s)).

Definition withNameServerResolver (r : Resolver) (s : t) : t := mk (impl_ s) (Some r).

Section facade.
(** [absl::SimpleAtoi], the host information of the environment and the client id. *)
Context (SimpleAtoi : string -> option Z) (host_info : HostInfo.t) (client_id : string).

Definition getSendMsgTimeout (s : t) : Z := ClientConfigImpl.io_timeout_ (config s).
Definition setSendMsgTimeout (timeout : Z) : t -> t := set_config (ClientConfigImpl.setIoTimeout timeout).
Definition setNamesrvAddr (name_server_address_list : string) : t -> t :=
  withNameServerResolver (StaticResolver (StaticNameServerResolver.make name_server_address_list)).
Definition setNameServerListDiscoveryEndpoint (discovery_endpoint : string) (s : t) : option t :=
  r ← DynamicNameServerResolver.make SimpleAtoi host_info discovery_endpoint;
  Some (withNameServerResolver (DynamicResolver r) s).
Definition setGroupName (x : string) : t -> t := set_config (ClientConfigImpl.setGroupName x).
Definition setInstanceName (x : string) : t -> t := set_config (ClientConfigImpl.setInstanceName x).
Definition enableTracing (x : bool) : t -> t := set_config (ClientConfigImpl.enableTracing x).
Definition isTracingEnabled (s : t) : bool := ClientConfigImpl.enable_tracing_ (config s).
Definition setLocalTransactionStateChecker (f : MQMessage.t -> TransactionState) : t -> t :=
  set_impl (ProducerImpl.setLocalTransactionStateChecker f).
Definition setMaxAttemptTimes (n : Z) : t -> t := set_impl (ProducerImpl.maxAttemptTimes n).
Definition getMaxAttemptTimes (s : t) : Z := ProducerImpl.max_attempt_times (impl_ s).
Definition setUnitName (x : string) : t -> t := set_config (ClientConfigImpl.setUnitName x).
Definition getUnitName (s : t) : string := ClientConfigImpl.unit_name_ (config s).
Definition getCompressBodyThreshold (s : t) : Z := ProducerImpl.compress_body_threshold_ (impl_ s).
Definition compressBodyThreshold (n : Z) : t -> t := set_impl (ProducerImpl.compressBodyThreshold n).
Definition setResourceNamespace (x : string) : t -> t := set_config (ClientConfigImpl.setResourceNamespace x).
Definition setCredentialsProvider (x : bool) : t -> t := set_config (ClientConfigImpl.setCredentialsProvider x).
Definition setRegion (x : string) : t -> t := set_config (ClientConfigImpl.region x).

(** [start]: a client that was not started yet and has no resolver aborts. *)
Definition start (handle : Z) (s : t) : option (t * list ClientImpl.effect * bool) :=
  if bool_decide (ClientImpl.state_ (ProducerImpl.client (impl_ s)) = CREATED)
     && bool_decide (name_server_resolver_ s = None)
  then None
  else
    let '(p, effects, observe) := ProducerImpl.start handle (impl_ s) in
    Some (set_impl (fun _ => p) s, effects, observe).

(** [shutdown] calls the resolver unconditionally. *)
Definition shutdown (s : t) : option (t * list ClientImpl.effect) :=
  _ ← name_server_resolver_ s;
  let '(p, effects) := ProducerImpl.shutdown client_id (impl_ s) in
  Some (set_impl (fun _ => p) s, effects).

(** ** Configuring and starting a producer *)

Inductive setting :=
  | SendMsgTimeout (timeout : Z)
  | NamesrvAddr (name_server_address_list : string)
  | DiscoveryEndpoint (endpoint : string)
  | GroupName (x : string)
  | InstanceName (x : string)
  | Tracing (x : bool)
  | Checker (f : MQMessage.t -> TransactionState)
  | MaxAttemptTimes (n : Z)
  | UnitName (x : string)
  | CompressBodyThreshold (n : Z)
  | ResourceNamespace (x : string)
  | CredentialsProvider (x : bool)
  | Region (x : string).

Definition apply_setting (o : setting) (s : t) : option t :=
  match o with
  | SendMsgTimeout n => Some (setSendMsgTimeout n s)
  | NamesrvAddr x => Some (setNamesrvAddr x s)
  | DiscoveryEndpoint x => setNameServerListDiscoveryEndpoint x s
  | GroupName x => Some (setGroupName x s)
  | InstanceName x => Some (setInstanceName x s)
  | Tracing x => Some (enableTracing x s)
  | Checker f => Some (setLocalTransactionStateChecker f s)
  | MaxAttemptTimes n => Some (setMaxAttemptTimes n s)
  | UnitName x => Some (setUnitName x s)
  | CompressBodyThreshold n => Some (compressBodyThreshold n s)
  | ResourceNamespace x => Some (setResourceNamespace x s)
  | CredentialsProvider x => Some (setCredentialsProvider x s)
  | Region x => Some (setRegion x s)
  end.

Fixpoint configure (l : list setting) (s : t) : option t :=
  match l with [] => Some s | o :: l' => s' ← apply_setting o s; configure l' s' end.

(** What a list of settings asks for: of each kind, the last one, or the default. *)
Definition latest {A} (d : A) (f : setting -> option A) (l : list setting) : A := default d (last (omap f l)).

Definition max_attempts_of : list setting -> Z :=
  latest MixAll.MAX_SEND_MESSAGE_ATTEMPT_TIMES_ (fun o => match o with MaxAttemptTimes n => Some n | _ => None end).
Definition threshold_of : list setting -> Z :=
  latest MixAll.DEFAULT_COMPRESS_BODY_THRESHOLD_ (fun o => match o with CompressBodyThreshold n => Some n | _ => None end).
Definition config_of (group : string) (l : list setting) : ClientConfigImpl.t :=
  ClientConfigImpl.mk "ONS"
    (latest "" (fun o => match o with Region x => Some x | _ => None end) l)
    (latest "" (fun o => match o with ResourceNamespace x => Some x | _ => None end) l) ""
    (latest "DEFAULT" (fun o => match o with InstanceName x => Some x | _ => None end) l)
    (latest group (fun o => match o with GroupName x => Some x | _ => None end) l)
    (latest "" (fun o => match o with UnitName x => Some x | _ => None end) l)
    (latest 3000 (fun o => match o with SendMsgTimeout n => Some n | _ => None end) l) 30000
    (latest false (fun o => match o with Tracing x => Some x | _ => None end) l)
    (latest false (fun o => match o with CredentialsProvider x => Some x | _ => None end) l).
Definition provider_of (group : string) (l : list setting) : bool :=
  ClientConfigImpl.credentials_provider_ (config_of group l).
Definition has_resolver (l : list setting) : bool :=
  existsb (fun o => match o with NamesrvAddr _ | DiscoveryEndpoint _ => true | _ => false end) l.

(** A producer that was configured and not started. *)
Record fresh (group : string) (l : list setting) (s : t) : Prop := {
  fresh_state : ClientImpl.state_ (ProducerImpl.client (impl_ s)) = CREATED;
  fresh_config : config s = config_of group l;
  fresh_attempts : getMaxAttemptTimes s = max_attempts_of l;
  fresh_threshold : getCompressBodyThreshold s = threshold_of l;
  fresh_resolver : bool_decide (name_server_resolver_ s = None) = negb (has_resolver l);
}.

Lemma latest_snoc {A} (d : A) f l o : latest d f (l ++ [o]) = default (latest d f l) (f o).
Proof. unfold latest. rewrite last_omap_snoc. by destruct (f o). Qed.

Lemma producer_fresh_snoc group l o s s' : fresh group l s -> apply_setting o s = Some s' -> fresh group (l ++ [o]) s'.
Proof.
  intros [H1 H2 H3 H4 H5] E. unfold config_of, max_attempts_of, threshold_of in *.
  assert (Hr : has_resolver (l ++ [o]) = has_resolver l || has_resolver [o]) by apply existsb_app.
  destruct o; cbn [apply_setting] in E.
  3: { unfold setNameServerListDiscoveryEndpoint in E. destruct (DynamicNameServerResolver.make _ _ _); [|done].
       injection E as <-. split; unfold config_of, max_attempts_of, threshold_of;
         rewrite ?latest_snoc, ?Hr; try done. by rewrite orb_true_r. }
  all: injection E as <-; split; unfold config_of, max_attempts_of, threshold_of;
    rewrite ?latest_snoc, ?Hr; cbn [default has_resolver existsb orb] in *; rewrite ?orb_false_r, ?orb_true_r; try done.
  all: unfold config in *; cbn; rewrite H2; reflexivity.
Qed.

Lemma producer_configure_fresh group l s : configure l (make group) = Some s -> fresh group l s.
Proof.
  assert (H : forall k l0 s0, fresh group l0 s0 -> configure k s0 = Some s -> fresh group (l0 ++ k) s).
  { induction k as [|o k IH]; intros l0 s0 H0; cbn [configure]; [intros [= <-]; by rewrite app_nil_r|].
    destruct (apply_setting o s0) as [s1|] eqn:E; cbn [mbind option_bind]; [|done].
    intros Hc. rewrite cons_middle, app_assoc. apply (IH _ s1); [|done]. by eapply producer_fresh_snoc. }
  apply (H l [] (make group)). by split.
Qed.

(** A call carries the settings: namespace, group and compression. *)
Definition sent_as (group : string) (l : list setting) (m : MQMessage.t) (c : string * rmq.SendMessageRequest) : Prop :=
  let c' := config_of group l in
  let item := rmq.send_message (snd c) in
  fst c <> ""%string
  /\ rmq.message_topic item = rmq.mkResource (ClientConfigImpl.resource_namespace_ c') (MQMessage.getTopic m)
  /\ rmq.producer_group (rmq.system_attribute item)
     = rmq.mkResource (ClientConfigImpl.resource_namespace_ c') (ClientConfigImpl.group_name_ c')
  /\ (if threshold_of l <=? MQMessage.bodyLength m then rmq.body_encoding (rmq.system_attribute item) = rmq.GZIP
      else rmq.body_encoding (rmq.system_attribute item) = rmq.IDENTITY
           /\ rmq.body item = MQMessage.getBody m).

(** A running producer sends as its settings say. *)
Lemma running_sends group l p e route swq m :
  ClientImpl.config (ProducerImpl.client p) = config_of group l ->
  ProducerImpl.max_attempt_times p = max_attempts_of l -> ProducerImpl.compress_body_threshold_ p = threshold_of l ->
  max_attempts_of l < 2 ^ 31 -> provider_of group l = true -> (forall k, answer e k <> inl Success) ->
  exists p' swq' r, ProducerImpl.send e route swq m p = Some (p', swq', r)
    /\ Z.of_nat (length (calls_of (ProducerImpl.sync_calls r))) <= Z.max 0 (max_attempts_of l)
    /\ Forall (sent_as group l m) (calls_of (ProducerImpl.sync_calls r)).
Proof.
  intros Hc Ha Ht Hm Hp He. destruct (send_cases e route He swq m p) as (p' & w & r & E & Hc' & H);
    [unfold ProducerImpl.credentialsProvider; by rewrite Hc|by rewrite Ha|].
  exists p', w, r. split; [done|]. pose proof (send_keeps e route _ _ _ _ _ _ E) as (_ & _ & Ht'). rewrite Ht in Ht'.
  destruct H as [(_ & _ & H)|(_ & info & queues & n & _ & _ & _ & _ & Hends & _)].
  { assert (Hn : calls_of (ProducerImpl.sync_calls r) = []).
    { apply elem_of_nil_inv. intros [t q] Hin. by apply elem_of_calls_of, H in Hin. }
    rewrite Hn. split; [cbn; lia|constructor]. }
  rewrite Ha in Hends. split.
  - pose proof (ends_number e _ _ _ _ _ _ _ Hends). destruct Hends as (Hn & _). lia.
  - apply Forall_forall. intros [t q] Hin. apply elem_of_calls_of in Hin.
    destruct (ends_calls e _ _ _ _ _ _ _ _ _ Hends Hin) as (i & _ & _ & -> & Hne).
    unfold sent_as, ProducerImpl.wrapSendMessageRequest, ProducerImpl.resource_namespace_, ProducerImpl.group_name_.
    rewrite Hc', Hc, Ht'. cbn -[MQMessage.bodyLength config_of threshold_of MQMessage.getTopic MQMessage.getBody].
    split_and!; try done. by destruct (threshold_of l <=? MQMessage.bodyLength m).
Qed.

Lemma not_running_refused e route swq m p :
  ClientImpl.state_ (ProducerImpl.client p) <> STARTED ->
  ProducerImpl.send e route swq m p = Some (p, swq, ProducerImpl.failed IllegalState).
Proof.
  intros H. unfold ProducerImpl.send, ProducerImpl.ensureRunning, ProducerImpl.isRunning.
  by rewrite bool_decide_eq_false_2.
Qed.

(** ** Using a producer *)

(** What happens to a producer between [start] and [shutdown]: sends, settings, and endpoints
    that are isolated, found healthy or no longer in any route. *)
Inductive use :=
  | Send (e : Env) (route : error_code * option TopicRouteData.t) (swq : Z) (m : MQMessage.t)
  | Change (o : setting)
  | Isolate (target : string)
  | HealthChecked (ec : error_code) (remote_address : string)
  | EndpointsRemoved (hosts : list string).

Definition set_client (f : ClientImpl.t -> ClientImpl.t) : t -> t :=
  set_impl (fun p => ProducerImpl.set_client (f (ProducerImpl.client p)) p).

Definition apply_use (u : use) (s : t) : option t :=
  match u with
  | Send e route swq m => '(p, _, _) ← ProducerImpl.send e route swq m (impl_ s); Some (set_impl (fun _ => p) s)
  | Change o => apply_setting o s
  | Isolate target => Some (set_client (ClientImpl.isolateEndpoint target) s)
  | HealthChecked ec remote_address => Some (set_client (ClientImpl.onHealthCheckResponse ec remote_address) s)
  | EndpointsRemoved hosts => Some (set_client (ClientImpl.onRemoteEndpointRemoval hosts) s)
  end.

Fixpoint session (l : list use) (s : t) : option t :=
  match l with [] => Some s | u :: l' => s' ← apply_use u s; session l' s' end.

Definition changes (l : list use) : list setting := omap (fun u => match u with Change o => Some o | _ => None end) l.

(** A producer that runs under some settings. *)
Record running (group : string) (l : list setting) (s : t) : Prop := {
  running_state : ClientImpl.state_ (ProducerImpl.client (impl_ s)) = STARTED;
  running_config : config s = config_of group l;
  running_attempts : getMaxAttemptTimes s = max_attempts_of l;
  running_threshold : getCompressBodyThreshold s = threshold_of l;
  running_resolver : name_server_resolver_ s <> None;
}.

Lemma running_change group l o s s' : running group l s -> apply_setting o s = Some s' -> running group (l ++ [o]) s'.
Proof.
  intros [H1 H2 H3 H4 H5] E. unfold config_of, max_attempts_of, threshold_of in *. destruct o; cbn [apply_setting] in E.
  3: { unfold setNameServerListDiscoveryEndpoint in E. destruct (DynamicNameServerResolver.make _ _ _); [|done].
       injection E as <-. split; unfold config_of, max_attempts_of, threshold_of; rewrite ?latest_snoc; done. }
  all: injection E as <-; split; unfold config_of, max_attempts_of, threshold_of;
    rewrite ?latest_snoc; cbn [default]; try done.
  all: unfold config in *; cbn; rewrite H2; reflexivity.
Qed.

Lemma running_use group l u s s' :
  running group l s -> apply_use u s = Some s' -> running group (l ++ changes [u]) s'.
Proof.
  intros Hs. destruct u as [e route swq m|o|target|ec a|hosts]; cbn [apply_use changes omap list_omap]; rewrite ?app_nil_r.
  2: by apply running_change.
  2-4: destruct Hs as [H1 H2 H3 H4 H5]; intros [= <-]; split; try done;
    unfold config, ClientImpl.onHealthCheckResponse; cbn; by destruct (ec_bool ec).
  destruct (ProducerImpl.send e route swq m (impl_ s)) as [[[p w] r]|] eqn:E; [|done]. intros [= <-].
  destruct (send_keeps e route _ _ _ _ _ _ E) as (E1 & E2 & E3). destruct Hs as [H1 H2 H3 H4 H5].
  split; cbn; unfold config, getMaxAttemptTimes, getCompressBodyThreshold in *; cbn; try congruence.
Qed.

Lemma running_session group k : forall l s s', running group l s -> session k s = Some s' -> running group (l ++ changes k) s'.
Proof.
  induction k as [|u k IH]; intros l s s' Hs; cbn [session]; [intros [= <-]; by rewrite app_nil_r|].
  destruct (apply_use u s) as [s1|] eqn:E; [|done]. cbn [mbind option_bind]. intros Hk.
  replace (l ++ changes (u :: k)) with ((l ++ changes [u]) ++ changes k); [by eapply IH; [eapply running_use|]|].
  rewrite <- app_assoc. f_equal. change (u :: k) with ([u] ++ k). unfold changes. by rewrite omap_app.
Qed.

(** C16: configuring, starting and stopping a producer through its facade.  After any settings
    in any order a send fails with [IllegalState] and makes no call until [start]; [start]
    aborts the process exactly when no name server was configured.  After it, and after any
    sends, further settings and changes of the isolated endpoints, the producer runs under the
    last setting of each kind: once a credentials provider is set, and as far as its waits
    end once their callbacks have run (Waits), every synchronous send returns, makes at most
    the configured number of calls, each to a known address under the configured namespace
    and group, compressed exactly from the configured threshold on.  After [shutdown] sends
    are refused again. *)
Theorem configured_producer_sends group l s handle :
  configure l (make group) = Some s ->
  (forall e route swq m,
     ProducerImpl.send e route swq m (impl_ s) = Some (impl_ s, swq, ProducerImpl.failed IllegalState))
  /\ if has_resolver l then
       exists s0 effects, start handle s = Some (s0, effects, true)
         /\ forall k s', session k s0 = Some s' ->
              let now := l ++ changes k in
              (forall e route swq m, provider_of group now = true -> max_attempts_of now < 2 ^ 31 ->
                 (forall k, answer e k <> inl Success) ->
                 exists p swq' r, ProducerImpl.send e route swq m (impl_ s') = Some (p, swq', r)
                   /\ Z.of_nat (length (calls_of (ProducerImpl.sync_calls r))) <= Z.max 0 (max_attempts_of now)
                   /\ Forall (sent_as group now m) (calls_of (ProducerImpl.sync_calls r)))
              /\ exists s'' effects', shutdown s' = Some (s'', effects')
                   /\ forall e route swq m,
                        ProducerImpl.send e route swq m (impl_ s'')
                        = Some (impl_ s'', swq, ProducerImpl.failed IllegalState)
     else start handle s = None.
Proof.
  intros Hf. apply producer_configure_fresh in Hf as [H1 H2 H3 H4 H5]. split.
  { intros e route swq m. apply not_running_refused. by rewrite H1. }
  unfold start. rewrite H1, H5. change (bool_decide (CREATED = CREATED)) with true. cbn [andb].
  destruct (has_resolver l); cbn [negb]; [|done].
  unfold ProducerImpl.start, ClientImpl.start. rewrite H1.
  change (compare_exchange_strong CREATED CREATED STARTING) with (true, STARTING). cbn [negb].
  destruct (name_server_resolver_ s) as [r|] eqn:Er; [|done].
  eexists _, _. split; [reflexivity|]. intros k s' Hk. cbn zeta.
  apply (running_session group k l) in Hk as [R1 R2 R3 R4 R5]; [|split; try done; cbn; by rewrite Er]. split.
  - intros e route swq m Hp Hm He. by apply (running_sends group (l ++ changes k)).
  - unfold shutdown. destruct (name_server_resolver_ s') as [r'|]; [|done]. cbn [mbind option_bind].
    eexists _, _. split; [reflexivity|]. intros e route swq m. by apply not_running_refused.
Qed.

End facade.

Definition example_settings : list setting :=
  [MaxAttemptTimes 5; NamesrvAddr "ns1:9876;ns2:9876"; ResourceNamespace "MQ_INST"; GroupName "g2"; MaxAttemptTimes 2;
   CompressBodyThreshold 4; SendMsgTimeout 5000; CredentialsProvider true].

Definition example_session : list use :=
  [Send example_env (Success, Some example_route) 7 example_outgoing; Change (GroupName "g3")].

Lemma configured_producer_sends_witness :
  exists s s0 s' effects p swq r,
    configure (fun _ => None) (HostInfo.mk "" "" "" "") example_settings (make "g") = Some s
    /\ start 1 s = Some (s0, effects, true)
    /\ session (fun _ => None) (HostInfo.mk "" "" "" "") example_session s0 = Some s'
    /\ ProducerImpl.send example_env (Success, Some example_route) 7 example_outgoing (impl_ s') = Some (p, swq, r)
    /\ length (calls_of (ProducerImpl.sync_calls r)) = 2%nat
    /\ Forall (sent_as "g" (example_settings ++ [GroupName "g3"]) example_outgoing) (calls_of (ProducerImpl.sync_calls r)).
Proof.
  destruct (configure (fun _ => None) (HostInfo.mk "" "" "" "") example_settings (make "g")) as [s|] eqn:E;
    [|vm_compute in E; discriminate].
  destruct (configured_producer_sends (fun _ => None) (HostInfo.mk "" "" "" "") "client" "g" example_settings s 1 E) as [_ H].
  change (has_resolver example_settings) with true in H. destruct H as (s0 & effects & Hs & H).
  destruct (session (fun _ => None) (HostInfo.mk "" "" "" "") example_session s0) as [s'|] eqn:Ek.
  2: { exfalso. assert (Hb : match (s ← configure (fun _ => None) (HostInfo.mk "" "" "" "") example_settings (make "g");
                      '(s0, _, _) ← start 1 s;
                      session (fun _ => None) (HostInfo.mk "" "" "" "") example_session s0) with
               | Some _ => true | None => false end = true) by (vm_compute; reflexivity).
       rewrite E in Hb. cbn [mbind option_bind] in Hb. rewrite Hs in Hb. cbn [mbind option_bind] in Hb. rewrite Ek in Hb. discriminate Hb. }
  destruct (H example_session s' Ek) as [Hsend _].
  destruct (Hsend example_env (Success, Some example_route) 7 example_outgoing eq_refl eq_refl example_answers) as (p & w & r & Hr & _ & Hf).
  exists s, s0, s', effects, p, w, r. split; [reflexivity|]. split; [exact Hs|]. split; [exact Ek|]. split; [exact Hr|]. split; [|exact Hf].
  assert (El : match (s ← configure (fun _ => None) (HostInfo.mk "" "" "" "") example_settings (make "g");
                      '(s0, _, _) ← start 1 s;
                      s1 ← session (fun _ => None) (HostInfo.mk "" "" "" "") example_session s0;
                      ProducerImpl.send example_env (Success, Some example_route) 7 example_outgoing (impl_ s1)) with
               | Some (_, _, r0) => length (calls_of (ProducerImpl.sync_calls r0)) = 2%nat
               | None => False
               end) by (vm_compute; reflexivity).
  rewrite E in El. cbn [mbind option_bind] in El. rewrite Hs in El. cbn [mbind option_bind] in El.
  rewrite Ek in El. cbn [mbind option_bind] in El. rewrite Hr in El. exact El.
Defined.

End ProducerFacade.
