(* ===== verification/Facade.v ===== *)
(** * The producer as the application sees it: [DefaultMQProducer].

    The flavours of [send], [sendOneway], [prepare] and [getTopicMessageQueueInfo] of
    rocketmq/DefaultMQProducer.cpp on top of Producer.  A message the application passes by
    reference is bound to a group or a queue in place, so each flavour also returns the
    message as it leaves it; an [MQClientException] is the error code it carries. *)

From S2P Require Import Prelude Types Message MixAll Proto Route Config Codec ClientManager ClientImpl Producer.
Import ProducerImpl.

Module DefaultMQProducer.
Section facade.
Context (e : Env) (route : error_code * option TopicRouteData.t).

(** The producer, the cursor of the queue choice and the message afterwards, the value
    returned or the exception thrown, and the calls and callbacks made. *)
Record outcome A := mkOutcome {
  producer : ProducerImpl.t;
  cursor : Z;
  message : MQMessage.t;
  returned : error_code + A;
  events : list event;
}.
#[global] Arguments mkOutcome {A} _ _ _ _ _.
#[global] Arguments producer {A} _.
#[global] Arguments cursor {A} _.
#[global] Arguments message {A} _.
#[global] Arguments returned {A} _.
#[global] Arguments events {A} _.

(** [MessageQueueSelector::select]; [None] is a crash of the selector. *)
Definition selector := list MQMessageQueue.t -> MQMessage.t -> option MQMessageQueue.t.

(** [send(message, filter_active_broker)].  The result is returned through its copy
    constructor, [SendResult] having no move constructor. *)
Definition send (swq : Z) (m : MQMessage.t) (s : ProducerImpl.t) : option (outcome SendResult.t) :=
  '(s, swq, r) ← ProducerImpl.send e route swq m s;
  Some (mkOutcome s swq m (if ec_bool (sync_ec r) then inl (sync_ec r) else inr (SendResult.copy (sync_value r)))
          (sync_calls r)).

Definition send_to_group (group : string) (swq : Z) (m : MQMessage.t) (s : ProducerImpl.t) : option (outcome SendResult.t) :=
  send swq (MQMessage.bindMessageGroup group m) s.

Definition send_to_queue (mq : MQMessageQueue.t) (swq : Z) (m : MQMessage.t) (s : ProducerImpl.t)
    : option (outcome SendResult.t) :=
  send swq (MQMessage.bindMessageQueue mq m) s.

Definition send_selected (select : selector) (swq : Z) (m : MQMessage.t) (s : ProducerImpl.t)
    : option (outcome SendResult.t) :=
  let '(s, (ec, l)) := listMessageQueue route (MQMessage.getTopic m) s in
  if ec_bool ec then Some (mkOutcome s swq m (inl ec) [])
  else mq ← select l m; send swq (MQMessage.bindMessageQueue mq m) s.

(** [send(message, ec)] leaves the code to the caller; the deprecated flavour ignores
    [retry_times] and [select_active_broker]. *)
Definition send_ec (swq : Z) (m : MQMessage.t) (s : ProducerImpl.t) : option (ProducerImpl.t * Z * sync_result) :=
  ProducerImpl.send e route swq m s.

Definition send_selected_deprecated (select : selector) (retry_times : Z) (select_active_broker : bool) (swq : Z)
    (m : MQMessage.t) (s : ProducerImpl.t) : option (outcome SendResult.t) :=
  send_selected select swq m s.

(** The asynchronous flavours; the callback may be told more than once. *)
Definition send_async (swq : Z) (m : MQMessage.t) (s : ProducerImpl.t) : option (outcome unit) :=
  '(s, swq, l) ← ProducerImpl.send_async e route swq m s; Some (mkOutcome s swq m (inr ()) l).

Definition send_async_to_queue (mq : MQMessageQueue.t) (swq : Z) (m : MQMessage.t) (s : ProducerImpl.t)
    : option (outcome unit) :=
  send_async swq (MQMessage.bindMessageQueue mq m) s.

(** There is no [return] after the failures. *)
Definition send_async_selected (select : selector) (swq : Z) (m : MQMessage.t) (s : ProducerImpl.t)
    : option (outcome unit) :=
  let '(s, (ec, l)) := listMessageQueue route (MQMessage.getTopic m) s in
  let failures := (if ec_bool ec then [Complete (inl ec)] else [])
                  ++ (if bool_decide (l = []) then [Complete (inl ServiceUnavailable)] else []) in
  mq ← select l m;
  o ← send_async swq (MQMessage.bindMessageQueue mq m) s;
  Some (mkOutcome (producer o) (cursor o) (message o) (returned o) (failures ++ events o)).

(** One-way: a synchronous send ([ProducerImpl::sendOneway]) whose error is swallowed. *)
Definition sendOneway (swq : Z) (m : MQMessage.t) (s : ProducerImpl.t) : option (outcome unit) :=
  '(s, swq, r) ← ProducerImpl.send e route swq m s; Some (mkOutcome s swq m (inr ()) (sync_calls r)).

Definition sendOneway_to_queue (mq : MQMessageQueue.t) (swq : Z) (m : MQMessage.t) (s : ProducerImpl.t)
    : option (outcome unit) :=
  sendOneway swq (MQMessage.bindMessageQueue mq m) s.

Definition sendOneway_selected (select : selector) (swq : Z) (m : MQMessage.t) (s : ProducerImpl.t)
    : option (outcome unit) :=
  let '(s, (ec, l)) := listMessageQueue route (MQMessage.getTopic m) s in
  if ec_bool ec then Some (mkOutcome s swq m (inl ec) [])
  else if bool_decide (l = []) then Some (mkOutcome s swq m (inl ServiceUnavailable) [])
  else mq ← select l m; sendOneway swq (MQMessage.bindMessageQueue mq m) s.

Definition getTopicMessageQueueInfo (topic : string) (s : ProducerImpl.t)
    : ProducerImpl.t * (error_code + list MQMessageQueue.t) :=
  let '(s, (ec, l)) := listMessageQueue route topic s in
  (s, if ec_bool ec then inl ec else inr l).

(** [prepare] marks the application's message as transactional. *)
Definition prepare (swq : Z) (m : MQMessage.t) (s : ProducerImpl.t)
    : option (ProducerImpl.t * Z * MQMessage.t * (error_code + option TransactionImpl.t)) :=
  '(s, swq, (ec, tx)) ← Producer.prepare e route swq m s;
  Some (s, swq, MQMessage.set_messageType TRANSACTION m, if ec_bool ec then inl ec else inr tx).

(** ** Properties *)

Hypothesis answers : forall k, answer e k <> inl Success.

Lemma listMessageQueue_known topic s s' ec l :
  listMessageQueue route topic s = (s', (ec, l)) -> l <> [] ->
  ec = Success /\ client s' = client s /\ max_attempt_times s' = max_attempt_times s
  /\ exists info, topic_publish_info_table_ s' !! topic = Some info /\ l = TopicPublishInfo.getMessageQueueList info.
Proof.
  unfold listMessageQueue. destruct (asyncPublishInfo route topic s) as [s1 [ec1 info]] eqn:E.
  destruct (asyncPublishInfo_spec route _ _ _ _ _ E) as (Hc & Ha & _ & Hi).
  destruct (ec_bool ec1) eqn:Eb; [by intros [= _ _ <-]|]. apply ec_bool_false in Eb as ->.
  destruct info as [info|]; intros [= <- <- <-]; [|done]. intros _. split_and!; [done|done|done|].
  exists info. split; [|done]. by apply Hi.
Qed.

(** The publish info of a topic stays once it is known. *)
Lemma send_keeps_info swq m s s' swq' r info :
  max_attempt_times s < 2 ^ 31 -> topic_publish_info_table_ s !! MQMessage.getTopic m = Some info ->
  ProducerImpl.send e route swq m s = Some (s', swq', r) ->
  topic_publish_info_table_ s' !! MQMessage.getTopic m = Some info.
Proof.
  intros Hm Hi. unfold ProducerImpl.send. destruct (ec_bool _); [by intros [= <- _ _]|].
  unfold getPublishInfo. rewrite (asyncPublishInfo_cached route _ _ _ Hi).
  assert (Hto : forall w queues, send_to e w m queues s = Some (s', swq', r) -> s' = s).
  { intros w queues. unfold send_to. case_bool_decide; [by intros [= <- _ _]|].
    destruct (send0 e s m queues (max_attempt_times s)) as [ev|]; [|done]. cbn.
    destruct (await ev); [|done]. cbn. by intros [= <- _ _]. }
  destruct (is_bound m).
  - unfold listMessageQueue. rewrite (asyncPublishInfo_cached route _ _ _ Hi).
    change (ec_bool Success) with false. cbn iota. change (ec_bool Success) with false. cbn iota.
    case_bool_decide; [by intros [= <- _ _]|].
    destruct (bound_queues _ _ _) as [queues|]; [|done]. cbn. intros E. by rewrite (Hto _ _ E).
  - destruct (takeMessageQueuesRoundRobin _ _ _ _) as [w queues]. intros E. by rewrite (Hto _ _ E).
Qed.

(** A send with a selector goes, at every attempt, to the queue of the topic that the
    selector chose among the publishable queues it was shown: the request carries that
    queue's identifier and is sent to its broker, and the message stays bound to it. *)
Theorem selected_queue_used select swq m s o target request :
  credentialsProvider s = true -> max_attempt_times s < 2 ^ 31 -> MQMessage.message_group_ m = ""%string ->
  (forall l q, select l m = Some q -> l <> [] /\ q ∈ l /\ MQMessageQueue.operator_bool q = true) ->
  send_selected select swq m s = Some o -> CallSend target request ∈ events o ->
  exists info q q',
    topic_publish_info_table_ (producer o) !! MQMessage.getTopic m = Some info
    /\ select (TopicPublishInfo.getMessageQueueList info) m = Some q
    /\ q' ∈ TopicPublishInfo.getMessageQueueList info /\ MQMessageQueue.key q' = MQMessageQueue.key q
    /\ MQMessage.message_queue_ (message o) = q
    /\ target = MQMessageQueue.service_address_ q'
    /\ rmq.partition_id (rmq.system_attribute (rmq.send_message request)) = MQMessageQueue.queue_id_ q'.
Proof.
  intros Hp Hm Hg Hsel. unfold send_selected.
  destruct (listMessageQueue route (MQMessage.getTopic m) s) as [s1 [ec l]] eqn:El.
  destruct (ec_bool ec); [intros [= <-] Hin; by apply not_elem_of_nil in Hin|].
  destruct (select l m) as [q|] eqn:Es; [|done]. cbn [mbind option_bind].
  destruct (Hsel l q Es) as (Hne & Hq & Hbool).
  destruct (listMessageQueue_known _ _ _ _ _ El Hne) as (_ & Hc & Ha & info & Hi & Hl).
  set (m' := MQMessage.bindMessageQueue q m). unfold send.
  destruct (send_cases e route answers swq m' s1 ltac:(unfold credentialsProvider; by rewrite Hc) ltac:(by rewrite Ha)) as (s2 & w2 & r & E & _ & H).
  rewrite E. cbn [mbind option_bind]. intros [= <-] Hin. cbn [events producer message] in *.
  destruct H as [(_ & _ & H)|(_ & info2 & queues & n & Hi2 & Hb & _ & Hne2 & He & _)]; [by apply H in Hin|].
  assert (Einfo : info2 = info).
  { pose proof (send_keeps_info swq m' s1 s2 w2 r info ltac:(by rewrite Ha) Hi E) as X.
    change (MQMessage.getTopic m') with (MQMessage.getTopic m) in Hi2, X. rewrite X in Hi2. by injection Hi2. }
  subst info2. rewrite <- Hl in Hb.
  assert (Hbound : is_bound m' = true).
  { unfold is_bound. change (MQMessage.message_queue_ m') with q. by rewrite Hbool, orb_true_r. }
  specialize (Hb Hbound). unfold bound_queues in Hb. change (MQMessage.message_group_ m') with (MQMessage.message_group_ m) in Hb.
  rewrite Hg in Hb. cbn [str_empty negb] in Hb. change (MQMessage.message_queue_ m') with q in Hb.
  destruct (List.find _ l) as [q'|] eqn:Ef; injection Hb as <-; [|done].
  apply find_some in Ef as [Hin' Heq]. exists info, q, q'. rewrite <- Hl.
  split_and!; [exact Hi2|done|by apply list_elem_of_In|by apply MQMessageQueue.operator_eq_spec|done| |];
    destruct (ends_calls e _ _ _ _ _ _ _ _ _ He Hin) as (i & _ & -> & -> & _);
    assert (Ha' : attempt_queue [q'] i = q') by (unfold attempt_queue; cbn; by rewrite Z.mod_1_r); by rewrite Ha'.
Qed.

End facade.

(** A selector that takes the first queue that names a broker and a topic. *)
Definition example_select : selector := fun l _ => List.find MQMessageQueue.operator_bool l.

Lemma example_select_spec m l q :
  example_select l m = Some q -> l <> [] /\ q ∈ l /\ MQMessageQueue.operator_bool q = true.
Proof.
  unfold example_select. intros H. apply find_some in H as [H1 H2]. split_and!; [by intros ->|by apply list_elem_of_In|done].
Qed.

Lemma selected_queue_used_witness :
  exists o target request,
    send_selected example_env (Success, None) example_select 7 example_outgoing example_producer = Some o
    /\ CallSend target request ∈ events o
    /\ exists info q q', topic_publish_info_table_ (producer o) !! "TopicTest"%string = Some info
         /\ example_select (TopicPublishInfo.getMessageQueueList info) example_outgoing = Some q
         /\ MQMessageQueue.key q' = MQMessageQueue.key q /\ target = MQMessageQueue.service_address_ q'.
Proof.
  eexists _, _, _. split; [vm_compute; reflexivity|]. split; [left|].
  match goal with |- exists _ _ _, topic_publish_info_table_ (producer ?o) !! _ = _ /\ _ /\ _ /\ ?t = _ =>
    refine (match selected_queue_used example_env (Success, None) example_answers example_select 7 example_outgoing
                    example_producer o t _ eq_refl _ _ (example_select_spec example_outgoing) _ _ with
            | ex_intro _ info (ex_intro _ q (ex_intro _ q' (conj A (conj B (conj _ (conj C (conj _ (conj D _)))))))) =>
                ex_intro _ info (ex_intro _ q (ex_intro _ q' (conj A (conj B (conj C D)))))
            end)
  end.
  - vm_compute; reflexivity.
  - reflexivity.
  - vm_compute; reflexivity.
  - left.
Defined.

(** When the route cannot be found, the callback of the asynchronous send with a selector
    is told of a failure three times. *)
Lemma selector_async_fails_repeatedly e select swq m s q :
  isRunning s = true -> topic_publish_info_table_ s !! MQMessage.getTopic m = None -> select [] m = Some q ->
  exists o, send_async_selected e (NotFound, None) select swq m s = Some o
    /\ events o = [Complete (inl NotFound); Complete (inl ServiceUnavailable); Complete (inl NotFound)].
Proof.
  intros Hrun Ht Hs. unfold send_async_selected, listMessageQueue, asyncPublishInfo. rewrite Ht. cbn.
  rewrite Hs. cbn. unfold send_async, ProducerImpl.send_async, ensureRunning. rewrite Hrun.
  change (ec_bool Success) with false. cbn iota. unfold asyncPublishInfo.
  change (MQMessage.getTopic (MQMessage.bindMessageQueue q m)) with (MQMessage.getTopic m). rewrite Ht. cbn.
  eexists. split; [done|]. done.
Qed.

End DefaultMQProducer.
