(* ===== verification/PushConsumer.v ===== *)
(** * The push consumer: subscriptions, assignments and the receive cycles.

    [PushConsumerImpl] (rocketmq/PushConsumerImpl.cpp) and
    [AsyncReceiveMessageCallback] (rocketmq/AsyncReceiveMessageCallback.cpp).  A process
    queue is a shared object, so each one gets the number of its creation.  The receive
    callbacks hold it by a weak pointer; the table, the tasks submitted to the consume pool
    and the callbacks of their acknowledgements hold it by a shared one.  So an object that
    left the table stays alive, as an orphan, until the last of those is done; after that
    what was pending for it has no effect.  Calls on
    the client manager and the scheduler are returned as effects, in order. *)

From S2P Require Import Prelude Types Message MixAll Proto RateLimiter Route Config Codec ClientManager.
From S2P Require Import ClientImpl ProcessQueue ConsumeService.

Module PushConsumerImpl.

(** A message queue as a hash table files it. *)
Abbreviation qkey := (string * string * Z)%type.

Record queue_object := mkQueue { queue_number : nat; queue_state : ProcessQueueImpl.t }.

Record t := mk {
  client : ClientImpl.t;
  topic_filter_expression_table_ : gmap string FilterExpression.t;
  consume_thread_pool_size_ : Z;
  message_listener_ : option MessageListenerType;
  consume_message_service_ : option (MessageListenerType * ConsumeMessageService.t);
  consume_batch_size_ : Z;
  receive_batch_size_ : Z;
  scan_assignment_handle_ : Z;
  process_queue_table_ : gmap qkey queue_object;
  created : nat;
  orphans : gmap nat ProcessQueueImpl.t;
  throttle_table_ : gmap string Z;
  max_delivery_attempts_ : Z;
  message_model_ : MessageModel;
  receive_message_policy_ : ReceiveMessageAction;
  offset_store_ : option (MQMessageQueue.t -> option Z);
}.

Definition make (group_name : string) : t :=
  mk (ClientImpl.make group_name) ∅ MixAll.DEFAULT_CONSUME_THREAD_POOL_SIZE None None
     MixAll.DEFAULT_CONSUME_MESSAGE_BATCH_SIZE MixAll.DEFAULT_RECEIVE_MESSAGE_BATCH_SIZE 0 ∅ 0 ∅ ∅
     MixAll.DEFAULT_MAX_DELIVERY_ATTEMPTS CLUSTERING POLLING None.

Definition set_client (x : ClientImpl.t) (s : t) : t :=
  mk x (topic_filter_expression_table_ s) (consume_thread_pool_size_ s) (message_listener_ s) (consume_message_service_ s)
     (consume_batch_size_ s) (receive_batch_size_ s) (scan_assignment_handle_ s) (process_queue_table_ s) (created s) (orphans s)
     (throttle_table_ s) (max_delivery_attempts_ s) (message_model_ s) (receive_message_policy_ s) (offset_store_ s).
Definition set_filters (x : gmap string FilterExpression.t) (s : t) : t :=
  mk (client s) x (consume_thread_pool_size_ s) (message_listener_ s) (consume_message_service_ s)
     (consume_batch_size_ s) (receive_batch_size_ s) (scan_assignment_handle_ s) (process_queue_table_ s) (created s) (orphans s)
     (throttle_table_ s) (max_delivery_attempts_ s) (message_model_ s) (receive_message_policy_ s) (offset_store_ s).
Definition set_queues (x : gmap qkey queue_object) (n : nat) (s : t) : t :=
  mk (client s) (topic_filter_expression_table_ s) (consume_thread_pool_size_ s) (message_listener_ s)
     (consume_message_service_ s) (consume_batch_size_ s) (receive_batch_size_ s) (scan_assignment_handle_ s) x n
     (orphans s) (throttle_table_ s) (max_delivery_attempts_ s) (message_model_ s) (receive_message_policy_ s) (offset_store_ s).
Definition set_orphans (x : gmap nat ProcessQueueImpl.t) (s : t) : t :=
  mk (client s) (topic_filter_expression_table_ s) (consume_thread_pool_size_ s) (message_listener_ s)
     (consume_message_service_ s) (consume_batch_size_ s) (receive_batch_size_ s) (scan_assignment_handle_ s)
     (process_queue_table_ s) (created s) x (throttle_table_ s) (max_delivery_attempts_ s) (message_model_ s)
     (receive_message_policy_ s) (offset_store_ s).
Definition set_service (x : option (MessageListenerType * ConsumeMessageService.t)) (batch : Z) (s : t) : t :=
  mk (client s) (topic_filter_expression_table_ s) (consume_thread_pool_size_ s) (message_listener_ s) x
     batch (receive_batch_size_ s) (scan_assignment_handle_ s) (process_queue_table_ s) (created s) (orphans s)
     (throttle_table_ s) (max_delivery_attempts_ s) (message_model_ s) (receive_message_policy_ s) (offset_store_ s).
Definition set_policy (x : ReceiveMessageAction) (s : t) : t :=
  mk (client s) (topic_filter_expression_table_ s) (consume_thread_pool_size_ s) (message_listener_ s)
     (consume_message_service_ s) (consume_batch_size_ s) (receive_batch_size_ s) (scan_assignment_handle_ s)
     (process_queue_table_ s) (created s) (orphans s) (throttle_table_ s) (max_delivery_attempts_ s) (message_model_ s) x
     (offset_store_ s).
Definition set_scan_handle (x : Z) (s : t) : t :=
  mk (client s) (topic_filter_expression_table_ s) (consume_thread_pool_size_ s) (message_listener_ s)
     (consume_message_service_ s) (consume_batch_size_ s) (receive_batch_size_ s) x (process_queue_table_ s) (created s) (orphans s)
     (throttle_table_ s) (max_delivery_attempts_ s) (message_model_ s) (receive_message_policy_ s) (offset_store_ s).
Definition set_throttles (x : gmap string Z) (s : t) : t :=
  mk (client s) (topic_filter_expression_table_ s) (consume_thread_pool_size_ s) (message_listener_ s)
     (consume_message_service_ s) (consume_batch_size_ s) (receive_batch_size_ s) (scan_assignment_handle_ s)
     (process_queue_table_ s) (created s) (orphans s) x (max_delivery_attempts_ s) (message_model_ s) (receive_message_policy_ s)
     (offset_store_ s).
Definition set_pool_size (x : Z) (s : t) : t :=
  mk (client s) (topic_filter_expression_table_ s) x (message_listener_ s)
     (consume_message_service_ s) (consume_batch_size_ s) (receive_batch_size_ s) (scan_assignment_handle_ s)
     (process_queue_table_ s) (created s) (orphans s) (throttle_table_ s) (max_delivery_attempts_ s) (message_model_ s)
     (receive_message_policy_ s) (offset_store_ s).
Definition registerMessageListener (x : option MessageListenerType) (s : t) : t :=
  mk (client s) (topic_filter_expression_table_ s) (consume_thread_pool_size_ s) x
     (consume_message_service_ s) (consume_batch_size_ s) (receive_batch_size_ s) (scan_assignment_handle_ s)
     (process_queue_table_ s) (created s) (orphans s) (throttle_table_ s) (max_delivery_attempts_ s) (message_model_ s)
     (receive_message_policy_ s) (offset_store_ s).
Definition setMessageModel (x : MessageModel) (s : t) : t :=
  mk (client s) (topic_filter_expression_table_ s) (consume_thread_pool_size_ s) (message_listener_ s)
     (consume_message_service_ s) (consume_batch_size_ s) (receive_batch_size_ s) (scan_assignment_handle_ s)
     (process_queue_table_ s) (created s) (orphans s) (throttle_table_ s) (max_delivery_attempts_ s) x
     (receive_message_policy_ s) (offset_store_ s).
Definition offsetStore (x : MQMessageQueue.t -> option Z) (s : t) : t :=
  mk (client s) (topic_filter_expression_table_ s) (consume_thread_pool_size_ s) (message_listener_ s)
     (consume_message_service_ s) (consume_batch_size_ s) (receive_batch_size_ s) (scan_assignment_handle_ s)
     (process_queue_table_ s) (created s) (orphans s) (throttle_table_ s) (max_delivery_attempts_ s) (message_model_ s)
     (receive_message_policy_ s) (Some x).

Definition config (s : t) : ClientConfigImpl.t := ClientImpl.config (client s).
Definition resource_namespace_ (s : t) : string := ClientConfigImpl.resource_namespace_ (config s).
Definition group_name_ (s : t) : string := ClientConfigImpl.group_name_ (config s).
Definition active (s : t) : bool := ClientImpl.active (client s).

(** ** Subscriptions and settings *)

(** [emplace]: an existing entry is left as it is. *)
Definition emplace {A} (k : string) (v : A) (m : gmap string A) : gmap string A :=
  match m !! k with Some _ => m | None => <[k := v]> m end.

Definition subscribe (now : Z) (topic expression : string) (expression_type : ExpressionType) (s : t) : t :=
  set_filters (emplace topic (FilterExpression.make now expression expression_type) (topic_filter_expression_table_ s)) s.
Definition unsubscribe (topic : string) (s : t) : t := set_filters (delete topic (topic_filter_expression_table_ s)) s.
Definition getFilterExpression (topic : string) (s : t) : option FilterExpression.t :=
  topic_filter_expression_table_ s !! topic.

Definition consumeThreadPoolSize (thread_pool_size : Z) (s : t) : t :=
  if 1 <=? thread_pool_size then set_pool_size thread_pool_size s else s.

Definition consumeBatchSize (consume_batch_size : Z) (s : t) : t :=
  if bool_decide (message_listener_ s = Some FIFO_LISTENER) then s
  else if 1 <=? consume_batch_size then set_service (consume_message_service_ s) consume_batch_size s else s.

Definition setThrottle (topic : string) (threshold : Z) (s : t) : t :=
  let s := set_throttles (emplace topic threshold (throttle_table_ s)) s in
  match consume_message_service_ s with
  | Some (ty, service) =>
      set_service (Some (ty, ConsumeMessageService.throttle topic threshold service)) (consume_batch_size_ s) s
  | None => s
  end.

Definition getProcessQueueTableSize (s : t) : nat := size (process_queue_table_ s).

(** The numbers of the queues the dispatcher visits. *)
Definition iterateProcessQueue (s : t) : list nat :=
  omap (fun e => if ProcessQueueImpl.hasPendingMessages (queue_state (snd e)) then Some (queue_number (snd e)) else None)
    (map_to_list (process_queue_table_ s)).

Section consumer.
(** [clientId()]. *)
Context (client_id : string).

(** What the process queues see of the consumer. *)
Definition view (s : t) : ConsumerView :=
  mkConsumerView (message_model_ s) MixAll.DEFAULT_CACHED_MESSAGE_COUNT MixAll.DEFAULT_CACHED_MESSAGE_MEMORY
    (receive_message_policy_ s) (receive_batch_size_ s) client_id (group_name_ s) (resource_namespace_ s)
    (ClientConfigImpl.long_polling_timeout_ (config s)) (fun topic => getFilterExpression topic s)
    (ClientConfigImpl.credentials_provider_ (config s)).

Inductive effect :=
  | ClientEffect (x : ClientImpl.effect)
  | ServiceEffect (x : ConsumeMessageService.effect)
  | AddClientObserver
  | GetRoute (topic : string)
  | ScheduleScan (delay interval : Z)
  | CancelScan (handle : Z)
  | CallQueryAssignment (target : string) (request : rmq.QueryAssignmentRequest) (timeout : Z)
  | CallQueryOffset (number : nat) (target : string) (request : rmq.QueryOffsetRequest) (timeout : Z)
  | CallReceive (number : nat) (call : ProcessQueueImpl.receive_call)
  | ReceiveLater (number : nat) (delay : Z)
  | SignalDispatcher
  | CallAck (target : string) (request : rmq.AckMessageRequest) (timeout : Z)
  | CallNack (target : string) (request : rmq.NackMessageRequest) (timeout : Z)
  | CallForward (target : string) (request : rmq.NackMessageRequest) (timeout : Z).

(** ** Acknowledgements *)
Definition resource (s : t) (name : string) : rmq.Resource := rmq.mkResource (resource_namespace_ s) name.
Definition io_timeout (s : t) : Z := ClientConfigImpl.io_timeout_ (config s).

Definition wrapAckMessageRequest (m : MQMessage.t) (s : t) : rmq.AckMessageRequest :=
  rmq.mkAckMessageRequest (resource s (group_name_ s)) (resource s (MQMessage.getTopic m)) client_id
    (MQMessage.receiptHandle m) (MQMessage.getMsgId m).

Definition ack (m : MQMessage.t) (s : t) : effect :=
  CallAck (MessageAccessor.targetEndpoint m) (wrapAckMessageRequest m s) (io_timeout s).

Definition nack (m : MQMessage.t) (s : t) : effect :=
  CallNack (MessageAccessor.targetEndpoint m)
    (rmq.mkNackMessageRequest (resource s (group_name_ s)) (resource s (MQMessage.getTopic m)) client_id
       (MQMessage.receiptHandle m) (MQMessage.getMsgId m) (i32 (MQMessage.getDeliveryAttempt m + 1))
       (max_delivery_attempts_ s))
    (io_timeout s).

(** The receipt handle is not set. *)
Definition forwardToDeadLetterQueue (m : MQMessage.t) (s : t) : effect :=
  CallForward (MessageAccessor.targetEndpoint m)
    (rmq.mkNackMessageRequest (resource s (group_name_ s)) (resource s (MQMessage.getTopic m)) client_id ""
       (MQMessage.getMsgId m) (MQMessage.getDeliveryAttempt m) (max_delivery_attempts_ s))
    (io_timeout s).

(** ** Receiving *)
Definition getOrCreateProcessQueue (now : Z) (mq : MQMessageQueue.t) (filter_expression : FilterExpression.t) (s : t)
    : option queue_object * t :=
  if negb (active s) then (None, s)
  else
    match process_queue_table_ s !! MQMessageQueue.key mq with
    | Some o => (Some o, s)
    | None =>
        let o := mkQueue (created s) (ProcessQueueImpl.make now mq filter_expression) in
        (Some o, set_queues (<[MQMessageQueue.key mq := o]> (process_queue_table_ s)) (S (created s)) s)
    end.

(** The state of the queue object filed under [k]. *)
Definition put_queue (k : qkey) (o : queue_object) (s : t) : t :=
  set_queues (<[k := o]> (process_queue_table_ s)) (created s) s.

(** [ProcessQueueImpl::receiveMessage] on an object of the table. *)
Definition receive_on (now : Z) (k : qkey) (o : queue_object) (s : t) : t * list effect :=
  let '(q, call) := ProcessQueueImpl.receiveMessage now (Some (view s)) (queue_state o) in
  (put_queue k (mkQueue (queue_number o) q) s,
   match call with Some c => [CallReceive (queue_number o) c] | None => [] end).

Definition receiveMessage (now : Z) (mq : MQMessageQueue.t) (filter_expression : FilterExpression.t) (s : t)
    : bool * t * list effect :=
  if negb (active s) then (false, s, [])
  else
    let '(o, s) := getOrCreateProcessQueue now mq filter_expression s in
    match o with
    | None => (false, s, [])
    | Some o =>
        let broker_host := MQMessageQueue.service_address_ mq in
        if str_empty broker_host then (false, s, [])
        else
          match receive_message_policy_ s with
          | PULL =>
              let stored := match offset_store_ s with Some readOffset => readOffset mq | None => None end in
              (true, s,
               match stored with
               | Some _ => []
               | None =>
                   [CallQueryOffset (queue_number o) broker_host
                      (rmq.mkQueryOffsetRequest
                         (rmq.mkPartition (resource s (MQMessageQueue.topic_ mq)) (MQMessageQueue.queue_id_ mq) rmq.NONE
                            (rmq.mkBroker (MQMessageQueue.broker_name_ mq) 0 rmq.Endpoints_default))
                         rmq.END_ None)
                      (io_timeout s)]
               end)
          | POLLING =>
              let '(s, effects) := receive_on now (MQMessageQueue.key mq) o s in (true, s, effects)
          end
    end.

(** The object with a number, if it is in the table. *)
Definition find_queue (n : nat) (s : t) : option (qkey * queue_object) :=
  List.find (fun e => Nat.eqb (queue_number (snd e)) n) (map_to_list (process_queue_table_ s)).

(** [lock()] of a weak pointer to the object, and the object updated in place. *)
Definition find_object (n : nat) (s : t) : option ProcessQueueImpl.t :=
  match find_queue n s with
  | Some (_, o) => Some (queue_state o)
  | None => orphans s !! n
  end.
Definition put_object (n : nat) (q : ProcessQueueImpl.t) (s : t) : t :=
  match find_queue n s with
  | Some (k, _) => put_queue k (mkQueue n q) s
  | None => set_orphans (<[n := q]> (orphans s)) s
  end.

(** The callback of the offset query, which holds the queue. *)
Definition onQueryOffset (now : Z) (n : nat) (ec : error_code) (offset : Z) (s : t) : t * list effect :=
  match find_object n s with
  | None => (s, [])
  | Some q =>
      if ec_bool ec then (s, [])
      else
        let '(q, call) := ProcessQueueImpl.receiveMessage now (Some (view s)) (ProcessQueueImpl.nextOffset offset q) in
        (put_object n q s, match call with Some c => [CallReceive n c] | None => [] end)
  end.

(** ** AsyncReceiveMessageCallback, for the process queue number [n] *)
Definition receiveMessageLater (n : nat) (s : t) : t * list effect :=
  match find_object n s with
  | None => (s, [])
  | Some _ => (s, [ReceiveLater n 1000])
  end.

Definition receiveMessageImmediately (now : Z) (n : nat) (s : t) : t * list effect :=
  match find_object n s with
  | None => (s, [])
  | Some q =>
      let '(_, s, effects) := receiveMessage now (ProcessQueueImpl.message_queue_ q)
                                (ProcessQueueImpl.filter_expression_ q) s in
      (s, effects)
  end.

Definition checkThrottleThenReceive (now : Z) (n : nat) (s : t) : t * list effect :=
  match find_object n s with
  | None => (s, [])
  | Some q =>
      if ProcessQueueImpl.shouldThrottle (Some (view s)) q then
        receiveMessageLater n (put_object n (ProcessQueueImpl.syncIdleState now q) s)
      else receiveMessageImmediately now n s
  end.

(** [cacheMessages] on an object, with the acknowledgements it sends. *)
Definition cache_on (n : nat) (q : ProcessQueueImpl.t) (messages : list MQMessage.t) (s : t) : t * list effect :=
  let '(q, rejected) := ProcessQueueImpl.cacheMessages (Some (view s)) messages q in
  (put_object n q s, map (fun m => ack m s) rejected).

Definition onSuccess (now : Z) (n : nat) (r : ReceiveMessageResult.t) (s : t) : t * list effect :=
  match find_object n s with
  | None => (s, [])
  | Some q =>
      if negb (active s) then (s, [])
      else
        let pull := bool_decide (receive_message_policy_ s = PULL) in
        let advance s := match find_object n s with
                         | Some q => put_object n (ProcessQueueImpl.nextOffset (ReceiveMessageResult.next_offset_ r) q) s
                         | None => s
                         end in
        match ReceiveMessageResult.status_ r with
        | ReceiveMessageStatus.OK =>
            let '(s, acks) := cache_on n q (ReceiveMessageResult.messages_ r) s in
            let s := if pull then advance s else s in
            let '(s, effects) := checkThrottleThenReceive now n s in
            (s, acks ++ SignalDispatcher :: effects)
        | ReceiveMessageStatus.DATA_CORRUPTED =>
            let '(s, acks) := if negb pull
                              then let '(s, acks) := cache_on n q (ReceiveMessageResult.messages_ r) s in
                                   (s, acks ++ [SignalDispatcher])
                              else (s, []) in
            let '(s, effects) := checkThrottleThenReceive now n s in
            (s, acks ++ effects)
        | ReceiveMessageStatus.OUT_OF_RANGE => checkThrottleThenReceive now n (advance s)
        | ReceiveMessageStatus.DEADLINE_EXCEEDED => checkThrottleThenReceive now n s
        | ReceiveMessageStatus.INTERNAL | ReceiveMessageStatus.RESOURCE_EXHAUSTED | ReceiveMessageStatus.NOT_FOUND =>
            receiveMessageLater n s
        end
  end.

Definition onFailure (n : nat) (s : t) : t * list effect := receiveMessageLater n s.

(** ** Assignments *)

(** The first loop of [syncProcessQueue]: which entries stay. *)
Definition stays (now : Z) (topic : string) (assigned : list qkey) (k : qkey) (o : queue_object) : bool :=
  if negb (String.eqb topic (fst (fst k))) then true
  else bool_decide (k ∈ assigned) && negb (ProcessQueueImpl.expired now (queue_state o)).

(** The objects of a part of the table that leaves it. *)
Definition orphaned (leaving : gmap qkey queue_object) (s : t) : gmap nat ProcessQueueImpl.t :=
  list_to_map (map (fun e => (queue_number (snd e), queue_state (snd e))) (map_to_list leaving)) ∪ orphans s.

(** The second loop, over the assigned queues; [current] are those that stayed. *)
Fixpoint start_receiving (now : Z) (current : list qkey) (filter_expression : FilterExpression.t)
    (l : list MQMessageQueue.t) (s : t) : t * list effect :=
  match l with
  | [] => (s, [])
  | mq :: l' =>
      let '(s, effects) :=
        if bool_decide (MQMessageQueue.key mq ∈ current) then (s, [])
        else let '(_, s, effects) := receiveMessage now mq filter_expression s in (s, effects) in
      let '(s, effects') := start_receiving now current filter_expression l' s in
      (s, effects ++ effects')
  end.

Definition syncProcessQueue (now : Z) (topic : string) (assignment : TopicAssignment.t)
    (filter_expression : FilterExpression.t) (s : t) : t * list effect :=
  let message_queue_list := map TopicAssignment.message_queue_ (TopicAssignment.assignment_list_ assignment) in
  let assigned := map MQMessageQueue.key message_queue_list in
  let table := filter (fun e => stays now topic assigned (fst e) (snd e) = true) (process_queue_table_ s) in
  let s := set_queues table (created s) (set_orphans (orphaned (process_queue_table_ s ∖ table) s) s) in
  let current := List.filter (fun k => String.eqb topic (fst (fst k))) (map fst (map_to_list table)) in
  start_receiving now current filter_expression message_queue_list s.

(** [scanAssignments]: the topics whose assignment is queried, with their filters. *)
Definition scanAssignments (s : t) : list (string * FilterExpression.t) :=
  if negb (active s) then [] else map_to_list (topic_filter_expression_table_ s).

Definition wrapQueryAssignmentRequest (topic : string) (endpoints : rmq.Endpoints) (s : t) : rmq.QueryAssignmentRequest :=
  rmq.mkQueryAssignmentRequest (resource s topic) (resource s (group_name_ s)) client_id endpoints.

(** [queryAssignment] once the route is there: in broadcasting mode the assignment is
    made of the route and handed to the callback ([inr]; [None] is the null route
    dereferenced after an error); in clustering mode a broker is asked ([inl], with the
    new cursor of the broker choice).  [endpoints] is the access point. *)
Definition queryAssignment_on_route (fuel : nat) (qwb : Z) (endpoints : rmq.Endpoints) (topic : string) (ec : error_code)
    (route : option TopicRouteData.t) (s : t)
    : option ((Z * effect) + list (error_code * option TopicAssignment.t)) :=
  match message_model_ s with
  | BROADCASTING =>
      if ec_bool ec && bool_decide (route = None) then None
      else
        r ← route;
        Some (inr ((if ec_bool ec then [(ec, None)] else [])
                   ++ [(ec, Some (TopicAssignment.make
                          (map (fun p => TopicAssignment.mkAssignment (Partition.asMessageQueue p))
                             (TopicRouteData.partitions_ r))))]))
  | CLUSTERING =>
      let '(qwb, host) := selectBroker fuel qwb route in
      host ← host;
      Some (inl (qwb, CallQueryAssignment (default ""%string host) (wrapQueryAssignmentRequest topic endpoints s)
                        (io_timeout s)))
  end.

(** The completion of the assignment query. *)
Definition onQueryAssignment (ec : error_code) (response : rmq.QueryAssignmentResponse) (debug_string : string)
    : error_code * option TopicAssignment.t :=
  if ec_bool ec then (ec, None) else (ec, Some (TopicAssignment.of_response debug_string response)).

(** The callback of [scanAssignments]: an error or an empty assignment changes nothing. *)
Definition onAssignment (now : Z) (topic : string) (filter_expression : FilterExpression.t) (ec : error_code)
    (assignment : option TopicAssignment.t) (s : t) : t * list effect :=
  if ec_bool ec then (s, [])
  else match assignment with
       | Some a => if bool_decide (TopicAssignment.assignment_list_ a = []) then (s, [])
                   else syncProcessQueue now topic a filter_expression s
       | None => (s, [])
       end.

(** ** Heartbeats *)
Definition subscription_of (s : t) (topic : string) (e : FilterExpression.t) : rmq.SubscriptionEntry :=
  rmq.mkSubscriptionEntry (resource s topic)
    (rmq.mkFilterExpression (match FilterExpression.type_ e with TAG => rmq.TAG | SQL92 => rmq.SQL end)
       (FilterExpression.content_ e)).

Definition prepareHeartbeatData (s : t) : rmq.HeartbeatRequest :=
  rmq.mkHeartbeatRequest client_id
    (rmq.consumer_data
       (rmq.mkConsumerData (resource s (group_name_ s))
          (map (fun e => subscription_of s (fst e) (snd e)) (map_to_list (topic_filter_expression_table_ s)))
          (match message_model_ s with BROADCASTING => rmq.BROADCASTING | CLUSTERING => rmq.CLUSTERING end)
          rmq.RESUME 0 rmq.ACTIVE))
    (bool_decide (message_listener_ s = Some FIFO_LISTENER)).

Definition resourceBundle (s : t) : ClientResourceBundle :=
  mkClientResourceBundle client_id (map fst (map_to_list (topic_filter_expression_table_ s)))
    (resource_namespace_ s) (group_name_ s) SUBSCRIBER.

(** ** Lifecycle *)

(** When the callbacks of the route queries run: [early] of them before [countdown] is first
    tested, and for each round of the loop some between the test and the wait, whose signals
    nobody hears, and some during the wait; the second part of a round is [None] when the wait
    never ends, and [Some 0] when it ends spuriously. *)
Record RouteTimes := mkRouteTimes { early : nat; rounds : list (nat * option nat) }.

(** The loop on [countdown]; [false] when it waits for ever. *)
Fixpoint await_routes (rounds : list (nat * option nat)) (countdown : nat) : bool :=
  match countdown, rounds with
  | O, _ => true
  | _, [] => false
  | _, (missed, woken) :: rounds' =>
      match woken with None => false | Some heard => await_routes rounds' (countdown - missed - heard) end
  end.

Definition fetchRoutes (times : RouteTimes) (s : t) : bool * list effect :=
  let topics := map fst (map_to_list (topic_filter_expression_table_ s)) in
  (await_routes (rounds times) (length topics - early times), map GetRoute topics).

(** How a call ends: it returns, aborts the process, or waits for ever. *)
Inductive ending (A : Type) :=
  | Returns (a : A)
  | Aborts
  | Hangs.
#[global] Arguments Returns {A} a.
#[global] Arguments Aborts {A}.
#[global] Arguments Hangs {A}.

(** The part of [start] after the base class: without a listener it aborts the process; it
    waits for ever for routes that do not come and for a pool without workers.  [handle] is
    the id the scheduler returns. *)
Definition start_services (times : RouteTimes) (handle : Z) (s : t) : ending (t * list effect) :=
  match message_listener_ s with
  | None => Aborts
  | Some listener =>
  let s := set_policy (if bool_decide (listener = STANDARD) && bool_decide (message_model_ s = CLUSTERING)
                       then POLLING else PULL) s in
  let '(fetched, queries) := fetchRoutes times s in
  if negb fetched then Hangs
  else
  let observe := AddClientObserver :: queries ++ map ClientEffect (ClientImpl.heartbeat (prepareHeartbeatData s) (client s)) in
  match ConsumeMessageService.start (ConsumeMessageService.make (consume_thread_pool_size_ s)) with
  | None => Hangs
  | Some (service, service_effects) =>
  let service := foldl (fun sv e => ConsumeMessageService.throttle (fst e) (snd e) sv) service (map_to_list (throttle_table_ s)) in
  let s := set_service (Some (listener, service))
             (if bool_decide (listener = FIFO_LISTENER) then 1 else consume_batch_size_ s) s in
  let s := set_client (ClientImpl.set_state STARTED (client s)) (set_scan_handle handle s) in
  Returns (s, observe ++ map ServiceEffect service_effects ++ [ScheduleScan 100 5000])
  end
  end.

Definition start (times : RouteTimes) (route_handle handle : Z) (s : t) : ending (t * list effect) :=
  let '(c, effects) := ClientImpl.start route_handle (client s) in
  let s := set_client c s in
  if negb (bool_decide (ClientImpl.state_ c = STARTED)) then Returns (s, map ClientEffect effects)
  else match start_services times handle s with
       | Returns (s, effects') => Returns (s, map ClientEffect effects ++ effects')
       | Aborts => Aborts
       | Hangs => Hangs
       end.

(** [None] while the consume service is still starting. *)
Definition shutdown (s : t) : option (t * list effect) :=
  let cancel := if scan_assignment_handle_ s =? 0 then [] else [CancelScan (scan_assignment_handle_ s)] in
  let s := set_queues ∅ (created s) (set_orphans (orphaned (process_queue_table_ s) s) s) in
  '(s, stop) ← match consume_message_service_ s with
               | Some (ty, service) =>
                   '(service, effects) ← ConsumeMessageService.shutdown service;
                   Some (set_service (Some (ty, service)) (consume_batch_size_ s) s, map ServiceEffect effects)
               | None => Some (s, [])
               end;
  let '(c, effects) := ClientImpl.shutdown client_id (client s) in
  let '(_, st) := compare_exchange_strong (ClientImpl.state_ c) STOPPING STOPPED in
  Some (set_client (ClientImpl.set_state st c) s, cancel ++ stop ++ map ClientEffect effects).

(** ** Identities of the queues

    What the callbacks never change of a queue object: its number and its message queue,
    for the objects of the table and for the orphans. *)
Definition ident (o : queue_object) : nat * MQMessageQueue.t :=
  (queue_number o, ProcessQueueImpl.message_queue_ (queue_state o)).
Definition idents (s : t) : gmap qkey (nat * MQMessageQueue.t) := ident <$> process_queue_table_ s.
Definition oidents (s : t) : gmap nat MQMessageQueue.t := ProcessQueueImpl.message_queue_ <$> orphans s.

(** The frame of a callback: everything else about the queues and the client. *)
Definition frame (s s' : t) : Prop :=
  idents s' = idents s /\ oidents s' = oidents s /\ created s' = created s /\ client s' = client s
  /\ receive_message_policy_ s' = receive_message_policy_ s.

#[global] Instance frame_preorder : PreOrder frame.
Proof.
  split; [done|]. intros x y z (? & ? & ? & ? & ?) (? & ? & ? & ? & ?). unfold frame. split_and!; congruence.
Qed.

(** The numbers of the table. *)
Definition listed (n : nat) (s : t) : Prop := exists k mq, idents s !! k = Some (n, mq).

Definition wf (s : t) : Prop :=
  (forall k n mq, idents s !! k = Some (n, mq) ->
     k = MQMessageQueue.key mq /\ MQMessageQueue.service_address_ mq <> ""%string /\ (n < created s)%nat)
  /\ (forall k k' n mq mq', idents s !! k = Some (n, mq) -> idents s !! k' = Some (n, mq') -> k = k')
  /\ (forall n mq, oidents s !! n = Some mq ->
        MQMessageQueue.service_address_ mq <> ""%string /\ (n < created s)%nat /\ ~ listed n s).

Lemma wf_frame s s' : frame s s' -> wf s -> wf s'.
Proof. intros (E1 & E2 & E3 & _) H. unfold wf, listed. by rewrite E1, E2, E3. Qed.

Lemma idents_lookup s k o : process_queue_table_ s !! k = Some o -> idents s !! k = Some (ident o).
Proof. intros E. unfold idents. by rewrite lookup_fmap, E. Qed.

Lemma idents_inv s k n mq :
  idents s !! k = Some (n, mq) ->
  exists o, process_queue_table_ s !! k = Some o /\ queue_number o = n
    /\ ProcessQueueImpl.message_queue_ (queue_state o) = mq.
Proof.
  unfold idents. rewrite lookup_fmap. destruct (process_queue_table_ s !! k) as [o|]; [|done].
  intros [= <- <-]. by exists o.
Qed.

Lemma find_queue_Some s n k o :
  find_queue n s = Some (k, o) -> process_queue_table_ s !! k = Some o /\ queue_number o = n.
Proof.
  unfold find_queue. intros E. apply find_some in E as [Hin E]. cbn in E. apply Nat.eqb_eq in E.
  split; [|done]. by apply elem_of_map_to_list, list_elem_of_In.
Qed.

Lemma find_queue_live s k o :
  wf s -> process_queue_table_ s !! k = Some o -> find_queue (queue_number o) s = Some (k, o).
Proof.
  intros (_ & Hinj & _) E. unfold find_queue.
  destruct (List.find _ _) as [[k' o']|] eqn:F.
  - destruct (find_queue_Some s _ _ _ F) as [E' En].
    assert (Hk : k' = k). { eapply Hinj; [|exact (idents_lookup _ _ _ E)].
      rewrite (idents_lookup _ _ _ E'). unfold ident. by rewrite En. }
    subst k'. rewrite E in E'. by injection E' as ->.
  - apply elem_of_map_to_list, list_elem_of_In in E. apply (find_none _ _ F) in E. cbn in E.
    by rewrite Nat.eqb_refl in E.
Qed.

Lemma find_queue_listed s n : wf s -> (is_Some (find_queue n s) <-> listed n s).
Proof.
  intros Hw. split.
  - intros [[k o] E]. apply find_queue_Some in E as [E <-]. exists k, (ProcessQueueImpl.message_queue_ (queue_state o)).
    exact (idents_lookup _ _ _ E).
  - intros (k & mq & E). apply idents_inv in E as (o & E & <- & _). rewrite (find_queue_live s k o Hw E). done.
Qed.

Lemma listed_dec n s : wf s -> listed n s \/ ~ listed n s.
Proof.
  intros Hw. rewrite <- (find_queue_listed s n Hw). destruct (find_queue n s); [by left|right]. by intros [? [=]].
Qed.

Lemma find_object_live s k o :
  wf s -> process_queue_table_ s !! k = Some o -> find_object (queue_number o) s = Some (queue_state o).
Proof. intros Hw E. unfold find_object. by rewrite (find_queue_live s k o Hw E). Qed.

Lemma put_object_live s k o q :
  wf s -> process_queue_table_ s !! k = Some o ->
  put_object (queue_number o) q s = put_queue k (mkQueue (queue_number o) q) s.
Proof. intros Hw E. unfold put_object. by rewrite (find_queue_live s k o Hw E). Qed.

(** What is known of an object that is alive. *)
Lemma find_object_wf s n q :
  wf s -> find_object n s = Some q ->
  MQMessageQueue.service_address_ (ProcessQueueImpl.message_queue_ q) <> ""%string /\ (n < created s)%nat.
Proof.
  intros (H1 & _ & H3). unfold find_object. destruct (find_queue n s) as [[k o]|] eqn:E.
  - intros [= <-]. apply find_queue_Some in E as [E <-].
    by destruct (H1 k _ _ (idents_lookup _ _ _ E)) as (_ & ? & ?).
  - intros Eq. destruct (H3 n (ProcessQueueImpl.message_queue_ q)) as (? & ? & _); [|done].
    unfold oidents. by rewrite lookup_fmap, Eq.
Qed.

Lemma put_queue_frame s k o o' :
  process_queue_table_ s !! k = Some o -> ident o' = ident o -> frame s (put_queue k o' s).
Proof.
  intros E Ei. unfold frame, idents. cbn. rewrite fmap_insert, Ei. split_and!; try done.
  apply insert_id. by rewrite lookup_fmap, E.
Qed.

Lemma put_object_frame s n q q' :
  find_object n s = Some q -> ProcessQueueImpl.message_queue_ q' = ProcessQueueImpl.message_queue_ q ->
  frame s (put_object n q' s).
Proof.
  unfold find_object, put_object. destruct (find_queue n s) as [[k o]|] eqn:E.
  - intros [= <-] Hq. apply find_queue_Some in E as [E <-]. apply (put_queue_frame s k o); [done|].
    unfold ident. cbn. by rewrite Hq.
  - intros Eq Hq. unfold frame, oidents. cbn. rewrite fmap_insert, Hq. split_and!; try done.
    apply insert_id. by rewrite lookup_fmap, Eq.
Qed.

Lemma find_object_put s n q q' m :
  wf s -> find_object n s = Some q -> ProcessQueueImpl.message_queue_ q' = ProcessQueueImpl.message_queue_ q ->
  find_object m (put_object n q' s) = if decide (m = n) then Some q' else find_object m s.
Proof.
  intros Hw Hf Hq. pose proof (put_object_frame s n q q' Hf Hq) as F. pose proof (wf_frame _ _ F Hw) as Hw'.
  unfold find_object, put_object in Hf |- *. destruct (find_queue n s) as [[k o]|] eqn:En.
  - injection Hf as <-. apply find_queue_Some in En as [Ek <-].
    pose proof (put_object_live s k o q' Hw Ek) as Ep. unfold put_object in Ep.
    rewrite (find_queue_live s k o Hw Ek) in Ep. set (s' := put_queue k _ s) in *.
    assert (Hw2 : wf s').
    { eapply wf_frame; [|exact Hw]. apply (put_queue_frame s k o); [done|]. unfold ident. cbn. by rewrite Hq. }
    destruct (decide (m = queue_number o)) as [->|Hm].
    + assert (E : process_queue_table_ s' !! k = Some (mkQueue (queue_number o) q')) by (cbn; apply lookup_insert_eq).
      pose proof (find_queue_live s' k _ Hw2 E) as Hl. cbn [queue_number] in Hl. by rewrite Hl.
    + destruct (find_queue m s) as [[k' o']|] eqn:Em.
      * apply find_queue_Some in Em as [Em <-].
        assert (E : process_queue_table_ s' !! k' = Some o').
        { cbn. rewrite lookup_insert_ne; [done|]. intros ->. rewrite Ek in Em. by injection Em as ->. }
        by rewrite (find_queue_live s' k' o' Hw2 E).
      * destruct (find_queue m s') as [[k' o']|] eqn:Em'; [|done]. exfalso.
        apply find_queue_Some in Em' as [Em' <-]. cbn in Em'.
        destruct (decide (k = k')) as [<-|Hk].
        -- rewrite lookup_insert_eq in Em'. injection Em' as <-. done.
        -- rewrite lookup_insert_ne in Em' by done. by rewrite (find_queue_live s k' o' Hw Em') in Em.
  - set (s' := set_orphans _ s). assert (Ef : find_queue m s' = find_queue m s) by done. rewrite Ef.
    destruct (find_queue m s) as [[k' o']|] eqn:Em.
    + destruct (decide (m = n)) as [->|]; [by rewrite En in Em|done].
    + cbn. destruct (decide (m = n)) as [->|Hm]; [by rewrite lookup_insert_eq|by rewrite lookup_insert_ne].
Qed.

(** The queues named by the receive requests and timers of a list of effects. *)
Definition cycles (l : list effect) : list nat :=
  omap (fun x => match x with CallReceive n _ | ReceiveLater n _ => Some n | _ => None end) l.

Lemma cycles_app a b : cycles (a ++ b) = cycles a ++ cycles b.
Proof. apply omap_app. Qed.

Lemma cycles_acks l s : cycles (map (fun m => ack m s) l) = [].
Proof. by induction l. Qed.

(** A consumer that polls, with its queues in order. *)
Definition polls (s : t) : Prop := active s = true /\ receive_message_policy_ s = POLLING /\ wf s.

Lemma polls_frame s s' : frame s s' -> polls s -> polls s'.
Proof.
  intros F (H1 & H2 & H3). pose proof F as (_ & _ & _ & Ec & Ep). unfold polls, active. rewrite Ec, Ep.
  split_and!; [done|done|by eapply wf_frame].
Qed.

Lemma receive_on_spec now k o s :
  receive_message_policy_ s = POLLING -> process_queue_table_ s !! k = Some o ->
  frame s (fst (receive_on now k o s)) /\ exists c, snd (receive_on now k o s) = [CallReceive (queue_number o) c].
Proof.
  intros Hpol E. unfold receive_on, ProcessQueueImpl.receiveMessage. cbn [view receiveMessageAction]. rewrite Hpol. cbn.
  split; [|by eexists]. by apply (put_queue_frame s k o).
Qed.

(** A receive on a queue of the table. *)
Lemma receiveMessage_live now mq o f s :
  polls s -> process_queue_table_ s !! MQMessageQueue.key mq = Some o -> MQMessageQueue.service_address_ mq <> ""%string ->
  let '(ok, s', effects) := receiveMessage now mq f s in
  (s', effects) = receive_on now (MQMessageQueue.key mq) o s
  /\ frame s s' /\ exists c, effects = [CallReceive (queue_number o) c].
Proof.
  intros (Hact & Hpol & Hwf) E Ha. unfold receiveMessage, getOrCreateProcessQueue. rewrite Hact. cbn [negb].
  rewrite E, Hpol. destruct (str_empty _) eqn:Ee; [by apply str_empty_spec in Ee|].
  pose proof (receive_on_spec now _ o s Hpol E) as H. by destruct (receive_on now _ o s) as [s' effects].
Qed.

(** A receive on a queue that is not in the table creates it. *)
Lemma receiveMessage_new now mq f s :
  polls s ->
  process_queue_table_ s !! MQMessageQueue.key mq = None -> MQMessageQueue.service_address_ mq <> ""%string ->
  let '(ok, s', effects) := receiveMessage now mq f s in
  cycles effects = [created s]
  /\ exists q, s' = set_queues (<[MQMessageQueue.key mq := mkQueue (created s) q]> (process_queue_table_ s)) (S (created s)) s
        /\ ProcessQueueImpl.message_queue_ q = mq /\ ProcessQueueImpl.filter_expression_ q = f
        /\ ProcessQueueImpl.cached_messages_ q = [] /\ ProcessQueueImpl.accounted (q, []).
Proof.
  intros (Hact & Hpol & _) E Ha. unfold receiveMessage, getOrCreateProcessQueue. rewrite Hact. cbn [negb]. rewrite E.
  destruct (str_empty _) eqn:Ee; [by apply str_empty_spec in Ee|].
  cbn [set_queues receive_message_policy_]. rewrite Hpol. unfold receive_on, ProcessQueueImpl.receiveMessage.
  cbn [view receiveMessageAction receive_message_policy_ set_queues]. rewrite Hpol. cbn.
  split; [done|]. eexists. unfold put_queue, set_queues. cbn. rewrite insert_insert_eq. split_and!; try done.
Qed.

(** A new queue in the table. *)
Definition adds (mq : MQMessageQueue.t) (s s' : t) : Prop :=
  idents s' = <[MQMessageQueue.key mq := (created s, mq)]> (idents s) /\ oidents s' = oidents s
  /\ created s' = S (created s) /\ client s' = client s
  /\ receive_message_policy_ s' = receive_message_policy_ s.

Lemma set_queues_adds mq q s :
  ProcessQueueImpl.message_queue_ q = mq ->
  adds mq s (set_queues (<[MQMessageQueue.key mq := mkQueue (created s) q]> (process_queue_table_ s)) (S (created s)) s).
Proof. intros E. unfold adds, idents. cbn. rewrite fmap_insert. unfold ident. cbn. by rewrite E. Qed.

Lemma polls_adds s s' mq :
  polls s -> MQMessageQueue.service_address_ mq <> ""%string -> idents s !! MQMessageQueue.key mq = None ->
  adds mq s s' -> polls s'.
Proof.
  intros (Ha & Hp & H1 & H2 & H3) Had Hnone (Ei & Eo & Ec & Ecl & Epo).
  split_and!; [unfold active; rewrite Ecl; exact Ha|congruence|]. unfold wf, listed. rewrite Ei, Eo, Ec. split_and!.
  - intros k n mq'. destruct (decide (k = MQMessageQueue.key mq)) as [->|Hk].
    + rewrite lookup_insert_eq. intros [= <- <-]. split_and!; [done|done|lia].
    + rewrite lookup_insert_ne by done. intros E. destruct (H1 _ _ _ E) as (? & ? & ?). split_and!; [done|done|lia].
  - intros k k' n mq1 mq2.
    destruct (decide (k = MQMessageQueue.key mq)) as [->|Hk], (decide (k' = MQMessageQueue.key mq)) as [->|Hk'];
      rewrite ?lookup_insert_eq, ?lookup_insert_ne by done; [done|..|by eauto].
    + intros [= <- <-] E. destruct (H1 _ _ _ E) as (_ & _ & ?). lia.
    + intros E [= <- <-]. destruct (H1 _ _ _ E) as (_ & _ & ?). lia.
  - intros n mq' E. destruct (H3 n mq' E) as (? & ? & Hn). split_and!; [done|lia|]. intros (k & mq2 & Hk). apply Hn.
    destruct (decide (k = MQMessageQueue.key mq)) as [->|Hne].
    + rewrite lookup_insert_eq in Hk. injection Hk as Hx _. lia.
    + rewrite lookup_insert_ne in Hk by done. by exists k, mq2.
Qed.

(** How a callback for the object [n] ends: the one cycle it goes on with is its own when
    the object is in the table; for an orphan it may also be that of the table's queue, or
    of a new one. *)
Definition goes_on (n : nat) (s s' : t) (effects : list effect) : Prop :=
  polls s'
  /\ ((frame s s' /\ exists j, cycles effects = [j] /\ (j < created s)%nat /\ (listed n s -> j = n))
      \/ (~ listed n s /\ cycles effects = [created s]
          /\ exists mq, idents s !! MQMessageQueue.key mq = None /\ adds mq s s')).

Lemma goes_on_frame n s s1 s' effects : frame s s1 -> goes_on n s1 s' effects -> goes_on n s s' effects.
Proof.
  intros F [Hp H]. split; [done|]. pose proof F as (E1 & E2 & E3 & E4 & E5). unfold listed in *.
  rewrite E1, E3 in H. destruct H as [(F' & j & Hj)|(Hl & Hc & mq & Hn & Ha)].
  - left. split; [by etransitivity|]. by exists j.
  - right. split_and!; [done|done|]. exists mq. split; [done|].
    destruct Ha as (A1 & A2 & A3 & A4 & A5). split_and!; congruence.
Qed.

Lemma goes_on_app n s s' a e : cycles a = [] -> goes_on n s s' e -> goes_on n s s' (a ++ e).
Proof. intros Ha [Hp H]. split; [done|]. by rewrite cycles_app, Ha. Qed.

Lemma receiveMessageLater_spec s n q :
  find_object n s = Some q -> receiveMessageLater n s = (s, [ReceiveLater n 1000]).
Proof. intros E. unfold receiveMessageLater. by rewrite E. Qed.

Lemma later_goes_on s n q :
  polls s -> find_object n s = Some q ->
  goes_on n s (fst (receiveMessageLater n s)) (snd (receiveMessageLater n s)).
Proof.
  intros Hs E. rewrite (receiveMessageLater_spec s n q E). split; [done|]. left. split; [done|]. exists n.
  split_and!; [done|by apply (find_object_wf s n q (proj2 (proj2 Hs)))|done].
Qed.

Lemma receiveMessageImmediately_spec now s n q :
  polls s -> find_object n s = Some q ->
  goes_on n s (fst (receiveMessageImmediately now n s)) (snd (receiveMessageImmediately now n s))
  /\ exists j c, snd (receiveMessageImmediately now n s) = [CallReceive j c].
Proof.
  intros Hs E. pose proof Hs as (Ha & Hp & Hw). destruct (find_object_wf s n q Hw E) as [Had Hn].
  unfold receiveMessageImmediately. rewrite E. set (mq := ProcessQueueImpl.message_queue_ q) in *.
  destruct (process_queue_table_ s !! MQMessageQueue.key mq) as [o|] eqn:Eo.
  - pose proof (receiveMessage_live now mq o (ProcessQueueImpl.filter_expression_ q) s Hs Eo Had) as H.
    destruct (receiveMessage _ _ _ _) as [[ok s'] effects]. destruct H as (_ & F & c & ->). cbn [fst snd].
    split; [|by eexists _, _]. split; [by eapply polls_frame|]. left. split; [done|]. exists (queue_number o).
    split_and!; [done| |].
    + by destruct (proj1 Hw _ _ _ (idents_lookup _ _ _ Eo)) as (_ & _ & ?).
    + intros Hl. apply (find_queue_listed s n Hw) in Hl as [[k o'] Ef].
      unfold find_object in E. rewrite Ef in E. injection E as Eq. apply find_queue_Some in Ef as [Ef <-].
      destruct (proj1 Hw k _ _ (idents_lookup _ _ _ Ef)) as (Hk & _ & _).
      rewrite Eq in Hk. fold mq in Hk. rewrite <- Hk, Ef in Eo. by injection Eo as ->.
  - pose proof (receiveMessage_new now mq (ProcessQueueImpl.filter_expression_ q) s Hs Eo Had) as H.
    destruct (receiveMessage _ _ _ _) as [[ok s'] effects] eqn:Er. destruct H as (Hc & q' & -> & Hq' & _). cbn [fst snd].
    assert (Hcall : exists j c, effects = [CallReceive j c]).
    { unfold receiveMessage, getOrCreateProcessQueue in Er. rewrite Ha, Eo in Er. cbn [negb] in Er.
      destruct (str_empty _) eqn:Ee; [by apply str_empty_spec in Ee|]. cbn [set_queues receive_message_policy_] in Er.
      rewrite Hp in Er. unfold receive_on, ProcessQueueImpl.receiveMessage in Er.
      cbn [view receiveMessageAction receive_message_policy_ set_queues] in Er. rewrite Hp in Er. cbn in Er.
      injection Er as <- _ <-. by eexists _, _. }
    split; [|exact Hcall].
    assert (Hnone : idents s !! MQMessageQueue.key mq = None) by (unfold idents; by rewrite lookup_fmap, Eo).
    pose proof (set_queues_adds mq q' s Hq') as Hadds. split; [by eapply polls_adds|]. right. split_and!; [|done|by exists mq].
    intros Hl. apply (find_queue_listed s n Hw) in Hl as [[k o'] Ef].
    unfold find_object in E. rewrite Ef in E. injection E as Eq. apply find_queue_Some in Ef as [Ef <-].
    destruct (proj1 Hw k _ _ (idents_lookup _ _ _ Ef)) as (Hk & _ & _).
    rewrite Eq in Hk. fold mq in Hk. by rewrite <- Hk, Ef in Eo.
Qed.

Lemma checkThrottle_spec now s n q :
  polls s -> find_object n s = Some q ->
  goes_on n s (fst (checkThrottleThenReceive now n s)) (snd (checkThrottleThenReceive now n s))
  /\ if ProcessQueueImpl.shouldThrottle (Some (view s)) q
     then snd (checkThrottleThenReceive now n s) = [ReceiveLater n 1000]
     else exists j c, snd (checkThrottleThenReceive now n s) = [CallReceive j c].
Proof.
  intros Hs E. pose proof Hs as (Ha & Hp & Hw). unfold checkThrottleThenReceive. rewrite E.
  destruct (ProcessQueueImpl.shouldThrottle _ _); [|by apply (receiveMessageImmediately_spec now s n q)].
  set (q' := ProcessQueueImpl.syncIdleState now q).
  assert (F : frame s (put_object n q' s)) by (by apply (put_object_frame s n q)).
  assert (E' : find_object n (put_object n q' s) = Some q').
  { rewrite (find_object_put s n q) by done. by rewrite decide_True. }
  split; [|by rewrite (receiveMessageLater_spec _ n q' E')].
  eapply goes_on_frame; [exact F|]. apply (later_goes_on _ n q'); [by eapply polls_frame|done].
Qed.

(** The message queue of an object survives the caching. *)
Lemma cache_loop_mq c l q :
  ProcessQueueImpl.message_queue_ (fst (ProcessQueueImpl.cache_loop c l q)) = ProcessQueueImpl.message_queue_ q.
Proof.
  revert q. induction l as [|m l IH]; intros q; cbn [ProcessQueueImpl.cache_loop]; [done|].
  unfold ProcessQueueImpl.cache_one. destruct (negb _).
  - specialize (IH q). by destruct (ProcessQueueImpl.cache_loop _ l q).
  - match goal with |- context [ProcessQueueImpl.cache_loop _ l ?y] =>
      specialize (IH y); destruct (ProcessQueueImpl.cache_loop _ l y) end. done.
Qed.

Lemma cache_on_spec s n q l :
  wf s -> find_object n s = Some q ->
  let q' := fst (ProcessQueueImpl.cacheMessages (Some (view s)) l q) in
  cache_on n q l s = (put_object n q' s,
    map (fun m => ack m s) (snd (ProcessQueueImpl.cacheMessages (Some (view s)) l q)))
  /\ frame s (put_object n q' s) /\ find_object n (put_object n q' s) = Some q'.
Proof.
  intros Hw E q'. pose proof (cache_loop_mq (view s) l q) as Hmq. unfold cache_on.
  assert (Eq : ProcessQueueImpl.message_queue_ q' = ProcessQueueImpl.message_queue_ q) by exact Hmq.
  split_and!; [|by apply (put_object_frame s n q)|].
  - unfold q'. by destruct (ProcessQueueImpl.cacheMessages (Some (view s)) l q).
  - rewrite (find_object_put s n q) by done. by rewrite decide_True.
Qed.

(** Every completion of a receive on an object that is alive starts exactly one new
    request or timer. *)
Lemma onSuccess_spec now s n q r :
  polls s -> find_object n s = Some q ->
  goes_on n s (fst (onSuccess now n r s)) (snd (onSuccess now n r s)).
Proof.
  intros Hs E. pose proof Hs as (Ha & Hp & Hw). unfold onSuccess. rewrite E, Ha.
  rewrite (bool_decide_eq_false_2 (receive_message_policy_ s = PULL)) by congruence. cbn [negb].
  assert (Hcheck : forall s1 q1 acks, frame s s1 -> find_object n s1 = Some q1 -> cycles acks = [] ->
    goes_on n s (fst (let '(s, effects) := checkThrottleThenReceive now n s1 in (s, acks ++ effects)))
                (snd (let '(s, effects) := checkThrottleThenReceive now n s1 in (s, acks ++ effects)))).
  { intros s1 q1 acks F E1 Hacks. destruct (checkThrottle_spec now s1 n q1 (polls_frame _ _ F Hs) E1) as [H _].
    destruct (checkThrottleThenReceive now n s1) as [s2 e]. cbn [fst snd] in *.
    eapply goes_on_frame; [exact F|]. by apply goes_on_app. }
  destruct (cache_on_spec s n q (ReceiveMessageResult.messages_ r) Hw E) as (Ec & Fc & E1). rewrite Ec.
  assert (Hsig : forall acks, cycles acks = [] -> cycles (acks ++ [SignalDispatcher]) = []).
  { intros acks Hx. by rewrite cycles_app, Hx. }
  destruct (ReceiveMessageResult.status_ r).
  - pose proof (Hcheck _ _ _ Fc E1 (Hsig _ (cycles_acks (snd (ProcessQueueImpl.cacheMessages (Some (view s))
       (ReceiveMessageResult.messages_ r) q)) s))) as H.
    destruct (checkThrottleThenReceive _ _ _) as [s2 e]. cbn [fst snd] in *. by rewrite <- app_assoc in H.
  - by destruct (checkThrottle_spec now s n q Hs E) as [H _].
  - by apply (later_goes_on s n q).
  - by apply (later_goes_on s n q).
  - cbv beta zeta. set (q' := ProcessQueueImpl.nextOffset _ q).
    assert (F : frame s (put_object n q' s)) by (by apply (put_object_frame s n q)).
    assert (E' : find_object n (put_object n q' s) = Some q').
    { rewrite (find_object_put s n q) by done. by rewrite decide_True. }
    destruct (checkThrottle_spec now _ n q' (polls_frame _ _ F Hs) E') as [H _]. by eapply goes_on_frame.
  - pose proof (Hcheck _ _ _ Fc E1 (Hsig _ (cycles_acks (snd (ProcessQueueImpl.cacheMessages (Some (view s))
       (ReceiveMessageResult.messages_ r) q)) s))) as H. exact H.
  - by apply (later_goes_on s n q).
Qed.

(** *** Synchronising with an assignment *)

Definition fresh_queues (current : list qkey) (l : list MQMessageQueue.t) : list MQMessageQueue.t :=
  List.filter (fun mq => negb (bool_decide (MQMessageQueue.key mq ∈ current))) l.

(** A queue object as it is created. *)
Definition newly (mq : MQMessageQueue.t) (f : FilterExpression.t) (o : queue_object) : Prop :=
  ident o = (queue_number o, mq) /\ ProcessQueueImpl.filter_expression_ (queue_state o) = f
  /\ ProcessQueueImpl.cached_messages_ (queue_state o) = [] /\ ProcessQueueImpl.accounted (queue_state o, []).

Lemma start_receiving_spec now current f l s :
  polls s -> NoDup (map MQMessageQueue.key l) -> Forall (fun mq => MQMessageQueue.service_address_ mq <> ""%string) l ->
  (forall mq, mq ∈ fresh_queues current l -> process_queue_table_ s !! MQMessageQueue.key mq = None) ->
  let '(s', effects) := start_receiving now current f l s in
  polls s' /\ client s' = client s /\ orphans s' = orphans s
  /\ (created s <= created s')%nat /\ cycles effects = seq (created s) (created s' - created s)
  /\ (forall k, k ∉ map MQMessageQueue.key (fresh_queues current l) ->
        process_queue_table_ s' !! k = process_queue_table_ s !! k)
  /\ (forall mq, mq ∈ fresh_queues current l ->
        exists o, process_queue_table_ s' !! MQMessageQueue.key mq = Some o
          /\ newly mq f o /\ (created s <= queue_number o < created s')%nat).
Proof.
  revert s. induction l as [|mq l IH]; intros s Hs Hnd Ha Hnew; cbn [start_receiving].
  { rewrite Nat.sub_diag. split_and!; try done. intros mq Hin. by apply not_elem_of_nil in Hin. }
  cbn [map] in Hnd. apply NoDup_cons in Hnd as [Hni Hnd]. apply Forall_cons in Ha as [Ha1 Ha].
  cbn [fresh_queues List.filter] in *. fold (fresh_queues current l) in *.
  case_bool_decide as Hcur; cbn [negb] in *.
  { specialize (IH s Hs Hnd Ha Hnew). by destruct (start_receiving now current f l s). }
  pose proof (Hnew mq ltac:(left)) as Hnone.
  pose proof (receiveMessage_new now mq f s Hs Hnone Ha1) as H.
  destruct (receiveMessage now mq f s) as [[ok s1] e1]. destruct H as (Hcy & q & Es1 & Hq1 & Hq2 & Hq3 & Hq4).
  assert (Hs1 : polls s1).
  { apply (polls_adds s s1 mq Hs Ha1); [unfold idents; by rewrite lookup_fmap, Hnone|]. subst s1. by apply set_queues_adds. }
  assert (Ht : process_queue_table_ s1 = <[MQMessageQueue.key mq := mkQueue (created s) q]> (process_queue_table_ s))
    by (by subst s1).
  assert (Hc : created s1 = S (created s)) by (by subst s1).
  assert (Hsub : forall mq', mq' ∈ fresh_queues current l -> MQMessageQueue.key mq' <> MQMessageQueue.key mq).
  { intros mq' Hin E. apply Hni. rewrite <- E. apply list_elem_of_In, in_map.
    apply list_elem_of_In, filter_In in Hin as [Hin _]. exact Hin. }
  specialize (IH s1 Hs1 Hnd Ha). destruct (start_receiving now current f l s1) as [s' e2].
  destruct IH as (G1 & G2 & G2' & G3 & G4 & G5 & G6).
  { intros mq' Hin. rewrite Ht, lookup_insert_ne by (by apply not_eq_sym, Hsub). apply Hnew. by right. }
  rewrite Hc in *. split_and!; [done|by subst s1|by subst s1|lia| | |].
  - rewrite cycles_app, Hcy, G4. replace (created s' - created s)%nat with (S (created s' - S (created s))) by lia. done.
  - intros k Hk. cbn [map] in Hk. apply not_elem_of_cons in Hk as [Hk1 Hk2]. rewrite (G5 k Hk2), Ht.
    by rewrite lookup_insert_ne.
  - intros mq' Hin. apply elem_of_cons in Hin as [->|Hin].
    + exists (mkQueue (created s) q). rewrite G5, Ht, lookup_insert_eq.
      * split_and!; [done| |cbn; lia..]. unfold newly, ident. cbn. by rewrite Hq1.
      * intros Hin. apply list_elem_of_In, in_map_iff in Hin as (mq' & E & Hin). apply (Hsub mq'); [by apply list_elem_of_In|done].
    + destruct (G6 mq' Hin) as (o & ? & ? & ?). exists o. split_and!; try done; lia.
Qed.

(** An assignment as a load balancer makes it: distinct queues of the topic, each with the
    address of its broker. *)
Definition queues_of (a : TopicAssignment.t) : list MQMessageQueue.t :=
  map TopicAssignment.message_queue_ (TopicAssignment.assignment_list_ a).

Record well_assigned (topic : string) (a : TopicAssignment.t) : Prop := {
  wa_nodup : NoDup (map MQMessageQueue.key (queues_of a));
  wa_topic : Forall (fun mq => MQMessageQueue.topic_ mq = topic) (queues_of a);
  wa_address : Forall (fun mq => MQMessageQueue.service_address_ mq <> ""%string) (queues_of a);
}.

(** A part of the table leaves it. *)
Definition keep_queues (table : gmap qkey queue_object) (s : t) : t :=
  set_queues table (created s) (set_orphans (orphaned (process_queue_table_ s ∖ table) s) s).

Lemma orphaned_lookup s leaving n q :
  orphaned leaving s !! n = Some q ->
  (exists k o, leaving !! k = Some o /\ queue_number o = n /\ queue_state o = q) \/ orphans s !! n = Some q.
Proof.
  unfold orphaned. intros E. apply lookup_union_Some_raw in E as [E|[_ E]]; [left|by right].
  apply elem_of_list_to_map_2 in E. apply list_elem_of_fmap in E as ([k o] & [= -> ->] & Hin).
  exists k, o. split_and!; try done. by apply elem_of_map_to_list.
Qed.

Lemma polls_keep s table : polls s -> table ⊆ process_queue_table_ s -> polls (keep_queues table s).
Proof.
  intros (H1 & H2 & H3 & H4 & H5) Hsub. split_and!; [exact H1|exact H2|].
  assert (Hi : forall k x, idents (keep_queues table s) !! k = Some x -> idents s !! k = Some x /\ is_Some (table !! k)).
  { intros k x E. unfold idents in E. cbn in E. rewrite lookup_fmap in E. destruct (table !! k) as [o|] eqn:Eo; [|done].
    injection E as <-. split; [|done]. apply idents_lookup. by eapply lookup_weaken. }
  split_and!.
  - intros k n mq E. apply Hi in E as [E _]. exact (H3 k n mq E).
  - intros k k' n mq mq' E E'. apply Hi in E as [E _], E' as [E' _]. eauto.
  - intros n mq E. unfold oidents in E. cbn in E. rewrite lookup_fmap in E.
    destruct (orphaned _ s !! n) as [q|] eqn:Eq; [|done]. injection E as <-.
    apply orphaned_lookup in Eq as [(k & o & Hk & <- & <-)|Eq].
    + apply lookup_difference_Some in Hk as [Hk Hnone]. pose proof (idents_lookup _ _ _ Hk) as Hid.
      destruct (H3 k _ _ Hid) as (_ & ? & ?). split_and!; [done|done|].
      intros (k' & mq' & E'). apply Hi in E' as [E' [o' Ho']].
      rewrite (H4 _ _ _ _ _ E' Hid), Hnone in Ho'. done.
    + destruct (H5 n (ProcessQueueImpl.message_queue_ q)) as (? & ? & Hn);
        [unfold oidents; by rewrite lookup_fmap, Eq|].
      split_and!; [done|done|]. intros (k & mq & E). apply Hi in E as [E _]. apply Hn. by exists k, mq.
Qed.

Lemma polls_orphans s o : polls s -> o ⊆ orphans s -> polls (set_orphans o s).
Proof.
  intros (H1 & H2 & H3 & H4 & H5) Hsub. split_and!; [done|done|]. split_and!; [done|done|]. intros n mq E. apply H5.
  unfold oidents in *. cbn in E. rewrite lookup_fmap in *. destruct (o !! n) as [q|] eqn:Eo; [|done].
  by rewrite (lookup_weaken _ _ _ _ Eo Hsub).
Qed.

(** The entries that survive the first loop. *)
Definition retained (now : Z) (topic : string) (a : TopicAssignment.t) (s : t) : gmap qkey queue_object :=
  filter (fun e => stays now topic (map MQMessageQueue.key (queues_of a)) (fst e) (snd e) = true) (process_queue_table_ s).

Definition current_of (topic : string) (table : gmap qkey queue_object) : list qkey :=
  List.filter (fun k => String.eqb topic (fst (fst k))) (map fst (map_to_list table)).

Lemma elem_of_current topic table k :
  k ∈ current_of topic table <-> fst (fst k) = topic /\ is_Some (table !! k).
Proof.
  unfold current_of. rewrite list_elem_of_In, filter_In, in_map_iff, String.eqb_eq. split.
  - intros [([k' o] & <- & Hin) E]. split; [done|]. exists o. by apply elem_of_map_to_list, list_elem_of_In.
  - intros [E [o Ho]]. split; [|done]. exists (k, o). split; [done|]. by apply list_elem_of_In, elem_of_map_to_list.
Qed.

Lemma retained_lookup now topic a s k o :
  retained now topic a s !! k = Some o <->
  process_queue_table_ s !! k = Some o
  /\ (fst (fst k) <> topic \/ (k ∈ map MQMessageQueue.key (queues_of a)
                               /\ ProcessQueueImpl.expired now (queue_state o) = false)).
Proof.
  unfold retained. rewrite map_lookup_filter_Some. cbn [fst snd]. unfold stays.
  destruct (String.eqb_spec topic (fst (fst k))) as [->|Hne]; cbn [negb].
  - rewrite andb_true_iff, bool_decide_eq_true, negb_true_iff. intuition congruence.
  - split; [|tauto]. intros [? _]. split; [done|]. left. congruence.
Qed.

Lemma sync_spec now topic a f s :
  polls s -> well_assigned topic a ->
  let '(s', effects) := syncProcessQueue now topic a f s in
  let new := fresh_queues (current_of topic (retained now topic a s)) (queues_of a) in
  polls s' /\ client s' = client s
  /\ orphans s' = orphaned (process_queue_table_ s ∖ retained now topic a s) s
  /\ (created s <= created s')%nat /\ cycles effects = seq (created s) (created s' - created s)
  /\ (forall k, k ∉ map MQMessageQueue.key new -> process_queue_table_ s' !! k = retained now topic a s !! k)
  /\ (forall mq, mq ∈ new ->
        exists o, process_queue_table_ s' !! MQMessageQueue.key mq = Some o
          /\ newly mq f o /\ (created s <= queue_number o < created s')%nat).
Proof.
  intros Hs [Hnd Ht Ha]. unfold syncProcessQueue. fold (queues_of a). fold (retained now topic a s).
  fold (current_of topic (retained now topic a s)).
  apply (start_receiving_spec now (current_of topic (retained now topic a s)) f (queues_of a)
           (keep_queues (retained now topic a s) s)); [|done|done|].
  - apply polls_keep; [done|]. apply map_filter_subseteq.
  - intros mq Hin. cbn. apply list_elem_of_In, filter_In in Hin as [Hin Hc].
    apply negb_true_iff, bool_decide_eq_false in Hc. apply eq_None_not_Some. intros Hsome. apply Hc, elem_of_current.
    split; [|done]. apply list_elem_of_In in Hin. exact (proj1 (Forall_forall _ _) Ht mq Hin).
Qed.

(** C14: after a new assignment of a topic to an active consumer that polls, which names the
    queues of the topic once each and with an address, the process queues of the topic are
    exactly the assigned ones: a queue that was assigned before and is not idle for too long is kept
    with everything it has cached, the other assigned queues get a new, empty process
    queue with the topic's filter and one receive request each, and all the rest of the
    topic is dropped; the queues of other topics are not touched. *)
Theorem assignment_synchronised now topic a f s :
  polls s -> well_assigned topic a ->
  let '(s', effects) := syncProcessQueue now topic a f s in
  (forall k, fst (fst k) <> topic -> process_queue_table_ s' !! k = process_queue_table_ s !! k)
  /\ (forall k, fst (fst k) = topic ->
        (is_Some (process_queue_table_ s' !! k) <-> k ∈ map MQMessageQueue.key (queues_of a)))
  /\ (forall k o, process_queue_table_ s !! k = Some o -> k ∈ map MQMessageQueue.key (queues_of a) ->
        ProcessQueueImpl.expired now (queue_state o) = false -> process_queue_table_ s' !! k = Some o)
  /\ (forall mq, mq ∈ queues_of a ->
        (forall o, process_queue_table_ s !! MQMessageQueue.key mq = Some o ->
           ProcessQueueImpl.expired now (queue_state o) = true) ->
        exists o, process_queue_table_ s' !! MQMessageQueue.key mq = Some o
          /\ ProcessQueueImpl.cached_messages_ (queue_state o) = []
          /\ ProcessQueueImpl.filter_expression_ (queue_state o) = f
          /\ count_occ Nat.eq_dec (cycles effects) (queue_number o) = 1%nat).
Proof.
  intros Hs Ha. pose proof (sync_spec now topic a f s Hs Ha) as H.
  destruct (syncProcessQueue now topic a f s) as [s' effects]. cbn zeta in H.
  set (new := fresh_queues _ _) in H. destruct H as (_ & _ & _ & Hle & Hcy & Hold & Hnew). destruct Ha as [Hnd Ht _].
  assert (Hin : forall mq, mq ∈ new <-> mq ∈ queues_of a /\ retained now topic a s !! MQMessageQueue.key mq = None).
  { intros mq. unfold new, fresh_queues. rewrite list_elem_of_In, filter_In, negb_true_iff, bool_decide_eq_false.
    rewrite elem_of_current, <- list_elem_of_In, eq_None_not_Some. split; [|tauto]. intros [Hq Hc]. split; [done|].
    intros Hsome. apply Hc. split; [|done]. exact (proj1 (Forall_forall _ _) Ht mq Hq). }
  assert (Hkey : forall k, k ∈ map MQMessageQueue.key new <->
                 k ∈ map MQMessageQueue.key (queues_of a) /\ retained now topic a s !! k = None).
  { intros k. rewrite !list_elem_of_fmap. split.
    - intros (mq & -> & Hm). apply Hin in Hm as [Hm Hr]. split; [by exists mq|done].
    - intros [(mq & -> & Hm) Hr]. exists mq. split; [done|]. by apply Hin. }
  assert (Htopic : forall k, k ∈ map MQMessageQueue.key (queues_of a) -> fst (fst k) = topic).
  { intros k Hk. apply list_elem_of_fmap in Hk as (mq & -> & Hm). exact (proj1 (Forall_forall _ _) Ht mq Hm). }
  split_and!.
  - intros k Hk. rewrite Hold by (intros Hx; apply Hkey in Hx as [Hx _]; by apply Htopic in Hx).
    destruct (retained now topic a s !! k) as [o|] eqn:E.
    + apply retained_lookup in E as [-> _]. done.
    + destruct (process_queue_table_ s !! k) as [o|] eqn:Eo; [|done].
      assert (X : retained now topic a s !! k = Some o) by (apply retained_lookup; auto). by rewrite X in E.
  - intros k Hk. destruct (decide (k ∈ map MQMessageQueue.key new)) as [Hn|Hn].
    + split; [intros _; by apply Hkey in Hn as [? _]|]. intros _.
      apply list_elem_of_fmap in Hn as (mq & -> & Hm). destruct (Hnew mq Hm) as (o & -> & _). done.
    + rewrite (Hold k Hn). split.
      * intros [o Ho]. apply retained_lookup in Ho as [_ [?|[? _]]]; done.
      * intros Hka. apply not_eq_None_Some. intros Hr. apply Hn, Hkey. done.
  - intros k o Ho Hka He. assert (X : retained now topic a s !! k = Some o) by (apply retained_lookup; auto).
    rewrite Hold; [done|]. intros Hx. apply Hkey in Hx as [_ Hx]. by rewrite X in Hx.
  - intros mq Hm Hexp. destruct (Hnew mq) as (o & Ho & (_ & Hf & Hc & _) & Hr).
    { apply Hin. split; [done|]. destruct (retained now topic a s !! MQMessageQueue.key mq) as [o|] eqn:E; [|done].
      apply retained_lookup in E as [Eo [Hne|[_ He]]].
      - exfalso. apply Hne. exact (proj1 (Forall_forall _ _) Ht mq Hm).
      - by rewrite (Hexp o Eo) in He. }
    exists o. split_and!; try done. rewrite Hcy. apply NoDup_count_occ'; [apply NoDup_ListNoDup, NoDup_seq|]. apply in_seq. lia.
Qed.

(** ** The receive cycles

    Histories of a polling consumer.  [pending] are the numbers of the queues for which a
    receive request is in flight or a timer is set; any of them may complete at any time,
    with any result.  Orphans may be destroyed at any time; [strays] counts the callbacks
    that found their queue as an orphan.  [CUpdate] is whatever the consume service does to
    a queue. *)
Record cycle_state := mkCycles { polling : t; pending : list nat; strays : nat }.

Definition stray (n : nat) (s : t) : nat :=
  match find_queue n s with
  | Some _ => 0
  | None => match orphans s !! n with Some _ => 1 | None => 0 end
  end.

(** The completion [handler] of the pending request or timer of queue [n]. *)
Definition completes (n : nat) (handler : t -> t * list effect) (x y : cycle_state) : Prop :=
  exists p1 p2, pending x = p1 ++ n :: p2
    /\ polling y = fst (handler (polling x))
    /\ pending y = p1 ++ p2 ++ cycles (snd (handler (polling x)))
    /\ strays y = (strays x + stray n (polling x))%nat.

Inductive cstep (x : cycle_state) : cycle_state -> Prop :=
  | CSync now topic a f :
      well_assigned topic a ->
      cstep x (mkCycles (fst (syncProcessQueue now topic a f (polling x)))
                 (pending x ++ cycles (snd (syncProcessQueue now topic a f (polling x)))) (strays x))
  | CReceived now n r y : completes n (onSuccess now n r) x y -> cstep x y
  | CFailed n y : completes n (onFailure n) x y -> cstep x y
  | CTimer now n y : completes n (checkThrottleThenReceive now n) x y -> cstep x y
  | CUpdate n q q' :
      find_object n (polling x) = Some q ->
      ProcessQueueImpl.message_queue_ q' = ProcessQueueImpl.message_queue_ q ->
      cstep x (mkCycles (put_object n q' (polling x)) (pending x) (strays x))
  | CDestroy o :
      o ⊆ orphans (polling x) -> cstep x (mkCycles (set_orphans o (polling x)) (pending x) (strays x)).

Inductive csteps : cycle_state -> cycle_state -> Prop :=
  | csteps_refl x : csteps x x
  | csteps_snoc x y z : csteps x y -> cstep y z -> csteps x z.

Record cinv (x : cycle_state) : Prop := {
  ci_polls : polls (polling x);
  ci_some n : listed n (polling x) ->
    (1 <= count_occ Nat.eq_dec (pending x) n <= 1 + strays x)%nat;
  ci_old : Forall (fun n => n < created (polling x))%nat (pending x);
}.

Lemma cinv_frame x s : cinv x -> frame (polling x) s -> cinv (mkCycles s (pending x) (strays x)).
Proof.
  intros [Hp Ho Hl] F. pose proof F as (Ei & _ & Ec & _). split; cbn.
  - by eapply polls_frame.
  - intros n. unfold listed. rewrite Ei. apply Ho.
  - by rewrite Ec.
Qed.

Lemma stray_unlisted n s q : wf s -> find_object n s = Some q -> ~ listed n s -> stray n s = 1%nat.
Proof.
  intros Hw. unfold find_object, stray. destruct (find_queue n s) as [[k o]|] eqn:E.
  - intros _ Hl. exfalso. apply Hl. apply (find_queue_listed s n Hw). by rewrite E.
  - by intros ->.
Qed.

(** A handler of queue [n] that goes on with one cycle, or does nothing once it is gone. *)
Lemma cinv_completes n handler x y :
  cinv x -> completes n handler x y ->
  (forall q, find_object n (polling x) = Some q ->
     goes_on n (polling x) (fst (handler (polling x))) (snd (handler (polling x)))) ->
  (find_object n (polling x) = None -> handler (polling x) = (polling x, [])) ->
  cinv y.
Proof.
  intros [Hp Ho Hl] (p1 & p2 & Epend & Epoll & Ey & Es) Hlive Hdead. rewrite Epend in Ho, Hl.
  pose proof Hp as (_ & _ & Hw). set (s := polling x) in *.
  apply Forall_app in Hl as [Hl1 Hl2]. apply Forall_cons in Hl2 as [Hln Hl2].
  assert (Hcount : forall m l, (count_occ Nat.eq_dec (p1 ++ p2 ++ l) m + (if Nat.eq_dec n m then 1 else 0)
                             = count_occ Nat.eq_dec (p1 ++ n :: p2) m + count_occ Nat.eq_dec l m)%nat).
  { intros m l. rewrite !count_occ_app. cbn [count_occ]. destruct (Nat.eq_dec n m); lia. }
  destruct (find_object n s) as [q|] eqn:E.
  - destruct (Hlive q eq_refl) as [Hp' H]. set (effects := snd (handler s)) in *. set (s' := fst (handler s)) in *.
    destruct H as [(F & j & Hj & Hjc & Hjn)|(Hnl & Hj & mq & Hnone & Ei & _ & Ec & _)];
      split; rewrite ?Epoll, ?Ey, ?Es; [done| | |done| |].
    + pose proof F as (Ei & _ & _). intros m Hm. unfold listed in Hm. rewrite Ei in Hm.
      specialize (Ho m Hm). specialize (Hcount m [j]). rewrite Hj. cbn [count_occ] in Hcount.
      destruct (listed_dec n s Hw) as [Hn|Hn].
      * rewrite (Hjn Hn) in *. destruct (Nat.eq_dec n m); lia.
      * rewrite (stray_unlisted n s q Hw E Hn). destruct (Nat.eq_dec n m) as [->|]; [done|].
        destruct (Nat.eq_dec j m); lia.
    + pose proof F as (_ & _ & -> & _). rewrite Hj, !Forall_app. by repeat constructor.
    + intros m (k & mq' & Hm). rewrite Ei in Hm. specialize (Hcount m [created s]). rewrite Hj.
      cbn [count_occ] in Hcount.
      destruct (decide (k = MQMessageQueue.key mq)) as [->|Hk].
      * rewrite lookup_insert_eq in Hm. injection Hm as <- <-.
        destruct (Nat.eq_dec (created s) (created s)); [|done]. destruct (Nat.eq_dec n (created s)); [lia|].
        assert (Hz : forall l, Forall (fun i => i < created s)%nat l -> count_occ Nat.eq_dec l (created s) = 0%nat).
        { intros l Hx. apply count_occ_not_In. intros Hin. apply list_elem_of_In in Hin.
          eapply Forall_forall in Hx; [|exact Hin]. cbn in Hx. lia. }
        rewrite !count_occ_app in *. cbn [count_occ] in *. rewrite (Hz p1 Hl1), (Hz p2 Hl2) in *.
        destruct (Nat.eq_dec (created s) (created s)); [|done]. lia.
      * rewrite lookup_insert_ne in Hm by done. assert (Hlm : listed m s) by (by exists k, mq').
        specialize (Ho m Hlm). destruct (proj1 Hw _ _ _ Hm) as (_ & _ & Hlt).
        destruct (Nat.eq_dec n m) as [->|]; [done|]. destruct (Nat.eq_dec (created s) m); lia.
    + rewrite Ec, Hj, !Forall_app. repeat constructor; try lia; eapply Forall_impl; try done; cbn; lia.
  - rewrite (Hdead eq_refl) in *. cbn [fst snd] in *.
    assert (Hn : ~ listed n s).
    { intros Hn. apply (find_queue_listed s n Hw) in Hn as [[k o] Ef]. unfold find_object in E. by rewrite Ef in E. }
    split; rewrite ?Epoll, ?Ey, ?Es; [done| |rewrite !Forall_app; by repeat constructor].
    intros m Hm. specialize (Ho m Hm). specialize (Hcount m []). cbn [count_occ] in Hcount. cbn [cycles omap list_omap].
    destruct (Nat.eq_dec n m) as [->|]; [done|]. lia.
Qed.

Lemma cinv_sync now topic a f x :
  cinv x -> well_assigned topic a ->
  cinv (mkCycles (fst (syncProcessQueue now topic a f (polling x)))
          (pending x ++ cycles (snd (syncProcessQueue now topic a f (polling x)))) (strays x)).
Proof.
  intros [Hp Ho Hl] Ha. set (s := polling x) in *. pose proof (sync_spec now topic a f s Hp Ha) as H.
  destruct (syncProcessQueue now topic a f s) as [s' effects]. cbn zeta in H. set (new := fresh_queues _ _) in H.
  destruct H as (Hp' & _ & _ & Hle & Hcy & Hold & Hnew). split; cbn [fst snd polling pending strays]; [done| |].
  - intros n (k & mq & Hi). rewrite count_occ_app, Hcy. apply idents_inv in Hi as (o & Eo & <- & _).
    destruct (decide (k ∈ map MQMessageQueue.key new)) as [Hk|Hk].
    + apply list_elem_of_fmap in Hk as (mq' & -> & Hm). destruct (Hnew mq' Hm) as (o' & Eo' & _ & Hr).
      rewrite Eo in Eo'. injection Eo' as <-.
      rewrite (proj1 (count_occ_not_In Nat.eq_dec (pending x) (queue_number o))).
      * assert (Hone : count_occ Nat.eq_dec (seq (created s) (created s' - created s)) (queue_number o) = 1%nat);
          [|lia]. apply NoDup_count_occ'; [apply NoDup_ListNoDup, NoDup_seq|]. apply in_seq. lia.
      * intros Hin. apply list_elem_of_In in Hin. eapply Forall_forall in Hl; [|exact Hin]. cbn in Hl. lia.
    + rewrite (Hold k Hk) in Eo. apply retained_lookup in Eo as [Eo _].
      pose proof (idents_lookup _ _ _ Eo) as Hi. pose proof (Ho (queue_number o) ltac:(by eexists _, _)) as Hc.
      destruct Hp as (_ & _ & Hw & _). destruct (Hw k _ _ Hi) as (_ & _ & Hlt).
      rewrite (proj1 (count_occ_not_In Nat.eq_dec (seq _ _) (queue_number o))); [lia|]. rewrite in_seq. lia.
  - apply Forall_app. split; [eapply Forall_impl; [exact Hl|]; cbn; lia|]. rewrite Hcy.
    apply Forall_forall. intros n Hn. apply list_elem_of_In, in_seq in Hn. lia.
Qed.

Lemma cinv_step x y : cinv x -> cstep x y -> cinv y.
Proof.
  intros Hx. pose proof (ci_polls _ Hx) as Hp.
  destruct 1 as [now topic a f Ha|now n r y Hc|n y Hc|now n y Hc|n q q' Hq Hmq|o Hsub].
  - by apply cinv_sync.
  - apply (cinv_completes n _ x y Hx Hc); [intros q Eq; by apply (onSuccess_spec now _ n q)|].
    intros E. unfold onSuccess. by rewrite E.
  - apply (cinv_completes n _ x y Hx Hc); [intros q Eq; by apply (later_goes_on _ n q)|].
    intros E. unfold onFailure, receiveMessageLater. by rewrite E.
  - apply (cinv_completes n _ x y Hx Hc); [intros q Eq; by apply (checkThrottle_spec now _ n q)|].
    intros E. unfold checkThrottleThenReceive. by rewrite E.
  - apply cinv_frame; [done|]. by apply (put_object_frame _ n q).
  - destruct Hx as [_ Ho Hl]. split; cbn; [by apply polls_orphans|done|done].
Qed.

Lemma cinv_steps x y : csteps x y -> cinv x -> cinv y.
Proof. induction 1; [done|]. eauto using cinv_step. Qed.

Lemma cinv_init s : active s = true -> receive_message_policy_ s = POLLING ->
  process_queue_table_ s = ∅ -> orphans s = ∅ -> cinv (mkCycles s [] 0).
Proof.
  intros Ha Hp Ht Ho. assert (Hi : idents s = ∅) by (unfold idents; by rewrite Ht, fmap_empty).
  assert (Hoi : oidents s = ∅) by (unfold oidents; by rewrite Ho, fmap_empty).
  split; cbn; [| |constructor].
  - split_and!; [done|done|]. unfold wf. rewrite Hi, Hoi.
    split_and!; [intros k n mq E|intros k k' n mq mq' E|intros n mq E]; by rewrite lookup_empty in E.
  - intros n (k & mq & E). rewrite Hi in E. by rewrite lookup_empty in E.
Qed.


(** Back-pressure: after a successful receive the messages the filter rejects are
    acknowledged, the others cached and the dispatcher is woken; the next request is sent
    at once if and only if the queue is then below its limits of messages and bytes,
    otherwise a second later. *)
Theorem back_pressure now s n q0 r :
  polls s -> find_object n s = Some q0 -> ReceiveMessageResult.status_ r = ReceiveMessageStatus.OK ->
  let '(q, rejected) := ProcessQueueImpl.cacheMessages (Some (view s)) (ReceiveMessageResult.messages_ r) q0 in
  exists next,
    snd (onSuccess now n r s) = map (fun m => ack m s) rejected ++ [SignalDispatcher; next]
    /\ if ProcessQueueImpl.shouldThrottle (Some (view s)) q
       then next = ReceiveLater n 1000
       else exists j c, next = CallReceive j c /\ (listed n s -> j = n).
Proof.
  intros Hs E Hok. pose proof Hs as (Ha & Hp & Hw). unfold onSuccess.
  rewrite E, Ha, Hok. cbn [negb]. rewrite bool_decide_eq_false_2 by congruence.
  destruct (cache_on_spec s n q0 (ReceiveMessageResult.messages_ r) Hw E) as (Ec & F & E'). rewrite Ec.
  destruct (ProcessQueueImpl.cacheMessages (Some (view s)) (ReceiveMessageResult.messages_ r) q0) as [q rejected].
  cbn [fst snd] in *. set (s1 := put_object n q s) in *.
  destruct (checkThrottle_spec now s1 n q (polls_frame _ _ F Hs) E') as [Hgo H].
  apply (goes_on_frame n s s1 _ _ F) in Hgo.
  assert (Hv : view s1 = view s) by (unfold s1, put_object; by destruct (find_queue n s) as [[? ?]|]). rewrite Hv in H.
  destruct (checkThrottleThenReceive now n s1) as [s2 effects]. cbn [fst snd] in *.
  destruct (ProcessQueueImpl.shouldThrottle (Some (view s)) q).
  - subst effects. by eexists.
  - destruct H as (j & c & ->). eexists. split; [done|]. exists j, c. split; [done|]. intros Hl.
    destruct Hgo as [_ [(_ & i & [= <-] & _ & Hi)|(Hn & _)]]; [by apply Hi|done].
Qed.

End consumer.
(** ** Concrete histories *)
Definition example_consumer : t :=
  subscribe 0 "TopicTest" "*" TAG
    (set_client (ClientImpl.with_config (ClientConfigImpl.setCredentialsProvider true)
                   (ClientImpl.set_state STARTED (ClientImpl.make "group"))) (make "group")).

Definition example_mq (i : Z) : MQMessageQueue.t := MQMessageQueue.mk "TopicTest" "broker" i "ipv4:10.0.0.1:8080".
Definition example_assignment (l : list Z) : TopicAssignment.t :=
  TopicAssignment.make (map (fun i => TopicAssignment.mkAssignment (example_mq i)) l).
Definition example_filter : FilterExpression.t := FilterExpression.make 0 "*" TAG.

Lemma example_well_assigned : well_assigned "TopicTest" (example_assignment [0; 1]).
Proof.
  split.
  - apply (bool_decide_unpack _). vm_compute. exact I.
  - apply (bool_decide_unpack _). vm_compute. exact I.
  - apply (bool_decide_unpack _). vm_compute. exact I.
Qed.

Lemma example_polls : polls example_consumer.
Proof. exact (ci_polls _ (cinv_init example_consumer eq_refl eq_refl eq_refl eq_refl)). Qed.

(** Queues 0 and 1 assigned to a consumer that had none. *)
Definition example_synced : t := fst (syncProcessQueue "client" 0 "TopicTest" (example_assignment [0; 1]) example_filter example_consumer).

Lemma example_synced_polls : polls example_synced.
Proof.
  pose proof (sync_spec "client" 0 "TopicTest" (example_assignment [0; 1]) example_filter example_consumer
    example_polls example_well_assigned) as H.
  unfold example_synced. destruct (syncProcessQueue _ _ _ _ _ _). apply H.
Qed.

Lemma assignment_synchronised_witness :
  let '(s', effects) := syncProcessQueue "client" 0 "TopicTest" (example_assignment [0; 1]) example_filter example_consumer in
  cycles effects = [0; 1]%nat
  /\ forall k, fst (fst k) = "TopicTest"%string ->
       (is_Some (process_queue_table_ s' !! k) <-> k ∈ map MQMessageQueue.key (queues_of (example_assignment [0; 1]))).
Proof.
  pose proof (assignment_synchronised "client" 0 "TopicTest" (example_assignment [0; 1]) example_filter example_consumer
    example_polls example_well_assigned) as H.
  destruct (syncProcessQueue _ _ _ _ _ _) as [s' effects] eqn:E. destruct H as (_ & H & _). split; [|exact H].
  apply (f_equal (fun x => cycles (snd x))) in E. cbn [snd] in E. rewrite <- E. vm_compute. reflexivity.
Defined.


Lemma back_pressure_witness :
  exists q0 q rejected next,
    find_object 1 example_synced = Some q0
    /\ ProcessQueueImpl.cacheMessages (Some (view "client" example_synced))
         [ProcessQueueImpl.example_message 1] q0 = (q, rejected)
    /\ snd (onSuccess "client" 0 1
              (ReceiveMessageResult.mk ReceiveMessageStatus.OK 0 0 [ProcessQueueImpl.example_message 1] "" 0) example_synced)
       = map (fun m => ack "client" m example_synced) rejected ++ [SignalDispatcher; next]
    /\ exists j c, next = CallReceive j c /\ (listed 1 example_synced -> j = 1%nat).
Proof.
  set (r := ReceiveMessageResult.mk _ _ _ _ _ _).
  destruct (find_object 1 example_synced) as [q0|] eqn:Eo; [|vm_compute in Eo; discriminate].
  pose proof (back_pressure "client" 0 example_synced 1 q0 r example_synced_polls Eo eq_refl) as H.
  cbn [r ReceiveMessageResult.messages_] in H.
  destruct (ProcessQueueImpl.cacheMessages _ _ _) as [q rejected] eqn:Ec.
  destruct H as (next & H1 & H2). exists q0, q, rejected, next. split; [reflexivity|]. split; [exact Ec|]. split; [exact H1|].
  assert (Ht : ProcessQueueImpl.shouldThrottle (Some (view "client" example_synced)) q = false).
  { vm_compute in Eo. injection Eo as <-. vm_compute in Ec. injection Ec as <- _. vm_compute. reflexivity. }
  rewrite Ht in H2. exact H2.
Defined.

(** A queue dropped and assigned again while something holds the dropped object:
    the pending request of the old object comes back to the new one, which then is polled
    twice at a time. *)
Lemma dropped_queue_polls_twice :
  exists x o, csteps "client" (mkCycles example_consumer [] 0) x
    /\ process_queue_table_ (polling x) !! MQMessageQueue.key (example_mq 1) = Some o
    /\ count_occ Nat.eq_dec (pending x) (queue_number o) = 2%nat.
Proof.
  assert (Hdrop : well_assigned "TopicTest" (example_assignment [0])).
  { split; apply (bool_decide_unpack _); vm_compute; exact I. }
  eexists _, _. split.
  - eapply csteps_snoc; [eapply csteps_snoc; [eapply csteps_snoc; [eapply csteps_snoc; [apply csteps_refl|]|]|]|].
    + apply (CSync _ _ 0 "TopicTest" (example_assignment [0; 1]) example_filter example_well_assigned).
    + apply (CSync _ _ 0 "TopicTest" (example_assignment [0]) example_filter Hdrop).
    + apply (CSync _ _ 0 "TopicTest" (example_assignment [0; 1]) example_filter example_well_assigned).
    + eapply (CTimer _ _ 0 1%nat (mkCycles _ _ _)). exists [0%nat], [2%nat]. cbn [pending polling strays].
      split_and!; [vm_compute; reflexivity|reflexivity|reflexivity|reflexivity].
  - split; vm_compute; reflexivity.
Qed.

(** With a stored offset, a pulling consumer creates the process queue and sends nothing. *)
Lemma stored_offset_stalls client_id now mq f s readOffset o :
  receive_message_policy_ s = PULL -> offset_store_ s = Some readOffset -> readOffset mq = Some o ->
  snd (receiveMessage client_id now mq f s) = [].
Proof.
  intros Hp Hs Hr. unfold receiveMessage, getOrCreateProcessQueue. destruct (active s); cbn [negb]; [|done].
  destruct (process_queue_table_ s !! MQMessageQueue.key mq); destruct (str_empty _); try done;
    cbn [receive_message_policy_ set_queues offset_store_]; by rewrite Hp, Hs, Hr.
Qed.

(** A second subscription to a topic does not replace its filter. *)
Lemma subscribe_keeps_first now now' topic e ty e' ty' s :
  topic_filter_expression_table_ s !! topic = None ->
  getFilterExpression topic (subscribe now' topic e' ty' (subscribe now topic e ty s)) = Some (FilterExpression.make now e ty).
Proof.
  intros H. unfold getFilterExpression, subscribe, emplace. cbn. rewrite H, lookup_insert_eq. by rewrite lookup_insert_eq.
Qed.

End PushConsumerImpl.
