(* ===== verification/Delivery.v ===== *)
(** * Delivery: the push consumer and the standard consume service together.

    A polling consumer in clustering mode (PushConsumer) whose queues are drained by
    [ConsumeMessageService::dispatch] into the pool and consumed by
    [ConsumeStandardMessageService::consumeTask].  The receive requests and timers, the
    tasks of the pool and the assignments interleave in any order.  A task holds a shared
    pointer to its process queue, and so do the callbacks of the acknowledgements it sends,
    so a queue that leaves the table lives on until the last of them is done ([collect]);
    with a custom executor the task would hold a weak pointer, which is not modelled here.
    [received] and [settled] record the history. *)

From S2P Require Import Prelude Types Message Config Codec Route ProcessQueue ConsumeService PushConsumer.
Import PushConsumerImpl.

Module Delivery.
Section delivery.
Context (client_id : string).

Record t := mk {
  consumer : PushConsumerImpl.t;
  pending : list nat;
  tasks : list (nat * list MQMessage.t);
  unanswered : list nat;
  calls : list effect;
  received : list (nat * MQMessage.t);
  settled : list (nat * (MQMessage.t * ConsumeMessageResult));
}.

Definition make (s : PushConsumerImpl.t) : t := mk s [] [] [] [] [] [].

(** The acknowledgements, negative ones included, among the effects of a handler. *)
Definition sent (l : list effect) : list effect :=
  List.filter (fun e => match e with CallAck _ _ _ | CallNack _ _ _ => true | _ => false end) l.

(** The objects the tasks and the unanswered acknowledgements refer to; an orphan that is
    not among them is gone. *)
Definition held (tasks : list (nat * list MQMessage.t)) (unanswered : list nat) : list nat :=
  map fst tasks ++ unanswered.
Definition collect (held : list nat) (s : PushConsumerImpl.t) : PushConsumerImpl.t :=
  set_orphans (filter (fun e => fst e ∈ held) (orphans s)) s.

(** [submitConsumeTask] of the standard service on one process queue. *)
Definition dispatch_one (n : nat) (s : PushConsumerImpl.t)
    : option (PushConsumerImpl.t * list (nat * list MQMessage.t)) :=
  match find_object n s with
  | None => Some (s, [])
  | Some q =>
      '(effects, q) ← ConsumeStandardMessageService.submitConsumeTask (consume_batch_size_ s) q;
      Some (put_object n q s, map (pair n) (ConsumeStandardMessageService.batches effects))
  end.

Fixpoint dispatch_loop (l : list nat) (s : PushConsumerImpl.t)
    : option (PushConsumerImpl.t * list (nat * list MQMessage.t)) :=
  match l with
  | [] => Some (s, [])
  | n :: l' =>
      '(s, b) ← dispatch_one n s;
      '(s, b') ← dispatch_loop l' s;
      Some (s, b ++ b')
  end.

(** [ConsumeMessageService::dispatch]. *)
Definition dispatch (s : PushConsumerImpl.t) : option (PushConsumerImpl.t * list (nat * list MQMessage.t)) :=
  dispatch_loop (iterateProcessQueue s) s.

(** The call a settlement of the consume service makes on the broker. *)
Definition broker_call (s : PushConsumerImpl.t) (e : consume_effect) : list effect :=
  match e with Ack m => [ack client_id m s] | Nack m => [nack client_id m s] | _ => [] end.

Definition service_of (s : PushConsumerImpl.t) : ConsumeMessageService.t :=
  match consume_message_service_ s with Some (_, x) => x | None => ConsumeMessageService.make 0 end.

(** What a completed receive adds to a queue that is alive, and what of it the filter of
    the queue rejects. *)
Definition delivered (n : nat) (r : ReceiveMessageResult.t) (s : PushConsumerImpl.t) : list MQMessage.t :=
  match find_object n s with
  | None => []
  | Some _ =>
      match ReceiveMessageResult.status_ r with
      | ReceiveMessageStatus.OK | ReceiveMessageStatus.DATA_CORRUPTED => ReceiveMessageResult.messages_ r
      | _ => []
      end
  end.
Definition rejected (n : nat) (r : ReceiveMessageResult.t) (s : PushConsumerImpl.t) : list MQMessage.t :=
  match find_object n s with
  | None => []
  | Some q => List.filter (fun m => negb (FilterExpression.accept (ProcessQueueImpl.filter_expression_ q) m))
                (delivered n r s)
  end.

Inductive action :=
  | Assign (now : Z) (topic : string) (a : TopicAssignment.t) (f : FilterExpression.t)
  | Received (i : nat) (now : Z) (r : ReceiveMessageResult.t)
  | Failed (i : nat)
  | Timer (i : nat) (now : Z)
  | Dispatch
  | Consume (i : nat) (status : ConsumeMessageResult)
  | Answered (i : nat).

(** The completion of the [i]-th pending request or timer. *)
Definition complete (i : nat) (handler : nat -> PushConsumerImpl.t -> PushConsumerImpl.t * list effect)
    (news : nat -> list MQMessage.t) (refused : nat -> list MQMessage.t) (x : t) : option t :=
  n ← pending x !! i;
  let '(s, effects) := handler n (consumer x) in
  Some (mk s (delete i (pending x) ++ cycles effects) (tasks x) (unanswered x) (calls x ++ sent effects)
          (received x ++ map (pair n) (news n)) (settled x ++ map (fun m => (n, (m, SUCCESS))) (refused n))).

Definition step (a : action) (x : t) : option t :=
  match a with
  | Assign now topic a f =>
      let '(s, effects) := syncProcessQueue client_id now topic a f (consumer x) in
      Some (mk (collect (held (tasks x) (unanswered x)) s) (pending x ++ cycles effects) (tasks x) (unanswered x)
              (calls x ++ sent effects) (received x) (settled x))
  | Received i now r =>
      complete i (fun n => onSuccess client_id now n r) (fun n => delivered n r (consumer x))
        (fun n => rejected n r (consumer x)) x
  | Failed i => complete i onFailure (fun _ => []) (fun _ => []) x
  | Timer i now => complete i (checkThrottleThenReceive client_id now) (fun _ => []) (fun _ => []) x
  | Dispatch =>
      '(s, submitted) ← dispatch (consumer x);
      Some (mk s (pending x) (tasks x ++ submitted) (unanswered x) (calls x) (received x) (settled x))
  | Consume i status =>
      '(n, batch) ← tasks x !! i;
      q ← find_object n (consumer x);
      '(effects, q) ←
        ConsumeStandardMessageService.consumeTask (view client_id (consumer x)) (service_of (consumer x)) status batch q;
      let calls' := concat (map (broker_call (consumer x)) effects) in
      let tasks' := delete i (tasks x) in
      let unanswered' := unanswered x ++ map (fun _ => n) calls' in
      Some (mk (collect (held tasks' unanswered') (put_object n q (consumer x))) (pending x) tasks' unanswered'
              (calls x ++ calls') (received x) (settled x ++ map (fun m => (n, (m, status))) batch))
  | Answered i =>
      _ ← unanswered x !! i;
      let unanswered' := delete i (unanswered x) in
      Some (mk (collect (held (tasks x) unanswered') (consumer x)) (pending x) (tasks x) unanswered' (calls x)
              (received x) (settled x))
  end.

Fixpoint run (l : list action) (x : t) : option t :=
  match l with [] => Some x | a :: l' => y ← step a x; run l' y end.

(** The entries of an object. *)
Definition entries {A} (n : nat) (l : list (nat * A)) : list A :=
  omap (fun e => if decide (fst e = n) then Some (snd e) else None) l.

(** The messages of an object that the pool still has to consume. *)
Definition inflight (n : nat) (x : t) : list MQMessage.t := concat (entries n (tasks x)).

(** The call that settles a message. *)
Definition settle_call (s : PushConsumerImpl.t) (e : nat * (MQMessage.t * ConsumeMessageResult)) : effect :=
  match snd (snd e) with
  | SUCCESS => ack client_id (fst (snd e)) s
  | FAILURE => nack client_id (fst (snd e)) s
  end.

(** ** What the handlers leave alone *)

(** Everything of a consumer but its queues. *)
Definition settings (s : PushConsumerImpl.t) : PushConsumerImpl.t := set_queues ∅ 0 (set_orphans ∅ s).

Lemma put_object_settings n q s : settings (put_object n q s) = settings s.
Proof. unfold put_object. by destruct (find_queue n s) as [[? ?]|]. Qed.

Lemma receiveMessage_quiet now mq f s :
  settings (snd (fst (receiveMessage client_id now mq f s))) = settings s
  /\ sent (snd (receiveMessage client_id now mq f s)) = [].
Proof.
  unfold receiveMessage, getOrCreateProcessQueue. destruct (active s) eqn:Ha; cbn [negb]; [|done].
  destruct (process_queue_table_ s !! MQMessageQueue.key mq) as [o|]; (destruct (str_empty _); [done|]);
    cbn [receive_message_policy_ set_queues]; destruct (receive_message_policy_ s); unfold receive_on;
    try (destruct (ProcessQueueImpl.receiveMessage _ _ _) as [q [c|]]; done); cbn;
    by destruct (match offset_store_ s with Some _ => _ | None => _ end).
Qed.

Lemma later_quiet n s :
  settings (fst (receiveMessageLater n s)) = settings s /\ sent (snd (receiveMessageLater n s)) = [].
Proof. unfold receiveMessageLater. by destruct (find_object n s). Qed.

Lemma check_quiet now n s :
  settings (fst (checkThrottleThenReceive client_id now n s)) = settings s
  /\ sent (snd (checkThrottleThenReceive client_id now n s)) = [].
Proof.
  unfold checkThrottleThenReceive. destruct (find_object n s) as [q|] eqn:E; [|done].
  destruct (ProcessQueueImpl.shouldThrottle _ _).
  - destruct (later_quiet n (put_object n (ProcessQueueImpl.syncIdleState now q) s)) as [-> ->].
    by rewrite put_object_settings.
  - unfold receiveMessageImmediately. rewrite E.
    pose proof (receiveMessage_quiet now (ProcessQueueImpl.message_queue_ q) (ProcessQueueImpl.filter_expression_ q) s) as H.
    by destruct (receiveMessage _ _ _ _ _) as [[ok s'] e].
Qed.

Lemma sync_quiet now topic a f s :
  settings (fst (syncProcessQueue client_id now topic a f s)) = settings s
  /\ sent (snd (syncProcessQueue client_id now topic a f s)) = [].
Proof.
  unfold syncProcessQueue. cbn zeta. set (s1 := set_queues _ _ (set_orphans _ s)).
  change (settings s) with (settings s1). set (current := List.filter _ _). set (l := map _ _).
  clearbody current l s1. revert s1. induction l as [|mq l IH]; intros s1; cbn [start_receiving]; [done|].
  case_bool_decide.
  - specialize (IH s1). by destruct (start_receiving client_id now current f l s1).
  - destruct (receiveMessage_quiet now mq f s1) as [H1 H2].
    destruct (receiveMessage client_id now mq f s1) as [[ok s2] e]. cbn [fst snd] in *.
    destruct (IH s2) as [H3 H4]. destruct (start_receiving client_id now current f l s2) as [s3 e'].
    cbn [fst snd] in *. split; [congruence|]. unfold sent in *. rewrite List.filter_app. by rewrite H2, H4.
Qed.

(** ** The contents of the objects *)
Definition content (q : ProcessQueueImpl.t) : list MQMessage.t * Z * Z :=
  (ProcessQueueImpl.cached_messages_ q, ProcessQueueImpl.cached_message_quantity_ q,
   ProcessQueueImpl.cached_message_memory_ q).

Definition blank (q : ProcessQueueImpl.t) : Prop :=
  ProcessQueueImpl.cached_messages_ q = [] /\ ProcessQueueImpl.accounted (q, []).

(** Every object that is alive after a step was alive before with the same content, or is
    new and empty; and none dies. *)
Definition keeps (s s' : PushConsumerImpl.t) : Prop :=
  (created s <= created s')%nat
  /\ (forall n, is_Some (find_object n s) -> is_Some (find_object n s'))
  /\ forall n q', find_object n s' = Some q' ->
       (exists q, find_object n s = Some q /\ content q' = content q)
       \/ ((created s <= n)%nat /\ blank q').

Lemma accounted_content q q' l :
  content q' = content q -> ProcessQueueImpl.accounted (q, l) -> ProcessQueueImpl.accounted (q', l).
Proof.
  unfold content. intros [= E1 E2 E3] [H1 H2]. split; unfold ProcessQueueImpl.held in *; cbn [fst snd] in *; congruence.
Qed.

#[local] Instance keeps_preorder : PreOrder keeps.
Proof.
  split; [intros s; split_and!; [done|done|]; eauto|]. intros s1 s2 s3 (L1 & A1 & H1) (L2 & A2 & H2).
  split_and!; [lia|by eauto|]. intros n q3 E3. destruct (H2 n q3 E3) as [(q2 & E2 & C2)|[Hn Hb]]; [|right; split; [lia|done]].
  destruct (H1 n q2 E2) as [(q1 & E1 & C1)|[Hn [Hb Hacc]]].
  - left. exists q1. split; [done|congruence].
  - right. split; [done|]. split; [unfold content in C2; congruence|]. by eapply accounted_content.
Qed.

Lemma find_object_iff s n q :
  wf s -> (find_object n s = Some q <->
    (exists k o, process_queue_table_ s !! k = Some o /\ queue_number o = n /\ queue_state o = q)
    \/ orphans s !! n = Some q).
Proof.
  intros Hw. unfold find_object. destruct (find_queue n s) as [[k o]|] eqn:E.
  - apply find_queue_Some in E as [E <-]. split.
    + intros [= <-]. left. eauto.
    + intros [(k' & o' & E' & En & <-)|Eo].
      * pose proof (find_queue_live s k' o' Hw E') as F. rewrite En, (find_queue_live s k o Hw E) in F. by injection F as _ ->.
      * exfalso. destruct Hw as (_ & _ & H3).
        destruct (H3 (queue_number o) (ProcessQueueImpl.message_queue_ q)) as (_ & _ & Hl).
        { unfold oidents. by rewrite lookup_fmap, Eo. }
        apply Hl. eexists k, _. exact (idents_lookup _ _ _ E).
  - split; [by right|]. intros [(k' & o' & E' & <- & _)|Eo]; [|done]. by rewrite (find_queue_live s k' o' Hw E') in E.
Qed.

Lemma keeps_put s n q q' :
  wf s -> find_object n s = Some q -> ProcessQueueImpl.message_queue_ q' = ProcessQueueImpl.message_queue_ q ->
  content q' = content q -> keeps s (put_object n q' s).
Proof.
  intros Hw E Hmq Hc. pose proof (put_object_frame s n q q' E Hmq) as (_ & _ & Ec & _). split_and!; [lia| |].
  { intros m. rewrite (find_object_put s n q q' m Hw E Hmq). by destruct (decide (m = n)). }
  intros m qm. rewrite (find_object_put s n q q' m Hw E Hmq). destruct (decide (m = n)) as [->|]; [|by eauto].
  intros [= <-]. eauto.
Qed.

Lemma keeps_receiveMessage now mq f s :
  polls s -> MQMessageQueue.service_address_ mq <> ""%string ->
  keeps s (snd (fst (receiveMessage client_id now mq f s))).
Proof.
  intros Hs Ha. pose proof Hs as (_ & Hp & Hw).
  destruct (process_queue_table_ s !! MQMessageQueue.key mq) as [o|] eqn:Eo.
  - pose proof (receiveMessage_live client_id now mq o f s Hs Eo Ha) as H.
    destruct (receiveMessage _ _ _ _ _) as [[ok s'] e]. destruct H as (E & _). cbn [fst snd].
    unfold receive_on, ProcessQueueImpl.receiveMessage in E. cbn [view receiveMessageAction] in E. rewrite Hp in E.
    cbn in E. injection E as -> _.
    rewrite <- (put_object_live s _ o (ProcessQueueImpl.syncIdleState now (queue_state o)) Hw Eo).
    eapply keeps_put; [done|exact (find_object_live s _ o Hw Eo)|done|done].
  - pose proof (receiveMessage_new client_id now mq f s Hs Eo Ha) as H.
    destruct (receiveMessage _ _ _ _ _) as [[ok s'] e]. destruct H as (_ & q & -> & Hq & _ & Hc & Hacc). cbn [fst snd].
    pose proof (set_queues_adds mq q s Hq) as Hadds. set (s' := set_queues _ _ s) in *.
    assert (Hw' : wf s').
    { apply (polls_adds s s' mq Hs Ha); [unfold idents; by rewrite lookup_fmap, Eo|done]. }
    split_and!; [cbn; lia| |].
    { intros n [qn En]. exists qn. apply (find_object_iff s n qn Hw) in En. apply (find_object_iff s' n qn Hw'). cbn.
      destruct En as [(k & o & Ek & Hk)|En]; [left|by right]. exists k, o. split; [|done].
      rewrite lookup_insert_ne; [done|]. intros <-. by rewrite Eo in Ek. }
    intros n q'. rewrite (find_object_iff s' n q' Hw'). cbn. intros [(k & o & Ek & <- & <-)|Eorph].
    + destruct (decide (MQMessageQueue.key mq = k)) as [<-|Hk].
      * rewrite lookup_insert_eq in Ek. injection Ek as <-. right. done.
      * rewrite lookup_insert_ne in Ek by done. left. exists (queue_state o). split; [|done].
        by apply (find_object_live s k o).
    + left. exists q'. split; [|done]. apply (find_object_iff s n q' Hw). by right.
Qed.

Lemma keeps_check now n s q :
  polls s -> find_object n s = Some q -> keeps s (fst (checkThrottleThenReceive client_id now n s)).
Proof.
  intros Hs E. pose proof Hs as (_ & _ & Hw). unfold checkThrottleThenReceive. rewrite E.
  destruct (ProcessQueueImpl.shouldThrottle _ _).
  - set (q' := ProcessQueueImpl.syncIdleState now q).
    rewrite (receiveMessageLater_spec _ n q'); [by apply (keeps_put s n q)|].
    rewrite (find_object_put s n q) by done. by rewrite decide_True.
  - unfold receiveMessageImmediately. rewrite E.
    pose proof (keeps_receiveMessage now (ProcessQueueImpl.message_queue_ q) (ProcessQueueImpl.filter_expression_ q) s Hs
                  (proj1 (find_object_wf s n q Hw E))) as H.
    by destruct (receiveMessage _ _ _ _ _) as [[ok s'] e].
Qed.

Lemma keeps_sync now topic a f s :
  polls s -> well_assigned topic a -> keeps s (fst (syncProcessQueue client_id now topic a f s)).
Proof.
  intros Hs Ha. pose proof Hs as (_ & _ & Hw). pose proof (sync_spec client_id now topic a f s Hs Ha) as H.
  destruct (syncProcessQueue client_id now topic a f s) as [s' e]. cbn zeta in H. set (new := fresh_queues _ _) in H.
  destruct H as (Hs' & _ & Ho & Hle & _ & Hold & Hnew). cbn [fst]. pose proof (proj2 (proj2 Hs')) as Hw'.
  assert (Hret : forall k o, retained now topic a s !! k = Some o -> process_queue_table_ s' !! k = Some o).
  { intros k o Ek. rewrite Hold; [done|]. intros Hk. apply list_elem_of_fmap in Hk as (mq & -> & Hm).
    unfold new, fresh_queues in Hm. apply list_elem_of_In, filter_In in Hm as [Hm Hc].
    apply negb_true_iff, bool_decide_eq_false in Hc. apply Hc, elem_of_current. split; [|done].
    apply list_elem_of_In in Hm. exact (proj1 (Forall_forall _ _) (wa_topic _ _ Ha) mq Hm). }
  split_and!; [done| |].
  { intros n [q En]. apply (find_object_iff s n q Hw) in En. destruct En as [(k & o & Ek & <- & <-)|En].
    - destruct (retained now topic a s !! k) as [o'|] eqn:Er.
      + pose proof Er as Er'. apply retained_lookup in Er' as [Ek' _]. rewrite Ek in Ek'. injection Ek' as <-.
        rewrite (find_object_live s' k o Hw' (Hret k o Er)). done.
      + assert (Hor : is_Some (orphans s' !! queue_number o)).
        { rewrite Ho. unfold orphaned. apply lookup_union_is_Some. left. apply not_eq_None_Some.
          intros Hnone. apply not_elem_of_list_to_map_2 in Hnone. apply Hnone.
          apply list_elem_of_fmap. exists (queue_number o, queue_state o). split; [done|].
          apply list_elem_of_fmap. exists (k, o). split; [done|]. apply elem_of_map_to_list, lookup_difference_Some. done. }
        destruct Hor as [q Hq]. exists q. apply (find_object_iff s' _ q Hw'). by right.
    - assert (Hor : is_Some (orphans s' !! n)).
      { rewrite Ho. unfold orphaned. apply lookup_union_is_Some. by right. }
      destruct Hor as [q' Hq]. exists q'. apply (find_object_iff s' _ q' Hw'). by right. }
  intros n q'. rewrite (find_object_iff s' n q' Hw').
  assert (Hkeep : forall k o, process_queue_table_ s !! k = Some o -> find_object (queue_number o) s = Some (queue_state o))
    by (intros; by eapply find_object_live).
  intros [(k & o & Ek & <- & <-)|Eo].
  - destruct (decide (k ∈ map MQMessageQueue.key new)) as [Hk|Hk].
    + apply list_elem_of_fmap in Hk as (mq & -> & Hm). destruct (Hnew mq Hm) as (o' & Eo' & (_ & _ & Hb1 & Hb2) & Hr).
      rewrite Ek in Eo'. injection Eo' as <-. right. split; [lia|done].
    + rewrite (Hold k Hk) in Ek. apply retained_lookup in Ek as [Ek _]. left. eauto.
  - rewrite Ho in Eo. left. exists q'. split; [|done].
    apply orphaned_lookup in Eo as [(k & o & Ek & <- & <-)|Eo].
    + apply lookup_difference_Some in Ek as [Ek _]. eauto.
    + apply (find_object_iff s n q' Hw). by right.
Qed.

(** ** The invariant *)

Lemma entries_app {A} n (l k : list (nat * A)) : entries n (l ++ k) = entries n l ++ entries n k.
Proof. apply omap_app. Qed.

Lemma entries_pair {A} m n (l : list A) : entries m (map (pair n) l) = if decide (m = n) then l else [].
Proof.
  induction l as [|a l IH]; cbn; [by destruct (decide _)|]. unfold entries in IH. rewrite IH.
  destruct (decide (m = n)) as [->|Hn]; [by rewrite decide_True|]. by rewrite decide_False by congruence.
Qed.

Lemma entries_settled m n (st : ConsumeMessageResult) (l : list MQMessage.t) :
  entries m (map (fun a => (n, (a, st))) l) = if decide (m = n) then map (fun a => (a, st)) l else [].
Proof. rewrite <- entries_pair. f_equal. by rewrite map_map. Qed.

Lemma entries_delete {A} m n (l : list (nat * A)) i a :
  l !! i = Some (n, a) ->
  if decide (m = n) then entries m l ≡ₚ a :: entries m (delete i l) else entries m l = entries m (delete i l).
Proof.
  intros E. rewrite delete_take_drop.
  assert (El : entries m l = entries m (take i l) ++ entries m [(n, a)] ++ entries m (drop (S i) l)).
  { rewrite <- !entries_app. f_equal. symmetry. by apply (take_drop_middle l i). }
  rewrite El, entries_app. change [(n, a)] with (map (pair n) [a]). rewrite entries_pair.
  destruct (decide (m = n)) as [->|Hn]; [|done]. cbn. by rewrite <- Permutation_middle.
Qed.

Definition accounted := ProcessQueueImpl.accounted.

Record dinv (s0 : PushConsumerImpl.t) (x : t) : Prop := {
  di_polls : polls (consumer x);
  di_settings : settings (consumer x) = settings s0;
  di_tasks : Forall (fun e => snd e <> [] /\ is_Some (find_object (fst e) (consumer x))) (tasks x);
  di_old n : (created (consumer x) <= n)%nat ->
    entries n (tasks x) = [] /\ entries n (received x) = [] /\ entries n (settled x) = [];
  di_conserved n q : find_object n (consumer x) = Some q ->
    entries n (received x) ≡ₚ
      ProcessQueueImpl.cached_messages_ q ++ inflight n x ++ map fst (entries n (settled x))
    /\ accounted (q, inflight n x);
  di_calls : calls x = map (settle_call s0) (settled x);
}.

Lemma settle_call_settings s e : settle_call s e = settle_call (settings s) e.
Proof. done. Qed.

(** A step that leaves the contents alone. *)
Lemma dinv_keeps s0 x s' p u :
  dinv s0 x -> polls s' -> settings s' = settings (consumer x) -> keeps (consumer x) s' ->
  dinv s0 (mk s' p (tasks x) u (calls x) (received x) (settled x)).
Proof.
  intros [H1 H2 H3 H4 H5 H6] Hp Hs (Hle & Hal & Hk).
  split; cbn [consumer tasks calls received settled]; [done|congruence| |intros n Hn; apply H4; lia| |done].
  - eapply Forall_impl; [exact H3|]. cbn. intros e [? ?]. auto.
  - intros n q' E. destruct (Hk n q' E) as [(q & Eq & Hc)|[Hn [Hb Hacc]]].
    + destruct (H5 n q Eq) as [HP Ha]. split; [|by eapply accounted_content].
      unfold content in Hc. injection Hc as -> _ _. exact HP.
    + destruct (H4 n Hn) as (E1 & E2 & E3). unfold inflight. cbn [tasks].
      by rewrite E1, E2, E3, Hb.
Qed.

(** A step that changes one object, with the history that concerns it. *)
Lemma dinv_update s0 x n q q' p tasks' u calls' received' settled' :
  dinv s0 x -> find_object n (consumer x) = Some q ->
  ProcessQueueImpl.message_queue_ q' = ProcessQueueImpl.message_queue_ q ->
  (forall m, m <> n -> entries m tasks' = entries m (tasks x) /\ entries m received' = entries m (received x)
                      /\ entries m settled' = entries m (settled x)) ->
  entries n received' ≡ₚ
    ProcessQueueImpl.cached_messages_ q' ++ concat (entries n tasks') ++ map fst (entries n settled') ->
  accounted (q', concat (entries n tasks')) ->
  Forall (fun e => snd e <> [] /\ (fst e = n \/ fst e ∈ map fst (tasks x))) tasks' ->
  calls' = map (settle_call s0) settled' ->
  dinv s0 (mk (put_object n q' (consumer x)) p tasks' u calls' received' settled').
Proof.
  intros [H1 H2 H3 H4 H5 H6] E Hmq Hother HP Hacc Ht Hcalls. pose proof H1 as (_ & _ & Hw).
  pose proof (put_object_frame _ n q q' E Hmq) as F. destruct (find_object_wf _ n q Hw E) as [_ Hn].
  split; cbn [consumer tasks calls received settled]; [by eapply polls_frame|by rewrite put_object_settings| | | |done].
  - eapply Forall_impl; [exact Ht|]. cbn. intros e [Hne He]. split; [done|].
    rewrite (find_object_put _ n q q' _ Hw E Hmq). destruct (decide (fst e = n)); [done|]. destruct He as [|He]; [done|].
    apply list_elem_of_fmap in He as (e' & -> & He'). exact (proj2 (proj1 (Forall_forall _ _) H3 e' He')).
  - pose proof F as (_ & _ & -> & _). intros m Hm. destruct (Hother m ltac:(lia)) as (-> & -> & ->). by apply H4.
  - intros m qm. rewrite (find_object_put _ n q q' m Hw E Hmq). unfold inflight. cbn [tasks].
    destruct (decide (m = n)) as [->|Hne]; [by intros [= <-]|]. intros Em.
    destruct (Hother m Hne) as (-> & -> & ->). exact (H5 m qm Em).
Qed.

(** *** Receives *)

Lemma keeps_put_same s n q : wf s -> find_object n s = Some q -> keeps (put_object n q s) s.
Proof.
  intros Hw E. assert (Ef : forall m, find_object m (put_object n q s) = find_object m s).
  { intros m. rewrite (find_object_put s n q q m Hw E eq_refl). destruct (decide (m = n)) as [->|]; done. }
  pose proof (put_object_frame s n q q E eq_refl) as (_ & _ & Ec & _). split_and!; [lia|by intros m; rewrite Ef|].
  intros m q'. rewrite <- Ef. eauto.
Qed.

Lemma sent_app a b : sent (a ++ b) = sent a ++ sent b.
Proof. apply List.filter_app. Qed.

Lemma sent_acks l s : sent (map (fun m => ack client_id m s) l) = map (fun m => ack client_id m s) l.
Proof. induction l as [|m l IH]; cbn; [done|]. by f_equal. Qed.

Lemma cache_loop_spec_acks c l q :
  snd (ProcessQueueImpl.cacheMessages (Some c) l q)
  = List.filter (fun m => negb (FilterExpression.accept (ProcessQueueImpl.filter_expression_ q) m)) l.
Proof. exact (proj1 (proj2 (ProcessQueueImpl.cache_loop_spec c l q))). Qed.

(** A completed receive is the caching of what it delivers, and nothing else changes the
    contents of the queues. *)
Lemma onSuccess_delivers now n r s q :
  polls s -> find_object n s = Some q ->
  let s1 := put_object n (fst (ProcessQueueImpl.cacheMessages (Some (view client_id s)) (delivered n r s) q)) s in
  let '(s', effects) := onSuccess client_id now n r s in
  polls s' /\ keeps s1 s' /\ settings s' = settings s
  /\ sent effects = map (fun m => ack client_id m s) (rejected n r s).
Proof.
  intros Hs E. pose proof Hs as (Ha & Hp & Hw). cbn zeta.
  pose proof (onSuccess_spec client_id now s n q r Hs E) as [Hgo _]. revert Hgo.
  unfold onSuccess, rejected, delivered. rewrite E, Ha.
  rewrite (bool_decide_eq_false_2 (receive_message_policy_ s = PULL)) by congruence. cbn [negb].
  assert (Hcheck : forall q1, find_object n (put_object n q1 s) = Some q1 -> polls (put_object n q1 s) ->
     let c := checkThrottleThenReceive client_id now n (put_object n q1 s) in
     keeps (put_object n q1 s) (fst c) /\ settings (fst c) = settings s /\ sent (snd c) = []).
  { intros q1 E1 Hp1. cbn zeta. destruct (check_quiet now n (put_object n q1 s)) as [S1 S2].
    split_and!; [by eapply keeps_check|by rewrite S1, put_object_settings|done]. }
  assert (Hother : forall s', keeps s s' -> keeps (put_object n q s) s').
  { intros s' Hk. etransitivity; [by apply keeps_put_same|done]. }
  destruct (cache_on_spec client_id s n q (ReceiveMessageResult.messages_ r) Hw E) as (Ec & Fc & E1).
  pose proof (cache_loop_spec_acks (view client_id s) (ReceiveMessageResult.messages_ r) q) as Hrej.
  specialize (Hcheck _ E1 (polls_frame _ _ Fc Hs)). cbn zeta in Hcheck. rewrite Ec.
  destruct (check_quiet now n s) as [Q1 Q2]. destruct (later_quiet n s) as [L1 L2].
  pose proof (keeps_check now n s q Hs E) as Hk.
  destruct (ReceiveMessageResult.status_ r).
  - destruct (checkThrottleThenReceive _ _ _ _) as [s' effects]. cbn [fst snd] in *. intros Hgo.
    destruct Hcheck as (K & S & T). split_and!; [done|done|done|].
    rewrite sent_app. cbn [sent List.filter]. fold (sent effects). by rewrite T, app_nil_r, sent_acks, Hrej.
  - destruct (checkThrottleThenReceive client_id now n s) as [s' effects]. cbn [fst snd] in *. intros Hgo. split_and!; [done|by apply Hother|done|done].
  - rewrite (receiveMessageLater_spec s n q E) in *. cbn [fst snd] in *. intros Hgo. split_and!; [done| |done|done].
    by apply keeps_put_same.
  - rewrite (receiveMessageLater_spec s n q E) in *. cbn [fst snd] in *. intros Hgo. split_and!; [done| |done|done].
    by apply keeps_put_same.
  - set (q' := ProcessQueueImpl.nextOffset _ q).
    assert (F : frame s (put_object n q' s)) by (by apply (put_object_frame s n q)).
    assert (E' : find_object n (put_object n q' s) = Some q').
    { rewrite (find_object_put s n q) by done. by rewrite decide_True. }
    destruct (check_quiet now n (put_object n q' s)) as [R1 R2].
    pose proof (keeps_check now n (put_object n q' s) q' (polls_frame _ _ F Hs) E') as Hk'.
    destruct (checkThrottleThenReceive client_id now n (put_object n q' s)) as [s' effects].
    cbn [fst snd] in *. intros Hgo. split_and!; [done| |by rewrite R1, put_object_settings|done].
    apply Hother. etransitivity; [|exact Hk']. by apply (keeps_put s n q).
  - destruct (checkThrottleThenReceive _ _ _ _) as [s' effects]. cbn [fst snd] in *. intros Hgo.
    destruct Hcheck as (K & S & T). split_and!; [done|done|done|].
    rewrite !sent_app, T, sent_acks, Hrej. cbn. by rewrite !app_nil_r.
  - rewrite (receiveMessageLater_spec s n q E) in *. cbn [fst snd] in *. intros Hgo. split_and!; [done| |done|done].
    by apply keeps_put_same.
Qed.

Lemma filter_partition {A} (f : A -> bool) l : l ≡ₚ List.filter f l ++ List.filter (fun a => negb (f a)) l.
Proof.
  induction l as [|a l IH]; cbn; [done|]. destruct (f a); cbn; [by rewrite <- IH|].
  rewrite <- Permutation_middle. by rewrite <- IH.
Qed.

(** The tasks of a state, as [dinv_update] asks for them. *)
Lemma tasks_old n s (l k : list (nat * list MQMessage.t)) :
  Forall (fun e => snd e <> [] /\ is_Some (find_object (fst e) s)) l -> l ⊆ k ->
  Forall (fun e => snd e <> [] /\ (fst e = n \/ fst e ∈ map fst k)) l.
Proof.
  intros H Hs. apply Forall_forall. intros e He. split; [exact (proj1 (proj1 (Forall_forall _ _) H e He))|].
  right. apply list_elem_of_fmap. exists e. split; [done|]. by apply Hs.
Qed.

(** A completion that leaves the contents alone. *)
Lemma dinv_complete_quiet s0 x y i handler :
  dinv s0 x ->
  (forall n s q, polls s -> find_object n s = Some q ->
     polls (fst (handler n s)) /\ keeps s (fst (handler n s))) ->
  (forall n s, find_object n s = None -> handler n s = (s, [])) ->
  (forall n s, settings (fst (handler n s)) = settings s /\ sent (snd (handler n s)) = []) ->
  complete i handler (fun _ => []) (fun _ => []) x = Some y -> dinv s0 y.
Proof.
  intros Hx Hlive Hdead Hquiet. unfold complete. destruct (pending x !! i) as [n|]; [|done]. cbn.
  destruct (Hquiet n (consumer x)) as [Hs Hsent].
  destruct (find_object n (consumer x)) as [q|] eqn:E.
  - destruct (Hlive n _ q (di_polls _ _ Hx) E) as [Hp Hk]. destruct (handler n (consumer x)) as [s' effects].
    cbn [fst snd] in *. intros [= <-]. rewrite Hsent, !app_nil_r. by apply dinv_keeps.
  - rewrite (Hdead n _ E). intros [= <-]. cbn [sent List.filter]. rewrite !app_nil_r.
    apply dinv_keeps; [done|exact (di_polls _ _ Hx)|done|done].
Qed.

Lemma dinv_received s0 x y i now r :
  dinv s0 x -> step (Received i now r) x = Some y -> dinv s0 y.
Proof.
  intros Hx. cbn [step]. unfold complete. destruct (pending x !! i) as [n|]; [|done].
  cbn [mbind option_bind]. set (s := consumer x). destruct (find_object n s) as [q|] eqn:E.
  2: { unfold onSuccess, delivered, rejected. rewrite E. intros [= <-]. cbn [sent List.filter map]. rewrite !app_nil_r.
       apply dinv_keeps; [done|exact (di_polls _ _ Hx)|done|done]. }
  pose proof (onSuccess_delivers now n r s q (di_polls _ _ Hx) E) as H. cbn zeta in H.
  destruct (onSuccess client_id now n r s) as [s' effects]. destruct H as (Hp & Hk & Hset & Hsent).
  intros [= <-]. rewrite Hsent. set (l := delivered n r s) in *. set (rej := rejected n r s).
  set (q' := fst (ProcessQueueImpl.cacheMessages (Some (view client_id s)) l q)) in *.
  destruct (di_conserved _ _ Hx n q E) as [HP Hacc].
  assert (Hrej : rej = List.filter (fun m => negb (FilterExpression.accept (ProcessQueueImpl.filter_expression_ q) m)) l).
  { unfold rej, rejected. by rewrite E. }
  refine (dinv_keeps s0 (mk (put_object n q' s) (pending x) _ (unanswered x) _ _ _) s' _ _ _ Hp _ Hk);
    [|cbn [consumer]; by rewrite put_object_settings].
  apply (dinv_update s0 x n q); [done|done|apply cache_loop_mq| | | | |].
  - intros m Hm. rewrite !entries_app, entries_pair, decide_False by done. split_and!; [done|by rewrite app_nil_r|].
    by rewrite entries_settled, decide_False, app_nil_r by done.
  - rewrite !entries_app, entries_pair, entries_settled, !decide_True by done.
    rewrite map_app, map_map. cbn [fst]. rewrite map_id, HP.
    unfold q'. cbn [ProcessQueueImpl.cacheMessages].
    rewrite (proj1 (ProcessQueueImpl.cache_loop_spec (view client_id s) l q)).
    rewrite (filter_partition (FilterExpression.accept (ProcessQueueImpl.filter_expression_ q)) l) at 1.
    rewrite Hrej. fold (inflight n x). solve_Permutation.
  - by apply ProcessQueueImpl.cache_loop_accounted.
  - by eapply tasks_old; [exact (di_tasks _ _ Hx)|].
  - rewrite map_app, (di_calls _ _ Hx), map_map. f_equal. apply map_ext. intros m. cbn.
    change (ack client_id m s) with (ack client_id m (settings (consumer x))). by rewrite (di_settings _ _ Hx).
Qed.

(** *** Dispatch *)

Context (s0 : PushConsumerImpl.t).
Hypothesis Hbatch : 1 <= consume_batch_size_ s0 < 2 ^ 32.
Hypothesis Hmodel : message_model_ s0 = CLUSTERING.
(** The application set a credentials provider; see [consume_without_provider]. *)
Hypothesis Hprovider : ClientConfigImpl.credentials_provider_ (config s0) = true.

Lemma batch_size x : dinv s0 x -> 1 <= consume_batch_size_ (consumer x) < 2 ^ 32.
Proof.
  intros Hx. change (consume_batch_size_ (consumer x)) with (consume_batch_size_ (settings (consumer x))).
  by rewrite (di_settings _ _ Hx).
Qed.

Lemma provider x : dinv s0 x -> view_credentials_provider (view client_id (consumer x)) = true.
Proof.
  intros Hx. change (view_credentials_provider (view client_id (consumer x)))
    with (ClientConfigImpl.credentials_provider_ (config (settings (consumer x)))).
  by rewrite (di_settings _ _ Hx).
Qed.

Lemma model x : dinv s0 x -> messageModel (view client_id (consumer x)) = CLUSTERING.
Proof.
  intros Hx. change (messageModel (view client_id (consumer x))) with (message_model_ (settings (consumer x))).
  by rewrite (di_settings _ _ Hx).
Qed.

(** One queue is dispatched: its cache moves to the pool, and the other objects stay. *)
Lemma dispatch_one_spec x n :
  dinv s0 x ->
  exists s' b, dispatch_one n (consumer x) = Some (s', b) /\ idents s' = idents (consumer x)
    /\ dinv s0 (mk s' (pending x) (tasks x ++ b) (unanswered x) (calls x) (received x) (settled x))
    /\ (forall m q', find_object m s' = Some q' ->
         if decide (m = n) then ProcessQueueImpl.cached_messages_ q' = []
         else exists q, find_object m (consumer x) = Some q
              /\ ProcessQueueImpl.cached_messages_ q' = ProcessQueueImpl.cached_messages_ q).
Proof.
  intros Hx. pose proof (di_polls _ _ Hx) as (_ & _ & Hw). unfold dispatch_one.
  destruct (find_object n (consumer x)) as [q|] eqn:E.
  2: { exists (consumer x), []. rewrite app_nil_r. split_and!; [done|done|by destruct x|].
       intros m q' Em. destruct (decide (m = n)) as [->|]; [by rewrite E in Em|]. eauto. }
  destruct (ConsumeStandardMessageService.submit_loop_spec _ (batch_size x Hx)
              (S (length (ProcessQueueImpl.cached_messages_ q))) q ltac:(lia)) as (effects & q' & Es & Hc & Hb & Hne & Hq').
  unfold ConsumeStandardMessageService.submitConsumeTask. rewrite Es. cbn. set (b := ConsumeStandardMessageService.batches effects) in *.
  assert (Hmq : ProcessQueueImpl.message_queue_ q' = ProcessQueueImpl.message_queue_ q) by (by rewrite Hq').
  eexists _, _. split; [done|]. destruct (di_conserved _ _ Hx n q E) as [HP Hacc]. split_and!.
  - exact (proj1 (put_object_frame _ n q q' E Hmq)).
  - apply (dinv_update s0 x n q); [done|done|done| | | | |exact (di_calls _ _ Hx)].
    + intros m Hm. by rewrite entries_app, entries_pair, decide_False, app_nil_r by done.
    + rewrite entries_app, entries_pair, decide_True, concat_app by done. rewrite Hc, Hb, HP. unfold inflight. solve_Permutation.
    + rewrite entries_app, entries_pair, decide_True, concat_app by done. rewrite Hb.
      apply (ProcessQueueImpl.accounted_perm (q, inflight n x)); [done| |by rewrite Hq'..].
      unfold ProcessQueueImpl.held, inflight. cbn [fst snd]. rewrite Hc. solve_Permutation.
    + apply Forall_app. split; [by eapply tasks_old; [exact (di_tasks _ _ Hx)|]|].
      apply Forall_forall. intros e He. apply list_elem_of_fmap in He as (l & -> & Hl). cbn. split; [|by left].
      exact (proj1 (proj1 (Forall_forall _ _) Hne l Hl)).
  - intros m qm. rewrite (find_object_put _ n q q' m Hw E Hmq). destruct (decide (m = n)); [by intros [= <-]|]. eauto.
Qed.

Lemma dispatch_loop_spec l x :
  dinv s0 x ->
  exists s' b, dispatch_loop l (consumer x) = Some (s', b) /\ idents s' = idents (consumer x)
    /\ dinv s0 (mk s' (pending x) (tasks x ++ b) (unanswered x) (calls x) (received x) (settled x))
    /\ (forall m q', find_object m s' = Some q' ->
         ProcessQueueImpl.cached_messages_ q' = []
         \/ ((m ∉ l) /\ exists q, find_object m (consumer x) = Some q
              /\ ProcessQueueImpl.cached_messages_ q' = ProcessQueueImpl.cached_messages_ q)).
Proof.
  revert x. induction l as [|n l IH]; intros x Hx; cbn [dispatch_loop].
  { exists (consumer x), []. rewrite app_nil_r. split_and!; [done|done|by destruct x|]. intros m q' E. right.
    split; [apply not_elem_of_nil|eauto]. }
  destruct (dispatch_one_spec x n Hx) as (s1 & b1 & E1 & I1 & H1 & C1). rewrite E1. cbn [mbind option_bind].
  destruct (IH _ H1) as (s2 & b2 & E2 & I2 & H2 & C2). cbn [consumer pending tasks calls received settled] in *.
  rewrite E2. eexists _, _. split; [done|]. rewrite app_assoc. split; [congruence|]. split; [exact H2|].
  intros m q' Em. destruct (C2 m q' Em) as [?|(Hm & q1 & Eq1 & Hc1)]; [by left|].
  specialize (C1 m q1 Eq1). destruct (decide (m = n)) as [->|Hne]; [left; congruence|].
  right. destruct C1 as (q & Eq & Hc). split; [rewrite elem_of_cons; tauto|]. exists q. split; [done|congruence].
Qed.

(** [dispatch] returns and leaves no message in the queues of the table. *)
Lemma dispatch_spec x :
  dinv s0 x ->
  exists s' b, dispatch (consumer x) = Some (s', b)
    /\ dinv s0 (mk s' (pending x) (tasks x ++ b) (unanswered x) (calls x) (received x) (settled x))
    /\ (forall k o, process_queue_table_ s' !! k = Some o -> ProcessQueueImpl.cached_messages_ (queue_state o) = []).
Proof.
  intros Hx. destruct (dispatch_loop_spec (iterateProcessQueue (consumer x)) x Hx) as (s' & b & E & I & H & C).
  exists s', b. split_and!; [done|done|]. intros k o Ek. pose proof (di_polls _ _ H) as (_ & _ & Hw'). cbn [consumer] in Hw'.
  pose proof (di_polls _ _ Hx) as (_ & _ & Hw).
  destruct (C _ _ (find_object_live s' k o Hw' Ek)) as [?|(Hn & q & Eq & ->)]; [done|].
  pose proof (idents_lookup _ _ _ Ek) as Hid. rewrite I in Hid. apply idents_inv in Hid as (o1 & Ek1 & En & _).
  pose proof (find_object_live _ k o1 Hw Ek1) as Eo. rewrite En, Eq in Eo. injection Eo as ->.
  destruct (bool_decide (ProcessQueueImpl.cached_messages_ (queue_state o1) = [])) eqn:Ed; [by apply bool_decide_eq_true in Ed|].
  exfalso. apply Hn. unfold iterateProcessQueue. apply list_elem_of_omap. exists (k, o1).
  split; [by apply elem_of_map_to_list|]. cbn. unfold ProcessQueueImpl.hasPendingMessages. rewrite Ed. cbn. by rewrite En.
Qed.

(** *** Consumption *)

Lemma settle_frame c status l q :
  ProcessQueueImpl.cached_messages_ (snd (ConsumeStandardMessageService.settle c status l q))
    = ProcessQueueImpl.cached_messages_ q
  /\ ProcessQueueImpl.message_queue_ (snd (ConsumeStandardMessageService.settle c status l q))
    = ProcessQueueImpl.message_queue_ q.
Proof.
  revert q. induction l as [|m l IH]; intros q; cbn [ConsumeStandardMessageService.settle]; [done|].
  match goal with |- context [ConsumeStandardMessageService.settle c status l ?y] =>
    specialize (IH y); destruct (ConsumeStandardMessageService.settle c status l y) end. done.
Qed.

Lemma consumeTask_frame c service status l q effects q' :
  ConsumeStandardMessageService.consumeTask c service status l q = Some (effects, q') ->
  ProcessQueueImpl.cached_messages_ q' = ProcessQueueImpl.cached_messages_ q
  /\ ProcessQueueImpl.message_queue_ q' = ProcessQueueImpl.message_queue_ q.
Proof.
  intros E%ConsumeStandardMessageService.consumeTask_Some. apply (f_equal snd) in E. cbn [snd] in E. subst q'.
  unfold ConsumeStandardMessageService.consume_batch. destruct l as [|m l]; [done|]. destruct (messageModel c); [done|].
  pose proof (settle_frame c status (m :: l) q) as H. by destruct (ConsumeStandardMessageService.settle _ _ _ _).
Qed.

(** The calls of the settlements are all the calls of a task. *)
Lemma broker_calls s l :
  concat (map (broker_call s) l) = concat (map (broker_call s) (ConsumeStandardMessageService.settlements l)).
Proof. induction l as [|e l IH]; cbn; [done|]. destruct e; cbn; by rewrite IH. Qed.

(** Collecting the orphans no task refers to. *)
Lemma dinv_collect x u :
  dinv s0 x ->
  dinv s0 (mk (collect (held (tasks x) u) (consumer x)) (pending x) (tasks x) u (calls x) (received x) (settled x)).
Proof.
  intros [H1 H2 H3 H4 H5 H6]. pose proof H1 as (_ & _ & Hw). set (s' := collect (held (tasks x) u) (consumer x)).
  assert (Hp' : polls s') by (apply polls_orphans; [done|apply map_filter_subseteq]).
  pose proof (proj2 (proj2 Hp')) as Hw'.
  assert (Hback : forall n q, find_object n s' = Some q -> find_object n (consumer x) = Some q).
  { intros n q E. apply (find_object_iff s' n q Hw') in E. apply (find_object_iff _ n q Hw). cbn in E.
    destruct E as [E|E]; [by left|right]. by apply map_lookup_filter_Some in E as [E _]. }
  split; cbn [consumer tasks calls received settled]; [done|done| |done| |done].
  - apply Forall_forall. intros e He. destruct (proj1 (Forall_forall _ _) H3 e He) as [Hne [q Hq]]. split; [done|].
    exists q. apply (find_object_iff s' _ q Hw'). apply (find_object_iff _ _ q Hw) in Hq as [Hq|Hq]; [by left|right].
    cbn. apply map_lookup_filter_Some. split; [done|]. cbn. apply elem_of_app. left.
    apply list_elem_of_fmap. by exists e.
  - intros n q E. apply H5. by apply Hback.
Qed.

Lemma consume_spec x i n b status :
  dinv s0 x -> tasks x !! i = Some (n, b) ->
  exists y, step (Consume i status) x = Some y /\ dinv s0 y /\ tasks y = delete i (tasks x)
    /\ (forall k o, process_queue_table_ (consumer y) !! k = Some o ->
         exists o', process_queue_table_ (consumer x) !! k = Some o'
           /\ ProcessQueueImpl.cached_messages_ (queue_state o) = ProcessQueueImpl.cached_messages_ (queue_state o')).
Proof.
  intros Hx Ei. cbn [step]. rewrite Ei. cbn [mbind option_bind].
  destruct (proj1 (Forall_forall _ _) (di_tasks _ _ Hx) (n, b) (list_elem_of_lookup_2 _ _ _ Ei)) as [Hb [q Hq]].
  cbn [fst snd] in Hb, Hq. rewrite Hq. cbn [mbind option_bind].
  set (c := view client_id (consumer x)). set (service := service_of (consumer x)).
  pose proof (ConsumeStandardMessageService.consumeTask_provided c service status b q (provider x Hx)) as Ec.
  destruct (ConsumeStandardMessageService.consume_batch_spec c service status b q (model x Hx)) as [Hset Hcnt].
  destruct (Hcnt Hb) as [Hqn Hqm]. clear Hcnt.
  destruct (ConsumeStandardMessageService.consume_batch c service status b q) as [effects q']. cbn [snd fst] in *.
  rewrite Ec. cbn [mbind option_bind]. destruct (consumeTask_frame _ _ _ _ _ _ _ Ec) as [Hc Hmq].
  eexists. split; [done|]. cbn [consumer tasks].
  assert (Hcached : forall k o, process_queue_table_ (put_object n q' (consumer x)) !! k = Some o ->
         exists o', process_queue_table_ (consumer x) !! k = Some o'
           /\ ProcessQueueImpl.cached_messages_ (queue_state o) = ProcessQueueImpl.cached_messages_ (queue_state o')).
  { intros k o. unfold put_object. unfold find_object in Hq. destruct (find_queue n (consumer x)) as [[k' o']|] eqn:Ef; [|cbn; by eauto].
    injection Hq as <-. apply find_queue_Some in Ef as [Ef _]. cbn. destruct (decide (k' = k)) as [->|Hk].
    - rewrite lookup_insert_eq. intros [= <-]. eauto.
    - rewrite lookup_insert_ne by done. eauto. }
  split; [|done]. clear Hcached. destruct (di_conserved _ _ Hx n q Hq) as [HP [Hacc1 Hacc2]].
  pose proof (entries_delete n n (tasks x) i b Ei) as Hdel. rewrite decide_True in Hdel by done.
  assert (Hinf : inflight n x ≡ₚ b ++ concat (entries n (delete i (tasks x)))).
  { unfold inflight. rewrite (concat_perm _ _ Hdel). done. }
  match goal with |- dinv s0 (mk (collect (held ?l ?u) ?s) ?p ?l ?u ?cl ?r ?st) => apply (dinv_collect (mk s p l u cl r st)) end.
  apply (dinv_update s0 x n q); [done|done|done| | | | |].
  - intros m Hm. pose proof (entries_delete m n (tasks x) i b Ei) as Hd. rewrite decide_False in Hd by done.
    by rewrite entries_app, entries_settled, decide_False, app_nil_r by done.
  - rewrite entries_app, entries_settled, decide_True, map_app, map_map by done. cbn [fst]. rewrite map_id, HP, Hc, Hinf.
    solve_Permutation.
  - split; unfold ProcessQueueImpl.held in *; cbn [fst snd] in *; rewrite Hc.
    + rewrite Hqn, Hacc1, u32_sub_l. f_equal. unfold zlen. rewrite Hinf, !length_app. lia.
    + rewrite Hqm, Hacc2, u64_sub_l. f_equal. rewrite !ProcessQueueImpl.total_size_app.
      rewrite (ProcessQueueImpl.total_size_perm _ _ Hinf), ProcessQueueImpl.total_size_app. lia.
  - apply (tasks_old n (consumer x)); [|intros e; apply elem_of_delete].
    apply Forall_forall. intros e He. apply (proj1 (Forall_forall _ _) (di_tasks _ _ Hx)).
    by eapply elem_of_delete.
  - rewrite map_app, (di_calls _ _ Hx), map_map, broker_calls, Hset. f_equal.
    assert (Hs : forall e, settle_call s0 e = settle_call (consumer x) e).
    { intros e. rewrite (settle_call_settings s0), <- (di_settings _ _ Hx). done. }
    clear - Hs. induction b as [|m b IH]; cbn [map concat]; [done|]. rewrite IH, Hs. by destruct status.
Qed.

(** *** Histories *)

(** An assignment is one a load balancer makes. *)
Definition legal (a : action) : Prop :=
  match a with Assign _ topic a _ => well_assigned topic a | _ => True end.

Lemma dinv_step a x y : legal a -> dinv s0 x -> step a x = Some y -> dinv s0 y.
Proof.
  intros Hl Hx. destruct a as [now topic a f|i now r|i|i now| |i status|i].
  - cbn [step]. pose proof (di_polls _ _ Hx) as Hp. destruct (sync_quiet now topic a f (consumer x)) as [Q1 Q2].
    pose proof (keeps_sync now topic a f (consumer x) Hp Hl) as Hk.
    pose proof (sync_spec client_id now topic a f (consumer x) Hp Hl) as Hs.
    destruct (syncProcessQueue client_id now topic a f (consumer x)) as [s' e]. cbn [fst snd] in *. destruct Hs as [Hp' _].
    intros [= <-]. rewrite Q2, app_nil_r.
    apply (dinv_collect (mk s' (pending x ++ cycles e) (tasks x) (unanswered x) (calls x) (received x) (settled x))).
    by apply dinv_keeps.
  - by apply dinv_received.
  - apply dinv_complete_quiet; [done| | |intros; apply later_quiet].
    + intros n s q Hp E. unfold onFailure. by rewrite (receiveMessageLater_spec s n q E).
    + intros n s E. unfold onFailure, receiveMessageLater. by rewrite E.
  - apply dinv_complete_quiet; [done| | |intros; apply check_quiet].
    + intros n s q Hp E. split; [|by eapply keeps_check]. by destruct (checkThrottle_spec client_id now s n q Hp E) as [[? _] _].
    + intros n s E. unfold checkThrottleThenReceive. by rewrite E.
  - cbn [step]. destruct (dispatch_spec x Hx) as (s' & b & -> & H & _). cbn. by intros [= <-].
  - intros E. destruct (tasks x !! i) as [[n b]|] eqn:Ei; [|cbn [step] in E; by rewrite Ei in E].
    destruct (consume_spec x i n b status Hx Ei) as (y' & E' & H & _). rewrite E' in E. by injection E as <-.
  - cbn [step]. destruct (unanswered x !! i); [|done]. cbn. intros [= <-]. by apply dinv_collect.
Qed.

Lemma dinv_run l x y : Forall legal l -> dinv s0 x -> run l x = Some y -> dinv s0 y.
Proof.
  revert x. induction l as [|a l IH]; intros x Hl Hx; cbn [run]; [by intros [= <-]|].
  apply Forall_cons in Hl as [Ha Hl]. destruct (step a x) as [x1|] eqn:E; cbn; [|done].
  apply IH; [done|]. by eapply dinv_step.
Qed.

(** *** Dropped queues *)

(** What was consumed or is in a task was received, and not more often, also when the queue
    is gone. *)
Definition settled_once (x : t) : Prop :=
  forall n, inflight n x ++ map fst (entries n (settled x)) ⊆+ entries n (received x).

Lemma inflight_gone x n : dinv s0 x -> find_object n (consumer x) = None -> inflight n x = [].
Proof.
  intros Hx E. unfold inflight. pose proof (di_tasks _ _ Hx) as Ht. induction Ht as [|[k b] l [_ Hk] _ IH]; [done|].
  unfold entries in *. cbn in *. rewrite decide_False; [exact IH|]. intros ->. rewrite E in Hk. by destruct Hk.
Qed.

Lemma settled_complete i handler news refused x y n :
  (forall k, refused k ⊆+ news k) -> complete i handler news refused x = Some y ->
  map fst (entries n (settled x)) ⊆+ entries n (received x) -> map fst (entries n (settled y)) ⊆+ entries n (received y).
Proof.
  intros Hr. unfold complete. destruct (pending x !! i) as [k|]; [|done]. cbn [mbind option_bind].
  destruct (handler k (consumer x)) as [s' e]. intros [= <-] H. cbn [settled received].
  rewrite !entries_app, entries_pair, entries_settled, map_app. apply submseteq_app; [done|].
  destruct (decide (n = k)); [|done]. rewrite map_map, map_id. apply Hr.
Qed.

Lemma filter_submseteq {A} (f : A -> bool) l : List.filter f l ⊆+ l.
Proof. induction l as [|a l IH]; cbn; [done|]. destruct (f a); [by apply submseteq_skip|by apply submseteq_cons]. Qed.

Lemma settled_once_step a x y : legal a -> dinv s0 x -> settled_once x -> step a x = Some y -> settled_once y.
Proof.
  intros Hl Hx Ho E n. pose proof (dinv_step a x y Hl Hx E) as Hy.
  destruct (find_object n (consumer y)) as [q|] eqn:Eq.
  { destruct (di_conserved _ _ Hy n q Eq) as [-> _]. by apply submseteq_inserts_l. }
  rewrite (inflight_gone y n Hy Eq). cbn [app]. clear Hy Eq. specialize (Ho n).
  assert (Hs : map fst (entries n (settled x)) ⊆+ entries n (received x)).
  { etransitivity; [|exact Ho]. by apply submseteq_inserts_l. }
  destruct a as [now topic a f|i now r|i|i now| |i status|i]; cbn [step] in E.
  - destruct (syncProcessQueue _ _ _ _ _ _). by injection E as <-.
  - eapply settled_complete; [|exact E|exact Hs]. intros k. cbn. unfold rejected. destruct (find_object k (consumer x)); [|apply submseteq_nil_l].
    apply filter_submseteq.
  - by eapply settled_complete; [|exact E|exact Hs].
  - by eapply settled_complete; [|exact E|exact Hs].
  - destruct (dispatch (consumer x)) as [[? ?]|]; [|done]. by injection E as <-.
  - destruct (tasks x !! i) as [[k b]|] eqn:Ei; [|done]. cbn [mbind option_bind] in E.
    destruct (find_object k (consumer x)); [|done]. cbn [mbind option_bind] in E.
    destruct (ConsumeStandardMessageService.consumeTask _ _ _ _ _) as [[effects q']|]; [|done]. injection E as <-.
    cbn [settled received]. rewrite entries_app, entries_settled, map_app.
    pose proof (entries_delete n k (tasks x) i b Ei) as Hd. unfold inflight in Ho.
    destruct (decide (n = k)); [|by rewrite app_nil_r]. rewrite map_map, map_id. rewrite Hd in Ho. cbn [concat] in Ho.
    etransitivity; [|exact Ho]. rewrite (Permutation_app_comm _ b). rewrite <- app_assoc. apply submseteq_app; [done|].
    by apply submseteq_inserts_l.
  - destruct (unanswered x !! i); [|done]. by injection E as <-.
Qed.

Lemma settled_once_run l x y : Forall legal l -> dinv s0 x -> settled_once x -> run l x = Some y -> settled_once y.
Proof.
  revert x. induction l as [|a l IH]; intros x Hl Hx Ho; cbn [run]; [by intros [= <-]|].
  apply Forall_cons in Hl as [Ha Hl]. destruct (step a x) as [x1|] eqn:E; cbn; [|done].
  apply IH; [done|by eapply dinv_step|by eapply settled_once_step].
Qed.

(** *** The objects over a history *)

(** What is alive after a step was alive before or is new. *)
Definition grows (s s' : PushConsumerImpl.t) : Prop :=
  (created s <= created s')%nat
  /\ forall n, is_Some (find_object n s') -> is_Some (find_object n s) \/ (created s <= n)%nat.

#[local] Instance grows_preorder : PreOrder grows.
Proof.
  split; [by split; [|left]|]. intros a b c [H1 H2] [H3 H4]. split; [lia|]. intros n Hn.
  destruct (H4 n Hn) as [Hb|]; [by apply H2|right; lia].
Qed.

Lemma keeps_grows s s' : keeps s s' -> grows s s'.
Proof.
  intros (H1 & _ & H3). split; [done|]. intros n [q E]. destruct (H3 n q E) as [(q' & E' & _)|[? _]]; [left; by eexists|by right].
Qed.

Lemma frame_grows s s' : wf s -> frame s s' -> grows s s'.
Proof.
  intros Hw F. pose proof F as (Ei & Eo & Ec & _). pose proof (wf_frame _ _ F Hw) as Hw'. split; [lia|]. intros n [q E].
  left. apply (find_object_iff s' n q Hw') in E as [(k & o & Ek & <- & _)|E].
  - pose proof (idents_lookup _ _ _ Ek) as Hid. rewrite Ei in Hid. apply idents_inv in Hid as (o1 & Ek1 & <- & _).
    rewrite (find_object_live s k o1 Hw Ek1). by eexists.
  - assert (H : is_Some (oidents s !! n)) by (rewrite <- Eo; unfold oidents; rewrite lookup_fmap, E; by eexists).
    unfold oidents in H. rewrite lookup_fmap in H. apply fmap_is_Some in H as [q1 Hq].
    exists q1. apply (find_object_iff s n q1 Hw). by right.
Qed.

Lemma collect_grows h s : wf s -> grows s (collect h s).
Proof.
  intros Hw. assert (Hw' : wf (collect h s)).
  { unfold wf. change (idents (collect h s)) with (idents s). destruct Hw as (W1 & W2 & W3). split_and!; [done|done|].
    intros n mq E. apply W3. unfold oidents in *. rewrite lookup_fmap in *. cbn in E.
    destruct (filter _ (orphans s) !! n) as [q|] eqn:Eq; [|done]. apply map_lookup_filter_Some in Eq as [-> _]. done. }
  split; [done|]. intros n [q E]. left. exists q. apply (find_object_iff _ n q Hw') in E. apply (find_object_iff s n q Hw).
  destruct E as [E|E]; [by left|right]. cbn in E. by apply map_lookup_filter_Some in E as [E _].
Qed.

Lemma dispatch_frame l x s' b :
  dinv s0 x -> dispatch_loop l (consumer x) = Some (s', b) -> frame (consumer x) s'.
Proof.
  revert x b. induction l as [|n l IH]; intros x b Hx; cbn [dispatch_loop]; [by intros [= <- _]|].
  destruct (dispatch_one_spec x n Hx) as (s1 & b1 & E1 & _ & H1 & _). rewrite E1. cbn [mbind option_bind].
  destruct (dispatch_loop l s1) as [[s2 b2]|] eqn:E2; [|done]. cbn. intros [= -> _].
  etransitivity; [|exact (IH _ _ H1 E2)]. cbn [consumer]. unfold dispatch_one in E1.
  destruct (find_object n (consumer x)) as [q|] eqn:E; [|by injection E1 as <- _].
  destruct (ConsumeStandardMessageService.submit_loop_spec _ (batch_size x Hx)
              (S (length (ProcessQueueImpl.cached_messages_ q))) q ltac:(lia)) as (effects & q' & Es & _ & _ & _ & Hq').
  unfold ConsumeStandardMessageService.submitConsumeTask in E1. rewrite Es in E1. injection E1 as <- _.
  apply (put_object_frame _ n q); [done|by rewrite Hq'].
Qed.

(** The orphans are those some task or acknowledgement refers to. *)
Definition orphans_held (x : t) : Prop :=
  forall n, is_Some (orphans (consumer x) !! n) -> n ∈ held (tasks x) (unanswered x).

Lemma oidents_orphans s s' n : oidents s' = oidents s -> is_Some (orphans s' !! n) -> is_Some (orphans s !! n).
Proof.
  intros E. rewrite <- !(fmap_is_Some ProcessQueueImpl.message_queue_), <- !lookup_fmap. fold (oidents s) (oidents s').
  by rewrite E.
Qed.

Lemma collect_held s p l u c r st : orphans_held (mk (collect (held l u) s) p l u c r st).
Proof. intros n [q E]. cbn in E |- *. by apply map_lookup_filter_Some in E as [_ E]. Qed.

(** A completion: what it does to the objects. *)
Lemma complete_objects i handler news refused x y :
  dinv s0 x -> orphans_held x ->
  (forall n q, find_object n (consumer x) = Some q ->
     goes_on n (consumer x) (fst (handler n (consumer x))) (snd (handler n (consumer x)))
     /\ grows (consumer x) (fst (handler n (consumer x)))) ->
  (forall n, find_object n (consumer x) = None -> handler n (consumer x) = (consumer x, [])) ->
  complete i handler news refused x = Some y -> grows (consumer x) (consumer y) /\ orphans_held y.
Proof.
  intros Hx Ho Hlive Hdead. unfold complete. destruct (pending x !! i) as [n|]; [|done]. cbn [mbind option_bind].
  destruct (find_object n (consumer x)) as [q|] eqn:E.
  - destruct (Hlive n q E) as [[_ Hg] Hgr]. destruct (handler n (consumer x)) as [s' effects]. cbn [fst snd] in *.
    intros [= <-]. split; [done|]. intros m Hm. apply Ho. cbn in Hm.
    destruct Hg as [[(_ & F & _) _]|(_ & _ & mq & _ & (_ & A & _))]; by eapply oidents_orphans.
  - rewrite (Hdead n E). intros [= <-]. by split.
Qed.

Lemma step_objects a x y :
  legal a -> dinv s0 x -> orphans_held x -> step a x = Some y ->
  grows (consumer x) (consumer y) /\ orphans_held y.
Proof.
  intros Hl Hx Ho. pose proof (di_polls _ _ Hx) as Hp. pose proof (proj2 (proj2 Hp)) as Hw.
  destruct a as [now topic a f|i now r|i|i now| |i status|i]; cbn [step].
  - pose proof (keeps_sync now topic a f (consumer x) Hp Hl) as Hk.
    pose proof (sync_spec client_id now topic a f (consumer x) Hp Hl) as Hs.
    destruct (syncProcessQueue client_id now topic a f (consumer x)) as [s' e]. destruct Hs as [Hp' _]. intros [= <-].
    split; [|apply collect_held]. etransitivity; [by apply keeps_grows|]. by apply collect_grows, Hp'.
  - apply complete_objects; [done|done| |].
    + intros n q E. split; [by apply (onSuccess_spec _ _ _ _ q)|].
      pose proof (onSuccess_delivers now n r (consumer x) q Hp E) as H. cbn zeta in H.
      destruct (onSuccess client_id now n r (consumer x)) as [s' e]. destruct H as (_ & Hk & _). cbn [fst].
      etransitivity; [|by apply keeps_grows]. apply frame_grows; [done|]. apply (put_object_frame _ n q); [done|].
      apply cache_loop_mq.
    + intros n E. unfold onSuccess. by rewrite E.
  - apply complete_objects; [done|done| |].
    + intros n q E. unfold onFailure. split; [by apply (later_goes_on _ _ q)|]. by rewrite (receiveMessageLater_spec _ _ q E).
    + intros n E. unfold onFailure, receiveMessageLater. by rewrite E.
  - apply complete_objects; [done|done| |].
    + intros n q E. split; [by apply (checkThrottle_spec client_id now _ n q)|]. by eapply keeps_grows, keeps_check.
    + intros n E. unfold checkThrottleThenReceive. by rewrite E.
  - destruct (dispatch (consumer x)) as [[s' b]|] eqn:E; [|done]. cbn. intros [= <-].
    pose proof (dispatch_frame _ x s' b Hx E) as F. split; [by apply frame_grows|].
    intros n Hn. cbn in Hn. destruct F as (_ & F & _). apply (oidents_orphans _ _ n F), Ho in Hn.
    unfold held in *. cbn. rewrite map_app, !elem_of_app in *. tauto.
  - destruct (tasks x !! i) as [[n b]|]; [|done]. cbn [mbind option_bind].
    destruct (find_object n (consumer x)) as [q|] eqn:Eq; [|done]. cbn [mbind option_bind].
    destruct (ConsumeStandardMessageService.consumeTask _ _ _ _ _) as [[effects q']|] eqn:Ec; [|done].
    destruct (consumeTask_frame _ _ _ _ _ _ _ Ec) as [_ Hmq]. cbn [mbind option_bind]. intros [= <-].
    split; [|apply collect_held]. pose proof (put_object_frame _ n q q' Eq Hmq) as F.
    etransitivity; [by apply frame_grows|]. apply collect_grows. by eapply wf_frame.
  - destruct (unanswered x !! i); [|done]. cbn. intros [= <-]. split; [by apply collect_grows|apply collect_held].
Qed.

(** A consumer that just started polling. *)
Record starts : Prop := {
  st_active : active s0 = true;
  st_policy : receive_message_policy_ s0 = POLLING;
  st_table : process_queue_table_ s0 = ∅;
  st_orphans : orphans s0 = ∅;
}.

Lemma dinv_init : starts -> dinv s0 (make s0).
Proof.
  intros [Ha Hp Ht Ho]. split; cbn; [|done|constructor|done| |done].
  - exact (ci_polls _ (cinv_init s0 Ha Hp Ht Ho)).
  - intros n q E. exfalso. unfold find_object, find_queue in E. rewrite Ht, map_to_list_empty, Ho in E. cbn in E.
    by rewrite lookup_empty in E.
Qed.

(** Consuming the tasks of the pool, first come first served. *)
Lemma consume_all_tasks statuses x :
  dinv s0 x -> length statuses = length (tasks x) ->
  exists y, run (map (Consume 0) statuses) x = Some y /\ dinv s0 y /\ tasks y = []
    /\ (forall k o, process_queue_table_ (consumer y) !! k = Some o ->
         exists o', process_queue_table_ (consumer x) !! k = Some o'
           /\ ProcessQueueImpl.cached_messages_ (queue_state o) = ProcessQueueImpl.cached_messages_ (queue_state o')).
Proof.
  revert x. induction statuses as [|st l IH]; intros x Hx Hlen; cbn [map run].
  { exists x. destruct (tasks x) eqn:Et; [|done]. split_and!; try done. eauto. }
  destruct (tasks x) as [|[n b] rest] eqn:Et; [done|].
  destruct (consume_spec x 0 n b st Hx ltac:(by rewrite Et)) as (x1 & E1 & H1 & T1 & C1).
  rewrite E1. cbn [mbind option_bind]. rewrite Et in T1. cbn in T1.
  destruct (IH x1 H1 ltac:(rewrite T1; cbn in Hlen; lia)) as (y & Ey & Hy & Ty & Cy).
  exists y. split_and!; try done. intros k o Ek. destruct (Cy k o Ek) as (o1 & Ek1 & Hc1).
  destruct (C1 k o1 Ek1) as (o2 & Ek2 & Hc2). exists o2. split; [done|congruence].
Qed.

(** *** Refinement of the receive cycles *)

(** The cycles of a state, after [w] stray callbacks. *)
Definition cycles_of (x : t) (w : nat) : cycle_state := mkCycles (consumer x) (pending x) w.

Lemma csteps_two a b c d : csteps client_id a b -> cstep client_id b c -> cstep client_id c d -> csteps client_id a d.
Proof. intros H1 H2 H3. eapply csteps_snoc; [eapply csteps_snoc|]; eassumption. Qed.

Lemma dispatch_loop_cycles l x y w :
  dinv s0 x -> csteps client_id y (cycles_of x w) ->
  exists s' b, dispatch_loop l (consumer x) = Some (s', b) /\ csteps client_id y (mkCycles s' (pending x) w).
Proof.
  revert x. induction l as [|n l IH]; intros x Hx Hc; cbn [dispatch_loop]; [by eexists _, _|].
  destruct (dispatch_one_spec x n Hx) as (s1 & b1 & E1 & _ & H1 & _). rewrite E1. cbn [mbind option_bind].
  destruct (IH _ H1) as (s2 & b2 & E2 & H2); cbn [consumer pending] in *; [|rewrite E2; by eexists _, _].
  unfold cycles_of. cbn [consumer pending]. unfold dispatch_one in E1.
  destruct (find_object n (consumer x)) as [q|] eqn:E; [|by injection E1 as <- _].
  destruct (ConsumeStandardMessageService.submit_loop_spec _ (batch_size x Hx)
              (S (length (ProcessQueueImpl.cached_messages_ q))) q ltac:(lia)) as (effects & q' & Es & _ & _ & _ & Hq').
  unfold ConsumeStandardMessageService.submitConsumeTask in E1. rewrite Es in E1. injection E1 as <- _.
  eapply csteps_snoc; [exact Hc|]. apply (CUpdate _ (cycles_of x w) n q); [done|by rewrite Hq'].
Qed.

Lemma complete_cycles i n handler news refused x y w :
  pending x !! i = Some n -> complete i handler news refused x = Some y ->
  completes n (handler n) (cycles_of x w) (cycles_of y (w + stray n (consumer x))).
Proof.
  intros Ei. unfold complete. rewrite Ei. cbn. destruct (handler n (consumer x)) as [s' effects] eqn:Eh. intros [= <-].
  exists (take i (pending x)), (drop (S i) (pending x)). cbn. rewrite Eh, delete_take_drop, <- app_assoc.
  split_and!; try done. by rewrite take_drop_middle.
Qed.

Lemma step_cycles a x y z w :
  legal a -> dinv s0 x -> step a x = Some y -> csteps client_id z (cycles_of x w) ->
  exists w', csteps client_id z (cycles_of y w').
Proof.
  intros Hl Hx Hstep Hc.
  assert (Hcomp : forall i handler news refused,
    complete i handler news refused x = Some y ->
    (forall n, completes n (handler n) (cycles_of x w) (cycles_of y (w + stray n (consumer x))) ->
       cstep client_id (cycles_of x w) (cycles_of y (w + stray n (consumer x)))) ->
    exists w', csteps client_id z (cycles_of y w')).
  { intros i handler news refused E Hn. destruct (pending x !! i) as [n|] eqn:Ei.
    - eexists. eapply csteps_snoc; [exact Hc|]. eapply Hn, complete_cycles; eassumption.
    - unfold complete in E. by rewrite Ei in E. }
  destruct a as [now topic a f|i now r|i|i now| |i status|i]; cbn [step] in Hstep.
  - exists w. pose proof (CSync client_id (cycles_of x w) now topic a f Hl) as S1. cbn [polling pending strays cycles_of] in S1.
    destruct (syncProcessQueue client_id now topic a f (consumer x)) as [s' e]. injection Hstep as <-.
    eapply csteps_two; [exact Hc|exact S1|]. apply (CDestroy client_id (mkCycles s' (pending x ++ cycles e) w)).
    apply map_filter_subseteq.
  - eapply Hcomp; [exact Hstep|]. intros n. apply CReceived.
  - eapply Hcomp; [exact Hstep|]. intros n. apply CFailed.
  - eapply Hcomp; [exact Hstep|]. intros n. apply CTimer.
  - exists w. destruct (dispatch_loop_cycles (iterateProcessQueue (consumer x)) x z w Hx Hc) as (s' & b & E & H).
    unfold dispatch in Hstep. rewrite E in Hstep. by injection Hstep as <-.
  - exists w. destruct (tasks x !! i) as [[n b]|]; [|done]. cbn [mbind option_bind] in Hstep.
    destruct (find_object n (consumer x)) as [q|] eqn:Eq; [|done]. cbn [mbind option_bind] in Hstep.
    destruct (ConsumeStandardMessageService.consumeTask _ _ _ _ _) as [[effects q']|] eqn:Ec; [|done].
    destruct (consumeTask_frame _ _ _ _ _ _ _ Ec) as [_ Hmq]. cbn [mbind option_bind] in Hstep. injection Hstep as <-.
    eapply csteps_two; [exact Hc|exact (CUpdate client_id (cycles_of x w) n q q' Eq Hmq)|].
    apply (CDestroy client_id (mkCycles (put_object n q' (consumer x)) (pending x) w)). apply map_filter_subseteq.
  - exists w. destruct (unanswered x !! i); [|done]. injection Hstep as <-. eapply csteps_snoc; [exact Hc|].
    apply (CDestroy client_id (cycles_of x w)). apply map_filter_subseteq.
Qed.

Lemma run_cycles l x y z w :
  Forall legal l -> dinv s0 x -> run l x = Some y -> csteps client_id z (cycles_of x w) ->
  exists w', csteps client_id z (cycles_of y w').
Proof.
  revert x w. induction l as [|a l IH]; intros x w Hl Hx; cbn [run]; [intros [= <-]; by exists w|].
  apply Forall_cons in Hl as [Ha Hl]. destruct (step a x) as [x1|] eqn:E; cbn; [|done]. intros Hr Hc.
  destruct (step_cycles a x x1 _ w Ha Hx E Hc) as [w1 H1]. eapply (IH x1 w1); [done| |done|done]. by eapply dinv_step.
Qed.

(** C3: from the broker to the listener and back: in every interleaving of assignments,
    receives, timers, dispatches and consumption, each message received for a process queue
    that is alive is in exactly one place: cached, in a task of the pool, or settled with
    the broker; the counters that throttle the queue count exactly the first two; and the
    acknowledgements sent are, in order, one per settled message, positive when the filter
    rejected it or the listener succeeded and negative when the listener failed. *)
Theorem delivery_conserved l x n q :
  starts -> Forall legal l -> run l (make s0) = Some x -> find_object n (consumer x) = Some q ->
  entries n (received x) ≡ₚ
    ProcessQueueImpl.cached_messages_ q ++ inflight n x ++ map fst (entries n (settled x))
  /\ ProcessQueueImpl.cached_message_quantity_ q = u32 (zlen (ProcessQueueImpl.cached_messages_ q ++ inflight n x))
  /\ ProcessQueueImpl.cached_message_memory_ q
       = u64 (ProcessQueueImpl.total_size (ProcessQueueImpl.cached_messages_ q ++ inflight n x))
  /\ calls x = map (settle_call s0) (settled x).
Proof.
  intros Hs Hl Hr E. pose proof (dinv_run l _ x Hl (dinv_init Hs) Hr) as Hx.
  destruct (di_conserved _ _ Hx n q E) as [HP [H1 H2]]. split_and!; [done|done|done|exact (di_calls _ _ Hx)].
Qed.

(** C4: nothing waits for ever in a polling consumer in clustering mode, with a standard
    listener and a credentials provider: from any state it can reach, one round of
    the dispatcher and the completion of the tasks of the pool, whatever the listener
    answers, leave every assigned queue empty and with its whole quota, and every message
    it ever received settled exactly once.  (In broadcasting mode the quota is never given
    back: [ConsumeStandardMessageService.broadcasting_keeps_quota].) *)
Theorem delivery_completes l x statuses :
  starts -> Forall legal l -> run l (make s0) = Some x ->
  exists x1, step Dispatch x = Some x1
    /\ (length statuses = length (tasks x1) ->
        exists y, run (map (Consume 0) statuses) x1 = Some y
          /\ forall k o, process_queue_table_ (consumer y) !! k = Some o ->
               ProcessQueueImpl.cached_messages_ (queue_state o) = []
               /\ ProcessQueueImpl.cached_message_quantity_ (queue_state o) = 0
               /\ ProcessQueueImpl.cached_message_memory_ (queue_state o) = 0
               /\ entries (queue_number o) (received y) ≡ₚ map fst (entries (queue_number o) (settled y))).
Proof.
  intros Hs Hl Hr. pose proof (dinv_run l _ x Hl (dinv_init Hs) Hr) as Hx.
  destruct (dispatch_spec x Hx) as (s' & b & Ed & H1 & C1). cbn [step]. rewrite Ed. eexists. split; [done|].
  intros Hlen. destruct (consume_all_tasks statuses _ H1 Hlen) as (y & Ey & Hy & Ty & Cy). exists y. split; [done|].
  intros k o Ek. destruct (Cy k o Ek) as (o1 & Ek1 & Hc). rewrite (C1 k o1 Ek1) in Hc.
  pose proof (di_polls _ _ Hy) as (_ & _ & Hw).
  destruct (di_conserved _ _ Hy _ _ (find_object_live _ k o Hw Ek)) as [HP [Hq Hm]].
  unfold ProcessQueueImpl.held, inflight in *. rewrite Ty in *. cbn [fst snd entries omap list_omap concat] in *.
  rewrite Hc in *. cbn [app] in *. done.
Qed.

End delivery.

(** ** A concrete history: two queues, three messages of which the filter of the topic
    rejects one, one batch consumed with a failure. *)
Definition example_tagged (o : Z) (tag : string) : MQMessage.t :=
  MessageAccessor.setQueueOffset o (MQMessage.make "host" 0 "id" None "TopicTest" tag "" "hello").
Definition example_received : ReceiveMessageResult.t :=
  ReceiveMessageResult.mk ReceiveMessageStatus.OK 0 0
    [example_tagged 1 "TagA"; example_tagged 2 "TagB"; example_tagged 3 "TagA"] "" 0.
Definition example_history : list action :=
  [Assign 0 "TopicTest" (example_assignment [0; 1]) (FilterExpression.make 0 "TagA" TAG);
   Received 1 5 example_received; Dispatch; Consume 0 FAILURE].

Lemma example_starts : starts example_consumer.
Proof. split; reflexivity. Qed.

Lemma example_legal : Forall legal example_history.
Proof. repeat constructor; apply (bool_decide_unpack _); vm_compute; exact I. Qed.

Definition example_summary (x : t) : nat * nat * nat * option Z * list effect * option nat :=
  (length (entries 1 (received x)), length (inflight 1 x), length (entries 1 (settled x)),
   option_map (fun q => zlen (ProcessQueueImpl.cached_messages_ q ++ inflight 1 x)) (find_object 1 (consumer x)), calls x,
   option_map (fun y => length (tasks y)) (step "client" Dispatch x)).

Lemma example_outcome :
  option_map example_summary (run "client" example_history (make example_consumer))
  = Some (3, 1, 2, Some 1%Z,
          [ack "client" (example_tagged 2 "TagB") example_consumer; nack "client" (example_tagged 1 "TagA") example_consumer],
          Some 1)%nat.
Proof. vm_compute. reflexivity. Qed.

Lemma delivery_conserved_witness :
  exists x q, run "client" example_history (make example_consumer) = Some x
    /\ find_object 1 (consumer x) = Some q
    /\ (length (entries 1 (received x)), length (inflight 1 x), length (entries 1 (settled x))) = (3, 1, 2)%nat
    /\ ProcessQueueImpl.cached_message_quantity_ q = 1
    /\ calls x = map (settle_call "client" example_consumer) (settled x).
Proof.
  pose proof example_outcome as H.
  destruct (run "client" example_history (make example_consumer)) as [x|] eqn:E; [|discriminate].
  injection H as H1 H2 H3 H4 _ _.
  destruct (find_object 1 (consumer x)) as [q|] eqn:Eq; [|discriminate]. injection H4 as H4.
  destruct (delivery_conserved "client" example_consumer (conj (Z.le_refl 1) eq_refl) eq_refl eq_refl
              example_history x 1 q example_starts example_legal E Eq) as (_ & Hq & _ & Hc).
  exists x, q. split; [reflexivity|]. split; [exact Eq|]. rewrite H1, H2, H3. split; [reflexivity|].
  split; [|exact Hc]. rewrite Hq, H4. reflexivity.
Defined.

Lemma delivery_completes_witness :
  exists x x1 y, run "client" example_history (make example_consumer) = Some x
    /\ step "client" Dispatch x = Some x1
    /\ run "client" [Consume 0 SUCCESS] x1 = Some y
    /\ forall k o, process_queue_table_ (consumer y) !! k = Some o ->
         ProcessQueueImpl.cached_message_quantity_ (queue_state o) = 0.
Proof.
  pose proof example_outcome as H.
  destruct (run "client" example_history (make example_consumer)) as [x|] eqn:E; [|discriminate].
  injection H as _ _ _ _ _ H6. change (option_map (fun y => length (tasks y)) (step "client" Dispatch x) = Some 1%nat) in H6.
  destruct (delivery_completes "client" example_consumer (conj (Z.le_refl 1) eq_refl) eq_refl eq_refl
              example_history x [SUCCESS] example_starts example_legal E) as (x1 & E1 & H).
  rewrite E1 in H6. injection H6 as H6. destruct (H (eq_sym H6)) as (y & Ey & Hy).
  exists x, x1, y. split; [reflexivity|]. split; [exact E1|]. split; [exact Ey|].
  intros k o Ek. exact (proj1 (proj2 (Hy k o Ek))).
Defined.

End Delivery.
