(* ===== verification/ReceivePath.v ===== *)
(** * The receive path: the push consumer on top of the remote calls.

    A receive request of a process queue goes through [ClientManagerImpl::receiveMessage],
    gRPC, the completion queue and the callback pool (RemoteCalls); the report is decoded
    messages or an error, and [AsyncReceiveMessageCallback] hands it to the queue
    (PushConsumer, Delivery). *)

From S2P Require Import Prelude Types Message MixAll Proto Route Config Codec Concurrency ClientManager RemoteCalls.
From S2P Require Import ClientImpl ProcessQueue ConsumeService PushConsumer Delivery.

Module ReceivePath.

Abbreviation report := (error_code + ReceiveMessageResult.t)%type.

(** [AsyncReceiveMessageCallback] of the object [n], on the report of a call. *)
Definition on_report (client_id : string) (now : Z) (n : nat) (r : report) (s : PushConsumerImpl.t)
    : PushConsumerImpl.t * list PushConsumerImpl.effect :=
  match r with
  | inl _ => PushConsumerImpl.onFailure n s
  | inr v => PushConsumerImpl.onSuccess client_id now n v s
  end.

(** What lives before a step that keeps the queues lives afterwards, with its content. *)
Lemma keeps_content s s' k q :
  PushConsumerImpl.wf s -> Delivery.keeps s s' -> PushConsumerImpl.find_object k s = Some q ->
  exists q', PushConsumerImpl.find_object k s' = Some q' /\ Delivery.content q' = Delivery.content q.
Proof.
  intros Hw (_ & Hlive & Hk) E. destruct (Hlive k) as [q' E']; [by eexists|]. exists q'. split; [done|].
  destruct (Hk k q' E') as [(q1 & E1 & Hq)|[Hn _]]; [by rewrite E in E1; injection E1 as <-|].
  destruct (PushConsumerImpl.find_object_wf s k q Hw E) as [_ Hlt]. lia.
Qed.

(** A successful receive on a live queue: what is cached, acknowledged and asked for next. *)
Lemma success_caches client_id now n r s q0 :
  PushConsumerImpl.polls s -> PushConsumerImpl.find_object n s = Some q0 ->
  ReceiveMessageResult.status_ r = ReceiveMessageStatus.OK ->
  let l := ReceiveMessageResult.messages_ r in
  let accept := FilterExpression.accept (ProcessQueueImpl.filter_expression_ q0) in
  let '(s', effects) := PushConsumerImpl.onSuccess client_id now n r s in
  PushConsumerImpl.polls s'
  /\ (forall k q, k <> n -> PushConsumerImpl.find_object k s = Some q ->
       exists q', PushConsumerImpl.find_object k s' = Some q' /\ Delivery.content q' = Delivery.content q)
  /\ exists q next, PushConsumerImpl.find_object n s' = Some q
       /\ ProcessQueueImpl.cached_messages_ q = ProcessQueueImpl.cached_messages_ q0 ++ List.filter accept l
       /\ effects = map (fun m => PushConsumerImpl.ack client_id m s) (List.filter (fun m => negb (accept m)) l)
                    ++ [PushConsumerImpl.SignalDispatcher; next]
       /\ if ProcessQueueImpl.shouldThrottle (Some (PushConsumerImpl.view client_id s)) q
          then next = PushConsumerImpl.ReceiveLater n 1000
          else exists j c, next = PushConsumerImpl.CallReceive j c /\ (PushConsumerImpl.listed n s -> j = n).
Proof.
  intros Hs E Hst l accept. pose proof Hs as (_ & _ & Hw).
  pose proof (Delivery.onSuccess_delivers client_id now n r s q0 Hs E) as Hd.
  pose proof (PushConsumerImpl.back_pressure client_id now s n q0 r Hs E Hst) as Hb.
  unfold Delivery.delivered in Hd. rewrite E, Hst in Hd. fold l in Hd, Hb.
  pose proof (ProcessQueueImpl.cache_loop_spec (PushConsumerImpl.view client_id s) l q0) as (C1 & C2 & _).
  pose proof (PushConsumerImpl.cache_on_spec client_id s n q0 l Hw E) as (_ & F & E1).
  pose proof (PushConsumerImpl.cache_loop_mq (PushConsumerImpl.view client_id s) l q0) as Hmq.
  destruct (PushConsumerImpl.onSuccess client_id now n r s) as [s' effects]. cbn zeta in Hd. cbn [fst snd] in Hb.
  unfold ProcessQueueImpl.cacheMessages in *.
  destruct (ProcessQueueImpl.cache_loop (PushConsumerImpl.view client_id s) l q0) as [q1 rej] eqn:Ec.
  cbn [fst snd] in *. destruct Hd as (Hp & Hk & _ & _).
  assert (Hw1 : PushConsumerImpl.wf (PushConsumerImpl.put_object n q1 s)) by (by eapply PushConsumerImpl.wf_frame).
  split_and!; [done|..].
  - intros k q Hne Ek. apply (keeps_content _ _ k q Hw1 Hk).
    rewrite (PushConsumerImpl.find_object_put s n q0) by done.
    by rewrite decide_False.
  - destruct (keeps_content _ _ n q1 Hw1 Hk E1) as (q & Eq & Hq). destruct Hb as (next & He & Hn).
    exists q, next. split; [done|]. injection Hq as Hq1 Hq2 Hq3.
    split; [by rewrite Hq1|]. split; [unfold accept; rewrite <- C2; exact He|].
    unfold ProcessQueueImpl.shouldThrottle in *. rewrite Hq2, Hq3. exact Hn.
Qed.

Section receive_path.
Context {C : Type} `{!Client C}.
Context (zlib_crc32 : string -> Z) (MD5 : string -> option (list Z)) (SHA1 : string -> list Z)
  (zlib : Zlib) (fresh : MQMessage.t) (DebugString : rmq.QueryRouteResponse -> string).

Definition accepted (x : Completion rmq.ReceiveMessageResponse) : Prop :=
  status_ok x = true /\ rmq.code (rmq.receive_common (response x)) = OK.

#[global] Instance accepted_dec x : Decision (accepted x).
Proof. unfold accepted. apply _. Defined.

(** The messages of a response that pass the digest check, as they are decoded. *)
Definition intact (now : Z) (host : string) (r : rmq.ReceiveMessageResponse) : list MQMessage.t :=
  omap (decoded zlib_crc32 MD5 SHA1 zlib now (MessageAccessor.setTargetEndpoint host fresh)) (rmq.messages r).

(** What a completed call reports. *)
Lemma completion_report now host x h :
  match fst (receiveMessage_completion zlib_crc32 MD5 SHA1 zlib fresh now host x h) with
  | Some (inr v) => accepted x /\ ReceiveMessageResult.status_ v = ReceiveMessageStatus.OK
                    /\ ReceiveMessageResult.messages_ v = intact now host (response x)
  | Some (inl _) => ~ accepted x
  | None => False
  end.
Proof.
  unfold receiveMessage_completion, accepted.
  destruct (receiveMessage_ec (status_ok x) _) as [ec|] eqn:E; unfold receiveMessage_ec in E.
  2: { destruct (status_ok x); [|done]. by destruct (rmq.code _). }
  assert (H : ec = Success <-> status_ok x = true /\ rmq.code (rmq.receive_common (response x)) = OK).
  { destruct (status_ok x); [|injection E as <-; split; [done|by intros []]].
    destruct (rmq.code _); injection E as <-; split; (done || by intros []). }
  destruct (decide (ec = Success)) as [->|Hne].
  - destruct (proj1 H eq_refl) as [H1 H2].
    destruct (received_messages zlib_crc32 MD5 SHA1 zlib fresh now host (response x)
      (RemoteCalls.response_default RemoteCalls.PullMessage) h) as [Hm _].
    rewrite decide_True in Hm by done. unfold Decode.processPopResult in *. rewrite H2 in *. cbn [Decode.pop_status] in *.
    rewrite decide_True in * by done. destruct (Decode.wrap_messages _ _ _ _ _ _ _ _ _) as [l h']. cbn in *.
    by split_and!.
  - assert (Hn : ~ (status_ok x = true /\ rmq.code (rmq.receive_common (response x)) = OK)) by (by rewrite <- H).
    destruct ec; done.
Qed.

(** One receive through the machine of remote calls: issued, completed, polled and reported. *)
Lemma receive_through_machine throws (m : ClientManagerImpl.t C) i r now
    (x : forall m, Completion (RemoteCalls.response_of m)) :
  exists ms v,
    RemoteCalls.run throws zlib_crc32 MD5 SHA1 zlib fresh DebugString
      (RemoteCalls.one_call i (RemoteCalls.ReceiveMessageOp r now id) x) (RemoteCalls.ready m) = Some ms
    /\ map (fun e => snd (snd e)) (RemoteCalls.reports ms) = [[v]]
    /\ exists h, fst (receiveMessage_completion zlib_crc32 MD5 SHA1 zlib fresh now (RemoteCalls.target_host i)
                        (x RemoteCalls.ReceiveMessage) h) = Some v.
Proof.
  destruct (ClientManagerImpl.getRpcClient (RemoteCalls.channel_ok i) (RemoteCalls.target_host i) true m)
    as [client m'] eqn:Eg.
  edestruct (RemoteCalls.one_call_spec throws zlib_crc32 MD5 SHA1 zlib fresh DebugString m i
    (RemoteCalls.ReceiveMessageOp r now id) x) as (ms & E & Hr).
  { cbn [RemoteCalls.perform]. unfold RemoteCalls.receiveMessage, RemoteCalls.with_client.
    cbn [RemoteCalls.manager RemoteCalls.ready]. rewrite Eg. reflexivity. }
  pose proof (completion_report now (RemoteCalls.target_host i) (x RemoteCalls.ReceiveMessage)
    (ClientManagerImpl.latency_histogram_ m')) as Hc.
  revert Hr. unfold RemoteCalls.invoke. cbn -[receiveMessage_completion].
  destruct (receiveMessage_completion _ _ _ _ _ _ _ _ _) as [[v|] h'] eqn:Ev; cbn [fst] in Hc; [|done].
  intros Hr. exists ms, v. split; [exact E|]. rewrite Hr. split; [reflexivity|].
  exists (ClientManagerImpl.latency_histogram_ m'). by rewrite Ev.
Qed.

(** C11: receiving over the network.  A receive request of a live process queue of a consumer that
    polls, issued through the client manager and completed by gRPC with any status and
    response, is reported once.
    When the status and the code are OK, the queue then holds what it held and, behind it in
    the order of the response, exactly the messages that pass the digest check and that its
    filter accepts; the intact ones the filter refuses are acknowledged, and the next
    request is sent at once, for the same queue when it is still assigned, or, exactly when
    the queue is then at its limits of messages or bytes, in a second.  Otherwise nothing changes and the request is repeated in a second.  No other queue is touched. *)
Theorem received_over_network throws (m : ClientManagerImpl.t C) i r now (x : forall m, Completion (RemoteCalls.response_of m))
    client_id n s q0 :
  PushConsumerImpl.polls s -> PushConsumerImpl.find_object n s = Some q0 ->
  exists ms v,
    RemoteCalls.run throws zlib_crc32 MD5 SHA1 zlib fresh DebugString
      (RemoteCalls.one_call i (RemoteCalls.ReceiveMessageOp r now id) x) (RemoteCalls.ready m) = Some ms
    /\ map (fun e => snd (snd e)) (RemoteCalls.reports ms) = [[v]]
    /\ let '(s', effects) := on_report client_id now n v s in
       let y := x RemoteCalls.ReceiveMessage in
       if decide (accepted y) then
         let l := intact now (RemoteCalls.target_host i) (response y) in
         let accept := FilterExpression.accept (ProcessQueueImpl.filter_expression_ q0) in
         PushConsumerImpl.polls s'
         /\ (forall k q, k <> n -> PushConsumerImpl.find_object k s = Some q ->
              exists q', PushConsumerImpl.find_object k s' = Some q' /\ Delivery.content q' = Delivery.content q)
         /\ exists q next, PushConsumerImpl.find_object n s' = Some q
              /\ ProcessQueueImpl.cached_messages_ q = ProcessQueueImpl.cached_messages_ q0 ++ List.filter accept l
              /\ effects = map (fun m => PushConsumerImpl.ack client_id m s)
                             (List.filter (fun m => negb (accept m)) l)
                           ++ [PushConsumerImpl.SignalDispatcher; next]
              /\ if ProcessQueueImpl.shouldThrottle (Some (PushConsumerImpl.view client_id s)) q
                 then next = PushConsumerImpl.ReceiveLater n 1000
                 else exists j c, next = PushConsumerImpl.CallReceive j c /\ (PushConsumerImpl.listed n s -> j = n)
       else s' = s /\ effects = [PushConsumerImpl.ReceiveLater n 1000].
Proof.
  intros Hs E. destruct (receive_through_machine throws m i r now x) as (ms & v & H1 & H2 & h & Hv).
  exists ms, v. split; [exact H1|]. split; [exact H2|].
  pose proof (completion_report now (RemoteCalls.target_host i) (x RemoteCalls.ReceiveMessage) h) as Hc. rewrite Hv in Hc.
  destruct v as [ec|v]; cbn [on_report].
  - rewrite (PushConsumerImpl.receiveMessageLater_spec s n q0 E : PushConsumerImpl.onFailure n s = _).
    by rewrite decide_False by exact Hc.
  - destruct Hc as (Ha & Hst & Hm). pose proof (success_caches client_id now n v s q0 Hs E Hst) as H.
    destruct (PushConsumerImpl.onSuccess client_id now n v s) as [s' effects].
    rewrite decide_True by exact Ha. rewrite Hm in H. exact H.
Qed.

End receive_path.

(** A response with an intact message and one whose body was changed on the way. *)
Definition example_response (m : RemoteCalls.Method) : Completion (RemoteCalls.response_of m) :=
  match m with
  | RemoteCalls.ReceiveMessage =>
      mkCompletion true (rmq.mkReceiveMessageResponse (rmq.mkResponseCommon OK "")
        [rmq.mkMessage (rmq.mkResource "" "TopicTest") ∅ toy_attribute "changed";  toy_message] None None)
  | m => RemoteCalls.example_answer m
  end.

Lemma received_over_network_witness :
  exists q0 s' effects q,
    PushConsumerImpl.find_object 1 PushConsumerImpl.example_synced = Some q0
    /\ ProcessQueueImpl.cached_messages_ q0 = []
    /\ PushConsumerImpl.find_object 1 s' = Some q
    /\ map MQMessage.getBody (ProcessQueueImpl.cached_messages_ q) = ["hello"%string]
    /\ exists v, on_report "client" 0 1 v PushConsumerImpl.example_synced = (s', effects).
Proof.
  destruct (PushConsumerImpl.find_object 1 PushConsumerImpl.example_synced) as [q0|] eqn:Eo; [|vm_compute in Eo; discriminate].
  destruct (received_over_network toy_crc32 (fun _ => None) (fun _ => []) toy_zlib toy_fresh (fun _ => ""%string) (fun _ => false)
    RemoteCalls.example_manager RemoteCalls.example_site
    (ProcessQueueImpl.wrapPopMessageRequest (PushConsumerImpl.view "client" PushConsumerImpl.example_synced) q0)
    0 example_response "client" 1 PushConsumerImpl.example_synced q0 PushConsumerImpl.example_synced_polls Eo)
    as (ms & v & _ & _ & H).
  destruct (on_report "client" 0 1 v PushConsumerImpl.example_synced) as [s' effects] eqn:Es.
  cbv zeta in H. rewrite decide_True in H by (split; reflexivity).
  destruct H as (_ & _ & q & next & Eq & Hq & _). exists q0, s', effects, q. split; [reflexivity|].
  assert (Hq0 : ProcessQueueImpl.cached_messages_ q0 = []
    /\ ProcessQueueImpl.filter_expression_ q0 = PushConsumerImpl.example_filter).
  { vm_compute in Eo. injection Eo as <-. split; vm_compute; reflexivity. }
  destruct Hq0 as [H0 Hf]. split; [exact H0|]. split; [exact Eq|]. split; [|by exists v].
  rewrite Hq, H0, Hf. vm_compute. reflexivity.
Defined.

End ReceivePath.
