(* ===== verification/SettlePath.v ===== *)
(** * The settlement path: ordered consumption on top of the remote calls.

    The FIFO consume service (ConsumeService) takes the outcome of an acknowledgement and of
    a forwarding to the dead letter queue as given; here they are what
    [ClientManagerImpl::ack] and [forwardMessageToDeadLetterQueue] report through the
    completion queue and the callback pool (RemoteCalls). *)

From S2P Require Import Prelude Types Message MixAll Proto Route Config Codec Concurrency ClientManager RemoteCalls.
From S2P Require Import ClientImpl ProcessQueue ConsumeService.
Import ProcessQueueImpl ConsumeFifoMessageService.

Module SettlePath.

(** What the callback of an acknowledgement is told. *)
Definition ack_report (x : Completion rmq.ResponseCommon) : error_code :=
  default Success (ack_ec (status_ok x) (rmq.code (response x))).

(** [PushConsumerImpl::forwardToDeadLetterQueue] hands its [std::function<void(bool)>] to a
    parameter that is called with the invocation context: the pointer, which is never null,
    is converted to [true]. *)
Definition forward_report (x : Completion rmq.ResponseCommon) : bool := true.

Definition acked (x : Completion rmq.ResponseCommon) : Prop := status_ok x = true /\ rmq.code (response x) = OK.

Lemma ack_report_spec x : ack_report x = Success <-> acked x.
Proof.
  unfold ack_report, ack_ec, acked. destruct (status_ok x); cbn; [|by split; [|intros []]].
  by destruct (rmq.code (response x)); cbn; split; (done || intros []).
Qed.

Section machine.
Context {C : Type} `{!Client C}.
Context (zlib_crc32 : string -> Z) (MD5 : string -> option (list Z)) (SHA1 : string -> list Z)
  (zlib : Zlib) (fresh : MQMessage.t) (DebugString : rmq.QueryRouteResponse -> string).

(** What the caller is told by one call. *)
Definition told {R} throws (m : ClientManagerImpl.t C) i (op : @RemoteCalls.op R)
    (x : forall m, Completion (RemoteCalls.response_of m)) : option (list (list R)) :=
  (fun s => map (fun e => snd (snd e)) (RemoteCalls.reports s)) <$>
    RemoteCalls.run throws zlib_crc32 MD5 SHA1 zlib fresh DebugString (RemoteCalls.one_call i op x) (RemoteCalls.ready m).

(** Which call an operation of the consumer issues. *)
Ltac issue throws i m op x :=
  destruct (ClientManagerImpl.getRpcClient (RemoteCalls.channel_ok i) (RemoteCalls.target_host i) true m)
    as [client m'] eqn:Eg;
  edestruct (RemoteCalls.one_call_spec throws zlib_crc32 MD5 SHA1 zlib fresh DebugString m i op x)
    as (s & Es & Hr);
  [cbn [RemoteCalls.perform];
   unfold RemoteCalls.ack, RemoteCalls.forwardMessageToDeadLetterQueue, RemoteCalls.with_client;
   cbn [RemoteCalls.manager RemoteCalls.ready]; rewrite Eg; reflexivity|];
  unfold told; rewrite Es; cbn [fmap option_fmap option_map]; rewrite Hr.

Lemma ack_through_machine throws m i r x :
  told throws m i (RemoteCalls.AckOp r id) x = Some [[ack_report (x RemoteCalls.AckMessage)]].
Proof.
  issue throws i m (RemoteCalls.AckOp r (@id error_code)) x. cbn. unfold ack_report, ack_ec. destruct (status_ok _); cbn; [|done]. by destruct (rmq.code _).
Qed.

Lemma forward_through_machine throws m i r x :
  told throws m i (RemoteCalls.ForwardOp r forward_report) x
  = Some [[forward_report (x RemoteCalls.ForwardMessageToDeadLetterQueue)]].
Proof. issue throws i m (RemoteCalls.ForwardOp r forward_report) x. reflexivity. Qed.

End machine.

(** ** One message of an ordered queue *)

(** The message as the listener gets it after [n] failures. *)
Definition redelivered (n : nat) (m : MQMessage.t) : MQMessage.t :=
  MessageAccessor.setDeliveryAttempt (MQMessage.getDeliveryAttempt m + Z.of_nat n) m.

(** The answers of the listener, in order. *)
Definition results (l : list consume_effect) : list ConsumeMessageResult :=
  omap (fun e => match e with Consumed _ r => Some r | _ => None end) l.

Lemma results_app a b : results (a ++ b) = results a ++ results b.
Proof. apply omap_app. Qed.

Lemma redelivered_0 m : redelivered 0 m = m.
Proof. destruct m as [[? ? [] ?] ? ?]. unfold redelivered. cbn. by rewrite Z.add_0_r. Qed.

Lemma redelivered_S n m :
  MessageAccessor.setDeliveryAttempt (MQMessage.getDeliveryAttempt (redelivered n m) + 1) (redelivered n m)
  = redelivered (S n) m.
Proof.
  unfold redelivered. replace (Z.of_nat (S n)) with (Z.of_nat n + 1) by lia. rewrite Z.add_assoc.
  by destruct m as [[? ? [] ?] ? ?].
Qed.

Lemma redelivered_attempt n m : MQMessage.getDeliveryAttempt (redelivered n m) = MQMessage.getDeliveryAttempt m + Z.of_nat n.
Proof. by destruct m as [[? ? [] ?] ? ?]. Qed.

Section fifo.
Context (c : ConsumerView) (service : ConsumeMessageService.t) (consumeBatchSize maxDeliveryAttempts : Z).
Hypothesis clustering : messageModel c = CLUSTERING.
Hypothesis attempts_fit : maxDeliveryAttempts < 2 ^ 31.

Abbreviation go := (frun c service consumeBatchSize maxDeliveryAttempts).

Lemma frun_app l k x : go (l ++ k) x = (y ← go l x; go k y).
Proof. revert x. induction l as [|e l IH]; intros x; cbn [frun app]; [done|]. destruct (fstep _ _ _ _ e x); cbn; [apply IH|done]. Qed.

(** The state with another task and a longer log. *)
Definition with_task (t : task) (log' : list consume_effect) (x : fstate) : fstate :=
  mkF (queue x) [t] (arrived x) (settled x) (dropped x) (log x ++ log').

(** The calls of the listener for one task. *)
Definition calling (m : MQMessage.t) (r : ConsumeMessageResult) : list consume_effect :=
  match ConsumeMessageService.rateLimiter (MQMessage.getTopic m) service with
  | Some _ => [AcquirePermit] | None => []
  end ++ [Consumed [m] r].

Lemma results_calling m r : results (calling m r) = [r].
Proof. unfold calling. by destruct (ConsumeMessageService.rateLimiter _ _). Qed.

Definition listener_round : list event := [EListener 0 FAILURE; ETimer 0].

Lemma listener_rounds n m x :
  tasks x = [Submitted m] -> 0 <= MQMessage.getDeliveryAttempt m ->
  MQMessage.getDeliveryAttempt m + Z.of_nat n < maxDeliveryAttempts ->
  exists l, go (concat (replicate n listener_round)) x = Some (with_task (Submitted (redelivered n m)) l x)
    /\ results l = replicate n FAILURE.
Proof.
  intros Ht H0. induction n as [|n IH]; intros Hn.
  - exists []. split; [|done]. rewrite redelivered_0. destruct x. cbn in *. subst. unfold with_task. cbn.
    by rewrite app_nil_r.
  - destruct IH as (l & E & Hl); [lia|]. exists (l ++ calling (redelivered n m) FAILURE).
    rewrite replicate_S_end, concat_app, frun_app, E. cbn [mbind option_bind concat listener_round app frun fstep].
    cbn [with_task tasks lookup list_lookup queue]. unfold consumeTask. rewrite clustering.
    rewrite redelivered_attempt, i32_small by lia. rewrite <- redelivered_attempt, redelivered_S, redelivered_attempt.
    destruct (Z.ltb_spec (MQMessage.getDeliveryAttempt m + Z.of_nat (S n)) maxDeliveryAttempts); [|lia].
    split; [|by rewrite results_app, Hl, results_calling, replicate_S_end].
    cbn. unfold with_task. cbn. by rewrite <- app_assoc.
Qed.

(** Acknowledgements that fail and are retried. *)
Definition ack_rounds (l : list (Completion rmq.ResponseCommon)) : list event :=
  concat (map (fun z => [EAcked 0 (ack_report z); ETimer 0]) l).

Lemma ack_rounds_spec l m x :
  tasks x = [Acking m] -> Forall (fun z => ~ acked z) l -> go (ack_rounds l) x = Some x.
Proof.
  intros Ht. induction l as [|z l IH]; intros Hl; [done|]. inversion_clear Hl as [|?? Hz Hl'].
  unfold ack_rounds. cbn [map concat]. fold (ack_rounds l). rewrite frun_app.
  enough (E : go [EAcked 0 (ack_report z); ETimer 0] x = Some x) by (rewrite E; by apply IH).
  cbn [frun fstep]. rewrite Ht. cbn [lookup list_lookup]. unfold onAck.
  rewrite (proj2 (ec_bool_spec (ack_report z))) by (by rewrite ack_report_spec).
  destruct x. cbn in *. subst. by rewrite app_nil_r.
Qed.

Lemma ack_done z m x :
  tasks x = [Acking m] -> acked z ->
  go [EAcked 0 (ack_report z)] x
  = Some (mkF (snd (unbindFifoConsumeTask (queue x))) [] (arrived x) (settled x ++ [m]) (dropped x) (log x)).
Proof.
  intros Ht Hz. cbn [frun fstep]. rewrite Ht. cbn [lookup list_lookup]. unfold onAck.
  by rewrite (proj2 (ack_report_spec z) Hz).
Qed.

(** When the listener has failed for the last time, one forwarding settles the message,
    whatever its call came back with. *)
Lemma dead_letter_failure_unnoticed m x z :
  tasks x = [Submitted m] -> 0 <= MQMessage.getDeliveryAttempt m ->
  MQMessage.getDeliveryAttempt m + 1 = maxDeliveryAttempts -> status_ok z = false ->
  exists y, go [EListener 0 FAILURE; EForwarded 0 (forward_report z)] x = Some y
    /\ settled y = settled x ++ [redelivered 1 m] /\ tasks y = [].
Proof.
  intros Ht H0 Hm _. cbn [frun fstep]. rewrite Ht. cbn [lookup list_lookup]. unfold consumeTask. rewrite clustering.
  rewrite i32_small by lia.
  replace (MessageAccessor.setDeliveryAttempt _ m) with (redelivered 1 m) by done.
  rewrite redelivered_attempt. destruct (Z.ltb_spec (MQMessage.getDeliveryAttempt m + Z.of_nat 1) maxDeliveryAttempts); [lia|].
  eexists. split; [reflexivity|]. by split.
Qed.

Context {C : Type} `{!Client C}.
Context (zlib_crc32 : string -> Z) (MD5 : string -> option (list Z)) (SHA1 : string -> list Z)
  (zlib : Zlib) (fresh : MQMessage.t) (DebugString : rmq.QueryRouteResponse -> string).

(** C25: ordered consumption over the network.  A call to acknowledge a message, issued through
    the client manager and completed by gRPC in any way, is reported once, with success
    exactly when the status and the code are OK.  A message in the hands of the listener,
    which fails on it any number of times below the maximum of delivery attempts and then
    succeeds, is settled by the first acknowledgement that is accepted, after any
    number of failed ones: it is settled once, with the attempts counted, the listener was
    called once per failure and once more, the message's quota is given back once and the
    queue is free for the next message. *)
Theorem fifo_settles_over_network m n x failures z :
  tasks x = [Submitted m] -> 0 <= MQMessage.getDeliveryAttempt m ->
  MQMessage.getDeliveryAttempt m + Z.of_nat n < maxDeliveryAttempts ->
  Forall (fun z => ~ acked z) failures -> acked z ->
  (forall throws (manager : ClientManagerImpl.t C) i r network,
     told zlib_crc32 MD5 SHA1 zlib fresh DebugString throws manager i (RemoteCalls.AckOp r id) network
     = Some [[ack_report (network RemoteCalls.AckMessage)]])
  /\ (forall z, ack_report z = Success <-> acked z)
  /\ exists y,
       go (concat (replicate n listener_round) ++ EListener 0 SUCCESS :: ack_rounds failures ++ [EAcked 0 (ack_report z)]) x
       = Some y
       /\ settled y = settled x ++ [redelivered n m] /\ tasks y = []
       /\ arrived y = arrived x /\ dropped y = dropped x
       /\ results (log y) = results (log x) ++ replicate n FAILURE ++ [SUCCESS]
       /\ cached_message_quantity_ (queue y) = u32 (cached_message_quantity_ (queue x) - 1)
       /\ cached_message_memory_ (queue y) = u64 (cached_message_memory_ (queue x) - MQMessage.body_size m)
       /\ cached_messages_ (queue y) = cached_messages_ (queue x)
       /\ has_fifo_task_bound_ (queue y) = false.
Proof.
  intros Ht H0 Hn Hf Hz. split; [intros; apply ack_through_machine|]. split; [apply ack_report_spec|].
  destruct (listener_rounds n m x Ht H0 Hn) as (l & E & Hl). rewrite frun_app, E. cbn [mbind option_bind].
  set (m' := redelivered n m). cbn [frun fstep with_task tasks lookup list_lookup queue].
  unfold consumeTask at 1. rewrite clustering. cbn [mbind option_bind delete list_delete app].
  rewrite frun_app. erewrite ack_rounds_spec by (reflexivity || exact Hf). cbn [mbind option_bind].
  erewrite ack_done by (reflexivity || exact Hz). eexists. split; [reflexivity|].
  cbn [settled tasks arrived dropped log queue with_task]. fold (calling m' SUCCESS).
  assert (Hb : MQMessage.body_size m' = MQMessage.body_size m) by (by destruct m as [[? ? [] ?] ? ?]).
  rewrite Hb. set (q := release _ _ _ (queue x)).
  assert (Hu : forall q, cached_message_quantity_ (snd (unbindFifoConsumeTask q)) = cached_message_quantity_ q
    /\ cached_message_memory_ (snd (unbindFifoConsumeTask q)) = cached_message_memory_ q
    /\ cached_messages_ (snd (unbindFifoConsumeTask q)) = cached_messages_ q
    /\ has_fifo_task_bound_ (snd (unbindFifoConsumeTask q)) = false).
  { intros q0. unfold unbindFifoConsumeTask. by destruct (has_fifo_task_bound_ q0) eqn:Eb. }
  destruct (Hu q) as (-> & -> & -> & ->). split_and!; try reflexivity.
  by rewrite <- app_assoc, !results_app, Hl, results_calling.
Qed.

End fifo.

(** The listener fails once; the first acknowledgement times out, the second is refused. *)
Definition example_failures : list (Completion rmq.ResponseCommon) :=
  [mkCompletion false (rmq.mkResponseCommon OK ""); mkCompletion true (rmq.mkResponseCommon INTERNAL "busy")].

Definition example_state : fstate :=
  mkF (set_fifo true (fst (cacheMessages (Some ConsumeStandardMessageService.clustering_view) [example_message 1]
         (ProcessQueueImpl.make 0 (MQMessageQueue.make "TopicTest" "broker" 1) (FilterExpression.make 0 "*" TAG)))))
    [Submitted (example_message 1)] [example_message 1] [] [] [].

Lemma fifo_settles_over_network_witness :
  exists y,
    frun ConsumeStandardMessageService.clustering_view (ConsumeMessageService.make 20) 1 16
      (concat (replicate 1 listener_round) ++ EListener 0 SUCCESS :: ack_rounds example_failures
       ++ [EAcked 0 (ack_report (mkCompletion true (rmq.mkResponseCommon OK "")))]) example_state = Some y
    /\ settled y = [redelivered 1 (example_message 1)] /\ tasks y = []
    /\ results (log y) = [FAILURE; SUCCESS] /\ has_fifo_task_bound_ (queue y) = false.
Proof.
  destruct (fifo_settles_over_network ConsumeStandardMessageService.clustering_view (ConsumeMessageService.make 20) 1 16
    eq_refl eq_refl (C:=gset string) (fun _ => 0) (fun _ => None) (fun _ => []) toy_zlib toy_fresh (fun _ => ""%string)
    (example_message 1) 1 example_state example_failures (mkCompletion true (rmq.mkResponseCommon OK "")))
    as (_ & _ & y & E & H1 & H2 & _ & _ & H3 & _ & _ & _ & H4).
  - reflexivity.
  - vm_compute. discriminate.
  - vm_compute. reflexivity.
  - repeat constructor; intros [H1 H2]; discriminate.
  - split; reflexivity.
  - exists y. exact (conj E (conj H1 (conj H2 (conj H3 H4)))).
Defined.

End SettlePath.
