(* ===== verification/Node.v ===== *)
(** * A consumer node: the push consumer, its consume service and the remote calls together.

    The consumer and the standard consume service (PushConsumer, Delivery) run on top of the
    client manager, gRPC, the completion queue and the callback pool (RemoteCalls): what a
    handler asks for becomes a call of the network, and what the callback of a finished
    call is told is given to the handler it belongs to.  Everything interleaves: several
    calls under way, workers, timers, the dispatcher, the listeners.  The file shows that
    the node is an implementation of Delivery, whose completions come out of nowhere. *)

From S2P Require Import Prelude Types Message MixAll Proto Route Config Codec Concurrency ClientManager RemoteCalls.
From S2P Require Import ClientImpl ProcessQueue ConsumeService PushConsumer Delivery ReceivePath.
Import PushConsumerImpl.

Module Node.

(** ** The callbacks of the consumer's calls *)

(** What a callback is told.  [holder] is the process queue an acknowledgement of a consume
    task keeps alive. *)
Inductive report :=
  | ReceiveReport (n : nat) (r : error_code + ReceiveMessageResult.t)
  | AckReport (holder : option nat) (ec : error_code)
  | AssignmentReport (topic : string) (f : FilterExpression.t) (ec : error_code) (r : rmq.QueryAssignmentResponse).

(** Whom a call belongs to. *)
Inductive owner :=
  | Receiving (n : nat)
  | Settling (holder : option nat)
  | Assigning (topic : string) (f : FilterExpression.t).

Definition owner_of (r : report) : owner :=
  match r with
  | ReceiveReport n _ => Receiving n
  | AckReport h _ => Settling h
  | AssignmentReport topic f _ _ => Assigning topic f
  end.

(** What the calls read of their environment, by the number of the call, and the access
    point of the client. *)
Record Env := mkEnv {
  metadata_of : nat -> Metadata;
  clock_of : nat -> Z;
  id_of : nat -> string;
  channels : nat -> nat -> bool;
  decoded_at : nat -> Z;
  access_point : rmq.Endpoints;
  debug_string : rmq.QueryAssignmentResponse -> string;
}.

Section node.
Context {C : Type}.
Context (zlib_crc32 : string -> Z) (MD5 : string -> option (list Z)) (SHA1 : string -> list Z)
  (zlib : Zlib) (fresh : MQMessage.t) (DebugString : rmq.QueryRouteResponse -> string).
Context (client_id : string) (env : Env).

Abbreviation network := (@RemoteCalls.t C report).

(** [timers] are the queues whose receive timer runs; [owners] tells whom the calls under way
    belong to. *)
Record t := mk {
  consumer : PushConsumerImpl.t;
  timers : list nat;
  tasks : list (nat * list MQMessage.t);
  owners : gmap nat owner;
  net : network;
}.

Definition make (s : PushConsumerImpl.t) (m : ClientManagerImpl.t C) : t := mk s [] [] ∅ (RemoteCalls.ready m).

Definition set_consumer (s : PushConsumerImpl.t) (x : t) : t := mk s (timers x) (tasks x) (owners x) (net x).
Definition set_net (n : network) (x : t) : t := mk (consumer x) (timers x) (tasks x) (owners x) n.
Definition set_timers (l : list nat) (x : t) : t := mk (consumer x) l (tasks x) (owners x) (net x).

(** ** Issuing what a handler asks for *)
Definition site_of (target : string) (timeout : Z) (k : nat) : RemoteCalls.site :=
  RemoteCalls.mkSite target (metadata_of env k) timeout (clock_of env k) (id_of env k) (channels env k).

(** A call of the client manager, with the next number. *)
Definition call (o : owner) (target : string) (timeout : Z) (op : @RemoteCalls.op report) (x : t) : option t :=
  let k := length (RemoteCalls.issued (net x)) in
  n ← RemoteCalls.perform zlib_crc32 MD5 SHA1 zlib fresh DebugString (site_of target timeout k) op (net x);
  Some (mk (consumer x) (timers x) (tasks x) (<[k := o]> (owners x)) n).

(** The calls of [popMessage], [ack] and [nack]: each hands the callback it was given, or the
    receive callback of the queue, to the client manager. *)
Definition call_receive (n : nat) (target : string) (r : rmq.ReceiveMessageRequest) (timeout : Z) (x : t) : option t :=
  call (Receiving n) target timeout
    (RemoteCalls.ReceiveMessageOp r (decoded_at env (length (RemoteCalls.issued (net x)))) (ReceiveReport n)) x.
Definition call_ack (holder : option nat) (target : string) (r : rmq.AckMessageRequest) (timeout : Z) : t -> option t :=
  call (Settling holder) target timeout (RemoteCalls.AckOp r (AckReport holder)).
Definition call_nack (holder : option nat) (target : string) (r : rmq.NackMessageRequest) (timeout : Z) : t -> option t :=
  call (Settling holder) target timeout (RemoteCalls.NackOp r (AckReport holder)).

(** A pull is not issued by a consumer that polls; the dispatcher may run at any time. *)
Definition issue (holder : option nat) (e : effect) (x : t) : option t :=
  match e with
  | CallReceive n (ProcessQueueImpl.PopCall target _ r timeout) => call_receive n target r timeout x
  | CallReceive _ (ProcessQueueImpl.PullCall _ _ _ _) => None
  | ReceiveLater n _ => Some (set_timers (timers x ++ [n]) x)
  | CallAck target r timeout => call_ack holder target r timeout x
  | CallNack target r timeout => call_nack holder target r timeout x
  | _ => Some x
  end.

Fixpoint issue_all (holder : option nat) (l : list effect) (x : t) : option t :=
  match l with [] => Some x | e :: l' => y ← issue holder e x; issue_all holder l' y end.

(** A handler of the consumer, with what it asks for. *)
Definition react (holder : option nat) (handler : PushConsumerImpl.t -> PushConsumerImpl.t * list effect) (x : t)
    : option t :=
  let '(s, effects) := handler (consumer x) in issue_all holder effects (set_consumer s x).

(** ** The objects that are kept alive *)
Definition receiver (o : owner) : option nat := match o with Receiving n => Some n | _ => None end.
Definition settler (o : owner) : option nat := match o with Settling h => h | _ => None end.

Definition receiving (x : t) : list nat := owned receiver (owners x).
Definition settling (x : t) : list nat := owned settler (owners x).

(** A dropped queue that no task and no acknowledgement refers to is destroyed. *)
Definition release_orphans (x : t) : t :=
  set_consumer (Delivery.collect (Delivery.held (tasks x) (settling x)) (consumer x)) x.

(** ** The steps *)

(** [queryAssignment] once the route of the topic is known, for the callback of
    [scanAssignments]. *)
Definition query (topic target : string) (f : FilterExpression.t) (x : t) : option t :=
  call (Assigning topic f) target (io_timeout (consumer x))
    (RemoteCalls.QueryAssignmentOp (wrapQueryAssignmentRequest client_id topic (access_point env) (consumer x))
       (AssignmentReport topic f)) x.

(** The callback of the query, and in it the one of [scanAssignments]. *)
Definition assigned (now : Z) (topic : string) (f : FilterExpression.t) (ec : error_code) (r : rmq.QueryAssignmentResponse)
    (x : t) : option t :=
  let '(ec, a) := onQueryAssignment ec r (debug_string env r) in
  y ← react None (onAssignment client_id now topic f ec a) x; Some (release_orphans y).

(** The receive callback of a queue. *)
Definition received (now : Z) (n : nat) (v : error_code + ReceiveMessageResult.t) : t -> option t :=
  match v with
  | inl _ => react None (onFailure n)
  | inr r => react None (onSuccess client_id now n r)
  end.

(** A task of the pool: the listener answers [status], and each message is settled with the
    broker; the callbacks of the acknowledgements keep the queue alive. *)
Definition consume (i : nat) (status : ConsumeMessageResult) (x : t) : option t :=
  '(n, batch) ← tasks x !! i;
  q ← find_object n (consumer x);
  '(effects, q) ←
    ConsumeStandardMessageService.consumeTask (view client_id (consumer x)) (Delivery.service_of (consumer x))
      status batch q;
  y ← issue_all (Some n) (concat (map (Delivery.broker_call client_id (consumer x)) effects))
        (mk (put_object n q (consumer x)) (timers x) (delete i (tasks x)) (owners x) (net x));
  Some (release_orphans y).

Definition handle (now : Z) (r : report) (x : t) : option t :=
  match r with
  | ReceiveReport n v => received now n v x
  | AckReport _ _ => Some (release_orphans x)
  | AssignmentReport topic f ec r => assigned now topic f ec r x
  end.

Fixpoint handle_all (now : Z) (l : list report) (x : t) : option t :=
  match l with [] => Some x | r :: l' => y ← handle now r x; handle_all now l' y end.

(** [Query] is the assignment query of one topic in a scan; [Finish] a worker of the
    callback pool that runs the callback of a call to its end; no callback of the consumer
    throws. *)
Inductive action :=
  | Query (topic target : string)
  | Complete (k : nat) (ok : bool) (z : forall m, Completion (RemoteCalls.response_of m))
  | Poll | Begin
  | Finish (k : nat) (now : Z)
  | Timer (i : nat) (now : Z)
  | Dispatch
  | Consume (i : nat) (status : ConsumeMessageResult).

Definition no_throw (r : report) : bool := false.

Definition step (a : action) (x : t) : option t :=
  match a with
  | Query topic target =>
      f ← topic_filter_expression_table_ (consumer x) !! topic; query topic target f x
  | Complete k ok z => n ← RemoteCalls.complete k ok z (net x); Some (set_net n x)
  | Poll => n ← RemoteCalls.pollCompletionQueue (net x); Some (set_net n x)
  | Begin => n ← RemoteCalls.begin (net x); Some (set_net n x)
  | Finish k now =>
      n ← RemoteCalls.finish no_throw k (net x);
      '(j, (_, told)) ← last (RemoteCalls.reports n);
      handle_all now told (mk (consumer x) (timers x) (tasks x) (delete j (owners x)) n)
  | Timer i now =>
      n ← timers x !! i;
      react None (checkThrottleThenReceive client_id now n) (set_timers (delete i (timers x)) x)
  | Dispatch =>
      '(s, submitted) ← Delivery.dispatch (consumer x);
      Some (mk s (timers x) (tasks x ++ submitted) (owners x) (net x))
  | Consume i status => consume i status x
  end.

Fixpoint run (l : list action) (x : t) : option t :=
  match l with [] => Some x | a :: l' => y ← step a x; run l' y end.

(** ** What is on the wire *)

(** The acknowledgements given to the network, with the broker they go to. *)
Definition wire_request : Type := string * (rmq.AckMessageRequest + rmq.NackMessageRequest).

Definition ack_request (c : @RemoteCalls.call C report) : option wire_request :=
  match c with
  | RemoteCalls.mkCall RemoteCalls.AckMessage r _ ctx _ _ => Some (remote_address ctx, inl r)
  | RemoteCalls.mkCall RemoteCalls.NackMessage r _ ctx _ _ => Some (remote_address ctx, inr r)
  | _ => None
  end.
Definition wire (x : t) : list wire_request := omap ack_request (RemoteCalls.issued (net x)).

Definition ack_effect (e : effect) : option wire_request :=
  match e with
  | CallAck target r _ => Some (target, inl r)
  | CallNack target r _ => Some (target, inr r)
  | _ => None
  end.

(** The messages the callbacks of queue [n] were given, in the order of the reports. *)
Definition told_messages (n : nat) (r : report) : list MQMessage.t :=
  match r with
  | ReceiveReport m (inr v) => if decide (m = n) then ReceiveMessageResult.messages_ v else []
  | _ => []
  end.
Definition heard (n : nat) (l : list (nat * (@RemoteCalls.call C report * list report))) : list MQMessage.t :=
  concat (map (fun e => concat (map (told_messages n) (snd (snd e)))) l).

(** ** What is settled *)

(** A message is settled when the filter of its queue rejects it on receipt, or when the
    listener has answered for the task it is in. *)
Definition refuses (s : PushConsumerImpl.t) (r : report) : list (nat * (MQMessage.t * ConsumeMessageResult)) :=
  match r with
  | ReceiveReport n (inr v) => map (fun m => (n, (m, SUCCESS))) (Delivery.rejected n v s)
  | _ => []
  end.

Definition settles (a : action) (x : t) : list (nat * (MQMessage.t * ConsumeMessageResult)) :=
  match a with
  | Finish k _ =>
      match RemoteCalls.finish no_throw k (net x) with
      | Some n => match last (RemoteCalls.reports n) with Some (_, (_, told)) => concat (map (refuses (consumer x)) told) | None => [] end
      | None => []
      end
  | Consume i status => match tasks x !! i with Some (n, batch) => map (fun m => (n, (m, status))) batch | None => [] end
  | _ => []
  end.

Fixpoint settlements (l : list action) (x : t) : list (nat * (MQMessage.t * ConsumeMessageResult)) :=
  match l with
  | [] => []
  | a :: l' => settles a x ++ match step a x with Some y => settlements l' y | None => [] end
  end.

Lemma heard_app n a b : heard n (a ++ b) = heard n a ++ heard n b.
Proof. unfold heard. by rewrite map_app, concat_app. Qed.

(** ** The network under the node *)

(** A report that belongs to an owner; a receive succeeds with the status OK. *)
Definition answers (o : owner) (r : report) : Prop :=
  owner_of r = o
  /\ match r with ReceiveReport _ (inr v) => ReceiveMessageResult.status_ v = ReceiveMessageStatus.OK | _ => True end.

Definition tagged (o : owner) (c : @RemoteCalls.call C report) : Prop :=
  match RemoteCalls.callback c with
  | Some f => forall m z, exists r, snd (f m z) = [r] /\ answers o r
  | None => False
  end.

(** The operations the node performs. *)
Inductive asks : owner -> @RemoteCalls.op report -> Prop :=
  | asks_receive n r d : asks (Receiving n) (RemoteCalls.ReceiveMessageOp r d (ReceiveReport n))
  | asks_ack h r : asks (Settling h) (RemoteCalls.AckOp r (AckReport h))
  | asks_nack h r : asks (Settling h) (RemoteCalls.NackOp r (AckReport h))
  | asks_assignment topic f r : asks (Assigning topic f) (RemoteCalls.QueryAssignmentOp r (AssignmentReport topic f)).

Definition op_request (target : string) (op : @RemoteCalls.op report) : option wire_request :=
  match op with
  | RemoteCalls.AckOp r _ => Some (target, inl r)
  | RemoteCalls.NackOp r _ => Some (target, inr r)
  | _ => None
  end.

Lemma perform_spec i o op (s : network) :
  asks o op ->
  exists c m, RemoteCalls.perform zlib_crc32 MD5 SHA1 zlib fresh DebugString i op s
              = RemoteCalls.async c (RemoteCalls.set_manager m s)
    /\ RemoteCalls.quiet c /\ RemoteCalls.result c = None
    /\ ClientManagerImpl.state_ m = ClientManagerImpl.state_ (RemoteCalls.manager s)
    /\ tagged o c /\ ack_request c = op_request (RemoteCalls.target_host i) op.
Proof.
  intros Ho.
  pose proof (RemoteCalls.getRpcClient_state (RemoteCalls.channel_ok i) (RemoteCalls.target_host i) true
                (RemoteCalls.manager s)) as Hm.
  destruct Ho; cbn [RemoteCalls.perform];
    unfold RemoteCalls.receiveMessage, RemoteCalls.ack, RemoteCalls.nack, RemoteCalls.queryAssignment, RemoteCalls.with_client;
    destruct (ClientManagerImpl.getRpcClient _ _ true (RemoteCalls.manager s)) as [client m']; cbn [snd] in Hm;
    eexists _, m'; (split; [reflexivity|]); (split; [|split; [reflexivity|split; [exact Hm|split; [|reflexivity]]]]);
    intros m0 z; try reflexivity.
  - cbn. by destruct (receiveMessage_completion _ _ _ _ _ _ _ _ _).
  - pose proof (ReceivePath.completion_report zlib_crc32 MD5 SHA1 zlib fresh d (RemoteCalls.target_host i) z
                  (ClientManagerImpl.latency_histogram_ m0)) as H.
    cbn -[receiveMessage_completion]. destruct (receiveMessage_completion _ _ _ _ _ _ _ _ _) as [[[ec|v]|] h];
      cbn in H |- *; [| |done]; eexists; (split; [reflexivity|]); split; try done. by destruct H as (_ & ? & _).
  - cbn in z. destruct z as [[] z]; cbn; [unfold ack_ec; destruct (rmq.code _)|]; eexists; (split; [reflexivity|by split]).
  - cbn in z. destruct z as [[] z]; cbn; [unfold nack_ec; destruct (rmq.code _)|]; eexists; (split; [reflexivity|by split]).
  - cbn in z. destruct z as [[] z]; cbn; [unfold queryAssignment_ec; destruct (rmq.code _)|]; eexists; (split; [reflexivity|by split]).
Qed.

(** The calls under way are those whose context lives, each with the owner its callback
    reports to; the manager runs. *)
Record ninv (x : t) : Prop := {
  n_net : RemoteCalls.inv (net x);
  n_started : ClientManagerImpl.state_ (RemoteCalls.manager (net x)) = STARTED;
  n_owned k : is_Some (owners x !! k) <-> is_Some (RemoteCalls.contexts (net x) !! k);
  n_tagged k c o : RemoteCalls.contexts (net x) !! k = Some c -> owners x !! k = Some o -> tagged o c;
}.

Lemma ninv_make s m : ClientManagerImpl.state_ m = STARTED -> ninv (make s m).
Proof.
  intros Hm. split; cbn; [apply RemoteCalls.inv_ready|done| |].
  - intros k. by rewrite !lookup_empty.
  - intros k c o. by rewrite lookup_empty.
Qed.

Lemma ninv_local s l k x : ninv x -> ninv (mk s l k (owners x) (net x)).
Proof. by intros [H1 H2 H3 H4]. Qed.

(** What issuing a list of effects does. *)
Definition holders (holder : option nat) (l : list effect) : list nat :=
  match holder with Some n => map (fun _ => n) (Delivery.sent l) | None => [] end.

Record issues (holder : option nat) (l : list effect) (x y : t) : Prop := {
  is_inv : ninv y;
  is_consumer : consumer y = consumer x;
  is_tasks : tasks y = tasks x;
  is_pending : timers y ++ receiving y ≡ₚ (timers x ++ receiving x) ++ cycles l;
  is_settling : settling y ≡ₚ settling x ++ holders holder l;
  is_reports : RemoteCalls.reports (net y) = RemoteCalls.reports (net x);
  is_wire : wire y = wire x ++ omap ack_effect l;
}.

Lemma call_spec o target timeout op x :
  ninv x -> asks o op ->
  exists y k, call o target timeout op x = Some y /\ ninv y
    /\ consumer y = consumer x /\ timers y = timers x /\ tasks y = tasks x
    /\ owners x !! k = None /\ owners y = <[k := o]> (owners x)
    /\ RemoteCalls.reports (net y) = RemoteCalls.reports (net x)
    /\ wire y = wire x ++ option_list (op_request target op).
Proof.
  intros [H1 H2 H3 H4] Ho. unfold call. set (k := length (RemoteCalls.issued (net x))).
  destruct (perform_spec (site_of target timeout k) o op (net x) Ho) as (c & m & E & Hq & Hr & Hm & Ht & Hw).
  rewrite E. pose proof (RemoteCalls.i_started _ H1 H2) as (_ & Hsd & _).
  assert (Hi : RemoteCalls.inv (RemoteCalls.set_manager m (net x))).
  { destruct H1 as [I1 I2 I3 I4 I5]. split; cbn; [done..|]. by rewrite Hm. }
  pose proof (RemoteCalls.inv_async c (RemoteCalls.set_manager m (net x))) as Hasync.
  unfold RemoteCalls.async in *. cbn [RemoteCalls.queue_shutdown RemoteCalls.set_manager] in *. rewrite Hsd in *.
  specialize (Hasync _ Hi Hq Hr eq_refl). cbn [mbind option_bind].
  assert (Hk : RemoteCalls.contexts (net x) !! k = None).
  { apply eq_None_not_Some. rewrite (RemoteCalls.i_contexts _ H1). unfold k. lia. }
  assert (Hko : owners x !! k = None) by (apply eq_None_not_Some; by rewrite H3, Hk; intros []).
  eexists _, k. split; [reflexivity|]. split; [|split_and!; try done].
  - split; cbn; [exact Hasync|congruence| |].
    + intros j. fold k. destruct (decide (j = k)) as [->|Hj]; [by rewrite !lookup_insert_eq|].
      rewrite !lookup_insert_ne by done. apply H3.
    + intros j c' o'. fold k. destruct (decide (j = k)) as [->|Hj].
      * rewrite !lookup_insert_eq. by intros [= <-] [= <-].
      * rewrite !lookup_insert_ne by done. apply H4.
  - unfold wire. cbn. rewrite omap_app. f_equal. cbn. rewrite Hw. by destruct (op_request _ _).
Qed.

(** A consumer that polls makes no pull. *)
Definition pops (e : effect) : Prop :=
  match e with CallReceive _ (ProcessQueueImpl.PullCall _ _ _ _) => False | _ => True end.

Lemma call_issues holder o target timeout op e x :
  ninv x -> asks o op -> cycles [e] = option_list (receiver o) -> holders holder [e] = option_list (settler o) ->
  omap ack_effect [e] = option_list (op_request target op) ->
  exists y, call o target timeout op x = Some y /\ issues holder [e] x y.
Proof.
  intros Hx Ho Hc Hh Hw. destruct (call_spec o target timeout op x Hx Ho) as (y & k & E & Hy & Y1 & Y2 & Y3 & Y4 & Y5 & Y6 & Y7).
  exists y. split; [done|]. split; try done.
  - rewrite Y2, Hc. unfold receiving. rewrite Y5, owned_insert by done. by rewrite app_assoc.
  - rewrite Hh. unfold settling. by rewrite Y5, owned_insert.
  - by rewrite Hw.
Qed.

Lemma issue_spec holder e x : ninv x -> pops e -> exists y, issue holder e x = Some y /\ issues holder [e] x y.
Proof.
  intros Hx He.
  assert (Hnone : cycles [e] = [] -> omap ack_effect [e] = [] -> Delivery.sent [e] = [] -> issues holder [e] x x).
  { intros H1 H2 H3. split; try done; rewrite ?H1, ?H2, ?app_nil_r; try done.
    unfold holders. rewrite H3. destruct holder; cbn; by rewrite app_nil_r. }
  destruct e; try (eexists; split; [reflexivity|]; by apply Hnone); cbn [issue]; unfold call_receive, call_ack, call_nack.
  - destruct call0; [|done]. by apply call_issues; [|constructor|..]; destruct holder.
  - eexists. split; [reflexivity|]. split; try done; cbn.
    + by apply ninv_local.
    + rewrite <- !app_assoc. by rewrite (Permutation_app_comm (receiving x)).
    + unfold holders. cbn. destruct holder; by rewrite app_nil_r.
    + by rewrite app_nil_r.
  - by apply call_issues; [|constructor|..]; destruct holder.
  - by apply call_issues; [|constructor|..]; destruct holder.
Qed.

Lemma holders_app h a b : holders h (a ++ b) = holders h a ++ holders h b.
Proof. unfold holders. destruct h; [|done]. by rewrite Delivery.sent_app, map_app. Qed.

Lemma issue_all_spec holder l x :
  ninv x -> Forall pops l -> exists y, issue_all holder l x = Some y /\ issues holder l x y.
Proof.
  revert x. induction l as [|e l IH]; intros x Hx Hl; cbn [issue_all].
  { exists x. split; [done|]. split; try done; cbn; rewrite ?app_nil_r; try done. unfold holders. by destruct holder; rewrite app_nil_r. }
  apply Forall_cons in Hl as [He Hl]. destruct (issue_spec holder e x Hx He) as (y & -> & Y). cbn [mbind option_bind].
  destruct (IH y (is_inv _ _ _ _ Y) Hl) as (z & -> & Z). exists z. split; [done|].
  destruct Y as [_ Y2 Y3 Y4 Y5 Y6 Y7], Z as [Z1 Z2 Z3 Z4 Z5 Z6 Z7]. change (e :: l) with ([e] ++ l).
  split; [done|congruence|congruence| | |congruence|].
  - by rewrite Z4, Y4, cycles_app, app_assoc.
  - by rewrite Z5, Y5, holders_app, app_assoc.
  - by rewrite Z7, Y7, omap_app, app_assoc.
Qed.

Lemma receiveMessage_pops now mq f s :
  receive_message_policy_ s = POLLING -> Forall pops (snd (receiveMessage client_id now mq f s)).
Proof.
  intros Hp. unfold receiveMessage, getOrCreateProcessQueue. destruct (active s); cbn [negb]; [|constructor].
  destruct (process_queue_table_ s !! MQMessageQueue.key mq) as [o|]; (destruct (str_empty _); [constructor|]);
    cbn [receive_message_policy_ set_queues]; rewrite Hp; unfold receive_on, ProcessQueueImpl.receiveMessage;
    cbn [view receiveMessageAction receive_message_policy_ set_queues]; rewrite Hp; cbn; by repeat constructor.
Qed.

Lemma later_pops n s : Forall pops (snd (receiveMessageLater n s)).
Proof. unfold receiveMessageLater. destruct (find_object n s); by repeat constructor. Qed.

Lemma check_pops now n s :
  receive_message_policy_ s = POLLING -> Forall pops (snd (checkThrottleThenReceive client_id now n s)).
Proof.
  intros Hp. unfold checkThrottleThenReceive. destruct (find_object n s) as [q|] eqn:E; [|constructor].
  destruct (ProcessQueueImpl.shouldThrottle _ _); [apply later_pops|]. unfold receiveMessageImmediately. rewrite E.
  pose proof (receiveMessage_pops now (ProcessQueueImpl.message_queue_ q) (ProcessQueueImpl.filter_expression_ q) s Hp) as H.
  by destruct (receiveMessage _ _ _ _ _) as [[? ?] ?].
Qed.

Lemma put_object_policy n q s : receive_message_policy_ (put_object n q s) = receive_message_policy_ s.
Proof. unfold put_object. by destruct (find_queue n s) as [[? ?]|]. Qed.

Lemma success_pops now n r s :
  receive_message_policy_ s = POLLING -> Forall pops (snd (onSuccess client_id now n r s)).
Proof.
  intros Hp. unfold onSuccess. destruct (find_object n s) as [q|]; [|constructor]. destruct (active s); cbn [negb]; [|constructor].
  rewrite Hp. change (bool_decide (POLLING = PULL)) with false. cbn [negb]. unfold cache_on.
  destruct (ProcessQueueImpl.cacheMessages _ _ q) as [q' rej].
  assert (Hacks : Forall pops (map (fun m => ack client_id m s) rej)) by (by induction rej; constructor).
  pose proof (check_pops now n (put_object n q' s)) as H1. rewrite put_object_policy in H1. specialize (H1 Hp).
  assert (H2 : forall q1, Forall pops (snd (checkThrottleThenReceive client_id now n (put_object n q1 s)))).
  { intros q1. apply check_pops. by rewrite put_object_policy. }
  destruct (ReceiveMessageResult.status_ r); try apply later_pops; try apply H2.
  - destruct (checkThrottleThenReceive _ _ _ _) as [s' e]. cbn in *. apply Forall_app. split; [done|]. by constructor.
  - by apply check_pops.
  - destruct (checkThrottleThenReceive _ _ _ _) as [s' e]. cbn in *. rewrite !Forall_app. split; [|done]. split; [done|]. by repeat constructor.
Qed.

Lemma sync_pops now topic a f s :
  receive_message_policy_ s = POLLING -> Forall pops (snd (syncProcessQueue client_id now topic a f s)).
Proof.
  intros Hp. unfold syncProcessQueue. cbn zeta. set (s1 := set_queues _ _ (set_orphans _ s)).
  assert (Hp1 : receive_message_policy_ s1 = POLLING) by exact Hp.
  set (current := List.filter _ _). set (l := map _ _). clearbody current l s1. clear Hp. revert s1 Hp1.
  induction l as [|mq l IH]; intros s1 Hp; cbn [start_receiving]; [constructor|]. case_bool_decide.
  - specialize (IH s1 Hp). by destruct (start_receiving client_id now current f l s1).
  - pose proof (receiveMessage_pops now mq f s1 Hp) as H1.
    destruct (Delivery.receiveMessage_quiet client_id now mq f s1) as [H2 _].
    destruct (receiveMessage client_id now mq f s1) as [[ok s2] e]. cbn [fst snd] in *.
    assert (Hp2 : receive_message_policy_ s2 = POLLING).
    { change (receive_message_policy_ s2) with (receive_message_policy_ (Delivery.settings s2)). by rewrite H2. }
    specialize (IH s2 Hp2). destruct (start_receiving client_id now current f l s2) as [s3 e']. cbn [snd] in *. by apply Forall_app.
Qed.

(** ** The network's steps *)

Definition with_net (x : t) (n : network) (m : gmap nat owner) : t := mk (consumer x) (timers x) (tasks x) m n.

Lemma ninv_net x n :
  ninv x -> RemoteCalls.inv n -> ClientManagerImpl.state_ (RemoteCalls.manager n) = STARTED ->
  (forall k, match RemoteCalls.contexts (net x) !! k, RemoteCalls.contexts n !! k with
             | Some c, Some c' => forall o, tagged o c -> tagged o c'
             | None, None => True
             | _, _ => False
             end) ->
  ninv (set_net n x).
Proof.
  intros [H1 H2 H3 H4] Hn Hs Hc. split; cbn; [done|done| |].
  - intros k. rewrite H3. specialize (Hc k).
    destruct (RemoteCalls.contexts (net x) !! k), (RemoteCalls.contexts n !! k); try done.
  - intros k c o E Eo. specialize (Hc k). rewrite E in Hc.
    destruct (RemoteCalls.contexts (net x) !! k) as [c'|] eqn:Ek; [|done]. apply Hc. by eapply H4.
Qed.

Lemma complete_net k ok z x n :
  ninv x -> RemoteCalls.complete k ok z (net x) = Some n ->
  ninv (set_net n x) /\ RemoteCalls.reports n = RemoteCalls.reports (net x) /\ RemoteCalls.issued n = RemoteCalls.issued (net x).
Proof.
  intros Hx E. pose proof (RemoteCalls.inv_complete k ok z _ _ (n_net _ Hx) E) as Hi. unfold RemoteCalls.complete in E.
  destruct (RemoteCalls.flying (net x) !! k) as [j|]; [|done]. injection E as <-. split; [|done].
  apply ninv_net; [done|exact Hi|exact (n_started _ Hx)|]. intros i. cbn. destruct ok.
  - destruct (decide (i = j)) as [->|Hi'].
    + rewrite lookup_alter_eq. destruct (RemoteCalls.contexts (net x) !! j); [exact (fun o H => H)|done].
    + rewrite lookup_alter_ne by done. by destruct (RemoteCalls.contexts (net x) !! i).
  - by destruct (RemoteCalls.contexts (net x) !! i).
Qed.

Lemma poll_net x n :
  ninv x -> RemoteCalls.pollCompletionQueue (net x) = Some n ->
  ninv (set_net n x) /\ RemoteCalls.reports n = RemoteCalls.reports (net x) /\ RemoteCalls.issued n = RemoteCalls.issued (net x).
Proof.
  intros Hx E. pose proof (RemoteCalls.inv_poll _ _ (n_net _ Hx) E) as Hi. unfold RemoteCalls.pollCompletionQueue in E.
  destruct (RemoteCalls.completed (net x)); [done|]. injection E as <-. split; [|done].
  apply ninv_net; [done|exact Hi|exact (n_started _ Hx)|]. intros i. cbn. by destruct (RemoteCalls.contexts (net x) !! i).
Qed.

Lemma begin_net x n :
  ninv x -> RemoteCalls.begin (net x) = Some n ->
  ninv (set_net n x) /\ RemoteCalls.reports n = RemoteCalls.reports (net x) /\ RemoteCalls.issued n = RemoteCalls.issued (net x).
Proof.
  intros Hx E. pose proof (RemoteCalls.inv_begin _ _ (n_net _ Hx) E) as Hi. unfold RemoteCalls.begin in E.
  destruct (ThreadPoolImpl.take _) as [[p ?]|]; [|done]. injection E as <-. split; [|done].
  apply ninv_net; [done|exact Hi|exact (n_started _ Hx)|]. intros i. cbn. by destruct (RemoteCalls.contexts (net x) !! i).
Qed.

(** A worker that ends a call: one report, to the owner of the call. *)
Lemma finish_net k x n :
  ninv x -> RemoteCalls.finish no_throw k (net x) = Some n ->
  exists j c o r, RemoteCalls.reports n = RemoteCalls.reports (net x) ++ [(j, (c, [r]))]
    /\ owners x !! j = Some o /\ answers o r /\ RemoteCalls.issued n = RemoteCalls.issued (net x)
    /\ ninv (with_net x n (delete j (owners x))).
Proof.
  intros [H1 H2 H3 H4] E. pose proof (RemoteCalls.inv_finish no_throw k _ _ H1 E) as Hi. unfold RemoteCalls.finish in E.
  destruct (ThreadPoolImpl.busy_ _ !! k) as [[j ok]|]; [|done]. cbn [mbind option_bind] in E.
  destruct (RemoteCalls.contexts (net x) !! j) as [c|] eqn:Ec; [|done]. cbn [mbind option_bind] in E.
  destruct (RemoteCalls.onCompletion no_throw ok c _) as [[m told]|] eqn:Eo; [|done]. injection E as <-.
  destruct (proj2 (H3 j) (ex_intro _ c Ec)) as [o Ho]. pose proof (H4 j c o Ec Ho) as Ht.
  apply RemoteCalls.onCompletion_invoke in Eo.
  pose proof (RemoteCalls.quiet_invoke c (RemoteCalls.manager (net x)) (proj2 (RemoteCalls.i_issued _ H1 j c Ec))) as Hm.
  rewrite Eo in Hm. cbn in Hm. unfold RemoteCalls.invoke in Eo. unfold tagged in Ht.
  destruct (RemoteCalls.callback c) as [f|]; [|done]. destruct (Ht (RemoteCalls.manager (net x)) (RemoteCalls.completion_of c)) as (r & Er & Ha).
  rewrite Eo in Er. cbn in Er. subst told. exists j, c, o, r. split_and!; try done.
  split; cbn; [exact Hi|congruence| |].
  - intros i. destruct (decide (i = j)) as [->|Hij]; [rewrite !lookup_delete_eq; split; by intros [? ?]|].
    rewrite !lookup_delete_ne by done. apply H3.
  - intros i c' o'. intros E1 E2. apply lookup_delete_Some in E1 as [_ E1]. apply lookup_delete_Some in E2 as [_ E2]. by eapply H4.
Qed.

(** ** The node implements Delivery *)
Section refinement.
Context (s0 : PushConsumerImpl.t).
Hypothesis batch : 1 <= consume_batch_size_ s0 < 2 ^ 32.
Hypothesis clustering : message_model_ s0 = CLUSTERING.
Hypothesis provided : ClientConfigImpl.credentials_provider_ (config s0) = true.
Hypothesis started : Delivery.starts s0.

(** The histories of Delivery. *)
Definition reach (d : Delivery.t) : Prop :=
  exists l, Forall Delivery.legal l /\ Delivery.run client_id l (Delivery.make s0) = Some d.

Lemma delivery_run_snoc l a d :
  Delivery.run client_id (l ++ [a]) d = (e ← Delivery.run client_id l d; Delivery.step client_id a e).
Proof.
  revert d. induction l as [|b l IH]; intros d; cbn [Delivery.run app mbind option_bind].
  { destruct (Delivery.step client_id a d); reflexivity. }
  destruct (Delivery.step client_id b d); cbn; [apply IH|done].
Qed.

Lemma reach_init : reach (Delivery.make s0).
Proof. exists []. split; [constructor|done]. Qed.

Lemma reach_step a d e : reach d -> Delivery.legal a -> Delivery.step client_id a d = Some e -> reach e.
Proof.
  intros (l & Hl & Hr) Ha E. exists (l ++ [a]). split; [apply Forall_app; by repeat constructor|].
  by rewrite delivery_run_snoc, Hr.
Qed.

Lemma reach_dinv d : reach d -> Delivery.dinv client_id s0 d.
Proof. intros (l & Hl & Hr). by eapply Delivery.dinv_run, Hr; [..|apply Delivery.dinv_init]. Qed.

Lemma reach_cinv d : reach d -> exists w, cinv (Delivery.cycles_of d w).
Proof.
  intros (l & Hl & Hr).
  destruct (Delivery.run_cycles client_id s0 batch clustering provided l (Delivery.make s0) d (mkCycles s0 [] 0) 0 Hl
              (Delivery.dinv_init client_id s0 started) Hr (csteps_refl _ _)) as [w Hw].
  exists w. eapply cinv_steps; [exact Hw|]. by apply cinv_init; apply started.
Qed.

Lemma reach_orphans d : reach d -> Delivery.orphans_held d.
Proof.
  intros (l & Hl & Hr).
  assert (H : forall x, Delivery.dinv client_id s0 x -> Delivery.orphans_held x -> Delivery.run client_id l x = Some d -> Delivery.orphans_held d).
  { clear Hr. induction l as [|a l IH]; intros x Hx Ho; cbn [Delivery.run]; [by intros [= <-]|].
    apply Forall_cons in Hl as [Ha Hl]. destruct (Delivery.step client_id a x) as [y|] eqn:E; [|done]. cbn [mbind option_bind].
    apply IH; [done| |].
    - by eapply Delivery.dinv_step.
    - by eapply (Delivery.step_objects client_id s0 batch). }
  apply (H (Delivery.make s0)); [by apply Delivery.dinv_init| |done].
  intros n. cbn. rewrite (Delivery.st_orphans _ started), lookup_empty. by intros [? ?].
Qed.

Lemma reach_settled d : reach d -> Delivery.settled_once d.
Proof.
  intros (l & Hl & Hr). eapply Delivery.settled_once_run; [exact batch|exact clustering|exact provided|exact Hl| | |exact Hr].
  - by apply Delivery.dinv_init.
  - intros n. apply submseteq_nil_l.
Qed.

(** A history of Delivery shows the node: the same consumer and tasks, the receives and
    timers, the acknowledgements that are not answered, and those on the wire. *)
Record shape (x : t) (d : Delivery.t) : Prop := {
  sh_inv : ninv x;
  sh_consumer : Delivery.consumer d = consumer x;
  sh_tasks : Delivery.tasks d = tasks x;
  sh_pending : Delivery.pending d ≡ₚ timers x ++ receiving x;
  sh_unanswered : Delivery.unanswered d ≡ₚ settling x;
  sh_wire : wire x = omap ack_effect (Delivery.calls d);
}.

(** ... and what a queue that is alive received is what its callbacks were told. *)
Record hears (x : t) (d : Delivery.t) : Prop := {
  he_live n : is_Some (find_object n (consumer x)) -> Delivery.entries n (Delivery.received d) = heard n (RemoteCalls.reports (net x));
  he_new n : (created (consumer x) <= n)%nat -> heard n (RemoteCalls.reports (net x)) = [];
  he_all n : Delivery.entries n (Delivery.received d) ⊆+ heard n (RemoteCalls.reports (net x));
}.

Definition sim (x : t) (d : Delivery.t) : Prop := reach d /\ shape x d /\ hears x d.

Lemma wire_sent l : omap ack_effect (Delivery.sent l) = omap ack_effect l.
Proof. induction l as [|e l IH]; [done|]. destruct e; try exact IH; cbn in *; f_equal; exact IH. Qed.

(** The reports a step adds are heard by the queues they are for. *)
Lemma hears_step a x d y d' new :
  sim x d -> Delivery.legal a -> Delivery.step client_id a d = Some d' -> Delivery.consumer d' = consumer y ->
  (forall m, heard m (RemoteCalls.reports (net y)) = heard m (RemoteCalls.reports (net x)) ++ new m) ->
  (forall m, (created (consumer x) <= m)%nat -> new m = []) ->
  (forall m, is_Some (find_object m (consumer x)) \/ (created (consumer x) <= m)%nat ->
     Delivery.entries m (Delivery.received d') = Delivery.entries m (Delivery.received d) ++ new m) ->
  (forall m, Delivery.entries m (Delivery.received d') ⊆+ Delivery.entries m (Delivery.received d) ++ new m) ->
  hears y d'.
Proof.
  intros (Hr & Hs & [L N A]) Ha E Ey H1 H2 H3 H4.
  destruct (Delivery.step_objects client_id s0 batch a d d' Ha (reach_dinv d Hr) (reach_orphans d Hr) E) as [[G1 G2] _].
  rewrite Ey, (sh_consumer _ _ Hs) in *. split.
  - intros m Hm. rewrite H1, H3 by (by apply G2). f_equal. destruct (G2 m Hm) as [Hl|Hn]; [by apply L|].
    rewrite N by done. apply (Delivery.di_old _ _ _ (reach_dinv d Hr)). by rewrite (sh_consumer _ _ Hs).
  - intros m Hm. rewrite H1, N, H2 by lia. done.
  - intros m. rewrite H1. etransitivity; [apply H4|]. by apply submseteq_app.
Qed.

(** A step that brings no report. *)
Lemma hears_quiet a x d y d' :
  sim x d -> Delivery.legal a -> Delivery.step client_id a d = Some d' -> Delivery.consumer d' = consumer y ->
  (forall m, heard m (RemoteCalls.reports (net y)) = heard m (RemoteCalls.reports (net x))) ->
  Delivery.received d' = Delivery.received d -> hears y d'.
Proof.
  intros Hs Ha E Ey H1 H2. apply (hears_step a x d y d' (fun _ => []) Hs Ha E Ey); try done; intros m; by rewrite ?H1, ?H2, ?app_nil_r.
Qed.

(** A completed receive or timer. *)
Lemma complete_shape x x1 d n handler news refused :
  shape x d -> ninv x1 -> consumer x1 = consumer x -> tasks x1 = tasks x -> wire x1 = wire x ->
  timers x ++ receiving x ≡ₚ n :: timers x1 ++ receiving x1 -> settling x1 ≡ₚ settling x ->
  Forall pops (snd (handler n (consumer x))) ->
  exists i y d', Delivery.pending d !! i = Some n /\ react None (handler n) x1 = Some y
    /\ Delivery.complete i handler news refused d = Some d' /\ shape y d'
    /\ RemoteCalls.reports (net y) = RemoteCalls.reports (net x1)
    /\ Delivery.received d' = Delivery.received d ++ map (pair n) (news n)
    /\ Delivery.settled d' = Delivery.settled d ++ map (fun m => (n, (m, SUCCESS))) (refused n).
Proof.
  intros [S1 S2 S3 S4 S5 S6] Hx1 Ec Et Ew Hp Hu Hpops.
  assert (Hin : n ∈ Delivery.pending d) by (rewrite S4, Hp; left). apply list_elem_of_lookup in Hin as [i Hi].
  exists i. unfold react, Delivery.complete. rewrite Hi, S2, Ec. cbn [mbind option_bind].
  destruct (handler n (consumer x)) as [s' effects]. cbn [snd] in Hpops.
  destruct (issue_all_spec None effects (set_consumer s' x1)) as (y & Ey & [I1 I2 I3 I4 I5 I6 I7]); [by apply ninv_local|done|].
  exists y. eexists. split; [done|]. split; [exact Ey|]. split; [reflexivity|]. split; [|by split].
  split; cbn [Delivery.consumer Delivery.tasks Delivery.pending Delivery.unanswered Delivery.calls]; [done|done|rewrite I3; cbn; congruence| | |].
  - rewrite I4. cbn [timers set_consumer]. apply Permutation_app; [|done].
    apply (Permutation_cons_inv (a := n)). rewrite <- (delete_Permutation _ _ _ Hi). rewrite S4. exact Hp.
  - rewrite I5. cbn. rewrite app_nil_r, S5. by rewrite <- Hu.
  - rewrite I7, omap_app, wire_sent, <- S6. f_equal. exact Ew.
Qed.

(** Collecting what nothing refers to. *)
Lemma collect_same h h' s : (forall n, n ∈ h <-> n ∈ h') -> Delivery.collect h s = Delivery.collect h' s.
Proof.
  intros H. unfold Delivery.collect. f_equal. apply map_filter_ext. intros n q _. cbn. apply H.
Qed.

Lemma held_same k u u' n : u ≡ₚ u' -> (n ∈ Delivery.held k u <-> n ∈ Delivery.held k u').
Proof. intros E. unfold Delivery.held. by rewrite E. Qed.

Lemma collect_nothing s h : (forall n, is_Some (orphans s !! n) -> n ∈ h) -> Delivery.collect h s = s.
Proof.
  intros H. unfold Delivery.collect. rewrite map_filter_id; [by destruct s|]. intros n q E. apply H. by eexists.
Qed.

(** A call that is over leaves the node; its report is the last one. *)
Record freed (r : report) (x x1 : t) : Prop := {
  fr_inv : ninv x1;
  fr_consumer : consumer x1 = consumer x;
  fr_timers : timers x1 = timers x;
  fr_tasks : tasks x1 = tasks x;
  fr_receiving : receiving x ≡ₚ option_list (receiver (owner_of r)) ++ receiving x1;
  fr_settling : settling x ≡ₚ option_list (settler (owner_of r)) ++ settling x1;
  fr_wire : wire x1 = wire x;
  fr_heard m : heard m (RemoteCalls.reports (net x1)) = heard m (RemoteCalls.reports (net x)) ++ told_messages m r;
  fr_answers : answers (owner_of r) r;
}.

Lemma finish_freed k x n :
  ninv x -> RemoteCalls.finish no_throw k (net x) = Some n ->
  exists j c r, RemoteCalls.reports n = RemoteCalls.reports (net x) ++ [(j, (c, [r]))]
    /\ freed r x (with_net x n (delete j (owners x))).
Proof.
  intros Hx E. destruct (finish_net k x n Hx E) as (j & c & o & r & Er & Ho & Ha & Ei & Hn).
  exists j, c, r. split; [done|]. pose proof (proj1 Ha) as Eo. subst o. split; try done.
  - by apply owned_delete.
  - by apply owned_delete.
  - unfold wire. cbn. by rewrite Ei.
  - intros m. cbn. rewrite Er, heard_app. f_equal. unfold heard. cbn. by rewrite !app_nil_r.
Qed.

(** The old orphans are still referred to when a call that holds none is over. *)
Lemma idle_sim r x x1 d :
  sim x d -> freed r x x1 -> receiver (owner_of r) = None -> settler (owner_of r) = None -> (forall m, told_messages m r = []) ->
  release_orphans x1 = x1 /\ sim x1 d.
Proof.
  intros (Hr & [S1 S2 S3 S4 S5 S6] & [L N A]) [F1 F2 F3 F4 F5 F6 F7 F8 _] Hrec Hset Ht. rewrite Hrec in F5. rewrite Hset in F6. cbn in F5, F6.
  split.
  - unfold release_orphans. rewrite collect_nothing; [by destruct x1|]. intros n. rewrite F2, F4, <- S2, <- S3. intros Hn.
    apply (held_same _ (Delivery.unanswered d)); [by rewrite S5|]. by apply reach_orphans.
  - split; [done|]. split.
    + split; try done; try congruence; rewrite ?F3; by rewrite <- ?F5, <- ?F6.
    + split; intros n; rewrite ?F2, F8, Ht, app_nil_r; auto.
Qed.

Lemma receiving_sim now n v x x1 d :
  sim x d -> freed (ReceiveReport n v) x x1 -> exists y d', handle now (ReceiveReport n v) x1 = Some y /\ sim y d'
    /\ Delivery.settled d' = Delivery.settled d ++ refuses (consumer x) (ReceiveReport n v).
Proof.
  intros Hs F. pose proof Hs as (Hr & Hsh & _). pose proof F as [F1 F2 F3 F4 F5 F6 F7 F8 F9].
  assert (Hpol : receive_message_policy_ (consumer x) = POLLING).
  { rewrite <- (sh_consumer _ _ Hsh). exact (proj1 (proj2 (Delivery.di_polls _ _ _ (reach_dinv d Hr)))). }
  assert (Hp : timers x ++ receiving x ≡ₚ n :: timers x1 ++ receiving x1).
  { rewrite F3, F5. cbn. by rewrite <- Permutation_middle. }
  destruct v as [ec|v].
  - destruct (complete_shape x x1 d n onFailure (fun _ => []) (fun _ => []) Hsh F1 F2 F4 F7 Hp) as (i & y & d' & Hi & Ey & Ed & Hsh' & Hrep & Hrec & Hset);
      [by rewrite F6|apply later_pops|].
    exists y, d'. split; [exact Ey|]. assert (Es : Delivery.step client_id (Delivery.Failed i) d = Some d') by exact Ed.
    split; [|exact Hset]. split; [by apply (reach_step (Delivery.Failed i) d)|]. split; [done|].
    apply (hears_quiet (Delivery.Failed i) x d y d'); [done|done|done|apply Hsh'| |].
    + intros m. rewrite Hrep, F8. apply app_nil_r.
    + rewrite Hrec. apply app_nil_r.
  - destruct (complete_shape x x1 d n (fun n => onSuccess client_id now n v) (fun n => Delivery.delivered n v (Delivery.consumer d))
                (fun n => Delivery.rejected n v (Delivery.consumer d)) Hsh F1 F2 F4 F7 Hp) as (i & y & d' & Hi & Ey & Ed & Hsh' & Hrep & Hrec & Hset);
      [by rewrite F6|by apply success_pops|].
    exists y, d'. split; [exact Ey|]. assert (Es : Delivery.step client_id (Delivery.Received i now v) d = Some d') by exact Ed.
    split; [|rewrite Hset; cbn [refuses]; by rewrite (sh_consumer _ _ Hsh)].
    split; [by apply (reach_step (Delivery.Received i now v) d)|]. split; [done|].
    assert (Hold : (n < created (consumer x))%nat).
    { destruct (reach_cinv d Hr) as [w [_ _ Hold]]. rewrite <- (sh_consumer _ _ Hsh).
      apply (proj1 (Forall_forall _ _) Hold). by eapply list_elem_of_lookup_2. }
    apply (hears_step (Delivery.Received i now v) x d y d' (fun m => told_messages m (ReceiveReport n (inr v))));
      [done|done|done|apply Hsh'| | | |].
    + intros m. by rewrite Hrep, F8.
    + intros m Hm. cbn. rewrite decide_False by lia. done.
    + intros m Hm. rewrite Hrec, Delivery.entries_app, Delivery.entries_pair. f_equal. cbn.
      destruct (decide (m = n)) as [->|]; [|by rewrite decide_False]. rewrite decide_True by done.
      destruct Hm as [[q Eq]|?]; [|lia].
      unfold Delivery.delivered. rewrite (sh_consumer _ _ Hsh), Eq. by rewrite (proj2 F9).
    + intros m. rewrite Hrec, Delivery.entries_app, Delivery.entries_pair. apply submseteq_app; [done|]. cbn.
      destruct (decide (m = n)) as [->|]; [|apply submseteq_nil_l]. rewrite decide_True by done.
      unfold Delivery.delivered. destruct (find_object n _); [|apply submseteq_nil_l]. by rewrite (proj2 F9).
Qed.

Lemma settling_sim now h ec x x1 d :
  sim x d -> freed (AckReport h ec) x x1 -> exists y d', handle now (AckReport h ec) x1 = Some y /\ sim y d'
    /\ Delivery.settled d' = Delivery.settled d.
Proof.
  intros Hs F. cbn [handle]. destruct h as [n|].
  2: { destruct (idle_sim _ _ _ _ Hs F) as [-> H]; [done..|]. by exists x1, d. }
  pose proof Hs as (Hr & [S1 S2 S3 S4 S5 S6] & _). destruct F as [F1 F2 F3 F4 F5 F6 F7 F8 _]. cbn in F5, F6.
  assert (Hin : n ∈ Delivery.unanswered d) by (rewrite S5, F6; left). apply list_elem_of_lookup in Hin as [i Hi].
  assert (Hu : delete i (Delivery.unanswered d) ≡ₚ settling x1).
  { apply (Permutation_cons_inv (a := n)). by rewrite <- (delete_Permutation _ _ _ Hi), S5, F6. }
  exists (release_orphans x1). eexists. split; [done|].
  assert (Es : Delivery.step client_id (Delivery.Answered i) d = Some (Delivery.mk
      (Delivery.collect (Delivery.held (Delivery.tasks d) (delete i (Delivery.unanswered d))) (Delivery.consumer d))
      (Delivery.pending d) (Delivery.tasks d) (delete i (Delivery.unanswered d)) (Delivery.calls d)
      (Delivery.received d) (Delivery.settled d))) by (cbn [Delivery.step]; by rewrite Hi).
  assert (Hcol : Delivery.collect (Delivery.held (Delivery.tasks d) (delete i (Delivery.unanswered d))) (Delivery.consumer d)
                 = consumer (release_orphans x1)).
  { cbn. rewrite S2, S3, <- F2, <- F4. apply collect_same. intros m. by apply held_same. }
  refine (conj (conj (reach_step (Delivery.Answered i) d _ Hr I Es) _) eq_refl). split.
  - split; cbn [Delivery.consumer Delivery.tasks Delivery.pending Delivery.unanswered Delivery.calls]; try done.
    + by apply ninv_local.
    + cbn. congruence.
    + cbn. by rewrite F3, S4, F5.
    + transitivity (wire x1); [done|]. congruence.
  - apply (hears_quiet (Delivery.Answered i) x d _ _ Hs); [done|exact Es|exact Hcol| |done].
    intros m. etransitivity; [exact (F8 m)|apply app_nil_r].
Qed.

(** What the load balancer is trusted with: an assignment that is not empty gives the
    queues of the topic, once each and with an address. *)
Definition well_told (r : report) : Prop :=
  match r with
  | AssignmentReport topic _ ec resp =>
      ec_bool ec = false ->
      let a := TopicAssignment.of_response (debug_string env resp) resp in
      TopicAssignment.assignment_list_ a = [] \/ well_assigned topic a
  | _ => True
  end.

Lemma set_consumer_same x : set_consumer (consumer x) x = x.
Proof. by destruct x. Qed.

Lemma assigning_sim now topic f ec r x x1 d :
  sim x d -> freed (AssignmentReport topic f ec r) x x1 -> well_told (AssignmentReport topic f ec r) ->
  exists y d', handle now (AssignmentReport topic f ec r) x1 = Some y /\ sim y d' /\ Delivery.settled d' = Delivery.settled d.
Proof.
  intros Hs F Hw. cbn [handle well_told] in *. unfold assigned, onQueryAssignment, react, onAssignment.
  assert (Hidle : exists y d', Some (release_orphans (set_consumer (consumer x1) x1)) = Some y /\ sim y d'
    /\ Delivery.settled d' = Delivery.settled d).
  { rewrite set_consumer_same. destruct (idle_sim _ _ _ _ Hs F) as [-> H]; [done..|]. by exists x1, d. }
  destruct (ec_bool ec) eqn:Eec; [rewrite Eec; exact Hidle|]. rewrite Eec. specialize (Hw eq_refl). cbn zeta in Hw.
  set (a := TopicAssignment.of_response _ r) in *. case_bool_decide as Hnil; [exact Hidle|]. clear Hidle.
  destruct Hw as [Hw|Hw]; [done|]. pose proof Hs as (Hr & [S1 S2 S3 S4 S5 S6] & _).
  destruct F as [F1 F2 F3 F4 F5 F6 F7 F8 _]. cbn in F5, F6. rewrite F2.
  assert (Hpol : receive_message_policy_ (consumer x) = POLLING).
  { rewrite <- S2. exact (proj1 (proj2 (Delivery.di_polls _ _ _ (reach_dinv d Hr)))). }
  pose proof (sync_pops now topic a f (consumer x) Hpol) as Hpops.
  assert (Es : Delivery.step client_id (Delivery.Assign now topic a f) d
    = let '(s, effects) := syncProcessQueue client_id now topic a f (consumer x) in
      Some (Delivery.mk (Delivery.collect (Delivery.held (tasks x) (Delivery.unanswered d)) s)
        (Delivery.pending d ++ cycles effects) (tasks x) (Delivery.unanswered d)
        (Delivery.calls d ++ Delivery.sent effects) (Delivery.received d) (Delivery.settled d))).
  { cbn [Delivery.step]. by rewrite S2, S3. }
  destruct (syncProcessQueue client_id now topic a f (consumer x)) as [s' effects]. cbn [snd] in Hpops.
  destruct (issue_all_spec None effects (set_consumer s' x1)) as (y & -> & [I1 I2 I3 I4 I5 I6 I7]); [by apply ninv_local|done|].
  cbn [mbind option_bind]. exists (release_orphans y). eexists. split; [reflexivity|].
  cbn in I2, I3, I4, I5, I6. rewrite app_nil_r in I5.
  assert (Hcol : Delivery.collect (Delivery.held (tasks x) (Delivery.unanswered d)) s' = consumer (release_orphans y)).
  { cbn. rewrite I2, I3, F4. apply collect_same. intros m. apply held_same. rewrite S5, F6, I5. done. }
  refine (conj (conj (reach_step (Delivery.Assign now topic a f) d _ Hr Hw Es) _) eq_refl). split.
  - split; cbn [Delivery.consumer Delivery.tasks Delivery.pending Delivery.unanswered Delivery.calls]; try done.
    + by apply ninv_local.
    + cbn. congruence.
    + transitivity (timers y ++ receiving y); [|done]. rewrite I4, S4, F3, F5. done.
    + transitivity (settling y); [|done]. by rewrite I5, S5, F6.
    + transitivity (wire y); [done|]. rewrite I7, omap_app, wire_sent, <- S6, <- F7. done.
  - apply (hears_quiet (Delivery.Assign now topic a f) x d _ _ Hs Hw Es Hcol); [|done].
    intros m. cbn. rewrite I6. etransitivity; [exact (F8 m)|apply app_nil_r].
Qed.

(** The callback of a call finds its consumer, whatever the network answered. *)
Lemma handle_sim now r x x1 d :
  sim x d -> freed r x x1 -> well_told r ->
  exists y d', handle now r x1 = Some y /\ sim y d' /\ Delivery.settled d' = Delivery.settled d ++ refuses (consumer x) r.
Proof.
  intros Hs F Hw. destruct r as [n v|h ec|topic f ec r]; [by eapply receiving_sim| |]; cbn [refuses]; rewrite app_nil_r;
    [by eapply settling_sim|by eapply assigning_sim].
Qed.

Lemma net_sim x d n :
  sim x d -> ninv (set_net n x) -> RemoteCalls.reports n = RemoteCalls.reports (net x) ->
  RemoteCalls.issued n = RemoteCalls.issued (net x) -> sim (set_net n x) d.
Proof.
  intros (Hr & [S1 S2 S3 S4 S5 S6] & [L N A]) Hn E1 E2. split; [done|]. split; split; try done; cbn; rewrite ?E1; try done.
  unfold wire in *. cbn. by rewrite E2.
Qed.

Lemma query_sim topic target x y d : sim x d -> step (Query topic target) x = Some y -> sim y d.
Proof.
  intros (Hr & [S1 S2 S3 S4 S5 S6] & [L N A]). cbn [step]. unfold query.
  destruct (topic_filter_expression_table_ (consumer x) !! topic) as [f|]; [|done]. cbn [mbind option_bind].
  set (request := wrapQueryAssignmentRequest _ _ _ _).
  destruct (call_spec (Assigning topic f) target (io_timeout (consumer x))
              (RemoteCalls.QueryAssignmentOp request (AssignmentReport topic f)) x S1 (asks_assignment topic f request))
    as (y' & k & -> & Hy & Y1 & Y2 & Y3 & Y4 & Y5 & Y6 & Y7).
  intros [= <-]. assert (Hown : forall g : owner -> option nat, g (Assigning topic f) = None -> owned g (owners y') ≡ₚ owned g (owners x)).
  { intros g Hg. rewrite Y5, owned_insert, Hg by done. by rewrite app_nil_r. }
  split; [done|]. split; split; try congruence.
  - rewrite Y2, S4. unfold receiving. by rewrite (Hown receiver).
  - rewrite S5. unfold settling. by rewrite (Hown settler).
  - rewrite Y7. cbn. by rewrite app_nil_r.
  - intros n. rewrite Y1, Y6. apply L.
  - intros n. rewrite Y1, Y6. apply N.
  - intros n. rewrite Y6. apply A.
Qed.

Lemma timer_sim i now n x d :
  sim x d -> timers x !! i = Some n -> exists y d', step (Timer i now) x = Some y /\ sim y d'
    /\ RemoteCalls.reports (net y) = RemoteCalls.reports (net x) /\ Delivery.settled d' = Delivery.settled d.
Proof.
  intros Hs Ei. pose proof Hs as (Hr & Hsh & _). cbn [step]. rewrite Ei. cbn [mbind option_bind].
  assert (Hpol : receive_message_policy_ (consumer x) = POLLING).
  { rewrite <- (sh_consumer _ _ Hsh). exact (proj1 (proj2 (Delivery.di_polls _ _ _ (reach_dinv d Hr)))). }
  destruct (complete_shape x (set_timers (delete i (timers x)) x) d n (checkThrottleThenReceive client_id now) (fun _ => []) (fun _ => []))
    as (j & y & d' & Hj & Ey & Ed & Hsh' & Hrep & Hrec & Hset); [done|apply ninv_local, Hsh|done|done|done| |done|by apply check_pops|].
  { cbn. by rewrite (delete_Permutation _ _ _ Ei) at 1. }
  exists y, d'. split; [exact Ey|]. assert (Es : Delivery.step client_id (Delivery.Timer j now) d = Some d') by exact Ed.
  split; [|split; [exact Hrep|rewrite Hset; apply app_nil_r]].
  split; [by apply (reach_step (Delivery.Timer j now) d)|]. split; [done|].
  apply (hears_quiet (Delivery.Timer j now) x d y d' Hs); [done|done|apply Hsh'| |].
  - intros m. by rewrite Hrep.
  - rewrite Hrec. apply app_nil_r.
Qed.

Lemma dispatch_sim x y d :
  sim x d -> step Dispatch x = Some y -> exists d', sim y d' /\ Delivery.settled d' = Delivery.settled d.
Proof.
  intros Hs. pose proof Hs as (Hr & [S1 S2 S3 S4 S5 S6] & _). cbn [step].
  assert (Es : Delivery.step client_id Delivery.Dispatch d = '(s, submitted) ← Delivery.dispatch (consumer x);
      Some (Delivery.mk s (Delivery.pending d) (tasks x ++ submitted) (Delivery.unanswered d) (Delivery.calls d)
        (Delivery.received d) (Delivery.settled d))) by (cbn [Delivery.step]; by rewrite S2, S3).
  destruct (Delivery.dispatch (consumer x)) as [[s submitted]|]; [|done]. intros [= <-]. eexists.
  refine (conj (conj (reach_step Delivery.Dispatch d _ Hr I Es) _) eq_refl). split.
  - split; cbn; try done. by apply ninv_local.
  - by apply (hears_quiet Delivery.Dispatch x d _ _ Hs); [|exact Es|..].
Qed.

Lemma broker_calls_sent s l :
  Delivery.sent (concat (map (Delivery.broker_call client_id s) l)) = concat (map (Delivery.broker_call client_id s) l)
  /\ cycles (concat (map (Delivery.broker_call client_id s) l)) = []
  /\ Forall pops (concat (map (Delivery.broker_call client_id s) l)).
Proof.
  induction l as [|e l (IH1 & IH2 & IH3)]; cbn [map concat]; [by repeat constructor|].
  rewrite Delivery.sent_app, cycles_app, IH1, IH2, Forall_app. destruct e; cbn; (split; [done|split; [done|split; [|done]]]); by repeat constructor.
Qed.

Lemma consume_sim i status x y d :
  sim x d -> step (Consume i status) x = Some y ->
  exists d', sim y d' /\ Delivery.settled d' = Delivery.settled d ++ settles (Consume i status) x.
Proof.
  intros Hs. pose proof Hs as (Hr & [S1 S2 S3 S4 S5 S6] & _). cbn [step settles]. unfold consume.
  destruct (Delivery.step client_id (Delivery.Consume i status) d) as [d'|] eqn:Es.
  all: pose proof Es as Ed; cbn [Delivery.step] in Ed; rewrite S2, S3 in Ed.
  all: destruct (tasks x !! i) as [[n b]|]; [|done]; cbn [mbind option_bind] in *.
  all: destruct (find_object n (consumer x)) as [q|]; [|done]; cbn [mbind option_bind] in *.
  all: destruct (ConsumeStandardMessageService.consumeTask _ _ _ _ _) as [[effects q']|]; [|done]; cbn [mbind option_bind] in *.
  2: done.
  injection Ed as <-. destruct (broker_calls_sent (consumer x) effects) as (B1 & B2 & B3).
  set (calls' := concat _) in *.
  destruct (issue_all_spec (Some n) calls' (mk (put_object n q' (consumer x)) (timers x) (delete i (tasks x)) (owners x) (net x)))
    as (y' & -> & [I1 I2 I3 I4 I5 I6 I7]); [by apply ninv_local|done|].
  cbn [mbind option_bind]. intros [= <-]. cbn in I2, I3, I4, I5, I6. rewrite B1 in I5. rewrite B2, app_nil_r in I4.
  eexists. refine (conj (conj (reach_step (Delivery.Consume i status) d _ Hr I Es) _) eq_refl).
  match goal with |- shape ?x ?d' /\ _ => assert (Hcol : Delivery.consumer d' = consumer x) end.
  { cbn. rewrite I2, I3. apply collect_same. intros m. apply held_same. rewrite S5, I5. done. }
  split.
  - split; cbn [Delivery.consumer Delivery.tasks Delivery.pending Delivery.unanswered Delivery.calls]; try done.
    + by apply ninv_local.
    + transitivity (timers y' ++ receiving y'); [|done]. by rewrite I4, S4.
    + transitivity (settling y'); [|done]. by rewrite I5, S5.
    + transitivity (wire y'); [done|]. rewrite I7, omap_app, <- S6. done.
  - apply (hears_quiet (Delivery.Consume i status) x d _ _ Hs); [done|exact Es|exact Hcol| |done].
    intros m. cbn. by rewrite I6.
Qed.

(** *** The reports only grow *)
Lemma call_reports o target timeout op x y :
  call o target timeout op x = Some y -> RemoteCalls.reports (net y) = RemoteCalls.reports (net x).
Proof.
  unfold call. set (i := site_of _ _ _).
  destruct (RemoteCalls.perform_async zlib_crc32 MD5 SHA1 zlib fresh DebugString i op (net x)) as (c & m & -> & _).
  unfold RemoteCalls.async. destruct (RemoteCalls.queue_shutdown _); [done|]. cbn. by intros [= <-].
Qed.

Lemma issue_all_reports h l x y : issue_all h l x = Some y -> RemoteCalls.reports (net y) = RemoteCalls.reports (net x).
Proof.
  revert x. induction l as [|e l IH]; intros x; cbn [issue_all]; [by intros [= <-]|].
  destruct (issue h e x) as [z|] eqn:E; [|done]. cbn [mbind option_bind]. intros Hy. rewrite (IH z Hy).
  destruct e; try (by injection E as <-).
  - match type of E with issue _ (CallReceive _ ?c) _ = _ => destruct c; [|done] end. exact (call_reports _ _ _ _ _ _ E).
  - exact (call_reports _ _ _ _ _ _ E).
  - exact (call_reports _ _ _ _ _ _ E).
Qed.

Lemma react_reports h handler x y : react h handler x = Some y -> RemoteCalls.reports (net y) = RemoteCalls.reports (net x).
Proof. unfold react. destruct (handler (consumer x)). intros E. exact (issue_all_reports _ _ _ _ E). Qed.

Lemma handle_reports now r x y : handle now r x = Some y -> RemoteCalls.reports (net y) = RemoteCalls.reports (net x).
Proof.
  destruct r as [n [ec|v]|h ec|topic f ec r]; cbn [handle received]; [apply react_reports..|by intros [= <-]|]. unfold assigned.
  destruct (onQueryAssignment _ _ _) as [ec' a]. destruct (react _ _ x) as [z|] eqn:E; [|done]. intros [= <-].
  exact (react_reports _ _ _ _ E).
Qed.

Lemma handle_all_reports now l x y :
  handle_all now l x = Some y -> RemoteCalls.reports (net y) = RemoteCalls.reports (net x).
Proof.
  revert x. induction l as [|r l IH]; intros x; cbn [handle_all]; [by intros [= <-]|].
  destruct (handle now r x) as [z|] eqn:E; [|done]. cbn [mbind option_bind]. intros Hy. rewrite (IH z Hy).
  exact (handle_reports _ _ _ _ E).
Qed.

Lemma step_reports a x y :
  step a x = Some y -> exists l, RemoteCalls.reports (net y) = RemoteCalls.reports (net x) ++ l.
Proof.
  assert (Hsame : RemoteCalls.reports (net y) = RemoteCalls.reports (net x) ->
                  exists l, RemoteCalls.reports (net y) = RemoteCalls.reports (net x) ++ l).
  { intros E. exists []. by rewrite app_nil_r. }
  destruct a as [topic target|k ok z| | |k now|i now| |i status]; cbn [step]; unfold query, consume.
  - destruct (_ !! topic); [|done]. intros E. apply Hsame. exact (call_reports _ _ _ _ _ _ E).
  - unfold RemoteCalls.complete. destruct (_ !! k); [|done]. intros [= <-]. by apply Hsame.
  - unfold RemoteCalls.pollCompletionQueue. destruct (RemoteCalls.completed _); [done|]. intros [= <-]. by apply Hsame.
  - unfold RemoteCalls.begin. destruct (ThreadPoolImpl.take _) as [[? ?]|]; [|done]. intros [= <-]. by apply Hsame.
  - destruct (RemoteCalls.finish no_throw k (net x)) as [n|] eqn:E; [|done]. cbn [mbind option_bind].
    destruct (last (RemoteCalls.reports n)) as [[j [c told]]|]; [|done]. cbn [mbind option_bind].
    intros Hy. rewrite (handle_all_reports _ _ _ _ Hy). cbn. unfold RemoteCalls.finish in E.
    destruct (_ !! k) as [[? ?]|]; [|done]. cbn [mbind option_bind] in E. destruct (_ !! _); [|done].
    cbn [mbind option_bind] in E. destruct (RemoteCalls.onCompletion _ _ _ _) as [[? ?]|]; [|done]. injection E as <-. by eexists.
  - destruct (timers x !! i); [|done]. intros E. apply Hsame. exact (react_reports _ _ _ _ E).
  - destruct (Delivery.dispatch _) as [[? ?]|]; [|done]. intros [= <-]. by apply Hsame.
  - destruct (tasks x !! i) as [[n b]|]; [|done]. cbn [mbind option_bind]. destruct (find_object _ _); [|done].
    cbn [mbind option_bind]. destruct (ConsumeStandardMessageService.consumeTask _ _ _ _ _) as [[effects q]|]; [|done]. cbn [mbind option_bind].
    destruct (issue_all _ _ _) as [z|] eqn:E; [|done]. intros [= <-]. apply Hsame. exact (issue_all_reports _ _ _ _ E).
Qed.

(** The load balancer kept its word. *)
Definition trusted (x : t) : Prop := Forall (fun e => Forall well_told (snd (snd e))) (RemoteCalls.reports (net x)).

#[local] Instance well_told_dec r : Decision (well_told r).
Proof.
  destruct r as [n v|h ec|topic f ec r]; [left; exact I..|]. cbn [well_told].
  destruct (ec_bool ec); [left; done|]. set (a := TopicAssignment.of_response _ r). cbn zeta.
  destruct (decide (TopicAssignment.assignment_list_ a = [])) as [H|H]; [left; by left|].
  destruct (decide (NoDup (map MQMessageQueue.key (queues_of a)) /\ Forall (fun mq => MQMessageQueue.topic_ mq = topic) (queues_of a)
                    /\ Forall (fun mq => MQMessageQueue.service_address_ mq <> ""%string) (queues_of a))) as [(H1 & H2 & H3)|Hn].
  - left. intros _. right. by split.
  - right. intros Hw. destruct (Hw eq_refl) as [?|[? ? ?]]; [done|]. by apply Hn.
Defined.

#[global] Instance trusted_dec x : Decision (trusted x).
Proof. unfold trusted. apply _. Defined.

Lemma trusted_step a x y : step a x = Some y -> trusted y -> trusted x.
Proof. intros E. destruct (step_reports a x y E) as [l El]. unfold trusted. rewrite El, Forall_app. tauto. Qed.

Lemma trusted_run l x y : run l x = Some y -> trusted y -> trusted x.
Proof.
  revert x. induction l as [|a l IH]; intros x; cbn [run]; [by intros [= <-]|].
  destruct (step a x) as [z|] eqn:E; [|done]. intros Hr Hy. eapply trusted_step; [exact E|]. by apply IH.
Qed.

Lemma step_sim a x y d :
  sim x d -> step a x = Some y -> trusted y -> exists d', sim y d' /\ Delivery.settled d' = Delivery.settled d ++ settles a x.
Proof.
  intros Hs E Hy. pose proof (sh_inv _ _ (proj1 (proj2 Hs))) as Hx.
  destruct a as [topic target|k ok z| | |k now|i now| |i status]; cbn [settles]; rewrite ?app_nil_r.
  - exists d. split; [by eapply query_sim|done].
  - exists d. split; [|done]. cbn [step] in E. destruct (RemoteCalls.complete k ok z (net x)) as [n|] eqn:En; [|done]. injection E as <-.
    destruct (complete_net k ok z x n Hx En) as (? & ? & ?). by apply net_sim.
  - exists d. split; [|done]. cbn [step] in E. destruct (RemoteCalls.pollCompletionQueue (net x)) as [n|] eqn:En; [|done]. injection E as <-.
    destruct (poll_net x n Hx En) as (? & ? & ?). by apply net_sim.
  - exists d. split; [|done]. cbn [step] in E. destruct (RemoteCalls.begin (net x)) as [n|] eqn:En; [|done]. injection E as <-.
    destruct (begin_net x n Hx En) as (? & ? & ?). by apply net_sim.
  - cbn [step] in E. destruct (RemoteCalls.finish no_throw k (net x)) as [n|] eqn:En; [|done]. cbn [mbind option_bind] in E.
    destruct (finish_freed k x n Hx En) as (j & c & r & Er & F). rewrite Er, last_snoc in E. cbn [mbind option_bind] in E.
    unfold trusted in Hy. rewrite (handle_all_reports _ _ _ _ E) in Hy. cbn [net] in Hy. rewrite Er in Hy.
    apply Forall_app in Hy as [_ Hy]. apply Forall_cons in Hy as [Hw _]. cbn in Hw. apply Forall_cons in Hw as [Hw _].
    destruct (handle_sim now r x _ d Hs F Hw) as (y' & d' & Eh & Hd' & Hset). cbn [handle_all] in E. unfold with_net in Eh.
    rewrite Eh in E. injection E as <-. exists d'. split; [done|]. rewrite Er, last_snoc. cbn. by rewrite app_nil_r.
  - destruct (timers x !! i) as [n|] eqn:Ei; [|cbn [step] in E; by rewrite Ei in E].
    destruct (timer_sim i now n x d Hs Ei) as (y' & d' & Ey & Hd' & _ & Hset). rewrite Ey in E. injection E as <-. by exists d'.
  - by eapply dispatch_sim.
  - by eapply consume_sim.
Qed.

Lemma sim_make m : ClientManagerImpl.state_ m = STARTED -> sim (make s0 m) (Delivery.make s0).
Proof.
  intros Hm. split; [apply reach_init|]. split.
  - split; try done. by apply ninv_make.
  - by split.
Qed.

Lemma run_sim l x y d :
  sim x d -> run l x = Some y -> trusted y -> exists d', sim y d' /\ Delivery.settled d' = Delivery.settled d ++ settlements l x.
Proof.
  revert x d. induction l as [|a l IH]; intros x d Hs; cbn [run settlements]; [intros [= <-] _; exists d; by rewrite app_nil_r|].
  destruct (step a x) as [z|] eqn:E; [|done]. cbn [mbind option_bind]. intros Hr Hy.
  destruct (step_sim a x z d Hs E (trusted_run _ _ _ Hr Hy)) as (d' & Hd' & E'). destruct (IH z d' Hd' Hr Hy) as (d2 & H2 & E2).
  exists d2. split; [done|]. by rewrite E2, E', app_assoc.
Qed.

(** *** Calls come to their callbacks *)

(** What the network, the poller and the callback pool do before a callback runs. *)
Definition hop (a : action) : Prop := match a with Complete _ _ _ | Poll | Begin => True | _ => False end.

Definition at_worker (j : nat) (x : t) : Prop :=
  exists l y k ok, Forall hop l /\ run l x = Some y /\ ninv y /\ owners y = owners x /\ consumer y = consumer x
    /\ ThreadPoolImpl.busy_ (RemoteCalls.pool (net y)) !! k = Some (j, ok).

Lemma at_worker_hop j a x n :
  hop a -> step a x = Some (set_net n x) -> at_worker j (set_net n x) -> at_worker j x.
Proof.
  intros Ha E (l & y & k & ok & Hl & Hr & Hn & Ho & Hc & Hk). exists (a :: l), y, k, ok. split; [by constructor|].
  split; [|done]. cbn [run]. by rewrite E.
Qed.

Lemma posted_at_worker j ok p x :
  ninv x -> ThreadPoolImpl.posted_ (RemoteCalls.pool (net x)) !! p = Some (j, ok) -> at_worker j x.
Proof.
  revert x. induction p as [|p IH]; intros x Hx Hp;
    destruct (ThreadPoolImpl.posted_ (RemoteCalls.pool (net x))) as [|e posted] eqn:Ep; try done;
    destruct (RemoteCalls.i_started _ (n_net _ Hx) (n_started _ Hx)) as (_ & _ & Hst & Hsp);
    assert (E : exists n, RemoteCalls.begin (net x) = Some n /\ ThreadPoolImpl.posted_ (RemoteCalls.pool n) = posted
                  /\ ThreadPoolImpl.busy_ (RemoteCalls.pool n) = ThreadPoolImpl.busy_ (RemoteCalls.pool (net x)) ++ [e])
      by (unfold RemoteCalls.begin, ThreadPoolImpl.take; rewrite Ep, Hst, Hsp; cbn; by eexists);
    destruct E as (n & En & E1 & E2); destruct (begin_net x n Hx En) as (Hn & _);
    apply (at_worker_hop j Begin x n I ltac:(cbn [step]; by rewrite En)).
  - cbn in Hp. injection Hp as ->. exists [], (set_net n x), (length (ThreadPoolImpl.busy_ (RemoteCalls.pool (net x)))), ok.
    split; [constructor|]. split; [done|]. split_and!; try done. cbn. rewrite E2. by rewrite lookup_app_r, Nat.sub_diag by lia.
  - apply IH; [done|]. cbn. by rewrite E1.
Qed.

Lemma completed_at_worker j ok p x :
  ninv x -> RemoteCalls.completed (net x) !! p = Some (j, ok) -> at_worker j x.
Proof.
  revert x. induction p as [|p IH]; intros x Hx Hp; destruct (RemoteCalls.completed (net x)) as [|e l] eqn:Ec; try done;
    destruct (RemoteCalls.i_started _ (n_net _ Hx) (n_started _ Hx)) as (_ & _ & Hst & Hsp);
    assert (E : exists n, RemoteCalls.pollCompletionQueue (net x) = Some n /\ RemoteCalls.completed n = l
                  /\ ThreadPoolImpl.posted_ (RemoteCalls.pool n) = ThreadPoolImpl.posted_ (RemoteCalls.pool (net x)) ++ [e])
      by (unfold RemoteCalls.pollCompletionQueue, ThreadPoolImpl.submit; rewrite Ec, !decide_True by done; by eexists);
    destruct E as (n & En & E1 & E2); destruct (poll_net x n Hx En) as (Hn & _);
    apply (at_worker_hop j Poll x n I ltac:(cbn [step]; by rewrite En)).
  - cbn in Hp. injection Hp as ->.
    apply (posted_at_worker j ok (length (ThreadPoolImpl.posted_ (RemoteCalls.pool (net x))))); [done|].
    cbn. rewrite E2. by rewrite lookup_app_r, Nat.sub_diag by lia.
  - apply IH; [done|]. cbn. by rewrite E1.
Qed.

Lemma flying_at_worker j p x : ninv x -> RemoteCalls.flying (net x) !! p = Some j -> at_worker j x.
Proof.
  intros Hx Hp. set (z := fun m => mkCompletion false (RemoteCalls.response_default m)).
  assert (E : exists n, RemoteCalls.complete p true z (net x) = Some n
                /\ RemoteCalls.completed n = RemoteCalls.completed (net x) ++ [(j, true)])
    by (unfold RemoteCalls.complete; rewrite Hp; cbn; by eexists).
  destruct E as (n & En & E1). destruct (complete_net p true z x n Hx En) as (Hn & _).
  apply (at_worker_hop j (Complete p true z) x n I ltac:(cbn [step]; by rewrite En)).
  apply (completed_at_worker j true (length (RemoteCalls.completed (net x)))); [done|].
  cbn. rewrite E1. by rewrite lookup_app_r, Nat.sub_diag by lia.
Qed.

Lemma owner_at_worker j x : ninv x -> is_Some (owners x !! j) -> at_worker j x.
Proof.
  intros Hx Hj. pose proof (n_net _ Hx) as Hi. apply (n_owned _ Hx), (RemoteCalls.i_contexts _ Hi) in Hj as [Hlt Hnr].
  assert (Hin : j ∈ RemoteCalls.places (net x)) by (rewrite <- (RemoteCalls.i_places _ Hi), elem_of_seq; lia).
  destruct (RemoteCalls.i_started _ Hi (n_started _ Hx)) as (Hd & _). unfold RemoteCalls.places in Hin. rewrite Hd in Hin.
  rewrite !elem_of_app in Hin. destruct Hin as [Hin|[Hin|[Hin|[Hin|[Hin|Hin]]]]]; [| | | |by apply not_elem_of_nil in Hin|done].
  - apply list_elem_of_lookup in Hin as [p Hp]. by eapply flying_at_worker.
  - apply list_elem_of_fmap in Hin as ([? ok] & -> & Hin). apply list_elem_of_lookup in Hin as [p Hp]. by eapply completed_at_worker.
  - apply list_elem_of_fmap in Hin as ([? ok] & -> & Hin). apply list_elem_of_lookup in Hin as [p Hp]. by eapply posted_at_worker.
  - apply list_elem_of_fmap in Hin as ([? ok] & -> & Hin). apply list_elem_of_lookup in Hin as [p Hp].
    exists [], x, p, ok. split; [constructor|]. by split_and!.
Qed.

Lemma react_total handler x :
  ninv x -> Forall pops (snd (handler (consumer x))) -> exists y, react None handler x = Some y /\ ninv y.
Proof.
  intros Hx. unfold react. destruct (handler (consumer x)) as [s effects]. cbn [snd]. intros Hp.
  destruct (issue_all_spec None effects (set_consumer s x)) as (y & Ey & Iy); [by apply ninv_local|done|].
  exists y. split; [done|apply Iy].
Qed.

Lemma handle_total now r x :
  ninv x -> receive_message_policy_ (consumer x) = POLLING -> exists y, handle now r x = Some y /\ ninv y.
Proof.
  intros Hx Hp. destruct r as [n [ec|v]|h ec|topic f ec r]; cbn [handle received]; unfold assigned.
  - apply react_total; [done|]. apply later_pops.
  - apply react_total; [done|]. by apply success_pops.
  - eexists. split; [done|]. by apply ninv_local.
  - destruct (onQueryAssignment ec r (debug_string env r)) as [ec' a].
    destruct (react_total (onAssignment client_id now topic f ec' a) x Hx) as (y & -> & Hy).
    { unfold onAssignment. destruct (ec_bool ec'); [constructor|]. destruct a as [a|]; [|constructor].
      case_bool_decide; [constructor|]. by apply sync_pops. }
    eexists. split; [done|]. by apply ninv_local.
Qed.

(** A worker that has a call can run its callback to the end. *)
Lemma finish_total now k j ok o x :
  ninv x -> receive_message_policy_ (consumer x) = POLLING -> owners x !! j = Some o ->
  ThreadPoolImpl.busy_ (RemoteCalls.pool (net x)) !! k = Some (j, ok) ->
  exists y c r, step (Finish k now) x = Some y
    /\ RemoteCalls.reports (net y) = RemoteCalls.reports (net x) ++ [(j, (c, [r]))] /\ owner_of r = o.
Proof.
  intros Hx Hp Ho Hk. destruct (proj1 (n_owned _ Hx j) (ex_intro _ o Ho)) as [c Hc].
  assert (En : exists n, RemoteCalls.finish no_throw k (net x) = Some n
                 /\ exists told, RemoteCalls.reports n = RemoteCalls.reports (net x) ++ [(j, (c, told))]).
  { unfold RemoteCalls.finish. rewrite Hk. cbn [mbind option_bind]. rewrite Hc. cbn [mbind option_bind].
    unfold RemoteCalls.onCompletion. destruct (RemoteCalls.invoke c _) as [m told].
    assert (Hex : existsb no_throw told = false) by (by induction told). rewrite Hex. destruct ok; cbn; by eauto. }
  destruct En as (n & En & told & Hrep). destruct (finish_net k x n Hx En) as (j' & c' & o' & r & Er & Ho' & Ha & _ & Hn).
  rewrite Er in Hrep. apply app_inj_tail in Hrep as [_ [= <- <- <-]]. rewrite Ho in Ho'. injection Ho' as <-.
  destruct (handle_total now r _ Hn Hp) as (y & Ey & _). exists y, c', r.
  cbn [step]. rewrite En. cbn [mbind option_bind]. rewrite Er, last_snoc. cbn [mbind option_bind handle_all].
  unfold with_net in Ey. rewrite Ey. split; [done|]. split; [|apply Ha]. by rewrite (handle_reports _ _ _ _ Ey).
Qed.

Lemma settle_call_request e : exists r, ack_effect (Delivery.settle_call client_id s0 e) = Some r.
Proof. unfold Delivery.settle_call. destruct (snd (snd e)); by eexists. Qed.

(** *** What the node guarantees *)

(** C9: the consumer over the network is one of the histories of the consumer whose
    completions come out of nowhere: for every interleaving of the network, the poller, the
    callback pool, the timers, the dispatcher and the listeners there is one of assignments,
    receives, timers, dispatches and consumption that ends with the same queues, tasks and
    acknowledgements, and in which the pending receives are the timers and the calls under
    way. *)
Theorem node_refines_delivery l m x :
  ClientManagerImpl.state_ m = STARTED -> run l (make s0 m) = Some x -> trusted x ->
  exists l' d, Forall Delivery.legal l' /\ Delivery.run client_id l' (Delivery.make s0) = Some d
    /\ Delivery.consumer d = consumer x /\ Delivery.tasks d = tasks x
    /\ Delivery.pending d ≡ₚ timers x ++ receiving x /\ Delivery.unanswered d ≡ₚ settling x
    /\ wire x = omap ack_effect (Delivery.calls d).
Proof.
  intros Hm Hr Ht. destruct (run_sim l _ x _ (sim_make m Hm) Hr Ht) as (d & ((l' & Hl & Hd) & [_ S2 S3 S4 S5 S6] & _) & _).
  exists l', d. by split_and!.
Qed.

(** C8: nothing is lost or settled twice between the wire and the wire.  The
    acknowledgements given to the network are, in order, one per message the filter of its
    queue rejected on receipt and per message of a task the listener answered for, to
    the broker the message came from, positive exactly when it was rejected or consumed with
    success.  Every message the receive callbacks of a live queue were given is cached, in
    a task of the pool, or settled, and the quota of the queue counts the first two; of a
    queue that is gone nothing was settled more often than it was received. *)
Theorem node_conserves l m x :
  ClientManagerImpl.state_ m = STARTED -> run l (make s0 m) = Some x -> trusted x ->
  let settled := settlements l (make s0 m) in
  map Some (wire x) = map (fun e => ack_effect (Delivery.settle_call client_id s0 e)) settled
  /\ (forall n q, find_object n (consumer x) = Some q ->
         heard n (RemoteCalls.reports (net x)) ≡ₚ
           ProcessQueueImpl.cached_messages_ q ++ concat (Delivery.entries n (tasks x)) ++ map fst (Delivery.entries n settled)
         /\ ProcessQueueImpl.cached_message_quantity_ q
              = u32 (zlen (ProcessQueueImpl.cached_messages_ q ++ concat (Delivery.entries n (tasks x)))))
  /\ (forall n, concat (Delivery.entries n (tasks x)) ++ map fst (Delivery.entries n settled)
                 ⊆+ heard n (RemoteCalls.reports (net x))).
Proof.
  intros Hm Hr Ht. destruct (run_sim l _ x _ (sim_make m Hm) Hr Ht) as (d & (Hd & [_ S2 S3 S4 S5 S6] & [L _ A]) & Eset).
  cbn [Delivery.make Delivery.settled app] in Eset. cbn zeta. rewrite <- Eset. pose proof (reach_dinv d Hd) as Hi. split_and!.
  - rewrite S6, (Delivery.di_calls _ _ _ Hi). generalize (Delivery.settled d). intros k. induction k as [|e k IH]; [done|].
    destruct (settle_call_request e) as [r Er]. cbn in *. rewrite Er. cbn. by rewrite IH.
  - intros n q E. rewrite <- L by (by rewrite E). rewrite <- S2 in E.
    destruct (Delivery.di_conserved _ _ _ Hi n q E) as [HP [Hq _]]. unfold Delivery.inflight, ProcessQueueImpl.held in *.
    rewrite <- S3. by split.
  - intros n. rewrite <- S3. etransitivity; [|exact (A n)]. exact (reach_settled d Hd n).
Qed.

(** C10: no assigned queue is forgotten: for every queue of the table either a timer of it
    runs and can fire, or a receive call of it is under way and the network, the poller and
    the pool can bring it to a worker, which runs its callback to the end and reports to
    that queue. *)
Theorem node_never_stalls l m x k o :
  ClientManagerImpl.state_ m = STARTED -> run l (make s0 m) = Some x -> trusted x ->
  process_queue_table_ (consumer x) !! k = Some o ->
  (exists i, timers x !! i = Some (queue_number o) /\ forall now, is_Some (step (Timer i now) x))
  \/ (exists hops y w, Forall hop hops /\ run hops x = Some y
       /\ forall now, exists z j c v, step (Finish w now) y = Some z
            /\ RemoteCalls.reports (net z)
               = RemoteCalls.reports (net y) ++ [(j, (c, [ReceiveReport (queue_number o) v]))]).
Proof.
  intros Hm Hr Ht Ek. destruct (run_sim l _ x _ (sim_make m Hm) Hr Ht) as (d & Hsim & _). pose proof Hsim as (Hd & Hsh & _).
  destruct (reach_cinv d Hd) as [w [_ Hsome _]].
  assert (Hin : queue_number o ∈ timers x ++ receiving x).
  { rewrite <- (sh_pending _ _ Hsh). apply list_elem_of_In, (count_occ_In Nat.eq_dec).
    pose proof (Hsome (queue_number o)) as H. cbn in H. rewrite (sh_consumer _ _ Hsh) in H.
    destruct H as [H _]; [|lia]. eexists k, _. exact (idents_lookup _ _ _ Ek). }
  apply elem_of_app in Hin as [Hin|Hin].
  - left. apply list_elem_of_lookup in Hin as [i Hi]. exists i. split; [done|]. intros now.
    destruct (timer_sim i now _ x d Hsim Hi) as (y & _ & Ey & _). by exists y.
  - right. apply owned_elem in Hin as (j & own & Hj & Hown). pose proof (sh_inv _ _ Hsh) as Hx.
    destruct (owner_at_worker j x Hx (ex_intro _ own Hj)) as (hops & y & w' & ok & Hh & Hry & Hy & Ho & Hc & Hw).
    exists hops, y, w'. split; [done|]. split; [done|]. intros now. rewrite <- Ho in Hj.
    destruct (finish_total now w' j ok own y Hy) as (z & c & r & Ez & Hrep & Hr'); [|done|done|].
    { rewrite Hc, <- (sh_consumer _ _ Hsh). exact (proj1 (proj2 (Delivery.di_polls _ _ _ (reach_dinv d Hd)))). }
    subst own. destruct r as [n v| |]; [|done|done]. injection Hown as ->. by exists z, j, c, v.
Qed.

End refinement.
End node.

(** ** A concrete history: the broker assigns two queues; one of them receives a message and
    a corrupted one, and the message is dispatched and its consumption fails. *)
Definition example_partition (i : Z) : rmq.Partition :=
  rmq.mkPartition (rmq.mkResource "" "TopicTest") i rmq.READ
    (rmq.mkBroker "broker" 0 (rmq.mkEndpoints rmq.IPv4 [rmq.mkAddress "10.0.0.1" 8080])).

Definition example_response (m : RemoteCalls.Method) : Completion (RemoteCalls.response_of m) :=
  match m with
  | RemoteCalls.QueryAssignment =>
      mkCompletion true (rmq.mkQueryAssignmentResponse (rmq.mkResponseCommon OK "") [example_partition 1; example_partition 0])
  | m => ReceivePath.example_response m
  end.

Definition example_env : Env :=
  mkEnv (fun _ => ∅) (fun _ => 0) (fun _ => "0100"%string) (fun _ _ => true) (fun _ => 0)
    (rmq.mkEndpoints rmq.IPv4 []) (fun _ => ""%string).

Definition example_history : list action :=
  [Query "TopicTest" "ipv4:10.0.0.1:8080"; Complete 0 true example_response; Poll; Begin; Finish 0 0;
   Complete 1 true example_response; Poll; Begin; Finish 0 5; Dispatch; Consume 0 FAILURE].

Definition example_run (l : list action) : @t (gset string) -> option t :=
  run toy_crc32 (fun _ => None) (fun _ => []) toy_zlib toy_fresh (fun _ => ""%string) "client" example_env l.

Definition example_start : t := make example_consumer RemoteCalls.example_manager.
Definition example_settlements : list (nat * (MQMessage.t * ConsumeMessageResult)) :=
  settlements toy_crc32 (fun _ => None) (fun _ => []) toy_zlib toy_fresh (fun _ => ""%string) "client" example_env
    example_history example_start.
Definition example_summary (x : @t (gset string)) : list nat * list nat * nat * nat * nat * bool * bool :=
  (timers x, receiving x, length (settling x), length (wire x), length (heard 1 (RemoteCalls.reports (net x))),
   bool_decide (trusted example_env x),
   bool_decide (queue_number <$> process_queue_table_ (consumer x) !! ("TopicTest", "broker", 1)%string = Some 1%nat)).

Lemma node_example_outcome :
  option_map example_summary (example_run example_history example_start) = Some ([], [1; 0], 1, 1, 1, true, true)%nat.
Proof. vm_compute. reflexivity. Qed.

Lemma node_refines_delivery_witness :
  exists x l' d, example_run example_history example_start = Some x
    /\ Delivery.run "client" l' (Delivery.make example_consumer) = Some d
    /\ Delivery.consumer d = consumer x /\ Delivery.pending d ≡ₚ [1; 0]%nat.
Proof.
  pose proof node_example_outcome as H. destruct (example_run example_history example_start) as [x|] eqn:E; [|discriminate].
  injection H as H1 H2 _ _ _ H6 _. change (bool_decide (trusted example_env x) = true) in H6. apply bool_decide_eq_true in H6.
  destruct (node_refines_delivery toy_crc32 (fun _ => None) (fun _ => []) toy_zlib toy_fresh (fun _ => ""%string) "client" example_env
              example_consumer (conj (Z.le_refl 1) eq_refl) eq_refl eq_refl Delivery.example_starts
              example_history RemoteCalls.example_manager x eq_refl E H6) as (l' & d & _ & Hr & Hc & _ & Hp & _).
  exists x, l', d. split; [reflexivity|]. split; [exact Hr|]. split; [exact Hc|].
  change (receiving x = [1; 0]%nat) in H2. rewrite H1, H2 in Hp. exact Hp.
Defined.

Lemma node_conserves_witness :
  exists x q, let settled := example_settlements in
    example_run example_history example_start = Some x
    /\ find_object 1 (consumer x) = Some q /\ length settled = 1%nat /\ map (fun e => snd (snd e)) settled = [FAILURE]
    /\ length (heard 1 (RemoteCalls.reports (net x))) = 1%nat
    /\ heard 1 (RemoteCalls.reports (net x)) ≡ₚ
         ProcessQueueImpl.cached_messages_ q ++ concat (Delivery.entries 1 (tasks x)) ++ map fst (Delivery.entries 1 settled).
Proof.
  pose proof node_example_outcome as H. destruct (example_run example_history example_start) as [x|] eqn:E; [|discriminate].
  injection H as H1 H2 _ H4 H5 H6 H7. change (bool_decide (trusted example_env x) = true) in H6. apply bool_decide_eq_true in H6.
  change (bool_decide (queue_number <$> process_queue_table_ (consumer x) !! ("TopicTest", "broker", 1)%string = Some 1%nat) = true) in H7.
  apply bool_decide_eq_true in H7.
  destruct (node_conserves toy_crc32 (fun _ => None) (fun _ => []) toy_zlib toy_fresh (fun _ => ""%string) "client" example_env
              example_consumer (conj (Z.le_refl 1) eq_refl) eq_refl eq_refl Delivery.example_starts
              example_history RemoteCalls.example_manager x eq_refl E H6) as (Hw & Hn & _).
  destruct (find_object 1 (consumer x)) as [q|] eqn:Eq.
  2: { exfalso. clear -E Eq. assert (Hb : option_map (fun x => bool_decide (is_Some (find_object 1 (consumer x))))
                                    (example_run example_history example_start) = Some true) by (vm_compute; reflexivity).
       rewrite E in Hb. injection Hb as Hb. apply bool_decide_eq_true in Hb. rewrite Eq in Hb. destruct Hb as [? Hb]. discriminate Hb. }
  exists x, q. split; [reflexivity|]. split; [exact Eq|]. split; [|split; [vm_compute; reflexivity|split; [exact H5|exact (proj1 (Hn 1%nat q Eq))]]].
  apply (f_equal length) in Hw. rewrite !length_map in Hw. transitivity (length (wire x)); [symmetry; exact Hw|exact H4].
Defined.

Lemma node_never_stalls_witness :
  exists x hops y w, example_run example_history example_start = Some x /\ example_run hops x = Some y
    /\ exists z j c v, step toy_crc32 (fun _ => None) (fun _ => []) toy_zlib toy_fresh (fun _ => ""%string) "client" example_env
                         (Finish w 0) y = Some z
         /\ RemoteCalls.reports (net z) = RemoteCalls.reports (net y) ++ [(j, (c, [ReceiveReport 1 v]))].
Proof.
  pose proof node_example_outcome as H. destruct (example_run example_history example_start) as [x|] eqn:E; [|discriminate].
  injection H as H1 H2 _ _ _ H6 H7. change (bool_decide (trusted example_env x) = true) in H6. apply bool_decide_eq_true in H6.
  change (bool_decide (queue_number <$> process_queue_table_ (consumer x) !! ("TopicTest", "broker", 1)%string = Some 1%nat) = true) in H7.
  apply bool_decide_eq_true in H7. apply fmap_Some in H7 as (o & Eo & En).
  destruct (node_never_stalls toy_crc32 (fun _ => None) (fun _ => []) toy_zlib toy_fresh (fun _ => ""%string) "client" example_env
              example_consumer (conj (Z.le_refl 1) eq_refl) eq_refl eq_refl Delivery.example_starts
              example_history RemoteCalls.example_manager x _ o eq_refl E H6 Eo) as [(i & Hi & _)|(hops & y & w & _ & Hr & Hz)].
  - exfalso. rewrite H1 in Hi. discriminate Hi.
  - exists x, hops, y, w. split; [reflexivity|]. split; [exact Hr|]. destruct (Hz 0) as (z & j & c & v & Ez & Hrep).
    exists z, j, c, v. rewrite En. split; [exact Ez|exact Hrep].
Defined.

End Node.
