(* ===== verification/PullConsumer.v ===== *)
(** * The pull consumer.

    [PullConsumerImpl] (rocketmq/PullConsumerImpl.cpp), [AwaitPullCallback] and the
    synchronous [pull] of [DefaultMQPullConsumer].  A promise is the value or the error
    code its future ends with. *)

From S2P Require Import Prelude Types Message MixAll Proto Route Config Codec ClientManager ClientImpl.

Inductive QueryOffsetPolicy := BEGINNING | END_ | TIME_POINT.

(** Times and durations are nanoseconds. *)
Record OffsetQuery := mkOffsetQuery {
  query_queue : MQMessageQueue.t;
  query_policy : QueryOffsetPolicy;
  query_time_point : Z;
}.

Record PullMessageQuery := mkPullMessageQuery {
  pull_queue : MQMessageQueue.t;
  pull_from : Z;
  pull_batch : Z;
  pull_await : Z;
  pull_timeout : Z;
}.

Module PullResult.
Record t := mk { min_ : Z; max_ : Z; next_ : Z; messages_ : list MQMessage.t }.
End PullResult.

Module AwaitPullCallback.
Record t := mk { pull_result_ : PullResult.t; completed_ : bool; ec_ : error_code }.
Definition make (r : PullResult.t) : t := mk r false Success.
Definition onSuccess (r : PullResult.t) (s : t) : t := mk r true (ec_ s).
Definition onFailure (ec : error_code) (s : t) : t := mk (pull_result_ s) true ec.
Definition hasFailure (s : t) : bool := ec_bool (ec_ s).
(** [None] while it waits. *)
Definition await (s : t) : option bool := if completed_ s then Some (negb (hasFailure s)) else None.
End AwaitPullCallback.

Module PullConsumerImpl.

Record t := mk { client : ClientImpl.t; message_model_ : MessageModel }.

Definition make (group_name : string) : t := mk (ClientImpl.make group_name) CLUSTERING.

Definition resource_namespace_ (s : t) : string := ClientConfigImpl.resource_namespace_ (ClientImpl.config (client s)).
Definition group_name_ (s : t) : string := ClientConfigImpl.group_name_ (ClientImpl.config (client s)).

(** The flag says whether the consumer registers itself with the client manager. *)
Definition start (handle : Z) (s : t) : t * list ClientImpl.effect * bool :=
  let '(c, effects) := ClientImpl.start handle (client s) in
  (mk c (message_model_ s), effects, bool_decide (ClientImpl.state_ c = STARTED)).

Definition shutdown (client_id : string) (s : t) : t * list ClientImpl.effect :=
  let '(c, effects) := ClientImpl.shutdown client_id (client s) in
  let '(_, st) := compare_exchange_strong (ClientImpl.state_ c) STOPPING STOPPED in
  (mk (ClientImpl.set_state st c) (message_model_ s), effects).

Definition queues_of_route (r : TopicRouteData.t) : list MQMessageQueue.t :=
  map Partition.asMessageQueue (TopicRouteData.partitions_ r).

(** [route] is what [getRouteFor] gives its callback when the table has no entry; [None]
    is a null route without an error, which is dereferenced. *)
Definition queuesFor (route : error_code * option TopicRouteData.t) (topic : string) (s : t)
    : option (error_code + list MQMessageQueue.t) :=
  match ClientImpl.topic_route_table_ (client s) !! topic with
  | Some r => Some (inr (queues_of_route r))
  | None => if ec_bool (fst route) then Some (inl (fst route))
            else r ← snd route; Some (inr (queues_of_route r))
  end.

(** [absl::ToInt64Seconds] and the remaining nanoseconds. *)
Definition to_timestamp (duration : Z) : rmq.Timestamp :=
  let seconds := Z.quot duration 1000000000 in
  rmq.mkTimestamp seconds (i32 (duration - seconds * 1000000000)).

Definition partition_of (mq : MQMessageQueue.t) (s : t) : rmq.Partition :=
  rmq.mkPartition (rmq.mkResource (resource_namespace_ s) (MQMessageQueue.topic_ mq)) (MQMessageQueue.queue_id_ mq)
    rmq.NONE rmq.Broker_default.

Definition queryOffset_request (q : OffsetQuery) (s : t) : rmq.QueryOffsetRequest :=
  match query_policy q with
  | BEGINNING => rmq.mkQueryOffsetRequest (partition_of (query_queue q) s) rmq.BEGINNING None
  | END_ => rmq.mkQueryOffsetRequest (partition_of (query_queue q) s) rmq.END_ None
  | TIME_POINT => rmq.mkQueryOffsetRequest (partition_of (query_queue q) s) rmq.TIME_POINT
                    (Some (to_timestamp (query_time_point q)))
  end.

Definition onQueryOffset (ec : error_code) (response : rmq.QueryOffsetResponse) : error_code + Z :=
  if ec_bool ec then inl ec else inr (rmq.offset response).

(** The batch size of the query is not put into the request. *)
Definition pull_request (client_id : string) (q : PullMessageQuery) (s : t) : rmq.PullMessageRequest :=
  rmq.mkPullMessageRequest (rmq.mkResource (resource_namespace_ s) (group_name_ s)) (partition_of (pull_queue q) s)
    (pull_from q) 0 (to_timestamp (pull_await q)) (rmq.mkFilterExpression rmq.TAG "") client_id.

Definition prepareHeartbeatData (client_id : string) (s : t) : rmq.HeartbeatRequest :=
  rmq.mkHeartbeatRequest client_id
    (rmq.consumer_data
       (rmq.mkConsumerData (rmq.mkResource (resource_namespace_ s) (group_name_ s)) []
          (match message_model_ s with BROADCASTING => rmq.BROADCASTING | CLUSTERING => rmq.CLUSTERING end)
          rmq.RESUME 0 rmq.ACTIVE))
    false.

Section pull.
Context (zlib_crc32 : string -> Z) (MD5 : string -> option (list Z)) (SHA1 : string -> list Z)
  (zlib : Zlib) (fresh : MQMessage.t).

(** The loop over the messages of a response. *)
Fixpoint wrap_all (now : Z) (items : list rmq.Message) (h : Histogram.t) : list MQMessage.t * Histogram.t :=
  match items with
  | [] => ([], h)
  | item :: items' =>
      let '(ok, m, h) := Decode.wrapMessage zlib_crc32 MD5 SHA1 zlib now item fresh h in
      let '(l, h) := wrap_all now items' h in
      (if ok then m :: l else l, h)
  end.

(** The completion of a pull: [inl] is [onFailure], [inr] is [onSuccess]. *)
Definition on_pulled (now : Z) (x : Completion rmq.PullMessageResponse) (h : Histogram.t)
    : (error_code + PullResult.t) * Histogram.t :=
  if negb (status_ok x) then (inl RequestTimeout, h)
  else
    match rmq.code (rmq.pull_common (response x)) with
    | OK =>
        let '(messages, h) := wrap_all now (rmq.pull_messages (response x)) h in
        (inr (PullResult.mk (rmq.min_offset (response x)) (rmq.max_offset (response x)) (rmq.next_offset (response x))
                messages), h)
    | PERMISSION_DENIED => (inl Forbidden, h)
    | UNAUTHENTICATED => (inl Unauthorized, h)
    | DEADLINE_EXCEEDED => (inl GatewayTimeout, h)
    | INVALID_ARGUMENT => (inl BadRequest, h)
    | INTERNAL => (inl InternalServerError, h)
    | _ => (inl NotImplemented, h)
    end.

(** [DefaultMQPullConsumer::pull]: the flag returned and the caller's result. *)
Definition pull_sync (now : Z) (x : Completion rmq.PullMessageResponse) (pull_result : PullResult.t) (h : Histogram.t)
    : option bool * PullResult.t :=
  let cb := AwaitPullCallback.make pull_result in
  let cb := match fst (on_pulled now x h) with
            | inl ec => AwaitPullCallback.onFailure ec cb
            | inr r => AwaitPullCallback.onSuccess r cb
            end in
  (AwaitPullCallback.await cb, AwaitPullCallback.pull_result_ cb).

Lemma wrap_all_omap now items h :
  fst (wrap_all now items h) = omap (decoded zlib_crc32 MD5 SHA1 zlib now fresh) items.
Proof.
  revert h. induction items as [|item items IH]; intros h; cbn [wrap_all]; [done|].
  pose proof (wrapMessage_decoded zlib_crc32 MD5 SHA1 zlib now item fresh h) as H.
  cbn [omap list_omap]. destruct (decoded _ _ _ _ _ _ item) as [m'|].
  - rewrite H. specialize (IH (Decode.record_latency now m' h)). destruct (wrap_all _ _ _). cbn in *. by rewrite IH.
  - destruct (Decode.wrapMessage _ _ _ _ _ _ _ _) as [[ok m0] h0]. cbn in H. destruct H as [-> ->].
    specialize (IH h). by destruct (wrap_all _ _ _).
Qed.

(** A synchronous pull always returns; it returns true exactly when the server answered
    OK, and then gives the caller the offsets of the answer and, in order, the messages
    that pass their integrity check; otherwise it leaves the caller's result alone. *)
Theorem pull_delivers now x r h :
  exists flag, fst (pull_sync now x r h) = Some flag
    /\ (flag = true <-> status_ok x = true /\ rmq.code (rmq.pull_common (response x)) = OK)
    /\ snd (pull_sync now x r h)
       = if flag then PullResult.mk (rmq.min_offset (response x)) (rmq.max_offset (response x))
                        (rmq.next_offset (response x))
                        (omap (decoded zlib_crc32 MD5 SHA1 zlib now fresh) (rmq.pull_messages (response x)))
         else r.
Proof.
  unfold pull_sync, on_pulled. destruct (status_ok x); cbn [negb]; [|exists false; cbn; split_and!; try done; naive_solver].
  pose proof (wrap_all_omap now (rmq.pull_messages (response x)) h) as H.
  destruct (rmq.code (rmq.pull_common (response x)));
    try (exists false; cbn; split_and!; try done; naive_solver).
  destruct (wrap_all now (rmq.pull_messages (response x)) h) as [l h']. cbn in *. subst l.
  exists true. split_and!; try done.
Qed.
End pull.

(** The time a query carries is the time it was given, to the nanosecond. *)
Lemma to_timestamp_exact d :
  rmq.seconds (to_timestamp d) * 1000000000 + rmq.nanos (to_timestamp d) = d.
Proof.
  unfold to_timestamp. cbn. pose proof (Z.quot_rem' d 1000000000) as E.
  pose proof (Z.rem_bound_abs d 1000000000 ltac:(lia)) as Hr.
  rewrite i32_small; lia.
Qed.

End PullConsumerImpl.
