(* ===== verification/Waits.v ===== *)
(** * Waiting for a callback.

    The synchronous operations of the client start an asynchronous one and block on a
    condition variable until its callback has run: [AwaitSendCallback]
    (rocketmq/SendCallbacks.cpp), [AwaitPullCallback] (rocketmq/AwaitPullCallback.cpp),
    [ProducerImpl::getPublishInfo], [listMessageQueue] and [endTransaction0]
    (rocketmq/ProducerImpl.cpp), [PushConsumerImpl::fetchRoutes], the refresh of
    [StsCredentialsProviderImpl], [ThreadPoolImpl::start] and [SchedulerImpl::start].  The
    other files take the end of such a wait for granted.  Here the two threads are run statement by
    statement, in every interleaving: the thread that waits, which owns the mutex, the
    condition variable and the result on its stack, and the one that notifies it.

    The waits differ in where they test that the result is there, and the callbacks in what
    they do outside the lock; the theorems say which combinations always end, with the
    result, and no later access to the frame of the caller. *)

From S2P Require Import Prelude Types Message Route Codec Producer PullConsumer.

Module Waits.

(** ** The two threads *)

(** [Held]: lock, test in a loop, wait; [HeldOnce]: lock, test once, wait; [Outside]: test in
    a loop, and in its body lock and wait; [Blind]: lock and wait. *)
Inductive discipline := Held | HeldOnce | Outside | Blind.

#[global] Instance discipline_eq_dec : EqDecision discipline.
Proof. solve_decision. Defined.

(** The waiting thread: before the unlocked test; before [lock]; before the test or the wait,
    under the lock; asleep, and awake without the lock; before [unlock]; before it reads the
    result; returned, with its frame gone. *)
Inductive stage := Check | Acquire | Test | Wait | Sleep | Reacquire | Leave | Read | Gone.

#[global] Instance stage_eq_dec : EqDecision stage.
Proof. solve_decision. Defined.

Inductive thread := Waiter | Notifier.

#[global] Instance thread_eq_dec : EqDecision thread.
Proof. solve_decision. Defined.

Section machine.
Context {O : Type} (completed : O -> bool).

(** A callback: the assignments before it takes the lock, those under the lock before
    [SignalAll], and those under the lock after it. *)
Record notifier := mkNotifier {
  before : list (O -> O);
  inside : list (O -> O);
  after : list (O -> O);
}.

(** What is left of it: up to the lock, up to the signal, up to [unlock]; nothing. *)
Inductive place :=
  | Before (l : list (O -> O))
  | Inside (l : list (O -> O))
  | Signalled (l : list (O -> O))
  | Returned.

(** [result] is what the caller finally read; [dangling] says that the callback touched the
    mutex, the condition variable or the result after the caller had returned. *)
Record t := mk {
  object : O;
  mutex : option thread;
  notifies : place;
  waits : stage;
  result : option O;
  dangling : bool;
}.

Context (d : discipline) (p : notifier) (o0 : O).

Definition start : t :=
  mk o0 None (Before (before p)) (match d with Outside => Check | _ => Acquire end) None false.

Definition at_stage (g : stage) (m : option thread) (s : t) : t :=
  mk (object s) m (notifies s) g (result s) (dangling s).

Definition lock (s : t) : option unit := match mutex s with None => Some () | Some _ => None end.

(** One statement of the waiting thread. *)
Definition wait_step (s : t) : option t :=
  match waits s with
  | Check => Some (at_stage (if completed (object s) then Read else Acquire) (mutex s) s)
  | Acquire =>
      _ ← lock s;
      Some (at_stage (match d with Held | HeldOnce => Test | _ => Wait end) (Some Waiter) s)
  | Test => Some (if completed (object s) then at_stage Leave (mutex s) s else at_stage Sleep None s)
  | Wait => Some (at_stage Sleep None s)
  | Sleep => None
  | Reacquire => _ ← lock s; Some (at_stage (match d with Held => Test | _ => Leave end) (Some Waiter) s)
  | Leave => Some (at_stage (match d with Outside => Check | _ => Read end) None s)
  | Read => Some (mk (object s) (mutex s) (notifies s) Gone (Some (object s)) (dangling s))
  | Gone => None
  end.

Definition wake (g : stage) : stage := match g with Sleep => Reacquire | _ => g end.

(** One statement of the callback. *)
Definition notify_step (s : t) : option t :=
  let go o m l g := Some (mk o m l g (result s) (dangling s || bool_decide (waits s = Gone))) in
  match notifies s with
  | Before (f :: l) => go (f (object s)) (mutex s) (Before l) (waits s)
  | Before [] => _ ← lock s; go (object s) (Some Notifier) (Inside (inside p)) (waits s)
  | Inside (f :: l) => go (f (object s)) (mutex s) (Inside l) (waits s)
  | Inside [] => go (object s) (mutex s) (Signalled (after p)) (wake (waits s))
  | Signalled (f :: l) => go (f (object s)) (mutex s) (Signalled l) (waits s)
  | Signalled [] => go (object s) None Returned (waits s)
  | Returned => None
  end.

(** [Spurious] is a wake-up without a signal. *)
Inductive action := Runs (who : thread) | Spurious.

Definition step (a : action) (s : t) : option t :=
  match a with
  | Runs Waiter => wait_step s
  | Runs Notifier => notify_step s
  | Spurious => if decide (waits s = Sleep) then Some (at_stage Reacquire (mutex s) s) else None
  end.

Fixpoint run (l : list action) (s : t) : option t :=
  match l with [] => Some s | a :: l' => y ← step a s; run l' y end.

(** ** The state of the two threads *)

Definition execute (l : list (O -> O)) (o : O) : O := fold_left (fun o f => f o) l o.

(** The object as the signal finds it, and as the callback leaves it. *)
Definition signalled : O := execute (inside p) (execute (before p) o0).
Definition final : O := execute (after p) signalled.

Definition keeps_completed (f : O -> O) : Prop := forall o, completed o = true -> completed (f o) = true.

Definition data (s : t) : Prop :=
  match notifies s with
  | Before l => execute (inside p) (execute l (object s)) = signalled
  | Inside l => execute l (object s) = signalled
  | Signalled l => execute l (object s) = final /\ completed (object s) = true /\ Forall keeps_completed l
  | Returned => object s = final /\ completed (object s) = true
  end.

Definition is_signalled (x : place) : Prop := match x with Signalled _ | Returned => True | _ => False end.
Definition in_section (x : place) : Prop := match x with Inside _ | Signalled _ => True | _ => False end.

Record inv (s : t) : Prop := {
  inv_data : data s;
  inv_notifier : mutex s = Some Notifier <-> in_section (notifies s);
  inv_waiter : mutex s = Some Waiter <-> waits s = Test \/ waits s = Wait \/ waits s = Leave;
  inv_result : is_Some (result s) <-> waits s = Gone;
}.

(** The result is there when the signal is given, and stays. *)
Hypothesis completes : completed signalled = true.
Hypothesis stays : Forall keeps_completed (after p).

Lemma inv_start : inv start.
Proof.
  split; cbn; [done|done| |by split; [intros []|destruct d]]. split; [done|]. destruct d; by intros [?|[?|?]].
Qed.

Lemma waiter_alone s : inv s -> mutex s = Some Waiter -> ~ in_section (notifies s).
Proof. intros [_ H _ _] E Hi. apply H in Hi. congruence. Qed.

Lemma data_at_stage g m s : data (at_stage g m s) = data s.
Proof. done. Qed.

Lemma inv_wait s s' : inv s -> wait_step s = Some s' -> inv s'.
Proof.
  intros Hi. pose proof (waiter_alone s Hi) as Hal. destruct Hi as [H1 H2 H3 H4]. unfold wait_step, lock.
  destruct (waits s) eqn:Ew; try discriminate.
  - intros [= <-]. split; cbn; [done|done| |by rewrite H4; split; [|repeat case_match]].
    rewrite H3. destruct (completed (object s)); split; intros [?|[?|?]]; done.
  - destruct (mutex s) eqn:Em; [done|]. intros [= <-]. split; cbn; [done| | |by rewrite H4; split; [|repeat case_match]].
    + split; [done|]. intros Hs. by apply H2 in Hs.
    + split; [destruct d; tauto|done].
  - assert (Em : mutex s = Some Waiter) by tauto.
    destruct (completed (object s)); intros [= <-]; (split; cbn; [done| | |by rewrite H4; split; [|repeat case_match]]).
    + exact H2.
    + tauto.
    + split; [done|]. intros Hs. by apply Hal in Hs.
    + split; [done|]. by intros [?|[?|?]].
  - assert (Em : mutex s = Some Waiter) by tauto. intros [= <-]. split; cbn; [done| | |by rewrite H4; split; [|repeat case_match]].
    + split; [done|]. intros Hs. by apply Hal in Hs.
    + split; [done|]. by intros [?|[?|?]].
  - destruct (mutex s) eqn:Em; [done|]. intros [= <-]. split; cbn; [done| | |by rewrite H4; split; [|repeat case_match]].
    + split; [done|]. intros Hs. by apply H2 in Hs.
    + split; [destruct d; tauto|done].
  - assert (Em : mutex s = Some Waiter) by tauto. intros [= <-]. split; cbn; [done| | |by rewrite H4; split; [|repeat case_match]].
    + split; [done|]. intros Hs. by apply Hal in Hs.
    + split; [done|]. destruct d; by intros [?|[?|?]].
  - intros [= <-]. split; cbn; [done|done| |done]. rewrite H3. by split; intros [?|[?|?]].
Qed.

Lemma inv_notify s s' : inv s -> notify_step s = Some s' -> inv s'.
Proof.
  intros [H1 H2 H3 H4]. unfold notify_step, lock. unfold data in H1.
  assert (Hw : waits s = Test \/ waits s = Wait \/ waits s = Leave <-> wake (waits s) = Test \/ wake (waits s) = Wait \/ wake (waits s) = Leave).
  { destruct (waits s); cbn; split; intros [?|[?|?]]; tauto || discriminate. }
  destruct (notifies s) as [[|f l]|[|f l]|[|f l]|] eqn:En; cbn [in_section] in H2.
  - destruct (mutex s) eqn:Em; [done|]. intros [= <-]. split; cbn; [exact H1|done| |done].
    split; [done|]. intros Hs. by apply H3 in Hs.
  - intros [= <-]. by split.
  - intros [= <-]. split; cbn; [|done|by rewrite <- Hw|by rewrite H4; destruct (waits s)]. unfold data. cbn in H1 |- *. by rewrite H1.
  - intros [= <-]. by split.
  - destruct H1 as (H1 & Hc & _). intros [= <-]. split; cbn; [done|done| |done].
    split; [done|]. intros Hs%H3. destruct H2 as [_ H2]. by rewrite H2 in Hs.
  - destruct H1 as (H1 & Hc & [Hf Hl]%Forall_cons). intros [= <-]. split; cbn; [|done|done|done]. by split_and!; [|apply Hf|].
  - done.
Qed.

Lemma inv_step a s s' : inv s -> step a s = Some s' -> inv s'.
Proof.
  destruct a as [[|]|]; cbn [step]; [apply inv_wait|apply inv_notify|].
  intros [H1 H2 H3 H4]. case_decide as Ew; [|done]. intros [= <-]. split; cbn; [done|done| |by rewrite H4, Ew; split].
  rewrite H3, Ew. by split; intros [?|[?|?]].
Qed.

(** ** A wait that tests under the lock ends *)

Hypothesis tests : d = Held \/ d = HeldOnce.

(** The sleeper is never forgotten. *)
Definition attentive (s : t) : Prop :=
  waits s <> Check /\ waits s <> Wait /\ (waits s = Sleep -> ~ is_signalled (notifies s)).

Lemma attentive_start : attentive start.
Proof. unfold attentive. cbn. by destruct tests as [-> | ->]. Qed.

Lemma data_completed s : data s -> is_signalled (notifies s) -> completed (object s) = true.
Proof. unfold data. destruct (notifies s); cbn; tauto. Qed.

Lemma attentive_step a s s' : inv s -> attentive s -> step a s = Some s' -> attentive s'.
Proof.
  intros [H1 H2 H3 H4] (A1 & A2 & A3). destruct a as [[|]|]; cbn [step].
  - unfold wait_step, lock. pose proof (data_completed s H1) as Hc. destruct (waits s) eqn:Ew; try done.
    1, 3: destruct (mutex s); [done|].
    all: try (intros [= <-]; unfold attentive; cbn; destruct tests as [-> | ->]; by split_and!).
    destruct (completed (object s)); intros [= <-]; (unfold attentive; split_and!; [done|done|]; cbn); [done|].
    intros _ Hs. by specialize (Hc Hs).
  - unfold notify_step, lock, attentive.
    destruct (notifies s) as [[|f l]|[|f l]|[|f l]|] eqn:En; try done.
    1: destruct (mutex s); [done|].
    all: intros [= <-]; cbn; try (by split_and!).
    destruct (waits s); cbn; by split_and!.
  - case_decide; [|done]. intros [= <-]. by split_and!.
Qed.

(** What the steps keep, under the invariants, holds of every reachable state. *)
Lemma reach_ind (P : t -> Prop) l s :
  P start -> (forall a x y, inv x -> attentive x -> P x -> step a x = Some y -> P y) ->
  run l start = Some s -> inv s /\ attentive s /\ P s.
Proof.
  intros H0 Hstep. assert (H : forall x, inv x -> attentive x -> P x -> run l x = Some s -> inv s /\ attentive s /\ P s).
  { induction l as [|a l IH]; intros x Hx Ha Hp; cbn [run]; [by intros [= <-]|].
    destruct (step a x) as [y|] eqn:E; [|done]. cbn [mbind option_bind].
    apply IH; [by eapply inv_step|by eapply attentive_step|by eapply Hstep]. }
  apply H; [apply inv_start|apply attentive_start|done].
Qed.

Lemma reach_inv l s : run l start = Some s -> inv s /\ attentive s.
Proof. intros E. by destruct (reach_ind (fun _ => True) l s) as (? & ? & _). Qed.

(** The statements the callback and the waiting thread still have to run. *)
Definition left_to_notify (x : place) : nat :=
  match x with
  | Before l => length l + 1 + length (inside p) + 1 + length (after p) + 1
  | Inside l => length l + 1 + length (after p) + 1
  | Signalled l => length l + 1
  | Returned => 0
  end.
Definition left_to_wait (g : stage) : nat :=
  match g with Check | Acquire | Reacquire => 5 | Test | Wait => 4 | Leave => 3 | Read => 2 | Sleep | Gone => 0 end.
Definition measure (s : t) : nat := 6 * left_to_notify (notifies s) + left_to_wait (waits s).

Lemma step_decreases who s s' : attentive s -> step (Runs who) s = Some s' -> (measure s' < measure s)%nat.
Proof.
  intros (A1 & A2 & A3). unfold measure. destruct who; cbn [step].
  - unfold wait_step, lock. destruct (waits s); try done.
    1, 3: destruct (mutex s); [done|].
    1-4: try destruct (completed (object s)); intros [= <-]; destruct tests as [-> | ->]; cbn [at_stage notifies waits left_to_wait]; lia.
    intros [= <-]. cbn [notifies waits left_to_wait]. lia.
  - unfold notify_step, lock. destruct (notifies s) as [[|f l]|[|f l]|[|f l]|]; try done.
    1: destruct (mutex s); [done|].
    all: intros [= <-]; cbn [notifies waits left_to_notify length]; destruct (waits s); cbn [wake left_to_wait]; lia.
Qed.

Lemma step_enabled s :
  inv s -> attentive s -> (waits s = Gone /\ notifies s = Returned) \/ exists who s', step (Runs who) s = Some s'.
Proof.
  intros [H1 H2 H3 H4] (A1 & A2 & A3).
  assert (Hn : mutex s <> Some Waiter -> notifies s = Returned \/ exists s', notify_step s = Some s').
  { intros Hm. unfold notify_step, lock. destruct (notifies s) as [[|f l]|[|f l]|[|f l]|]; [|by right; eexists..|by left].
    right. destruct (mutex s) as [[|]|]; [done| |by eexists]. by destruct H2 as [H2 _]; destruct (H2 eq_refl). }
  assert (Hl : mutex s <> Some Waiter -> mutex s = None \/ exists s', notify_step s = Some s').
  { intros Hm. destruct (mutex s) as [[|]|] eqn:Em; [done| |by left]. right.
    destruct (Hn ltac:(done)) as [E|]; [|done]. rewrite E in H2. by destruct H2 as [H2 _]; destruct (H2 eq_refl). }
  assert (Hfree : ~ (waits s = Test \/ waits s = Wait \/ waits s = Leave) -> mutex s <> Some Waiter) by tauto.
  destruct (waits s) eqn:Ew; try done.
  1, 4: destruct (Hl ltac:(apply Hfree; intros [?|[?|?]]; done)) as [E|[s' E]]; [|by right; exists Notifier, s'];
        right; exists Waiter; cbn; unfold wait_step, lock; rewrite Ew, E; by eexists.
  1, 3, 4: right; exists Waiter; cbn; unfold wait_step; rewrite Ew; by eexists.
  - destruct (Hn ltac:(apply Hfree; intros [?|[?|?]]; done)) as [E|[s' E]]; [|by right; exists Notifier, s'].
    exfalso. apply A3; [done|]. by rewrite E.
  - destruct (Hn ltac:(apply Hfree; intros [?|[?|?]]; done)) as [E|[s' E]]; [by left|by right; exists Notifier, s'].
Qed.

(** A wait under the lock always ends: in every reachable state either the caller has
    returned and the callback has finished, or one of the two threads can go on; and each of
    their steps brings the end nearer. *)
Lemma wait_ends l s :
  run l start = Some s ->
  ((waits s = Gone /\ notifies s = Returned) \/ exists who s', step (Runs who) s = Some s')
  /\ forall who s', step (Runs who) s = Some s' -> (measure s' < measure s)%nat.
Proof.
  intros [Hi Ha]%reach_inv. split; [by apply step_enabled|]. intros who s'. by apply step_decreases.
Qed.

(** So some schedule, and none longer than the measure, lets the caller return. *)
Lemma wait_returns l s :
  run l start = Some s -> exists k s', (length k <= measure s)%nat /\ run (map Runs k) s = Some s' /\ waits s' = Gone.
Proof.
  intros [Hi Ha]%reach_inv. remember (measure s) as n eqn:En. revert s Hi Ha En.
  induction (lt_wf n) as [n _ IH]. intros s Hi Ha ->.
  destruct (step_enabled s Hi Ha) as [[Hg _]|(who & s1 & E)]; [by exists [], s; split; [cbn; lia|]|].
  pose proof (step_decreases who s s1 Ha E) as Hd.
  destruct (IH (measure s1) Hd s1) as (k & s2 & Hk & Hr & Hg);
    [by eapply inv_step|by eapply attentive_step|done|].
  exists (who :: k), s2. cbn [length map run]. rewrite E. split; [lia|done].
Qed.

End machine.

(** ** A callback that does everything under the lock *)
Section exact.
Context {O : Type} (completed : O -> bool) (p : @notifier O) (o0 : O).
Hypothesis completes : completed (signalled p o0) = true.
Hypothesis stays : Forall (keeps_completed completed) (after p).
Hypothesis locked : before p = [].
Hypothesis fresh : completed o0 = false.

(** The caller leaves its wait only when the callback is done with the object. *)
Definition exact (s : @t O) : Prop :=
  match notifies s with Before l => l = [] /\ object s = o0 | _ => True end
  /\ match waits s with Leave | Read | Gone => notifies s = Returned | _ => True end
  /\ (forall o, result s = Some o -> o = final p o0)
  /\ dangling s = false.

Lemma exact_step a s s' :
  inv completed p o0 s -> attentive s -> exact s -> step completed Held p a s = Some s' -> exact s'.
Proof.
  intros Hi (A1 & A2 & _) (E1 & E2 & E3 & E4). pose proof (waiter_alone completed p o0 s Hi) as Hal.
  destruct Hi as [H1 H2 H3 H4]. destruct a as [[|]|]; cbn [step].
  - unfold wait_step, lock. destruct (waits s) eqn:Ew; try done.
    1, 3: destruct (mutex s); [done|]; intros [= <-]; by split_and!.
    + assert (Em : mutex s = Some Waiter) by tauto. specialize (Hal Em). unfold data in H1.
      destruct (completed (object s)) eqn:Ec; intros [= <-]; unfold exact; cbn; (split_and!; [done| |done|done]); [|done].
      destruct (notifies s); cbn in Hal; try tauto. destruct E1 as [_ E1]. congruence.
    + intros [= <-]. by split_and!.
    + intros [= <-]. unfold exact. cbn. split_and!; [done|done| |done]. intros o [= <-].
      unfold data in H1. rewrite E2 in H1. by destruct H1.
  - assert (Hg : notifies s <> Returned -> bool_decide (waits s = Gone) = false).
    { intros Hn. apply bool_decide_eq_false_2. intros Eg. by rewrite Eg in E2. }
    assert (Hw : notifies s <> Returned -> match waits s with Leave | Read | Gone => False | _ => True end).
    { intros Hn. destruct (waits s); done. }
    unfold notify_step, lock. destruct (notifies s) as [[|f l]|[|f l]|[|f l]|] eqn:En; try done.
    1: destruct (mutex s); [done|]. 2: by destruct E1.
    all: rewrite (Hg ltac:(done)); specialize (Hw ltac:(done)); intros [= <-]; unfold exact; cbn;
      rewrite E4; split_and!; try done; by destruct (waits s).
  - case_decide as Es; [|done]. intros [= <-]. by split_and!.
Qed.

Lemma exact_reached l s : run completed Held p l (start Held p o0) = Some s -> exact s.
Proof.
  intros E. refine (proj2 (proj2 (reach_ind completed Held p o0 completes stays (or_introl eq_refl) exact l s _ _ E))).
  - unfold exact. cbn. rewrite locked. by split_and!.
  - intros a x y. apply exact_step.
Qed.
End exact.

(** ** A callback that announces the result last *)
Section last.
Context {O : Type} (completed : O -> bool) (p : @notifier O) (o0 : O).
Hypothesis completes : completed (signalled p o0) = true.
Hypothesis unlocked : inside p = [] /\ after p = [].
Hypothesis announces : forall l1 l2, before p = l1 ++ l2 -> completed (execute l1 o0) = true -> l2 = [].

Definition announced (s : @t O) : Prop :=
  match notifies s with
  | Before l => exists l1, before p = l1 ++ l /\ object s = execute l1 o0
  | Inside l | Signalled l => l = [] /\ object s = final p o0
  | Returned => object s = final p o0
  end
  /\ (waits s = Leave \/ waits s = Read -> completed (object s) = true)
  /\ forall o, result s = Some o -> o = final p o0.

Lemma execute_app l1 l2 (o : O) : execute (l1 ++ l2) o = execute l2 (execute l1 o).
Proof. apply fold_left_app. Qed.

Lemma announced_final s : announced s -> completed (object s) = true -> object s = final p o0.
Proof.
  intros (A1 & _ & _) Hc. destruct unlocked as [Ui Ua]. destruct (notifies s); [|by destruct A1..|done].
  destruct A1 as (l1 & E & Eo). rewrite Eo in Hc |- *. assert (l = []) as -> by (by eapply announces).
  unfold final, signalled. by rewrite Ui, Ua, E, app_nil_r.
Qed.

Lemma announced_step a s s' : attentive s -> announced s -> step completed Held p a s = Some s' -> announced s'.
Proof.
  intros (A1 & A2 & _) Hs. pose proof (announced_final s Hs) as Hf. destruct Hs as (N1 & N2 & N3).
  destruct unlocked as [Ui Ua]. destruct a as [[|]|]; cbn [step].
  - unfold wait_step, lock. destruct (waits s) eqn:Ew; try done.
    1, 3: destruct (mutex s); [done|]; intros [= <-]; (split_and!; [done|by intros [?|?]|done]).
    + destruct (completed (object s)) eqn:Ec; intros [= <-].
      * by split_and!.
      * split_and!; [done|by intros [?|?]|done].
    + intros [= <-]. split_and!; [done| |done]. intros _. apply N2. by left.
    + intros [= <-]. split_and!; [done|by intros [?|?]|]. intros o [= <-]. apply Hf, N2. by right.
  - unfold notify_step, lock. destruct (notifies s) as [[|f l]|[|f l]|[|f l]|] eqn:En; try done.
    + destruct (mutex s); [done|]. intros [= <-]. split_and!; [|done|done]. cbn. split; [done|].
      destruct N1 as (l1 & E & ->). unfold final, signalled. by rewrite Ui, Ua, E, app_nil_r.
    + destruct N1 as (l1 & E & Eo). intros [= <-]. cbn. split_and!; [| |done]; cbn.
      * exists (l1 ++ [f]). by rewrite <- app_assoc, execute_app, <- Eo.
      * intros Hw%N2. exfalso. rewrite Eo in Hw. by specialize (announces _ _ E Hw).
    + intros [= <-]. split_and!; cbn; [by rewrite Ua; destruct N1| |done]. by destruct (waits s); cbn in *; auto; intros [?|?].
    + by destruct N1.
    + intros [= <-]. split_and!; [|done|done]. by destruct N1.
    + by destruct N1.
  - case_decide as Es; [|done]. intros [= <-]. split_and!; [done|by intros [?|?]|done].
Qed.

Lemma announced_reached l s : run completed Held p l (start Held p o0) = Some s -> announced s.
Proof.
  intros E. assert (Hkeep : Forall (keeps_completed completed) (after p)) by (rewrite (proj2 unlocked); constructor).
  refine (proj2 (proj2 (reach_ind completed Held p o0 completes Hkeep (or_introl eq_refl) announced l s _ _ E))).
  - unfold announced. cbn. split_and!; [by exists []|by intros [?|?]|done].
  - intros a x y _. apply announced_step.
Qed.
End last.

(** ** Waits that lose the signal *)
Section lost.
Context {O : Type} (completed : O -> bool) (p : @notifier O) (o0 : O).

Lemma wait_run_app d l1 l2 (s : @t O) : run completed d p (l1 ++ l2) s = (y ← run completed d p l1 s; run completed d p l2 y).
Proof. revert s. induction l1 as [|a l1 IH]; intros s; cbn [app run]; [done|]. destruct (step _ _ _ _ _); cbn; [apply IH|done]. Qed.

(** The callback runs to its end while the caller is anywhere before its wait. *)
Lemma notifier_finishes d (g : stage) :
  g <> Sleep -> g <> Gone ->
  exists l, run completed d p l (mk o0 None (Before (before p)) g None false)
            = Some (mk (final p o0) None Returned g None false).
Proof.
  intros Hs Hg. assert (Eg : bool_decide (g = Gone) = false) by (by apply bool_decide_eq_false_2).
  assert (Ew : wake g = g) by (by destruct g).
  exists (replicate (length (before p)) (Runs Notifier) ++ [Runs Notifier]
          ++ replicate (length (inside p)) (Runs Notifier) ++ [Runs Notifier]
          ++ replicate (length (after p)) (Runs Notifier) ++ [Runs Notifier]).
  assert (H1 : forall l o, run completed d p (replicate (length l) (Runs Notifier)) (mk o None (Before l) g None false)
                           = Some (mk (execute l o) None (Before []) g None false)).
  { intros l. induction l as [|f l IH]; intros o; [done|]. cbn. rewrite Eg. apply IH. }
  assert (H2 : forall l o, run completed d p (replicate (length l) (Runs Notifier)) (mk o (Some Notifier) (Inside l) g None false)
                           = Some (mk (execute l o) (Some Notifier) (Inside []) g None false)).
  { intros l. induction l as [|f l IH]; intros o; [done|]. cbn. rewrite Eg. apply IH. }
  assert (H3 : forall l o, run completed d p (replicate (length l) (Runs Notifier)) (mk o (Some Notifier) (Signalled l) g None false)
                           = Some (mk (execute l o) (Some Notifier) (Signalled []) g None false)).
  { intros l. induction l as [|f l IH]; intros o; [done|]. cbn. rewrite Eg. apply IH. }
  rewrite wait_run_app, H1. cbn. rewrite Eg.
  rewrite wait_run_app, H2. cbn. rewrite Eg, Ew.
  rewrite wait_run_app, H3. cbn. by rewrite Eg.
Qed.

(** Asleep with nobody left to wake it. *)
Definition stuck (d : discipline) (s : @t O) : Prop :=
  waits s = Sleep /\ notifies s = Returned /\ forall who, step completed d p (Runs who) s = None.

(** A test outside the lock, or none, may miss the signal: the caller sleeps for ever, even
    though the result is there. *)
Lemma signal_lost d :
  (d = Outside /\ completed o0 = false) \/ d = Blind ->
  exists l s, run completed d p l (start d p o0) = Some s /\ stuck d s /\ object s = final p o0.
Proof.
  intros Hd. destruct (notifier_finishes d Acquire) as [k Hk]; [done|done|].
  exists ((match d with Outside => [Runs Waiter] | _ => [] end) ++ k ++ [Runs Waiter; Runs Waiter]).
  assert (Hfirst : run completed d p (match d with Outside => [Runs Waiter] | _ => [] end) (start d p o0)
                   = Some (mk o0 None (Before (before p)) Acquire None false)).
  { destruct Hd as [[-> Hc]| ->]; [|done]. cbn. by rewrite Hc. }
  eexists. rewrite wait_run_app, Hfirst. cbn [mbind option_bind]. rewrite wait_run_app, Hk.
  destruct Hd as [[-> _]| ->]; cbn; (split; [done|]); (split; [|done]); (split_and!; [done|done|]); by intros [].
Qed.

(** Without a test a wake-up without a signal is taken for the result. *)
Lemma blind_wakes_early :
  exists l s, run completed Blind p l (start Blind p o0) = Some s /\ result s = Some o0 /\ notifies s = Before (before p).
Proof.
  exists [Runs Waiter; Runs Waiter; Spurious; Runs Waiter; Runs Waiter; Runs Waiter]. eexists. by split_and!.
Qed.
End lost.

(** ** The waits of the client *)

(** *** [AwaitPullCallback]: everything under the lock *)
Definition pull_complete (s : AwaitPullCallback.t) : AwaitPullCallback.t :=
  AwaitPullCallback.mk (AwaitPullCallback.pull_result_ s) true (AwaitPullCallback.ec_ s).
Definition pull_store (r : PullResult.t) (s : AwaitPullCallback.t) : AwaitPullCallback.t :=
  AwaitPullCallback.mk r (AwaitPullCallback.completed_ s) (AwaitPullCallback.ec_ s).
Definition pull_fail (ec : error_code) (s : AwaitPullCallback.t) : AwaitPullCallback.t :=
  AwaitPullCallback.mk (AwaitPullCallback.pull_result_ s) (AwaitPullCallback.completed_ s) ec.

Definition pull_onSuccess (r : PullResult.t) : notifier := mkNotifier [] [pull_complete; pull_store r] [].
Definition pull_onFailure (ec : error_code) : notifier := mkNotifier [] [pull_complete; pull_fail ec] [].
Definition pull_await : discipline := Held.

Definition pull_callback (v : error_code + PullResult.t) : notifier :=
  match v with inl ec => pull_onFailure ec | inr r => pull_onSuccess r end.
(** The callback object as the atomic [onSuccess] and [onFailure] leave it. *)
Definition pull_outcome (v : error_code + PullResult.t) (s : AwaitPullCallback.t) : AwaitPullCallback.t :=
  match v with inl ec => AwaitPullCallback.onFailure ec s | inr r => AwaitPullCallback.onSuccess r s end.

(** C28: the synchronous pull waits correctly: however the statements of the caller and of
    the callback interleave, and whatever wake-ups happen without a signal, the caller
    returns with exactly what the callback was given, the callback never touches the frame
    of a caller that has returned, and the wait ends: as long as it has not, one of the two
    threads can go on, and every step they take brings the end nearer. *)
Theorem await_pull_exact v r0 l s :
  run AwaitPullCallback.completed_ pull_await (pull_callback v) l
    (start pull_await (pull_callback v) (AwaitPullCallback.make r0)) = Some s ->
  (forall o, result s = Some o -> o = pull_outcome v (AwaitPullCallback.make r0))
  /\ dangling s = false
  /\ (is_Some (result s) \/ exists who s', step AwaitPullCallback.completed_ pull_await (pull_callback v) (Runs who) s = Some s')
  /\ (forall who s', step AwaitPullCallback.completed_ pull_await (pull_callback v) (Runs who) s = Some s' ->
        (measure (pull_callback v) s' < measure (pull_callback v) s)%nat).
Proof.
  intros E. set (o0 := AwaitPullCallback.make r0) in *.
  assert (Hc : AwaitPullCallback.completed_ (signalled (pull_callback v) o0) = true) by (by destruct v).
  assert (Hk : Forall (keeps_completed AwaitPullCallback.completed_) (after (pull_callback v))) by (by destruct v).
  assert (Hf : final (pull_callback v) o0 = pull_outcome v o0) by (by destruct v).
  destruct (wait_ends _ Held _ _ Hc Hk (or_introl eq_refl) l s E) as [Hp Hd].
  destruct (exact_reached _ _ _ Hc Hk ltac:(by destruct v) eq_refl l s E) as (_ & _ & Hr & Hdang).
  destruct (reach_inv _ Held _ _ Hc Hk (or_introl eq_refl) l s E) as [Hi _].
  split_and!; [by rewrite <- Hf|done| |done]. destruct Hp as [[Hg _]|Hp]; [left; by apply (inv_result _ _ _ _ Hi)|by right].
Qed.

(** The callback runs between the test of the caller and its next statement, and a wake-up
    comes too early. *)
Definition example_schedule : list action :=
  [Runs Waiter; Runs Waiter; Spurious; Runs Notifier; Runs Notifier; Runs Notifier; Runs Notifier; Runs Notifier;
   Runs Waiter; Runs Waiter; Runs Waiter; Runs Waiter].

Lemma await_pull_exact_witness :
  exists s, run AwaitPullCallback.completed_ pull_await (pull_callback (inl RequestTimeout)) example_schedule
      (start pull_await (pull_callback (inl RequestTimeout)) (AwaitPullCallback.make (PullResult.mk 0 0 0 []))) = Some s
    /\ result s = Some (AwaitPullCallback.mk (PullResult.mk 0 0 0 []) true RequestTimeout) /\ dangling s = false.
Proof.
  eexists. split; [vm_compute; reflexivity|]. split; [reflexivity|].
  refine (proj1 (proj2 (await_pull_exact (inl RequestTimeout) (PullResult.mk 0 0 0 []) example_schedule _ _))).
  vm_compute. reflexivity.
Defined.

(** *** [AwaitSendCallback]: assignments before the lock *)
Definition send_complete (s : AwaitSendCallback.t) : AwaitSendCallback.t :=
  AwaitSendCallback.mk true (AwaitSendCallback.send_result_ s) (AwaitSendCallback.ec_ s).
Definition send_store (r : SendResult.t) (s : AwaitSendCallback.t) : AwaitSendCallback.t :=
  AwaitSendCallback.mk (AwaitSendCallback.completed_ s) (SendResult.assign (AwaitSendCallback.send_result_ s) r)
    (AwaitSendCallback.ec_ s).
Definition send_fail (ec : error_code) (s : AwaitSendCallback.t) : AwaitSendCallback.t :=
  AwaitSendCallback.mk (AwaitSendCallback.completed_ s) (AwaitSendCallback.send_result_ s) ec.

Definition send_onSuccess (r : SendResult.t) : notifier := mkNotifier [send_store r; send_complete] [] [].
Definition send_onFailure (ec : error_code) : notifier := mkNotifier [send_complete; send_fail ec] [] [].
Definition send_await : discipline := Held.

(** The wait for a send ends, whatever the callback reports. *)
Lemma await_send_ends v l s :
  let p := match v with inl ec => send_onFailure ec | inr r => send_onSuccess r end in
  run AwaitSendCallback.completed_ send_await p l (start send_await p AwaitSendCallback.make) = Some s ->
  exists k s', (length k <= measure p s)%nat /\ run AwaitSendCallback.completed_ send_await p (map Runs k) s = Some s'
    /\ waits s' = Gone.
Proof.
  intros p E. eapply (wait_returns _ Held p AwaitSendCallback.make); [| |by left|exact E].
  - by destruct v.
  - by destruct v; constructor.
Qed.

(** A send that succeeded is reported as it was. *)
Lemma await_send_success r l s o :
  run AwaitSendCallback.completed_ send_await (send_onSuccess r) l
    (start send_await (send_onSuccess r) AwaitSendCallback.make) = Some s ->
  result s = Some o -> o = AwaitSendCallback.onSuccess r AwaitSendCallback.make.
Proof.
  intros E. refine (proj2 (proj2 (announced_reached _ (send_onSuccess r) _ eq_refl (conj eq_refl eq_refl) _ l s E)) o).
  intros [|f [|g l1]] l2; [done|by intros [= <- _]|]. intros [= _ _ El] _. symmetry in El. by apply app_eq_nil in El as [_ ->].
Qed.

(** One that failed may be reported as a success with an empty result: [completed_] is set
    before [ec_], and the caller may test it in between. *)
Lemma await_send_failure_lost ec :
  exists l s o, run AwaitSendCallback.completed_ send_await (send_onFailure ec) l
      (start send_await (send_onFailure ec) AwaitSendCallback.make) = Some s
    /\ result s = Some o /\ AwaitSendCallback.operator_bool o = true /\ AwaitSendCallback.send_result_ o = SendResult.empty.
Proof.
  exists [Runs Notifier; Runs Waiter; Runs Waiter; Runs Waiter; Runs Waiter]. eexists _, _. by split_and!.
Qed.

(** And either way the callback may lock the mutex of a caller that has returned. *)
Lemma await_send_dangles v :
  let p := match v with inl ec => send_onFailure ec | inr r => send_onSuccess r end in
  exists l s, run AwaitSendCallback.completed_ send_await p l (start send_await p AwaitSendCallback.make) = Some s
    /\ dangling s = true.
Proof.
  exists [Runs Notifier; Runs Notifier; Runs Waiter; Runs Waiter; Runs Waiter; Runs Waiter; Runs Notifier].
  destruct v; eexists; by split.
Qed.

(** *** [getPublishInfo] and [listMessageQueue] of the producer: a test outside the lock *)
Record publish_wait := mkPublishWait {
  publish_ptr : option TopicPublishInfo.t;
  publish_ec : error_code;
  publish_complete : bool;
}.
Definition publish_fresh : publish_wait := mkPublishWait None Success false.

Definition publish_callback (ec : error_code) (ptr : option TopicPublishInfo.t) : notifier :=
  mkNotifier []
    [(fun s => mkPublishWait ptr (publish_ec s) (publish_complete s));
     (fun s => mkPublishWait (publish_ptr s) ec (publish_complete s));
     (fun s => mkPublishWait (publish_ptr s) (publish_ec s) true)] [].
Definition publish_await : discipline := Outside.

(** The publish info is there and the send never returns. *)
Lemma publish_info_wait_hangs ec ptr :
  exists l s, run publish_complete publish_await (publish_callback ec ptr) l
      (start publish_await (publish_callback ec ptr) publish_fresh) = Some s
    /\ stuck publish_complete (publish_callback ec ptr) publish_await s /\ object s = mkPublishWait ptr ec true.
Proof. apply (signal_lost publish_complete (publish_callback ec ptr)). by left. Qed.

(** *** [fetchRoutes] of the push consumer, for one topic *)
Record route_wait := mkRouteWait { countdown : Z; acquired : Z }.
Definition routes_complete (s : route_wait) : bool := bool_decide (countdown s = 0).

Definition routes_callback (ec : error_code) : notifier :=
  mkNotifier [] [(fun s => mkRouteWait (u64 (countdown s - 1)) (acquired s))]
    [(fun s => if ec_bool ec then s else mkRouteWait (countdown s) (i32 (acquired s + 1)))].
Definition routes_await : discipline := Outside.

(** The start of a consumer hangs although the route was fetched. *)
Lemma fetch_routes_hangs ec :
  exists l s, run routes_complete routes_await (routes_callback ec) l
      (start routes_await (routes_callback ec) (mkRouteWait 1 0)) = Some s
    /\ stuck routes_complete (routes_callback ec) routes_await s /\ countdown (object s) = 0.
Proof.
  destruct (signal_lost routes_complete (routes_callback ec) (mkRouteWait 1 0) Outside) as (l & s & E & Hs & Ho).
  { by left. }
  exists l, s. split_and!; [done|done|]. rewrite Ho. unfold final, signalled. cbn. by destruct (ec_bool ec).
Qed.

(** *** [StsCredentialsProviderImpl::refresh] *)
Definition sts_callback : notifier := mkNotifier [] [(fun _ : bool => true)] [].
Definition sts_await : discipline := Outside.

Lemma sts_refresh_hangs :
  exists l s, run id sts_await sts_callback l (start sts_await sts_callback false) = Some s
    /\ stuck id sts_callback sts_await s /\ object s = true.
Proof. apply (signal_lost id sts_callback). by left. Qed.

(** *** [ProducerImpl::endTransaction0]: no test at all *)
Record end_wait := mkEndWait { end_completed : bool; end_success : bool }.

Definition end_callback (ec : error_code) : notifier :=
  mkNotifier [(fun s => mkEndWait true (end_success s)); (fun s => mkEndWait (end_completed s) (negb (ec_bool ec)))] [] [].
Definition end_await : discipline := Blind.

(** The transaction is ended and its caller waits for ever, or is told too early that it
    was not. *)
Lemma end_transaction_hangs ec :
  exists l s, run end_completed end_await (end_callback ec) l (start end_await (end_callback ec) (mkEndWait false false)) = Some s
    /\ stuck end_completed (end_callback ec) end_await s /\ object s = mkEndWait true (negb (ec_bool ec)).
Proof. apply (signal_lost end_completed (end_callback ec)). by right. Qed.

Lemma end_transaction_misreported ec :
  exists l s o, run end_completed end_await (end_callback ec) l (start end_await (end_callback ec) (mkEndWait false false)) = Some s
    /\ result s = Some o /\ end_success o = false.
Proof.
  destruct (blind_wakes_early end_completed (end_callback ec) (mkEndWait false false)) as (l & s & E & Hr & _).
  by exists l, s, (mkEndWait false false).
Qed.

(** *** [ThreadPoolImpl::start] and [SchedulerImpl::start]: a test under the lock, once *)

(** The first worker: the exchange of the state, then the signal. *)
Definition worker_started (from : State) : notifier :=
  mkNotifier [(fun s => snd (compare_exchange_strong s from STARTED))] [] [].
Definition start_await : discipline := HeldOnce.
Definition has_started (from : State) (s : State) : bool := negb (bool_decide (s = from)).

(** [start] returns: [from] is [CREATED] for the pool and [STARTING] for the scheduler. *)
Lemma start_wait_ends from l s :
  from = CREATED \/ from = STARTING ->
  run (has_started from) start_await (worker_started from) l (start start_await (worker_started from) from) = Some s ->
  exists k s', (length k <= measure (worker_started from) s)%nat
    /\ run (has_started from) start_await (worker_started from) (map Runs k) s = Some s' /\ waits s' = Gone.
Proof.
  intros Hf E. eapply (wait_returns _ HeldOnce _ from); [|constructor|by right|exact E]. by destruct Hf as [-> | ->].
Qed.

End Waits.
