(* ===== verification/PullPath.v ===== *)
(** * The pull path: the pull consumer on top of the remote calls.

    [pull] and [queryOffset] of [PullConsumerImpl] (rocketmq/PullConsumerImpl.cpp) in full:
    they build the request, sign it and hand it to the client manager with a callback, which
    ends a callback of the application, wakes a synchronous [pull] or sets a promise.
    Any number of calls are under way on the machine of RemoteCalls; the network, the
    poller, the workers and the shutdown of the manager interleave. *)

From S2P Require Import Prelude Types Message MixAll Proto Route Config Codec Concurrency ClientManager RemoteCalls.
From S2P Require Import ClientImpl PullConsumer.
Import PullConsumerImpl.

Module PullPath.

(** What the callbacks given to the client manager are told. *)
Inductive report :=
  | PullReport (x : Completion rmq.PullMessageResponse)
  | OffsetReport (ec : error_code) (r : rmq.QueryOffsetResponse).

(** What the caller of an operation holds: a [PullCallback] of its own with what it was told,
    the callback of a synchronous pull, or a future. *)
Inductive waiter :=
  | Called (q : PullMessageQuery) (told : list (error_code + PullResult.t))
  | Awaiting (q : PullMessageQuery) (pull_result : PullResult.t) (cb : AwaitPullCallback.t)
  | Promised (q : OffsetQuery) (v : option (error_code + Z)).

(** What the calls read of their environment, by the number of the call. *)
Record Env := mkEnv {
  credentials_of : nat -> option Credentials.t;
  date_of : nat -> string;
  clock_of : nat -> Z;
  id_of : nat -> string;
  channels : nat -> nat -> bool;
}.

Section pull_path.
Context {C : Type}.
Context (zlib_crc32 : string -> Z) (MD5 : string -> option (list Z)) (SHA1 : string -> list Z)
  (zlib : Zlib) (fresh : MQMessage.t) (DebugString : rmq.QueryRouteResponse -> string)
  (HMAC_SHA1 : string -> string -> list Z).
Context (client_id : string) (env : Env).

Abbreviation network := (@RemoteCalls.t C report).
Abbreviation call := (@RemoteCalls.call C report).

(** The callers are numbered like their calls. *)
Record t := mk { consumer : PullConsumerImpl.t; waiters : list waiter; net : network }.

Definition make (s : PullConsumerImpl.t) (m : ClientManagerImpl.t C) : t := mk s [] (RemoteCalls.ready m).
Definition set_net (n : network) (x : t) : t := mk (consumer x) (waiters x) n.

Definition config (s : PullConsumerImpl.t) : ClientConfigImpl.t := ClientImpl.config (client s).

(** ** The operations *)
Definition site_of (s : PullConsumerImpl.t) (target : string) (timeout : Z) (k : nat) : RemoteCalls.site :=
  RemoteCalls.mkSite target (Signature.sign HMAC_SHA1 (config s) (credentials_of env k) (date_of env k) ∅) timeout
    (clock_of env k) (id_of env k) (channels env k).

Definition issue (w : waiter) (target : string) (timeout : Z) (op : @RemoteCalls.op report) (x : t) : option t :=
  n ← RemoteCalls.perform zlib_crc32 MD5 SHA1 zlib fresh DebugString
        (site_of (consumer x) target timeout (length (RemoteCalls.issued (net x)))) op (net x);
  Some (mk (consumer x) (waiters x ++ [w]) n).

(** [pull] with the callback of [w]; the assertion on the address fails on an empty one. *)
Definition pull (q : PullMessageQuery) (w : waiter) (x : t) : option t :=
  let target_host := MQMessageQueue.service_address_ (pull_queue q) in
  if str_empty target_host then None
  else issue w target_host (ClientConfigImpl.long_polling_timeout_ (config (consumer x)))
         (RemoteCalls.PullMessageOp (pull_request client_id q (consumer x)) PullReport) x.

(** [DefaultMQPullConsumer::pull], with a callback and without. *)
Definition pull_async (q : PullMessageQuery) : t -> option t := pull q (Called q []).
Definition pull_begin (q : PullMessageQuery) (pull_result : PullResult.t) : t -> option t :=
  pull q (Awaiting q pull_result (AwaitPullCallback.make pull_result)).

Definition queryOffset (q : OffsetQuery) (x : t) : option t :=
  issue (Promised q None) (MQMessageQueue.service_address_ (query_queue q))
    (ClientConfigImpl.io_timeout_ (config (consumer x)))
    (RemoteCalls.QueryOffsetOp (queryOffset_request q (consumer x)) OffsetReport) x.

(** The callbacks.  Decoding counts latencies in the manager's histogram; a promise that is
    set twice throws. *)
Definition on_report (now : Z) (r : report) (w : waiter) (h : Histogram.t) : option (waiter * Histogram.t) :=
  match r, w with
  | PullReport x, Called q told =>
      let '(v, h) := on_pulled zlib_crc32 MD5 SHA1 zlib fresh now x h in Some (Called q (told ++ [v]), h)
  | PullReport x, Awaiting q r0 cb =>
      let '(v, h) := on_pulled zlib_crc32 MD5 SHA1 zlib fresh now x h in
      Some (Awaiting q r0 (match v with
                           | inl ec => AwaitPullCallback.onFailure ec cb
                           | inr r => AwaitPullCallback.onSuccess r cb
                           end), h)
  | OffsetReport ec r, Promised q None => Some (Promised q (Some (onQueryOffset ec r)), h)
  | _, _ => None
  end.

Definition handle (now : Z) (k : nat) (r : report) (x : t) : option t :=
  w ← waiters x !! k;
  let m := RemoteCalls.manager (net x) in
  '(w, h) ← on_report now r w (ClientManagerImpl.latency_histogram_ m);
  Some (mk (consumer x) (<[k := w]> (waiters x)) (RemoteCalls.set_manager (ClientManagerImpl.set_histogram h m) (net x))).

Fixpoint handle_all (now : Z) (k : nat) (l : list report) (x : t) : option t :=
  match l with [] => Some x | r :: l' => y ← handle now k r x; handle_all now k l' y end.

(** [Net] is a step of the network, the poller, a worker that begins, or shutdown; [Finish] a
    worker that runs the callback of a call to its end. *)
Inductive action :=
  | Pull (q : PullMessageQuery)
  | PullSync (q : PullMessageQuery) (pull_result : PullResult.t)
  | QueryOffset (q : OffsetQuery)
  | Net (a : @RemoteCalls.action report)
  | Finish (k : nat) (now : Z).

Definition no_throw (r : report) : bool := false.

Definition step (a : action) (x : t) : option t :=
  match a with
  | Pull q => pull_async q x
  | PullSync q r => pull_begin q r x
  | QueryOffset q => queryOffset q x
  | Net (RemoteCalls.Perform _ _) | Net (RemoteCalls.Finish _) => None
  | Net a => n ← RemoteCalls.step no_throw zlib_crc32 MD5 SHA1 zlib fresh DebugString a (net x); Some (set_net n x)
  | Finish k now =>
      n ← RemoteCalls.finish no_throw k (net x);
      '(j, (_, told)) ← last (RemoteCalls.reports n);
      handle_all now j told (set_net n x)
  end.

Fixpoint run (l : list action) (x : t) : option t :=
  match l with [] => Some x | a :: l' => y ← step a x; run l' y end.

(** ** What is on the wire and what the callers hold *)

Definition pull_callback : @RemoteCalls.callback_of C report RemoteCalls.PullMessage := fun m z => (m, [PullReport z]).
Definition offset_callback : @RemoteCalls.callback_of C report RemoteCalls.QueryOffset :=
  fun m z => (m, RemoteCalls.tell (queryOffset_ec (status_ok z) (rmq.code (rmq.offset_common (response z))))
                   (fun ec => OffsetReport ec (response z))).

(** The call that belongs to a caller: its request, address and deadline, and for a pull its
    signature. *)
Definition pull_call_of (s : PullConsumerImpl.t) (k : nat) (q : PullMessageQuery) (c : call) : Prop :=
  match c with
  | RemoteCalls.mkCall RemoteCalls.PullMessage r _ ctx cb _ =>
      let target := MQMessageQueue.service_address_ (pull_queue q) in
      target <> ""%string /\ r = pull_request client_id q s /\ cb = Some pull_callback
      /\ ctx = pullMessage_context (id_of env k) target
                 (Signature.sign HMAC_SHA1 (config s) (credentials_of env k) (date_of env k) ∅)
                 (clock_of env k) (ClientConfigImpl.long_polling_timeout_ (config s))
  | _ => False
  end.
Definition offset_call_of (s : PullConsumerImpl.t) (k : nat) (q : OffsetQuery) (c : call) : Prop :=
  match c with
  | RemoteCalls.mkCall RemoteCalls.QueryOffset r _ ctx cb _ =>
      r = queryOffset_request q s /\ cb = Some offset_callback
      /\ ctx = queryOffset_context (id_of env k) (MQMessageQueue.service_address_ (query_queue q))
                 (clock_of env k) (ClientConfigImpl.io_timeout_ (config s))
  | _ => False
  end.
Definition call_of (s : PullConsumerImpl.t) (k : nat) (w : waiter) (c : call) : Prop :=
  match w with
  | Called q _ | Awaiting q _ _ => pull_call_of s k q c
  | Promised q _ => offset_call_of s k q c
  end.

(** A caller that has heard nothing. *)
Definition untouched (w : waiter) : Prop :=
  match w with
  | Called _ told => told = []
  | Awaiting _ r0 cb => cb = AwaitPullCallback.make r0
  | Promised _ v => v = None
  end.

(** What gRPC brought for a call. *)
Definition pulled (c : call) : option (Completion rmq.PullMessageResponse) :=
  match c with
  | RemoteCalls.mkCall RemoteCalls.PullMessage _ _ _ _ r =>
      Some (default (mkCompletion true (RemoteCalls.response_default RemoteCalls.PullMessage)) r)
  | _ => None
  end.
Definition queried (c : call) : option (Completion rmq.QueryOffsetResponse) :=
  match c with
  | RemoteCalls.mkCall RemoteCalls.QueryOffset _ _ _ _ r =>
      Some (default (mkCompletion true (RemoteCalls.response_default RemoteCalls.QueryOffset)) r)
  | _ => None
  end.

Definition accepted (z : Completion rmq.PullMessageResponse) : Prop :=
  status_ok z = true /\ rmq.code (rmq.pull_common (response z)) = OK.
Definition result_of (now : Z) (r : rmq.PullMessageResponse) : PullResult.t :=
  PullResult.mk (rmq.min_offset r) (rmq.max_offset r) (rmq.next_offset r)
    (omap (decoded zlib_crc32 MD5 SHA1 zlib now fresh) (rmq.pull_messages r)).

(** A caller that was told once, what came back for its call. *)
Definition told_once (c : call) (w : waiter) : Prop :=
  match w with
  | Called _ told => exists z now v, pulled c = Some z /\ told = [v]
      /\ match v with
         | inr r => accepted z /\ r = result_of now (response z)
         | inl ec => ~ accepted z /\ ec_bool ec = true
         end
  | Awaiting _ r0 cb => exists z now flag, pulled c = Some z /\ AwaitPullCallback.await cb = Some flag
      /\ (flag = true <-> accepted z)
      /\ AwaitPullCallback.pull_result_ cb = if flag then result_of now (response z) else r0
  | Promised _ v => exists z, queried c = Some z
      /\ match v with
         | Some (inr o) => status_ok z = true /\ rmq.code (rmq.offset_common (response z)) = OK /\ o = rmq.offset (response z)
         | Some (inl ec) => ~ (status_ok z = true /\ rmq.code (rmq.offset_common (response z)) = OK) /\ ec_bool ec = true
         | None => False
         end
  end.

(** ** The invariant *)
Record pinv (s : PullConsumerImpl.t) (x : t) : Prop := {
  p_consumer : consumer x = s;
  p_net : RemoteCalls.inv (net x);
  p_length : length (waiters x) = length (RemoteCalls.issued (net x));
  p_call k w : waiters x !! k = Some w -> exists c, RemoteCalls.issued (net x) !! k = Some c /\ call_of s k w c;
  p_untouched k w : waiters x !! k = Some w -> k ∉ map fst (RemoteCalls.reports (net x)) -> untouched w;
  p_told k w c told : waiters x !! k = Some w -> (k, (c, told)) ∈ RemoteCalls.reports (net x) -> told_once c w;
}.

Lemma pinv_make s m : pinv s (make s m).
Proof. split; cbn; [done|apply RemoteCalls.inv_ready|done|..]; intros k w; [by rewrite lookup_nil..|]. intros c told. by rewrite lookup_nil. Qed.

(** A new call, with a caller that has heard nothing. *)
Lemma pinv_issue s x w c m n :
  pinv s x -> untouched w -> call_of s (length (RemoteCalls.issued (net x))) w c ->
  RemoteCalls.quiet c -> RemoteCalls.result c = None ->
  ClientManagerImpl.state_ m = ClientManagerImpl.state_ (RemoteCalls.manager (net x)) ->
  RemoteCalls.async c (RemoteCalls.set_manager m (net x)) = Some n ->
  pinv s (mk (consumer x) (waiters x ++ [w]) n).
Proof.
  intros [H1 H2 H3 H4 H5 H6] Hw Hc Hq Hr Hm E.
  assert (Hn : RemoteCalls.inv n).
  { eapply RemoteCalls.inv_async; [|exact Hq|exact Hr|exact E]. destruct H2 as [I1 I2 I3 I4 I5]. split; cbn; [done..|]. by rewrite Hm. }
  unfold RemoteCalls.async in E. cbn in E. destruct (RemoteCalls.queue_shutdown (net x)); [done|]. injection E as <-.
  split; cbn [consumer waiters net RemoteCalls.issued RemoteCalls.reports]; [done|done| | | |].
  - rewrite !length_app. cbn. lia.
  - intros k v E. apply lookup_app_Some in E as [E|[Hk E]].
    + destruct (H4 k v E) as (c' & E' & Hc'). exists c'. split; [by apply lookup_app_l_Some|done].
    + apply list_lookup_singleton_Some in E as [E <-]. exists c. assert (k = length (RemoteCalls.issued (net x))) as -> by lia.
      rewrite lookup_app_r, Nat.sub_diag by done. done.
  - intros k v E Hk. apply lookup_app_Some in E as [E|[_ E]]; [by apply (H5 k)|].
    apply list_lookup_singleton_Some in E as [_ <-]. done.
  - intros k v c' told E Hin. apply lookup_app_Some in E as [E|[Hk E]]; [by apply (H6 k v c' told)|].
    exfalso. destruct (RemoteCalls.i_reports _ H2 k c' told Hin) as [E' _]. apply lookup_lt_Some in E'. lia.
Qed.

Lemma call_of_unanswered s k w c : call_of s k w (RemoteCalls.unanswered c) <-> call_of s k w c.
Proof. destruct w; destruct c as [[] ? ? ? ? ?]; done. Qed.

(** A pull, answered: what its callback makes of the completion. *)
Lemma on_pulled_spec now z h :
  match fst (on_pulled zlib_crc32 MD5 SHA1 zlib fresh now z h) with
  | inr r => accepted z /\ r = result_of now (response z)
  | inl ec => ~ accepted z /\ ec_bool ec = true
  end.
Proof.
  unfold on_pulled, accepted, result_of. destruct (status_ok z); cbn [negb]; [|cbn; split; [by intros []|done]].
  pose proof (wrap_all_omap zlib_crc32 MD5 SHA1 zlib fresh now (rmq.pull_messages (response z)) h) as Hw.
  destruct (rmq.code (rmq.pull_common (response z))); try (cbn; split; [by intros []|done]).
  destruct (wrap_all _ _ _ _ _ _ _ _) as [l h']. cbn in *. by rewrite Hw.
Qed.

(** The callback of an untouched caller tells it once, and does not fail. *)
Lemma on_report_spec s k w c now m h :
  call_of s k w c -> untouched w ->
  exists r w' h', snd (RemoteCalls.invoke c m) = [r] /\ fst (RemoteCalls.invoke c m) = m
    /\ on_report now r w h = Some (w', h') /\ told_once c w' /\ (forall c', call_of s k w' c' <-> call_of s k w c').
Proof.
  intros Hc Hw. destruct w as [q told|q r0 cb|q v]; destruct c as [[] r cl ctx cb' res]; try done; cbn in Hc, Hw;
    destruct_and? Hc; subst; unfold RemoteCalls.invoke, RemoteCalls.completion_of;
    cbn [RemoteCalls.callback RemoteCalls.result RemoteCalls.method pull_callback offset_callback fst snd].
  - set (z := default _ res). pose proof (on_pulled_spec now z h) as Hs. cbn [on_report].
    destruct (on_pulled _ _ _ _ _ now z h) as [v h'] eqn:Ev. eexists _, _, h'.
    split; [reflexivity|]. split; [reflexivity|]. split; [cbn [on_report]; rewrite Ev; reflexivity|]. split; [|done].
    exists z, now, v. by split_and!.
  - set (z := default _ res). pose proof (on_pulled_spec now z h) as Hs. cbn [on_report].
    destruct (on_pulled _ _ _ _ _ now z h) as [v h'] eqn:Ev. eexists _, _, h'.
    split; [reflexivity|]. split; [reflexivity|]. split; [cbn [on_report]; rewrite Ev; reflexivity|]. split; [|done].
    destruct v as [ec|v]; cbn in Hs; destruct Hs as [Ha Hv].
    + exists z, now, false. cbn. unfold AwaitPullCallback.await, AwaitPullCallback.hasFailure. cbn. rewrite Hv. by split_and!.
    + exists z, now, true. cbn. by split_and!.
  - set (z := default _ res). change (RemoteCalls.response_of RemoteCalls.QueryOffset) with rmq.QueryOffsetResponse in *.
    unfold RemoteCalls.tell.
    destruct (queryOffset_ec (status_ok z) (rmq.code (rmq.offset_common (response z)))) as [ec|] eqn:Ee; unfold queryOffset_ec in Ee.
    2: { destruct (status_ok z); [|done]. by destruct (rmq.code _). }
    eexists _, _, h. split; [reflexivity|]. split; [reflexivity|]. split; [reflexivity|]. split; [|done].
    exists z. split; [reflexivity|]. unfold onQueryOffset.
    destruct (status_ok z); cbn [negb] in Ee; [|injection Ee as <-; cbn; split; [by intros []|done]].
    destruct (rmq.code _) eqn:Ec; injection Ee as <-; cbn; rewrite ?Ec; try (split; [by intros [_ ?]|done]). done.
Qed.

(** A worker with a call can always run its callback to the end; the caller was not told
    before, and is told once. *)
Lemma finish_spec s x k now n ok :
  pinv s x -> ThreadPoolImpl.busy_ (RemoteCalls.pool (net x)) !! k = Some (n, ok) ->
  exists y, step (Finish k now) x = Some y /\ pinv s y
    /\ ClientManagerImpl.state_ (RemoteCalls.manager (net y)) = ClientManagerImpl.state_ (RemoteCalls.manager (net x))
    /\ RemoteCalls.work (net x) = S (RemoteCalls.work (net y)).
Proof.
  intros Hx Eb. pose proof Hx as [H1 H2 H3 H4 H5 H6].
  destruct (RemoteCalls.context_alive (net x) n H2) as [c Ec].
  { rewrite !elem_of_app. do 3 right. apply list_elem_of_fmap. exists (n, ok). split; [done|]. by eapply list_elem_of_lookup_2. }
  assert (Hn : (n < length (RemoteCalls.issued (net x)))%nat /\ n ∉ map fst (RemoteCalls.reports (net x)))
    by (apply (RemoteCalls.i_contexts _ H2); by eexists).
  destruct Hn as [Hlt Hn]. destruct (lookup_lt_is_Some_2 (waiters x) n) as [w Ew]; [lia|].
  destruct (H4 n w Ew) as (c0 & E0 & Hc0). destruct (RemoteCalls.i_issued _ H2 n c Ec) as [E1 Hq].
  rewrite E1 in E0. injection E0 as <-. apply (proj1 (call_of_unanswered _ _ _ _)) in Hc0.
  destruct (on_report_spec s n w c now (RemoteCalls.manager (net x))
              (ClientManagerImpl.latency_histogram_ (RemoteCalls.manager (net x))) Hc0 (H5 n w Ew Hn))
    as (r & w' & h' & Hr & Hm & Ho & Ht & Hcall).
  assert (Ef : exists net', RemoteCalls.finish no_throw k (net x) = Some net'
      /\ RemoteCalls.reports net' = RemoteCalls.reports (net x) ++ [(n, (c, [r]))]
      /\ RemoteCalls.manager net' = RemoteCalls.manager (net x) /\ RemoteCalls.issued net' = RemoteCalls.issued (net x)
      /\ RemoteCalls.work (net x) = S (RemoteCalls.work net')).
  { unfold RemoteCalls.finish. rewrite Eb. cbn [mbind option_bind]. rewrite Ec. cbn [mbind option_bind].
    unfold RemoteCalls.onCompletion. destruct (RemoteCalls.invoke c (RemoteCalls.manager (net x))) as [m told]. cbn in Hr, Hm.
    subst m told. eexists. split; [by destruct ok|]. split_and!; [done..|]. unfold RemoteCalls.work. cbn.
    rewrite (RemoteCalls.length_delete k _ _ Eb). lia. }
  destruct Ef as (net' & Ef & Er & Em & Ei & Ewk).
  pose proof (RemoteCalls.inv_finish no_throw k (net x) net' H2 Ef) as Hinv.
  cbn [step]. rewrite Ef. cbn [mbind option_bind]. rewrite Er, last_snoc. cbn [mbind option_bind handle_all handle waiters set_net net].
  unfold handle. cbn [waiters set_net net consumer]. rewrite Ew. cbn [mbind option_bind]. rewrite Em, Ho. cbn [mbind option_bind].
  eexists. split; [reflexivity|]. split; [|split; [by cbn; rewrite <- ?Em|exact Ewk]].
  split; cbn [consumer waiters net RemoteCalls.set_manager RemoteCalls.issued RemoteCalls.reports]; [done| | | | |].
  - destruct Hinv as [I1 I2 I3 I4 I5]. split; cbn; [done..|]. by rewrite <- Em.
  - rewrite length_insert. congruence.
  - intros j v Ej. rewrite Ei. apply list_lookup_insert_Some in Ej as [(-> & -> & _)|[_ Ej]]; [|by apply H4].
    exists (RemoteCalls.unanswered c). split; [exact E1|]. apply call_of_unanswered. by apply Hcall.
  - intros j v Ej Hj. rewrite Er, map_app, not_elem_of_app in Hj. destruct Hj as [Hj Hjn]. cbn in Hjn.
    apply list_lookup_insert_Some in Ej as [(-> & _ & _)|[_ Ej]]; [by destruct Hjn; left|by apply (H5 j)].
  - intros j v cj told Ej Hj. rewrite Er in Hj. apply elem_of_app in Hj as [Hj|Hj].
    + apply list_lookup_insert_Some in Ej as [(E & _ & _)|[_ Ej]]; [|by apply (H6 j v cj told)].
      destruct Hn. apply list_elem_of_fmap. exists (j, (cj, told)). by rewrite E.
    + apply list_elem_of_singleton in Hj as [= -> -> ->].
      apply list_lookup_insert_Some in Ej as [(_ & -> & _)|[Hne _]]; [exact Ht|done].
Qed.

(** Steps of the network below the callbacks. *)
Lemma pinv_net s x n :
  pinv s x -> RemoteCalls.inv n -> RemoteCalls.issued n = RemoteCalls.issued (net x) ->
  RemoteCalls.reports n = RemoteCalls.reports (net x) -> pinv s (set_net n x).
Proof. intros [H1 H2 H3 H4 H5 H6] Hn Ei Er. split; cbn [set_net consumer waiters net]; rewrite ?Ei, ?Er; done. Qed.

Lemma pinv_pull s x q w y :
  pinv s x -> untouched w -> (w = Called q [] \/ exists r, w = Awaiting q r (AwaitPullCallback.make r)) ->
  pull q w x = Some y -> pinv s y.
Proof.
  intros Hx Hw Ew. unfold pull, issue. destruct (str_empty _) eqn:Es; [done|].
  cbn [RemoteCalls.perform]. unfold RemoteCalls.pullMessage, RemoteCalls.with_client.
  match goal with |- context [ClientManagerImpl.getRpcClient ?ok ?h ?b ?m] =>
    pose proof (RemoteCalls.getRpcClient_state ok h b m) as Hm; destruct (ClientManagerImpl.getRpcClient ok h b m) as [cl m'] end.
  unfold RemoteCalls.asyncPull. destruct (RemoteCalls.async _ _) as [n|] eqn:E; [|done]. cbn. intros [= <-].
  eapply pinv_issue; [exact Hx|exact Hw| | | |exact Hm|exact E]; [|done|done].
  pose proof (p_consumer _ _ Hx) as <-.
  assert (Hc : forall k, pull_call_of (consumer x) k q
    (RemoteCalls.mkCall RemoteCalls.PullMessage (pull_request client_id q (consumer x)) cl
       (pullMessage_context (id_of env k) (MQMessageQueue.service_address_ (pull_queue q))
          (Signature.sign HMAC_SHA1 (config (consumer x)) (credentials_of env k) (date_of env k) ∅)
          (clock_of env k) (ClientConfigImpl.long_polling_timeout_ (config (consumer x)))) (Some pull_callback) None)).
  { intros k. cbn. split_and!; try done. intros E0. by rewrite E0 in Es. }
  by destruct Ew as [->|[r ->]]; apply Hc.
Qed.

Lemma pinv_query s x q y : pinv s x -> queryOffset q x = Some y -> pinv s y.
Proof.
  intros Hx. unfold queryOffset, issue. cbn [RemoteCalls.perform]. unfold RemoteCalls.queryOffset, RemoteCalls.with_client.
  match goal with |- context [ClientManagerImpl.getRpcClient ?ok ?h ?b ?m] =>
    pose proof (RemoteCalls.getRpcClient_state ok h b m) as Hm; destruct (ClientManagerImpl.getRpcClient ok h b m) as [cl m'] end.
  unfold RemoteCalls.asyncQueryOffset. destruct (RemoteCalls.async _ _) as [n|] eqn:E; [|done]. cbn. intros [= <-].
  eapply pinv_issue; [exact Hx| | | | |exact Hm|exact E]; [done| |done|done].
  by pose proof (p_consumer _ _ Hx) as <-.
Qed.

Lemma pull_step_inv s a x y : pinv s x -> step a x = Some y -> pinv s y.
Proof.
  intros Hx. destruct a as [q|q r|q|a|k now].
  - intros E. eapply pinv_pull; [exact Hx| |by left|exact E]. done.
  - intros E. eapply pinv_pull; [exact Hx| |right; by eexists|exact E]. done.
  - by apply pinv_query.
  - assert (Hnet : RemoteCalls.below a ->
      (n ← RemoteCalls.step no_throw zlib_crc32 MD5 SHA1 zlib fresh DebugString a (net x); Some (set_net n x)) = Some y ->
      pinv s y).
    { intros Ha. destruct (RemoteCalls.step _ _ _ _ _ _ _ a (net x)) as [n|] eqn:E; [|done]. cbn. intros [= <-].
      destruct (RemoteCalls.step_below _ _ _ _ _ _ _ a (net x) n Ha E) as [Ei Er].
      apply pinv_net; [done| |done|done]. eapply RemoteCalls.calls_inv_step; [exact (p_net _ _ Hx)|exact E]. }
    destruct a; try done; by apply Hnet.
  - intros E. destruct (ThreadPoolImpl.busy_ (RemoteCalls.pool (net x)) !! k) as [[n ok]|] eqn:Eb.
    + destruct (finish_spec s x k now n ok Hx Eb) as (y' & E' & Hy & _). rewrite E' in E. by injection E as <-.
    + cbn [step] in E. unfold RemoteCalls.finish in E. by rewrite Eb in E.
Qed.

Lemma pull_run_inv s l x y : pinv s x -> run l x = Some y -> pinv s y.
Proof.
  revert x. induction l as [|a l IH]; intros x Hx; cbn [run]; [by intros [= <-]|].
  destruct (step a x) as [x1|] eqn:E; [|done]. cbn. apply IH. by eapply pull_step_inv.
Qed.

(** The steps that bring calls to an end. *)
Definition internal (a : action) : Prop :=
  match a with Net a => RemoteCalls.internal a /\ (forall k, a <> RemoteCalls.Finish k) | Finish _ _ => True | _ => False end.

Abbreviation state_of x := (ClientManagerImpl.state_ (RemoteCalls.manager (net x))).

Lemma pull_net_step a x :
  RemoteCalls.internal a -> (forall k, a <> RemoteCalls.Finish k) ->
  step (Net a) x
  = (n ← RemoteCalls.step no_throw zlib_crc32 MD5 SHA1 zlib fresh DebugString a (net x); Some (set_net n x)).
Proof. intros Hi Hf. destruct a as [i o|k ok z| | |k| | | | |]; try done. by destruct (Hf k). Qed.

Lemma pull_progress s x :
  pinv s x -> state_of x = STARTED -> RemoteCalls.work (net x) <> 0%nat ->
  exists a y, internal a /\ step a x = Some y.
Proof.
  intros Hx Hst Hw.
  destruct (RemoteCalls.internal_enabled no_throw zlib_crc32 MD5 SHA1 zlib fresh DebugString (net x) (p_net _ _ Hx)
              (or_intror (fun _ => eq_refl)) Hst Hw) as (a & n & Hi & E).
  destruct a as [i o|k ok z| | |k| | | | |]; try done.
  4: { cbn [RemoteCalls.step] in E. unfold RemoteCalls.finish in E.
       destruct (ThreadPoolImpl.busy_ (RemoteCalls.pool (net x)) !! k) as [[j ok]|] eqn:Eb; [|done].
       destruct (finish_spec s x k 0 j ok Hx Eb) as (y & Ey & _). by exists (Finish k 0), y. }
  all: eexists (Net _), (set_net n x); split; [split; [exact Hi|done]|]; rewrite pull_net_step by done; by rewrite E.
Qed.

Lemma pull_decreases s a x y :
  pinv s x -> state_of x = STARTED -> internal a -> step a x = Some y ->
  (RemoteCalls.work (net y) < RemoteCalls.work (net x))%nat /\ state_of y = STARTED.
Proof.
  intros Hx Hst Hi. destruct a as [q|q r|q|a|k now]; try done.
  - destruct Hi as [Hi Hf]. rewrite pull_net_step by done. destruct (RemoteCalls.step _ _ _ _ _ _ _ a (net x)) as [n|] eqn:E; [|done].
    cbn. intros [= <-]. exact (RemoteCalls.internal_decreases _ _ _ _ _ _ _ a _ _ (p_net _ _ Hx) Hi Hst E).
  - intros E. destruct (ThreadPoolImpl.busy_ (RemoteCalls.pool (net x)) !! k) as [[n ok]|] eqn:Eb.
    + destruct (finish_spec s x k now n ok Hx Eb) as (y' & E' & _ & H1 & H2). rewrite E' in E. injection E as <-. split; [lia|congruence].
    + cbn [step] in E. unfold RemoteCalls.finish in E. by rewrite Eb in E.
Qed.

(** C40: pulling over the network.  In every interleaving of pulls with a callback, synchronous
    pulls and offset queries with the network, the poller, the workers and the shutdown of
    the manager: each operation (a pull with a known address) has put one call on the wire,
    to the address of its queue and with the request of its query, a pull signed with the
    credentials and an offset query with no metadata but its identifier
    ([offset_query_unsigned]); its caller has heard nothing until the call is reported, and then once: a pull succeeds
    exactly when the status and the code are OK, with the offsets of the response and, in
    order, its intact messages, and a synchronous pull that fails leaves the result alone; an offset is the one
    of an OK response.  No callback fails; while the manager is started, as long as a
    caller waits the network, the poller or a worker can take a step, each such step brings the calls
    closer to their end, and when none is left every caller was told. *)
Theorem pull_over_network s m l x :
  run l (make s m) = Some x ->
  length (waiters x) = length (RemoteCalls.issued (net x))
  /\ (forall k w, waiters x !! k = Some w ->
       (exists c, RemoteCalls.issued (net x) !! k = Some c /\ call_of s k w c)
       /\ (k ∉ map fst (RemoteCalls.reports (net x)) -> untouched w)
       /\ (forall c told, (k, (c, told)) ∈ RemoteCalls.reports (net x) -> told_once c w))
  /\ (forall k now, (k < length (ThreadPoolImpl.busy_ (RemoteCalls.pool (net x))))%nat -> is_Some (step (Finish k now) x))
  /\ (state_of x = STARTED ->
       (RemoteCalls.work (net x) <> 0%nat -> exists a y, internal a /\ step a x = Some y)
       /\ (forall a y, internal a -> step a x = Some y ->
            (RemoteCalls.work (net y) < RemoteCalls.work (net x))%nat /\ state_of y = STARTED)
       /\ (RemoteCalls.work (net x) = 0%nat -> forall k, (k < length (waiters x))%nat -> k ∈ map fst (RemoteCalls.reports (net x)))).
Proof.
  intros Hr. pose proof (pull_run_inv s l _ x (pinv_make s m) Hr) as Hx. split; [exact (p_length _ _ Hx)|]. split.
  { intros k w E. split; [exact (p_call _ _ Hx k w E)|]. split; [exact (p_untouched _ _ Hx k w E)|].
    intros c told. by apply (p_told _ _ Hx). }
  split.
  { intros k now Hk. destruct (lookup_lt_is_Some_2 _ k Hk) as [[n ok] Eb].
    destruct (finish_spec s x k now n ok Hx Eb) as (y & Ey & _). by exists y. }
  intros Hst. split; [by apply (pull_progress s)|]. split; [intros a y; by apply (pull_decreases s)|].
  intros Hw k Hk. pose proof (p_net _ _ Hx) as Hn. rewrite (p_length _ _ Hx) in Hk.
  assert (Hin : k ∈ RemoteCalls.places (net x)) by (rewrite <- (RemoteCalls.i_places _ Hn); apply elem_of_seq; lia).
  destruct (RemoteCalls.i_started _ Hn Hst) as (Hd & _). unfold RemoteCalls.places in Hin. unfold RemoteCalls.work in Hw.
  rewrite Hd in Hin. destruct (RemoteCalls.flying _), (RemoteCalls.completed _), (ThreadPoolImpl.posted_ _), (ThreadPoolImpl.busy_ _);
    try (exfalso; cbn in Hw; lia). exact Hin.
Qed.

(** An offset query carries no signature, whatever the credentials: its metadata are dropped. *)
Lemma offset_query_unsigned s m l x k q v c :
  run l (make s m) = Some x -> waiters x !! k = Some (Promised q v) -> RemoteCalls.issued (net x) !! k = Some c ->
  context_metadata (RemoteCalls.context c) = BaseInvocationContext (id_of env k).
Proof.
  intros Hr Ew Ec. destruct (p_call _ _ (pull_run_inv s l _ x (pinv_make s m) Hr) k _ Ew) as (c' & Ec' & Hc).
  rewrite Ec in Ec'. injection Ec' as <-. destruct c as [[] r cl ctx cb res]; try done. cbn in *. by destruct Hc as (_ & _ & ->).
Qed.
End pull_path.

(** ** A synchronous pull and an offset query *)
Definition example_queue : MQMessageQueue.t := MQMessageQueue.mk "TopicTest" "broker" 0 "ipv4:10.0.0.1:8081".
Definition example_env : Env := mkEnv (fun _ => None) (fun _ => "20211101T000000Z"%string) (fun _ => 0) (fun _ => "0100"%string) (fun _ _ => true).
Definition example_response (m : RemoteCalls.Method) : Completion (RemoteCalls.response_of m) :=
  match m with
  | RemoteCalls.PullMessage =>
      mkCompletion true (rmq.mkPullMessageResponse (rmq.mkResponseCommon OK "") 0 9 1
        [rmq.mkMessage (rmq.mkResource "" "TopicTest") ∅ toy_attribute "changed"; toy_message])
  | RemoteCalls.QueryOffset => mkCompletion false (RemoteCalls.response_default RemoteCalls.QueryOffset)
  | m => RemoteCalls.example_answer m
  end.
Definition example_history : list action :=
  [QueryOffset (mkOffsetQuery example_queue BEGINNING 0);
   PullSync (mkPullMessageQuery example_queue 0 32 1000000000 3000) (PullResult.mk 0 0 0 []);
   Net (RemoteCalls.Complete 1 true example_response); Net RemoteCalls.Poll; Net RemoteCalls.Begin; Finish 0 0].
Definition example_run :=
  run (C := gset string) toy_crc32 (fun _ => None) (fun _ => []) toy_zlib toy_fresh (fun _ => ""%string) (fun _ _ => [])
    "client" example_env example_history (make (PullConsumerImpl.make "group") RemoteCalls.example_manager).

(** The pull returns true with the intact message; the query still waits. *)
Definition example_outcome (w : waiter) : option (bool * list string) :=
  match w with
  | Awaiting _ _ cb => b ← AwaitPullCallback.await cb; Some (b, map MQMessage.getBody (PullResult.messages_ (AwaitPullCallback.pull_result_ cb)))
  | _ => None
  end.

Lemma pull_example_outcome :
  option_map (fun x => (map example_outcome (waiters x), map fst (RemoteCalls.reports (net x)),
                        bool_decide (ClientManagerImpl.state_ (RemoteCalls.manager (net x)) = STARTED))) example_run
  = Some ([None; Some (true, ["hello"%string])], [1%nat], true).
Proof. vm_compute. reflexivity. Qed.

Lemma pull_over_network_witness :
  exists x w0 w1, example_run = Some x /\ waiters x = [w0; w1] /\ untouched w0
    /\ example_outcome w1 = Some (true, ["hello"%string]) /\ exists c, told_once (C := gset string) toy_crc32 (fun _ => None) (fun _ => []) toy_zlib toy_fresh c w1.
Proof.
  pose proof pull_example_outcome as H. destruct example_run as [x|] eqn:E; [|discriminate]. injection H as H1 H2 _.
  destruct (pull_over_network toy_crc32 (fun _ => None) (fun _ => []) toy_zlib toy_fresh (fun _ => ""%string) (fun _ _ => []) "client"
              example_env (PullConsumerImpl.make "group") RemoteCalls.example_manager example_history x E) as (_ & Hw & _).
  destruct (waiters x) as [|w0 [|w1 [|? ?]]] eqn:Ew; try discriminate H1. injection H1 as _ H1.
  exists x, w0, w1. split; [reflexivity|]. split; [exact Ew|]. split.
  { apply (Hw 0%nat w0 eq_refl). rewrite H2. by rewrite list_elem_of_singleton. }
  split; [exact H1|]. destruct (RemoteCalls.reports (net x)) as [|[j [c told]] [|? ?]]; try discriminate H2. injection H2 as ->.
  exists c. apply (proj2 (proj2 (Hw 1%nat w1 eq_refl)) c told). left.
Defined.
End PullPath.
