(* ===== verification/ConsumerFacade.v ===== *)
(** * The consumers as the application sees them.

    [DefaultMQPushConsumer] and [DefaultMQPullConsumer] (rocketmq/), which own an
    implementation and forward to it: the settings an application makes, the name server
    resolver it chooses, and [start] and [shutdown] on top of PushConsumer and PullConsumer.
    [None] is [abort()] or the dereference of a null pointer. *)

From S2P Require Import Prelude Types Message MixAll Proto RateLimiter Route Concurrency NameServer Config Codec ClientManager.
From S2P Require Import ClientImpl ProcessQueue ConsumeService PushConsumer PullConsumer.

Inductive ConsumeFromWhere :=
  | CONSUME_FROM_LAST_OFFSET | CONSUME_FROM_LAST_OFFSET_AND_FROM_MIN_WHEN_BOOT_FIRST
  | CONSUME_FROM_MIN_OFFSET | CONSUME_FROM_MAX_OFFSET | CONSUME_FROM_FIRST_OFFSET | CONSUME_FROM_TIMESTAMP.

Module DefaultMQPushConsumer.

(** The implementation, and the fields of it that PushConsumer does not have. *)
Record t := mk {
  impl_ : PushConsumerImpl.t;
  name_server_resolver_ : option Resolver;
  consume_from_where_ : ConsumeFromWhere;
  custom_executor_ : bool;
}.

Definition make (group_name : string) : t :=
  mk (PushConsumerImpl.make group_name) None CONSUME_FROM_LAST_OFFSET false.

Definition set_impl (f : PushConsumerImpl.t -> PushConsumerImpl.t) (s : t) : t :=
  mk (f (impl_ s)) (name_server_resolver_ s) (consume_from_where_ s) (custom_executor_ s).

Definition withNameServerResolver (r : Resolver) (s : t) : t :=
  mk (impl_ s) (Some r) (consume_from_where_ s) (custom_executor_ s).

Definition set_config (f : ClientConfigImpl.t -> ClientConfigImpl.t) : t -> t :=
  set_impl (fun p => PushConsumerImpl.set_client (ClientImpl.with_config f (PushConsumerImpl.client p)) p).

Section facade.
(** [absl::SimpleAtoi], the host information of the environment and the client id. *)
Context (SimpleAtoi : string -> option Z) (host_info : HostInfo.t) (client_id : string).

Definition subscribe (now : Z) (topic expression : string) (ty : ExpressionType) : t -> t :=
  set_impl (PushConsumerImpl.subscribe now topic expression ty).
Definition setConsumeFromWhere (policy : ConsumeFromWhere) (s : t) : t :=
  mk (impl_ s) (name_server_resolver_ s) policy (custom_executor_ s).
Definition registerMessageListener (l : option MessageListenerType) : t -> t :=
  set_impl (PushConsumerImpl.registerMessageListener l).
Definition setNamesrvAddr (name_srv : string) : t -> t :=
  withNameServerResolver (StaticResolver (StaticNameServerResolver.make name_srv)).
Definition setNameServerListDiscoveryEndpoint (endpoint : string) (s : t) : option t :=
  if str_empty endpoint then Some s
  else r ← DynamicNameServerResolver.make SimpleAtoi host_info endpoint;
       Some (withNameServerResolver (DynamicResolver r) s).
Definition setGroupName (x : string) : t -> t := set_config (ClientConfigImpl.setGroupName x).
Definition setConsumeThreadCount (n : Z) : t -> t := set_impl (PushConsumerImpl.consumeThreadPoolSize n).
Definition setInstanceName (x : string) : t -> t := set_config (ClientConfigImpl.setInstanceName x).
Definition getProcessQueueTableSize (s : t) : Z := i32 (Z.of_nat (PushConsumerImpl.getProcessQueueTableSize (impl_ s))).
Definition setUnitName (x : string) : t -> t := set_config (ClientConfigImpl.setUnitName x).
Definition getUnitName (s : t) : string := ClientConfigImpl.unit_name_ (PushConsumerImpl.config (impl_ s)).
Definition enableTracing (x : bool) : t -> t := set_config (ClientConfigImpl.enableTracing x).
Definition isTracingEnabled (s : t) : bool := ClientConfigImpl.enable_tracing_ (PushConsumerImpl.config (impl_ s)).
Definition setAsyncPull (_ : bool) (s : t) : t := s.

(** The [int] becomes a [uint32_t]. *)
Definition setConsumeMessageBatchMaxSize (n : Z) : t -> t := set_impl (PushConsumerImpl.consumeBatchSize (u32 n)).
Definition setCustomExecutor (x : bool) (s : t) : t :=
  mk (impl_ s) (name_server_resolver_ s) (consume_from_where_ s) x.
Definition setThrottle (topic : string) (threshold : Z) : t -> t :=
  set_impl (PushConsumerImpl.setThrottle topic threshold).
Definition setResourceNamespace (x : string) : t -> t := set_config (ClientConfigImpl.setResourceNamespace x).
Definition setCredentialsProvider (x : bool) : t -> t := set_config (ClientConfigImpl.setCredentialsProvider x).
Definition setMessageModel (x : MessageModel) : t -> t := set_impl (PushConsumerImpl.setMessageModel x).
Definition groupName (s : t) : string := PushConsumerImpl.group_name_ (impl_ s).

(** [start]: a client that was not started yet and has no resolver aborts. *)
Definition start (times : PushConsumerImpl.RouteTimes) (route_handle handle : Z) (s : t)
    : PushConsumerImpl.ending (t * list PushConsumerImpl.effect) :=
  if bool_decide (ClientImpl.state_ (PushConsumerImpl.client (impl_ s)) = CREATED)
     && bool_decide (name_server_resolver_ s = None)
  then PushConsumerImpl.Aborts
  else
    match PushConsumerImpl.start client_id times route_handle handle (impl_ s) with
    | PushConsumerImpl.Returns (p, effects) => PushConsumerImpl.Returns (set_impl (fun _ => p) s, effects)
    | PushConsumerImpl.Aborts => PushConsumerImpl.Aborts
    | PushConsumerImpl.Hangs => PushConsumerImpl.Hangs
    end.

(** [shutdown] calls the resolver unconditionally. *)
Definition shutdown (s : t) : option (t * list PushConsumerImpl.effect) :=
  _ ← name_server_resolver_ s;
  '(p, effects) ← PushConsumerImpl.shutdown client_id (impl_ s);
  Some (set_impl (fun _ => p) s, effects).

(** *** Configuring and starting a consumer *)

Inductive setting :=
  | Subscribe (now : Z) (topic expression : string) (ty : ExpressionType)
  | ConsumeFrom (policy : ConsumeFromWhere)
  | Listener (l : option MessageListenerType)
  | NamesrvAddr (name_srv : string)
  | DiscoveryEndpoint (endpoint : string)
  | GroupName (x : string)
  | ThreadCount (n : Z)
  | InstanceName (x : string)
  | UnitName (x : string)
  | Tracing (x : bool)
  | AsyncPull (x : bool)
  | BatchMaxSize (n : Z)
  | CustomExecutor (x : bool)
  | Throttle (topic : string) (threshold : Z)
  | ResourceNamespace (x : string)
  | CredentialsProvider (x : bool)
  | Model (x : MessageModel).

Definition apply_setting (o : setting) (s : t) : option t :=
  match o with
  | Subscribe now topic expression ty => Some (subscribe now topic expression ty s)
  | ConsumeFrom p => Some (setConsumeFromWhere p s)
  | Listener l => Some (registerMessageListener l s)
  | NamesrvAddr x => Some (setNamesrvAddr x s)
  | DiscoveryEndpoint x => setNameServerListDiscoveryEndpoint x s
  | GroupName x => Some (setGroupName x s)
  | ThreadCount n => Some (setConsumeThreadCount n s)
  | InstanceName x => Some (setInstanceName x s)
  | UnitName x => Some (setUnitName x s)
  | Tracing x => Some (enableTracing x s)
  | AsyncPull x => Some (setAsyncPull x s)
  | BatchMaxSize n => Some (setConsumeMessageBatchMaxSize n s)
  | CustomExecutor x => Some (setCustomExecutor x s)
  | Throttle topic n => Some (setThrottle topic n s)
  | ResourceNamespace x => Some (setResourceNamespace x s)
  | CredentialsProvider x => Some (setCredentialsProvider x s)
  | Model x => Some (setMessageModel x s)
  end.

Fixpoint configure (l : list setting) (s : t) : option t :=
  match l with [] => Some s | o :: l' => s' ← apply_setting o s; configure l' s' end.

(** What a list of settings asks for. *)
Definition listener_of (l : list setting) : option MessageListenerType :=
  mjoin (last (omap (fun o => match o with Listener x => Some x | _ => None end) l)).
Definition model_of (l : list setting) : MessageModel :=
  default CLUSTERING (last (omap (fun o => match o with Model x => Some x | _ => None end) l)).
Definition group_of (l : list setting) (group : string) : string :=
  default group (last (omap (fun o => match o with GroupName x => Some x | _ => None end) l)).
Definition throttle_of (topic : string) (l : list setting) : option Z :=
  head (omap (fun o => match o with Throttle x n => if decide (x = topic) then Some n else None | _ => None end) l).
Definition filter_of (topic : string) (l : list setting) : option FilterExpression.t :=
  head (omap (fun o => match o with
                       | Subscribe now x e ty => if decide (x = topic) then Some (FilterExpression.make now e ty) else None
                       | _ => None
                       end) l).
(** The topics subscribed to, and the threads asked for last, with a number that is positive. *)
Definition topics_of (l : list setting) : gset string :=
  list_to_set (omap (fun o => match o with Subscribe _ topic _ _ => Some topic | _ => None end) l).
Definition threads_of (l : list setting) : Z :=
  default MixAll.DEFAULT_CONSUME_THREAD_POOL_SIZE
    (last (omap (fun o => match o with ThreadCount n => if 1 <=? n then Some n else None | _ => None end) l)).
(** A resolver is chosen by a name server list or a discovery endpoint that is not empty. *)
Definition has_resolver (l : list setting) : bool :=
  existsb (fun o => match o with NamesrvAddr _ => true | DiscoveryEndpoint x => negb (str_empty x) | _ => false end) l.

(** A consumer that was configured and not started. *)
Record fresh (group : string) (l : list setting) (s : t) : Prop := {
  fresh_state : ClientImpl.state_ (PushConsumerImpl.client (impl_ s)) = CREATED;
  fresh_service : PushConsumerImpl.consume_message_service_ (impl_ s) = None;
  fresh_listener : PushConsumerImpl.message_listener_ (impl_ s) = listener_of l;
  fresh_model : PushConsumerImpl.message_model_ (impl_ s) = model_of l;
  fresh_group : groupName s = group_of l group;
  fresh_throttle : forall topic, PushConsumerImpl.throttle_table_ (impl_ s) !! topic = throttle_of topic l;
  fresh_filter : forall topic, PushConsumerImpl.topic_filter_expression_table_ (impl_ s) !! topic = filter_of topic l;
  fresh_pool : PushConsumerImpl.consume_thread_pool_size_ (impl_ s) = threads_of l;
  fresh_batch : 1 <= PushConsumerImpl.consume_batch_size_ (impl_ s) < 2 ^ 32;
  fresh_resolver : bool_decide (name_server_resolver_ s = None) = negb (has_resolver l);
}.

Lemma lookup_emplace {A} (m : gmap string A) k v k' :
  PushConsumerImpl.emplace k v m !! k' = match m !! k' with Some x => Some x | None => if decide (k = k') then Some v else None end.
Proof.
  unfold PushConsumerImpl.emplace. destruct (m !! k) eqn:E.
  - destruct (m !! k') eqn:E'; [done|]. rewrite decide_False; [done|]. by intros ->; rewrite E in E'.
  - case_decide as Hk; [subst k'; by rewrite lookup_insert_eq, E|]. rewrite lookup_insert_ne by done.
    by destruct (m !! k').
Qed.

Lemma configure_app l k s : configure (l ++ k) s = (s' ← configure l s; configure k s').
Proof. revert s. induction l as [|o l IH]; intros s; cbn; [done|]. destruct (apply_setting o s); cbn; [apply IH|done]. Qed.

Lemma fresh_make group : fresh group [] (make group).
Proof. split; cbn; try done; intros; by rewrite ?lookup_empty. Qed.

Lemma has_resolver_snoc l o : has_resolver (l ++ [o]) = has_resolver l || has_resolver [o].
Proof. apply existsb_app. Qed.

(** Before the service exists a threshold is only noted. *)
Lemma setThrottle_fresh topic n s :
  PushConsumerImpl.consume_message_service_ (impl_ s) = None ->
  setThrottle topic n s
  = set_impl (fun p => PushConsumerImpl.set_throttles
      (PushConsumerImpl.emplace topic n (PushConsumerImpl.throttle_table_ p)) p) s.
Proof. intros H. unfold setThrottle, set_impl, PushConsumerImpl.setThrottle. cbn. by rewrite H. Qed.

(** The fields a setting leaves alone follow from those before it. *)
Ltac fresh_fields :=
  split; intros; unfold listener_of, model_of, group_of, throttle_of, filter_of, threads_of in *;
  rewrite ?last_omap_snoc, ?head_omap_snoc, ?has_resolver_snoc;
  try match goal with
      | H : ?P |- ?P => exact H
      | H : forall topic, _ = head (omap _ _) |- _ !! ?x = _ => rewrite <- (H x); by destruct (_ !! x)
      | H : _ = negb (has_resolver _) |- _ => rewrite orb_false_r; exact H
      | |- _ = _ => reflexivity
      end;
  try assumption.

Lemma fresh_snoc group l o s s' :
  fresh group l s -> apply_setting o s = Some s' -> fresh group (l ++ [o]) s'.
Proof.
  intros [H1 H2 H3 H4 H5 H6 H7 H8 H9 H10] E. destruct o; cbn [apply_setting] in E.
  5: { unfold setNameServerListDiscoveryEndpoint in E. destruct (str_empty endpoint) eqn:Ee.
       - injection E as <-. fresh_fields. cbn [has_resolver existsb]. by rewrite Ee, orb_false_r.
       - destruct (DynamicNameServerResolver.make _ _ _); [|done]. injection E as <-. fresh_fields.
         cbn [has_resolver existsb]. by rewrite Ee, orb_true_r. }
  all: injection E as <-; rewrite ?setThrottle_fresh by done.
  (* the thread count and the batch size are guarded *)
  6: { unfold setConsumeThreadCount, PushConsumerImpl.consumeThreadPoolSize, set_impl.
       destruct (1 <=? n) eqn:En; fresh_fields; by rewrite En. }
  10: { unfold setConsumeMessageBatchMaxSize, PushConsumerImpl.consumeBatchSize, set_impl.
        destruct (bool_decide (PushConsumerImpl.message_listener_ _ = _)); [|destruct (Z.leb_spec 1 (u32 n))]; fresh_fields.
        split; [assumption|apply u32_range]. }
  all: fresh_fields.
  - cbn. rewrite lookup_emplace, H7. done.
  - by rewrite orb_true_r.
  - cbn. rewrite lookup_emplace, H6. done.
Qed.

Lemma configure_fresh group l s : configure l (make group) = Some s -> fresh group l s.
Proof.
  revert s. induction l as [|o l IH] using rev_ind; intros s.
  - intros [= <-]. apply fresh_make.
  - rewrite configure_app. destruct (configure l (make group)) as [s0|]; cbn [mbind option_bind]; [|done].
    cbn [configure]. destruct (apply_setting o s0) as [s1|] eqn:E; [|done]. intros [= <-].
    eapply fresh_snoc; [by apply IH|done].
Qed.

(** The limiters of the service after the throttles of a table are applied to it. *)
Lemma throttles_applied (l : list (string * Z)) topic : forall sv,
  NoDup l.*1 ->
  ConsumeMessageService.rate_limiter_table_
    (foldl (fun sv e => ConsumeMessageService.throttle (fst e) (snd e) sv) sv l) !! topic
  = match (list_to_map l : gmap string Z) !! topic with
    | Some n => Some (RateLimiter.make 10 n)
    | None => ConsumeMessageService.rate_limiter_table_ sv !! topic
    end.
Proof.
  induction l as [|[k n] l IH]; intros sv Hd; cbn [foldl].
  - change (list_to_map [] : gmap string Z) with (∅ : gmap string Z). by rewrite lookup_empty.
  - inversion_clear Hd as [|?? Hk Hd']. rewrite IH by done. cbn [list_to_map foldr fmap list_fmap fst snd].
    destruct (decide (k = topic)) as [->|Hne].
    + rewrite (not_elem_of_list_to_map_1 l topic Hk). cbn. by rewrite !lookup_insert_eq.
    + cbn. by rewrite !lookup_insert_ne.
Qed.

(** What a started consumer is, in terms of the settings made before. *)
Definition started_as (group : string) (l : list setting) (listener : MessageListenerType) (p : PushConsumerImpl.t) : Prop :=
  ClientImpl.state_ (PushConsumerImpl.client p) = STARTED
  /\ PushConsumerImpl.group_name_ p = group_of l group
  /\ PushConsumerImpl.receive_message_policy_ p
     = (if bool_decide (listener = STANDARD /\ model_of l = CLUSTERING) then POLLING else PULL)
  /\ PushConsumerImpl.consume_thread_pool_size_ p = threads_of l
  /\ (if bool_decide (listener = FIFO_LISTENER) then PushConsumerImpl.consume_batch_size_ p = 1
      else 1 <= PushConsumerImpl.consume_batch_size_ p < 2 ^ 32)
  /\ (forall topic, PushConsumerImpl.getFilterExpression topic p = filter_of topic l)
  /\ exists service, PushConsumerImpl.consume_message_service_ p = Some (listener, service)
     /\ ConsumeMessageService.state_ service = STARTED
     /\ forall topic, ConsumeMessageService.rateLimiter topic service = RateLimiter.make 10 <$> throttle_of topic l.

Lemma throttles_state (l : list (string * Z)) : forall sv,
  ConsumeMessageService.state_ (foldl (fun sv e => ConsumeMessageService.throttle (fst e) (snd e) sv) sv l)
  = ConsumeMessageService.state_ sv.
Proof. induction l as [|e l IH]; intros sv; cbn [foldl]; [done|]. by rewrite IH. Qed.

(** The callbacks that have run when the last of these rounds ends. *)
Definition arrived (rounds : list (nat * option nat)) : nat :=
  sum_list_with (fun round => fst round + default O (snd round))%nat rounds.

(** The callbacks of all of the topics subscribed to have run before the first test, or at the
    end of a wait before which every wait has ended. *)
Definition routes_come (times : PushConsumerImpl.RouteTimes) (l : list setting) : Prop :=
  exists k, Forall (fun round => is_Some (snd round)) (take k (PushConsumerImpl.rounds times))
    /\ (size (topics_of l) <= PushConsumerImpl.early times + arrived (take k (PushConsumerImpl.rounds times)))%nat.

Lemma await_routes_spec (rounds : list (nat * option nat)) : forall n,
  PushConsumerImpl.await_routes rounds n = true
  <-> exists k, Forall (fun round => is_Some (snd round)) (take k rounds) /\ (n <= arrived (take k rounds))%nat.
Proof.
  induction rounds as [|[missed woken] rounds IH]; intros [|n]; cbn [PushConsumerImpl.await_routes].
  1, 3: split; [intros _; exists O; by split; [constructor|cbn; lia]|done].
  - split; [done|]. intros ([|k] & _ & H); cbn in H; lia.
  - destruct woken as [heard|].
    + rewrite IH. split; intros (k & Hk & H).
      * exists (S k). split; [by constructor; [eexists|]|]. cbn [take]. unfold arrived in *. cbn. lia.
      * destruct k as [|k]; [cbn in H; lia|]. exists k. split; [by inversion Hk|]. unfold arrived in *. cbn in H. lia.
    + split; [done|]. intros ([|k] & Hk & H); [cbn in H; lia|]. cbn in Hk. inversion_clear Hk as [|? ? [? ?]]. done.
Qed.

Lemma routes_come_spec times l :
  PushConsumerImpl.await_routes (PushConsumerImpl.rounds times) (size (topics_of l) - PushConsumerImpl.early times) = true
  <-> routes_come times l.
Proof.
  rewrite await_routes_spec. unfold routes_come. split; intros (k & Hk & H); exists k; (split; [exact Hk|lia]).
Qed.

Lemma filter_of_topic topic l : is_Some (filter_of topic l) <-> topic ∈ topics_of l.
Proof.
  unfold filter_of, topics_of. rewrite elem_of_list_to_set. induction l as [|o l IH]; cbn.
  - split; [by intros [? ?]|by intros ?%not_elem_of_nil].
  - destruct o; try exact IH. rewrite elem_of_cons. destruct (decide (topic0 = topic)) as [->|Hne]; [|rewrite IH; naive_solver].
    cbn. split; [by left|by eexists].
Qed.

Lemma fresh_topics group l s :
  fresh group l s -> length (map_to_list (PushConsumerImpl.topic_filter_expression_table_ (impl_ s))) = size (topics_of l).
Proof.
  intros Hf. rewrite length_map_to_list, <- size_dom. f_equal. apply leibniz_equiv. intros topic.
  by rewrite elem_of_dom, (fresh_filter _ _ _ Hf), filter_of_topic.
Qed.

(** [start_services] on a client whose base class has started. *)
Lemma start_services_fresh group l s listener times handle c :
  fresh group l s -> listener_of l = Some listener -> ClientImpl.config c = PushConsumerImpl.config (impl_ s) ->
  (routes_come times l /\ 0 < u16 (threads_of l) ->
   exists p effects,
     PushConsumerImpl.start_services client_id times handle (PushConsumerImpl.set_client c (impl_ s))
       = PushConsumerImpl.Returns (p, effects)
     /\ started_as group l listener p
     /\ PushConsumerImpl.ServiceEffect (ConsumeMessageService.PoolStart (u16 (threads_of l))) ∈ effects)
  /\ (~ (routes_come times l /\ 0 < u16 (threads_of l)) ->
      PushConsumerImpl.start_services client_id times handle (PushConsumerImpl.set_client c (impl_ s)) = PushConsumerImpl.Hangs).
Proof.
  intros Hf Hl Hc. pose proof (fresh_topics group l s Hf) as Ht. destruct Hf as [H1 H2 H3 H4 H5 H6 H7 H8 H9 H10].
  unfold PushConsumerImpl.start_services. cbn [PushConsumerImpl.message_listener_ PushConsumerImpl.set_client]. rewrite H3, Hl.
  unfold PushConsumerImpl.fetchRoutes.
  cbn [PushConsumerImpl.topic_filter_expression_table_ PushConsumerImpl.set_policy PushConsumerImpl.set_client
       PushConsumerImpl.consume_thread_pool_size_].
  rewrite length_map, Ht, <- routes_come_spec.
  destruct (PushConsumerImpl.await_routes _ _) eqn:Ea; cbn [negb]; [|split; [by intros [? _]|done]].
  rewrite H8. unfold ConsumeMessageService.start, ConsumeMessageService.base_start.
  cbn [ConsumeMessageService.state_ ConsumeMessageService.make ConsumeMessageService.thread_count_].
  change (compare_exchange_strong CREATED CREATED STARTING) with (true, STARTING). cbn [negb].
  unfold ThreadPoolImpl.starts, ThreadPoolImpl.workers.
  destruct (Z.ltb_spec 0 (u16 (threads_of l))) as [En|En]; cbn [negb mbind option_bind]; [|split; [lia|done]].
  split; [intros _|intros []; done].
  eexists _, _. split; [reflexivity|]. split; [|rewrite !elem_of_app; right; left; left]. unfold started_as. split_and!.
  - reflexivity.
  - change (ClientConfigImpl.group_name_ (ClientImpl.config c) = group_of l group). by rewrite Hc.
  - cbn. rewrite H4. by destruct listener, (model_of l).
  - exact H8.
  - by destruct listener; cbn.
  - exact H7.
  - eexists. split; [reflexivity|]. split; [by rewrite throttles_state|]. intros topic.
    unfold ConsumeMessageService.rateLimiter, ConsumeMessageService.hasConsumeRateLimiter.
    rewrite throttles_applied by apply NoDup_fst_map_to_list. rewrite list_to_map_to_list.
    cbn. rewrite H6. by destruct (throttle_of topic l).
Qed.

(** C15: configuring a push consumer through its facade and starting it.  After any settings in
    any order, [start] aborts the process when no name server was configured or no listener is
    registered.  Otherwise it waits for ever when the route of some topic subscribed to does
    not arrive, or the last of them arrives between the test and the wait of [fetchRoutes] and
    no spurious wake-up follows, or when the number of threads is a multiple of 65536, of which the pool makes none.
    Otherwise it returns, with a pool of the threads set last, modulo 65536, and the
    consumer runs under the last group name, polls exactly when the last listener is a
    standard one and the last model is clustering, has a positive batch size (one when
    ordered), holds for each topic the first expression subscribed, and its consume service is
    started with a limiter for exactly the throttled topics, of the threshold set first. *)
Theorem configured_consumer_starts group l s times route_handle handle :
  configure l (make group) = Some s ->
  match listener_of l with
  | Some listener =>
      if has_resolver l then
        (routes_come times l /\ 0 < u16 (threads_of l) ->
         exists s' effects, start times route_handle handle s = PushConsumerImpl.Returns (s', effects)
           /\ started_as group l listener (impl_ s')
           /\ PushConsumerImpl.ServiceEffect (ConsumeMessageService.PoolStart (u16 (threads_of l))) ∈ effects)
        /\ (~ (routes_come times l /\ 0 < u16 (threads_of l)) ->
            start times route_handle handle s = PushConsumerImpl.Hangs)
      else start times route_handle handle s = PushConsumerImpl.Aborts
  | None => start times route_handle handle s = PushConsumerImpl.Aborts
  end.
Proof.
  intros Hf. apply configure_fresh in Hf. pose proof Hf as [H1 H2 H3 _ _ _ _ _ _ H10].
  unfold start. rewrite H1, H10. change (bool_decide (CREATED = CREATED)) with true. cbn [andb].
  destruct (has_resolver l) eqn:Er; cbn [negb]; [|by destruct (listener_of l)].
  unfold PushConsumerImpl.start, ClientImpl.start. rewrite H1. cbn [compare_exchange_strong negb].
  change (compare_exchange_strong CREATED CREATED STARTING) with (true, STARTING). cbn [negb].
  rewrite bool_decide_eq_true_2 by done. cbn [negb].
  set (c := ClientImpl.set_state STARTED _).
  destruct (listener_of l) as [listener|] eqn:El.
  - destruct (start_services_fresh group l s listener times handle c Hf El eq_refl) as [Hr Hh].
    split; intros H; [|by rewrite (Hh H)].
    destruct (Hr H) as (p & effects & -> & Hp & Hin). eexists _, _. split; [reflexivity|]. split; [exact Hp|].
    apply elem_of_app. by right.
  - unfold PushConsumerImpl.start_services. cbn [PushConsumerImpl.message_listener_ PushConsumerImpl.set_client].
    by rewrite H3.
Qed.

(** With 65536 threads the pool has none, and [start] never returns. *)
Lemma no_threads_hangs group times route_handle handle s :
  configure [NamesrvAddr "ns:9876"; Listener (Some STANDARD); ThreadCount 65536] (make group) = Some s ->
  start times route_handle handle s = PushConsumerImpl.Hangs.
Proof.
  intros [= <-]. unfold start, PushConsumerImpl.start, PushConsumerImpl.start_services. cbn -[PushConsumerImpl.await_routes ConsumeMessageService.start].
  destruct (PushConsumerImpl.await_routes _ _); reflexivity.
Qed.

(** A negative batch size is converted to an unsigned one and accepted. *)
Lemma negative_batch_size_accepted group :
  PushConsumerImpl.consume_batch_size_ (impl_ (setConsumeMessageBatchMaxSize (-1) (make group))) = 4294967295.
Proof. reflexivity. Qed.

(** Before [start], a second threshold for a topic is ignored. *)
Lemma second_threshold_ignored group topic n m :
  PushConsumerImpl.throttle_table_ (impl_ (setThrottle topic m (setThrottle topic n (make group)))) !! topic = Some n.
Proof.
  rewrite !setThrottle_fresh by done. cbn. by rewrite !lookup_emplace, lookup_empty, decide_True.
Qed.

End facade.

Definition example_settings : list setting :=
  [NamesrvAddr "ns1:9876;ns2:9876"; Subscribe 1 "T" "a" TAG; Throttle "T" 16; Listener (Some STANDARD);
   ThreadCount 4; BatchMaxSize 8; Throttle "T" 32; GroupName "g2"].

Lemma configured_consumer_starts_witness :
  exists s s' effects,
    configure (fun _ => None) (HostInfo.mk "" "" "" "") example_settings (make "g") = Some s
    /\ start "client" (PushConsumerImpl.mkRouteTimes 0 [(0, Some 1)])%nat 1 2 s = PushConsumerImpl.Returns (s', effects)
    /\ started_as "g" example_settings STANDARD (impl_ s')
    /\ PushConsumerImpl.ServiceEffect (ConsumeMessageService.PoolStart 4) ∈ effects.
Proof.
  destruct (configure (fun _ => None) (HostInfo.mk "" "" "" "") example_settings (make "g")) as [s|] eqn:E;
    [|vm_compute in E; discriminate].
  destruct (proj1 (configured_consumer_starts (fun _ => None) (HostInfo.mk "" "" "" "") "client" "g" example_settings s
              (PushConsumerImpl.mkRouteTimes 0 [(0, Some 1)])%nat 1 2 E))
    as (s' & effects & H1 & H2 & H3).
  { split; [|by vm_compute]. exists 1%nat. split; [repeat constructor; by eexists|vm_compute; lia]. }
  exists s, s', effects. exact (conj eq_refl (conj H1 (conj H2 H3))).
Defined.

End DefaultMQPushConsumer.

Module DefaultMQPullConsumer.

Record t := mk {
  impl_ : PullConsumerImpl.t;
  name_server_resolver_ : option Resolver;
}.

Definition make (group_name : string) : t := mk (PullConsumerImpl.make group_name) None.

Section facade.
Context (SimpleAtoi : string -> option Z) (host_info : HostInfo.t) (client_id : string).

Definition set_config (f : ClientConfigImpl.t -> ClientConfigImpl.t) (s : t) : t :=
  mk (PullConsumerImpl.mk (ClientImpl.with_config f (PullConsumerImpl.client (impl_ s)))
        (PullConsumerImpl.message_model_ (impl_ s)))
     (name_server_resolver_ s).

Definition setResourceNamespace (x : string) : t -> t := set_config (ClientConfigImpl.setResourceNamespace x).
Definition setCredentialsProvider (x : bool) : t -> t := set_config (ClientConfigImpl.setCredentialsProvider x).
Definition setNamesrvAddr (name_srv : string) (s : t) : t :=
  mk (impl_ s) (Some (StaticResolver (StaticNameServerResolver.make name_srv))).

(** Unlike that of the push consumer, this setter does not ignore an empty endpoint. *)
Definition setNameServerListDiscoveryEndpoint (endpoint : string) (s : t) : option t :=
  r ← DynamicNameServerResolver.make SimpleAtoi host_info endpoint;
  Some (mk (impl_ s) (Some (DynamicResolver r))).

Definition start (handle : Z) (s : t) : option (t * list ClientImpl.effect * bool) :=
  if bool_decide (ClientImpl.state_ (PullConsumerImpl.client (impl_ s)) = CREATED)
     && bool_decide (name_server_resolver_ s = None)
  then None
  else
    let '(p, effects, observe) := PullConsumerImpl.start handle (impl_ s) in
    Some (mk p (name_server_resolver_ s), effects, observe).

Definition shutdown (s : t) : option (t * list ClientImpl.effect) :=
  _ ← name_server_resolver_ s;
  let '(p, effects) := PullConsumerImpl.shutdown client_id (impl_ s) in
  Some (mk p (name_server_resolver_ s), effects).

Definition queuesFor (route : error_code * option TopicRouteData.t) (topic : string) (s : t) :=
  PullConsumerImpl.queuesFor route topic (impl_ s).

End facade.
End DefaultMQPullConsumer.
