(* ===== verification/Admin.v ===== *)
(** * Logging and its administration.

    [LoggerImpl] (log/LoggerImpl.cpp, log/include/LoggerImpl.h): the levels, the pattern and
    the one-time set-up of the sinks.  The admin service (admin/): [applyChange] and
    [ChangeLogLevel], the request the admin client sends, the state machine of a
    [ServerCall] on the completion queue, and the lifecycle of [AdminServerImpl].

    The objects of spdlog are only called: an operation returns the calls it makes, in
    order; whether [spdlog::get] finds the logger is an argument.  The file system and the
    environment are arguments too; [None] is [abort()]. *)

From S2P Require Import Prelude Types.

Inductive Level := Trace | Debug | Info | Warn | Error_.

(** [spdlog::level] *)
Inductive spdlog_level := trace | debug | info | warn | err.

#[export] Instance spdlog_level_eq_dec : EqDecision spdlog_level.
Proof. solve_decision. Defined.

Module LoggerImpl.

Definition LOG_FILE : string := "/logs/rocketmq/client.log".
Definition LOGGER_NAME : string := "rocketmq_logger".
Definition DEFAULT_MAX_LOG_FILE_QUANTITY : Z := 16.
Definition DEFAULT_FILE_SIZE : Z := 1048576 * 256.
Definition DEFAULT_PATTERN : string := "[%Y/%m/%d-%H:%M:%S.%e %z] [%n] [%^---%L---%$] [thread %t] %v %@".

(** The sinks are null until they are created. *)
Record t := mk {
  level_ : Level;
  console_level_ : Level;
  log_home_ : string;
  file_size_ : Z;
  file_count_ : Z;
  pattern_ : string;
  init_once_ : bool;
  file_sink_ : bool;
  console_sink_ : bool;
}.

Definition make : t := mk Info Warn "" DEFAULT_FILE_SIZE DEFAULT_MAX_LOG_FILE_QUANTITY "" false false false.

Inductive target := ConsoleSink | FileSink | RegisteredLogger.

#[global] Instance target_eq_dec : EqDecision target.
Proof. solve_decision. Defined.

Inductive effect :=
  | CreateDirectories (dir : string)
  | CreateConsoleSink
  | CreateFileSink (path : string) (size count : Z)
  | CreateLogger (name : string)
  | SetLevel (x : target) (l : spdlog_level)
  | SetPattern (x : target) (p : string)
  | FlushOn (l : spdlog_level)
  | FlushEvery (seconds : Z)
  | SetDefaultLogger.

(** The template [setLevel(target, level)]; [target] may be null. *)
Definition to_spdlog (l : Level) : spdlog_level :=
  match l with Trace => trace | Debug => debug | Info => info | Warn => warn | Error_ => err end.
Definition set_level (present : bool) (x : target) (l : Level) : list effect :=
  if negb present then [] else [SetLevel x (to_spdlog l)].

(** [registered]: [spdlog::get(LOGGER_NAME)] is not null. *)
Definition setLevel (registered : bool) (l : Level) (s : t) : t * list effect :=
  (mk l (console_level_ s) (log_home_ s) (file_size_ s) (file_count_ s) (pattern_ s) (init_once_ s) (file_sink_ s)
      (console_sink_ s),
   set_level registered RegisteredLogger l).

Definition setConsoleLevel (l : Level) (s : t) : t * list effect :=
  (mk (level_ s) l (log_home_ s) (file_size_ s) (file_count_ s) (pattern_ s) (init_once_ s) (file_sink_ s)
      (console_sink_ s),
   set_level (console_sink_ s) ConsoleSink l).

Definition setFileSize (n : Z) (s : t) : t * list effect :=
  (mk (level_ s) (console_level_ s) (log_home_ s) n (file_count_ s) (pattern_ s) (init_once_ s) (file_sink_ s)
      (console_sink_ s), []).
Definition setFileCount (n : Z) (s : t) : t * list effect :=
  (mk (level_ s) (console_level_ s) (log_home_ s) (file_size_ s) n (pattern_ s) (init_once_ s) (file_sink_ s)
      (console_sink_ s), []).
Definition setPattern (registered : bool) (p : string) (s : t) : t * list effect :=
  (mk (level_ s) (console_level_ s) (log_home_ s) (file_size_ s) (file_count_ s) p (init_once_ s) (file_sink_ s)
      (console_sink_ s),
   if registered then [SetPattern RegisteredLogger p] else []).

(** What [init0] reads of its environment. *)
Record Host := mkHost {
  home : option string;
  temp_directory_path : string;
  parent_path : string -> string;
  exists_ : string -> bool;
  create_directories : string -> bool;
}.

Definition init0 (h : Host) (s : t) : option (t * list effect) :=
  let log_home := if str_empty (log_home_ s)
                  then (match home h with Some d => d | None => temp_directory_path h end +:+ LOG_FILE)%string
                  else log_home_ s in
  let log_dir := parent_path h log_home in
  let pattern := if str_empty (pattern_ s) then DEFAULT_PATTERN else pattern_ s in
  let s' := mk (level_ s) (console_level_ s) log_home (file_size_ s) (file_count_ s) pattern true true true in
  let effects :=
    [CreateConsoleSink] ++ set_level true ConsoleSink (console_level_ s) ++ [SetPattern ConsoleSink pattern;
     CreateFileSink log_home (file_size_ s) (file_count_ s); SetPattern FileSink pattern]
    ++ set_level true FileSink (level_ s)
    ++ [CreateLogger LOGGER_NAME; FlushOn warn; SetLevel RegisteredLogger trace; FlushEvery 1; SetDefaultLogger] in
  if exists_ h log_dir then Some (s', effects)
  else if create_directories h log_dir then Some (s', CreateDirectories log_dir :: effects)
  else None.

(** [std::call_once] *)
Definition init (h : Host) (s : t) : option (t * list effect) :=
  if init_once_ s then Some (s, []) else init0 h s.

(** *** Histories *)
Inductive op :=
  | OpSetLevel (registered : bool) (l : Level)
  | OpSetConsoleLevel (l : Level)
  | OpSetFileSize (n : Z)
  | OpSetFileCount (n : Z)
  | OpSetPattern (registered : bool) (p : string)
  | OpInit (h : Host).

Definition step (o : op) (s : t) : option (t * list effect) :=
  match o with
  | OpSetLevel r l => Some (setLevel r l s)
  | OpSetConsoleLevel l => Some (setConsoleLevel l s)
  | OpSetFileSize n => Some (setFileSize n s)
  | OpSetFileCount n => Some (setFileCount n s)
  | OpSetPattern r p => Some (setPattern r p s)
  | OpInit h => init h s
  end.

Fixpoint run (l : list op) (s : t) : option (t * list effect) :=
  match l with
  | [] => Some (s, [])
  | o :: l' => '(s1, e1) ← step o s; '(s2, e2) ← run l' s1; Some (s2, e1 ++ e2)
  end.

(** The levels an object was given, in order. *)
Definition levels_of (x : target) (l : list effect) : list spdlog_level :=
  omap (fun e => match e with SetLevel y v => if decide (y = x) then Some v else None | _ => None end) l.

Lemma levels_of_app x l k : levels_of x (l ++ k) = levels_of x l ++ levels_of x k.
Proof. apply omap_app. Qed.

(** The level of an object after the calls [l]: the last it was given, if any. *)
Definition level_after (x : target) (l : list effect) : option spdlog_level := last (levels_of x l).

Definition sinks (s : t) : Prop := init_once_ s = console_sink_ s /\ init_once_ s = file_sink_ s.

(** One operation on a logger whose console sink has the configured level. *)
Lemma step_levels o s s' e :
  sinks s -> step o s = Some (s', e) ->
  sinks s'
  /\ (init_once_ s = true -> init_once_ s' = true /\ levels_of FileSink e = [])
  /\ (init_once_ s' = true ->
        level_after ConsoleSink e = Some (to_spdlog (console_level_ s'))
        \/ init_once_ s = true /\ console_level_ s' = console_level_ s /\ levels_of ConsoleSink e = [])
  /\ (init_once_ s = false -> init_once_ s' = true -> levels_of FileSink e = [to_spdlog (level_ s')])
  /\ (init_once_ s' = false -> levels_of FileSink e = [] /\ levels_of ConsoleSink e = []).
Proof.
  intros [H1 H2] E. destruct o as [r l|l|n|n|r p|h]; cbn [step] in E;
    unfold setLevel, setConsoleLevel, setFileSize, setFileCount, setPattern in E.
  - injection E as <- <-. unfold sinks. cbn. destruct r; cbn; split_and!; auto; intros; congruence.
  - injection E as <- <-. unfold sinks. cbn. rewrite <- H1. destruct (init_once_ s) eqn:Ei; cbn; split_and!; auto; intros; try congruence.
  - injection E as <- <-. unfold sinks. cbn. split_and!; auto; intros; congruence.
  - injection E as <- <-. unfold sinks. cbn. split_and!; auto; intros; congruence.
  - injection E as <- <-. unfold sinks. cbn. destruct r; cbn; split_and!; auto; intros; congruence.
  - unfold init in E. destruct (init_once_ s) eqn:Ei.
    + injection E as <- <-. unfold sinks. rewrite Ei. split_and!; auto; intros; congruence.
    + unfold init0 in E. destruct (exists_ h _); [|destruct (create_directories h _); [|done]];
        injection E as <- <-; unfold sinks, level_after; cbn -[LOG_FILE DEFAULT_PATTERN]; split_and!; auto; intros; congruence.
Qed.

Definition configured (s : t) (e : list effect) : Prop :=
  sinks s
  /\ (init_once_ s = true ->
        level_after ConsoleSink e = Some (to_spdlog (console_level_ s)) /\ length (levels_of FileSink e) = 1%nat)
  /\ (init_once_ s = false -> levels_of FileSink e = [] /\ levels_of ConsoleSink e = []).

Lemma configured_step o s s' e e' :
  configured s e -> step o s = Some (s', e') -> configured s' (e ++ e').
Proof.
  intros (Hs & H1 & H2) E. destruct (step_levels o s s' e' Hs E) as (Hs' & K1 & K2 & K3 & K4).
  split; [exact Hs'|]. rewrite !levels_of_app. unfold level_after in *. rewrite levels_of_app. split.
  - intros Hi. split.
    + destruct (K2 Hi) as [K|(Hi0 & Hc & ->)].
      * rewrite last_app, K. done.
      * rewrite app_nil_r, Hc. exact (proj1 (H1 Hi0)).
    + rewrite length_app. destruct (init_once_ s) eqn:Ei.
      * destruct (K1 eq_refl) as [_ ->]. rewrite (proj2 (H1 eq_refl)). done.
      * rewrite (K3 eq_refl Hi), (proj1 (H2 eq_refl)). done.
  - intros Hi. destruct (K4 Hi) as [-> ->]. rewrite !app_nil_r. apply H2.
    destruct (init_once_ s); [|done]. by destruct (K1 eq_refl) as [? _]; congruence.
Qed.

Lemma configured_run l s s' e e' : configured s e -> run l s = Some (s', e') -> configured s' (e ++ e').
Proof.
  revert s e e'. induction l as [|o l IH]; intros s e e' Hc; cbn [run].
  { intros [= <- <-]. by rewrite app_nil_r. }
  destruct (step o s) as [[s1 e1]|] eqn:E; cbn; [|done]. destruct (run l s1) as [[s2 e2]|] eqn:E2; cbn; [|done].
  intros [= <- <-]. rewrite app_assoc. eapply IH; [|exact E2]. by eapply configured_step.
Qed.

(** In every history of configuring and initialising the logger the sinks are set up
    at most once and only by [init]; from then on the console sink has the configured
    console level at all times, also when it is changed later, and before it no sink is
    touched; the level of the file sink is set exactly once, when it is created. *)
Theorem logger_levels l s e :
  run l make = Some (s, e) ->
  (init_once_ s = true ->
     level_after ConsoleSink e = Some (to_spdlog (console_level_ s)) /\ length (levels_of FileSink e) = 1%nat)
  /\ (init_once_ s = false -> levels_of FileSink e = [] /\ levels_of ConsoleSink e = []).
Proof.
  intros Hr. assert (H0 : configured make []) by done.
  destruct (configured_run l make s [] e H0 Hr) as (_ & H). exact H.
Qed.

(** [setLevel] is documented to set the level of the file sink, but once the logger is
    initialised no operation changes that level. *)
Lemma file_level_fixed l s s' e : sinks s -> init_once_ s = true -> run l s = Some (s', e) -> levels_of FileSink e = [].
Proof.
  revert s e. induction l as [|o l IH]; intros s e Hs Hi; cbn [run]; [by intros [= _ <-]|].
  destruct (step o s) as [[s1 e1]|] eqn:E; cbn; [|done]. destruct (run l s1) as [[s2 e2]|] eqn:E2; cbn; [|done].
  intros [= <- <-]. destruct (step_levels o s s1 e1 Hs E) as (Hs1 & K1 & _). destruct (K1 Hi) as [Hi1 Hf].
  rewrite levels_of_app, Hf. exact (IH s1 e2 Hs1 Hi1 E2).
Qed.

Definition example_host : Host := mkHost (Some "/root"%string) "/tmp" id (fun _ => true) (fun _ => true).
Definition example_history : list op :=
  [OpSetLevel false Debug; OpSetConsoleLevel Trace; OpInit example_host; OpSetConsoleLevel Error_; OpInit example_host].

Lemma logger_levels_witness :
  exists s e, run example_history make = Some (s, e) /\ level_after ConsoleSink e = Some err
    /\ length (levels_of FileSink e) = 1%nat.
Proof.
  destruct (run example_history make) as [[s e]|] eqn:E; [|vm_compute in E; discriminate].
  exists s, e. split; [reflexivity|].
  assert (Hs : (init_once_ s, console_level_ s) = (true, Error_)).
  { transitivity (match run example_history make with Some (s0, _) => (init_once_ s0, console_level_ s0) | None => (false, Info) end);
      [by rewrite E|vm_compute; reflexivity]. }
  injection Hs as Hi Hc. destruct (logger_levels example_history s e E) as [H _]. rewrite Hc in H. exact (H Hi).
Defined.
End LoggerImpl.

(** ** The service *)

(** apache/rocketmq/v1/admin.proto *)
Inductive ChangeLogLevelRequest_Level := TRACE | DEBUG | INFO | WARN | ERROR | Level_unrecognized (v : Z).

Inductive StatusCode := StatusOK | StatusINTERNAL.

(** [registered]: [spdlog::get] finds the logger. *)
Definition applyChange (registered : bool) (level : ChangeLogLevelRequest_Level) : StatusCode * list LoggerImpl.effect :=
  if negb registered then (StatusINTERNAL, [])
  else
    (StatusOK,
     [LoggerImpl.SetLevel LoggerImpl.RegisteredLogger
        match level with
        | TRACE => trace
        | DEBUG => debug
        | INFO => info
        | WARN => warn
        | ERROR => err
        | Level_unrecognized _ => info
        end]).

(** The status and the remark of the reply. *)
Definition ChangeLogLevel (registered : bool) (level : ChangeLogLevelRequest_Level)
    : StatusCode * string * list LoggerImpl.effect :=
  let '(status, effects) := applyChange registered level in
  (status, match status with StatusOK => "OK"%string | _ => ""%string end, effects).

(** The admin client: an unset level is the first of the enumeration. *)
Definition wrapChangeLogLevelRequest (level : string) : ChangeLogLevelRequest_Level :=
  if str_empty level then TRACE
  else if String.eqb "trace" level then TRACE
  else if String.eqb "debug" level then DEBUG
  else if String.eqb "info" level then INFO
  else if String.eqb "warn" level then WARN
  else if String.eqb "error" level then ERROR
  else TRACE.

(** [main] of the client: the address it calls and the request; [stoi] is [None] when it
    throws.  [args] are the arguments after the program's name. *)
Definition main (stoi : string -> option Z) (env_port : option string) (args : list string)
    : option (string * ChangeLogLevelRequest_Level) :=
  match args with
  | [] => None
  | level :: rest =>
      let port := 9877 in
      let port := match env_port with Some p => default port (stoi p) | None => port end in
      let port := match rest with p :: _ => default port (stoi p) | [] => port end in
      Some (("127.0.0.1:" +:+ to_string port)%string, wrapChangeLogLevelRequest level)
  end.

(** The level a name of the command line stands for. *)
Definition level_of_name (name : string) : option Level :=
  if String.eqb name "trace" then Some Trace
  else if String.eqb name "debug" then Some Debug
  else if String.eqb name "info" then Some Info
  else if String.eqb name "warn" then Some Warn
  else if String.eqb name "error" then Some Error_
  else None.

(** The command-line tool, the service and the logger agree: a known level name sets
    the logger to that level and is answered OK when the logger is registered, and is
    refused without an effect otherwise; the tool calls the port of its argument, else of
    the environment, else 9877. *)
Theorem change_level_end_to_end stoi env_port registered name rest level :
  level_of_name name = Some level ->
  exists port request,
    main stoi env_port (name :: rest) = Some (("127.0.0.1:" +:+ to_string port)%string, request)
    /\ ChangeLogLevel registered request
       = (if registered then (StatusOK, "OK"%string, [LoggerImpl.SetLevel LoggerImpl.RegisteredLogger (LoggerImpl.to_spdlog level)])
          else (StatusINTERNAL, ""%string, []))
    /\ (forall p v, head rest = Some p -> stoi p = Some v -> port = v)
    /\ (forall p v, head rest = None -> env_port = Some p -> stoi p = Some v -> port = v)
    /\ (rest = [] -> env_port = None -> port = 9877).
Proof.
  intros Hn. eexists _, _. split; [reflexivity|]. split_and!.
  - unfold level_of_name in Hn. unfold wrapChangeLogLevelRequest.
    repeat match goal with H : (if String.eqb name ?k then _ else _) = _ |- _ =>
      destruct (String.eqb_spec name k) as [->|]; [injection H as <-; by destruct registered|] end. done.
  - intros p v H1 H2. destruct rest; [done|]. injection H1 as ->. by rewrite H2.
  - intros p v H1 H2 H3. destruct rest; [|done]. by rewrite H2, H3.
  - intros -> ->. done.
Qed.

Lemma change_level_witness :
  exists port request,
    main (fun _ => Some 8080) None ["warn"; "8080"]%string = Some (("127.0.0.1:" +:+ to_string port)%string, request)
    /\ ChangeLogLevel true request = (StatusOK, "OK"%string, [LoggerImpl.SetLevel LoggerImpl.RegisteredLogger warn]) /\ port = 8080.
Proof.
  destruct (change_level_end_to_end (fun _ => Some 8080) None true "warn" ["8080"%string] Warn eq_refl)
    as (port & request & H1 & H2 & H3 & _).
  exists port, request. split; [exact H1|]. split; [exact H2|]. exact (H3 "8080"%string 8080 eq_refl eq_refl).
Defined.

(** A misspelt level asks for the most verbose one. *)
Lemma unknown_level_is_trace : wrapChangeLogLevelRequest "warning" = TRACE.
Proof. reflexivity. Qed.

(** ** The server

    gRPC matches an incoming request with a call that waits for one, and puts the call on
    the completion queue; [loop] takes it from there. *)
Module AdminServer.

Inductive ServerCallStatus := CREATE | PROCESS | FINISH.

#[global] Instance ServerCallStatus_eq_dec : EqDecision ServerCallStatus.
Proof. solve_decision. Defined.

(** [request_] is filled by gRPC. *)
Record ServerCall := mkServerCall { status_ : ServerCallStatus; request_ : ChangeLogLevelRequest_Level }.

Definition set_status (x : ServerCallStatus) (c : ServerCall) : ServerCall := mkServerCall x (request_ c).

(** The thread of [loop]: not up yet, up without its first call, serving, ended. *)
Inductive LoopPhase := LoopDown | LoopUp | LoopServing | LoopEnded.

(** [calls] are the [ServerCall]s on the heap, [waiting] those that wait for a request,
    [sending] those whose response gRPC sends, [queue_] the completion queue.  [received],
    [answered] and [drained] record the history. *)
Record t := mk {
  state_ : State;
  loop_ : LoopPhase;
  server_up : bool;
  queue_shutdown : bool;
  created : nat;
  calls : gmap nat ServerCall;
  waiting : list nat;
  sending : list nat;
  queue_ : list (nat * bool);
  received : list ChangeLogLevelRequest_Level;
  answered : list (ChangeLogLevelRequest_Level * (StatusCode * string));
  drained : list nat;
}.

Definition make : t := mk CREATED LoopDown false false 0 ∅ [] [] [] [] [] [].

(** [proceed] in [CREATE].  No call may be registered on a queue that was shut down; on a
    server that was, it comes back at once as refused. *)
Definition proceed_create (n : nat) (s : t) : option t :=
  let calls' := alter (set_status PROCESS) n (calls s) in
  if queue_shutdown s then None
  else if server_up s then
    Some (mk (state_ s) (loop_ s) (server_up s) (queue_shutdown s) (created s) calls' (waiting s ++ [n]) (sending s)
            (queue_ s) (received s) (answered s) (drained s))
  else
    Some (mk (state_ s) (loop_ s) (server_up s) (queue_shutdown s) (created s) calls' (waiting s) (sending s)
            (queue_ s ++ [(n, false)]) (received s) (answered s) (drained s)).

(** [new ServerCall] *)
Definition new_ServerCall (s : t) : option t :=
  proceed_create (created s)
    (mk (state_ s) (loop_ s) (server_up s) (queue_shutdown s) (S (created s))
       (<[created s := mkServerCall CREATE TRACE]> (calls s)) (waiting s) (sending s) (queue_ s) (received s)
       (answered s) (drained s)).

Definition proceed (registered : bool) (n : nat) (s : t) : option t :=
  c ← calls s !! n;
  match status_ c with
  | CREATE => proceed_create n s
  | PROCESS =>
      s ← new_ServerCall s;
      let '(status, remark, _) := ChangeLogLevel registered (request_ c) in
      Some (mk (state_ s) (loop_ s) (server_up s) (queue_shutdown s) (created s)
              (alter (set_status FINISH) n (calls s)) (waiting s) (sending s ++ [n]) (queue_ s) (received s)
              (answered s ++ [(request_ c, (status, remark))]) (drained s))
  | FINISH =>
      Some (mk (state_ s) (loop_ s) (server_up s) (queue_shutdown s) (created s) (delete n (calls s)) (waiting s)
              (sending s) (queue_ s) (received s) (answered s) (drained s))
  end.

Definition set_state (x : State) (s : t) : t :=
  mk x (loop_ s) (server_up s) (queue_shutdown s) (created s) (calls s) (waiting s) (sending s) (queue_ s)
     (received s) (answered s) (drained s).
Definition set_loop (x : LoopPhase) (s : t) : t :=
  mk (state_ s) x (server_up s) (queue_shutdown s) (created s) (calls s) (waiting s) (sending s) (queue_ s)
     (received s) (answered s) (drained s).
Definition set_server (up down : bool) (s : t) : t :=
  mk (state_ s) (loop_ s) up down (created s) (calls s) (waiting s) (sending s) (queue_ s) (received s) (answered s)
     (drained s).
Definition set_queue (l : list (nat * bool)) (s : t) : t :=
  mk (state_ s) (loop_ s) (server_up s) (queue_shutdown s) (created s) (calls s) (waiting s) (sending s) l
     (received s) (answered s) (drained s).

(** [start] builds the server and spawns the thread of [loop], which first stores [STARTED],
    on which [start] waits, ... *)
Definition start (s : t) : option t :=
  if decide (state_ s = CREATED) then Some (set_server true false (set_state STARTING s)) else None.
Definition loop_up (s : t) : option t :=
  if decide (state_ s = STARTING) then Some (set_loop LoopUp (set_state STARTED s)) else None.
(** ... then creates the first call ... *)
Definition loop_first (s : t) : option t :=
  match loop_ s with LoopUp => s ← new_ServerCall s; Some (set_loop LoopServing s) | _ => None end.
(** ... and takes tags from the queue until one is not ok, or the queue ends. *)
Definition loop_next (registered : bool) (s : t) : option t :=
  match loop_ s with
  | LoopServing =>
      match queue_ s with
      | (n, ok) :: l =>
          let s := set_queue l s in if negb ok then Some (set_loop LoopEnded s) else proceed registered n s
      | [] => if queue_shutdown s then Some (set_loop LoopEnded s) else None
      end
  | _ => None
  end.

(** gRPC: a request arrives for the first call that waits; the response of a call is out, or
    ([ok] is false) could not be sent, when its call is dead. *)
Definition arrive (r : ChangeLogLevelRequest_Level) (s : t) : option t :=
  match waiting s with
  | n :: l =>
      if server_up s then
        Some (mk (state_ s) (loop_ s) (server_up s) (queue_shutdown s) (created s)
                (alter (fun c => mkServerCall (status_ c) r) n (calls s)) l (sending s) (queue_ s ++ [(n, true)])
                (received s ++ [r]) (answered s) (drained s))
      else None
  | [] => None
  end.
Definition sent (k : nat) (ok : bool) (s : t) : option t :=
  n ← sending s !! k;
  Some (mk (state_ s) (loop_ s) (server_up s) (queue_shutdown s) (created s) (calls s) (waiting s)
          (delete k (sending s)) (queue_ s ++ [(n, ok)]) (received s) (answered s) (drained s)).

(** [stop]: the calls that wait come back as refused; [Shutdown] of the server waits for the
    requests that were accepted. *)
Definition stop_begin (s : t) : option t :=
  if decide (state_ s = STARTED) then Some (set_state STOPPING s) else None.
Definition stop_server (s : t) : option t :=
  if decide (state_ s = STOPPING) then
    Some (mk (state_ s) (loop_ s) false (queue_shutdown s) (created s) (calls s) [] (sending s)
            (queue_ s ++ map (fun n => (n, false)) (waiting s)) (received s) (answered s) (drained s))
  else None.

(** A request that was accepted and not processed yet. *)
Definition accepted (m : gmap nat ServerCall) (e : nat * bool) : bool :=
  snd e && match m !! fst e with Some c => bool_decide (status_ c = PROCESS) | None => false end.
Definition unprocessed (s : t) : list (nat * bool) := List.filter (accepted (calls s)) (queue_ s).

Definition stop_queue (s : t) : option t :=
  if bool_decide (state_ s = STOPPING) && negb (server_up s) && bool_decide (unprocessed s = [])
     && bool_decide (sending s = [])
  then Some (set_server false true s) else None.
Definition stop_drain (s : t) : option t :=
  match queue_ s with
  | (n, _) :: l =>
      if queue_shutdown s then
        Some (mk (state_ s) (loop_ s) (server_up s) (queue_shutdown s) (created s) (calls s) (waiting s) (sending s) l
                (received s) (answered s) (drained s ++ [n]))
      else None
  | [] => None
  end.
Definition stop_end (s : t) : option t :=
  if queue_shutdown s && bool_decide (queue_ s = []) && match loop_ s with LoopEnded => true | _ => false end
  then Some (set_state STOPPED s) else None.

Inductive action :=
  | Start | LoopStarts | LoopFirst | LoopNext (registered : bool) | Arrive (r : ChangeLogLevelRequest_Level) | Sent (k : nat) (ok : bool)
  | StopBegin | StopServer | StopQueue | StopDrain | StopEnd.

Definition step (a : action) (s : t) : option t :=
  match a with
  | Start => start s
  | LoopStarts => loop_up s
  | LoopFirst => loop_first s
  | LoopNext r => loop_next r s
  | Arrive r => arrive r s
  | Sent k ok => sent k ok s
  | StopBegin => stop_begin s
  | StopServer => stop_server s
  | StopQueue => stop_queue s
  | StopDrain => stop_drain s
  | StopEnd => stop_end s
  end.

Fixpoint run (l : list action) (s : t) : option t :=
  match l with [] => Some s | a :: l' => s' ← step a s; run l' s' end.

(** *** The invariant *)

Definition st (m : gmap nat ServerCall) (n : nat) : option ServerCallStatus := status_ <$> m !! n.

(** A tag of the queue whose call was refused a request or has one to process. *)
Definition open_tag (m : gmap nat ServerCall) (e : nat * bool) : bool :=
  match m !! fst e with Some c => bool_decide (status_ c = PROCESS) | None => false end.

Definition requests (m : gmap nat ServerCall) (l : list (nat * bool)) : list (option ChangeLogLevelRequest_Level) :=
  map (fun e => request_ <$> m !! fst e) l.

Definition tag_ok (m : gmap nat ServerCall) (e : nat * bool) : Prop :=
  st m (fst e) = Some PROCESS \/ st m (fst e) = Some FINISH.

(** A tag that is not ok although the server is up: a response that could not be sent. *)
Definition unsent (m : gmap nat ServerCall) (e : nat * bool) : Prop := snd e = false -> st m (fst e) = Some FINISH.

Record inv0 (s : t) : Prop := {
  v_nodup : NoDup (waiting s ++ map fst (queue_ s) ++ sending s);
  v_wait : Forall (fun n => st (calls s) n = Some PROCESS) (waiting s);
  v_send : Forall (fun n => st (calls s) n = Some FINISH) (sending s);
  v_queue : Forall (tag_ok (calls s)) (queue_ s);
  v_fresh n : is_Some (calls s !! n) -> (n < created s)%nat;
  v_early : loop_ s = LoopDown \/ loop_ s = LoopUp -> waiting s = [] /\ queue_ s = [] /\ sending s = [];
  v_history : map Some (received s) = map (fun a => Some (fst a)) (answered s) ++ requests (calls s) (unprocessed s);
  v_shut : queue_shutdown s = true -> unprocessed s = [] /\ sending s = [] /\ server_up s = false;
  v_down : server_up s = false -> waiting s = [];
  v_up : server_up s = true ->
    Forall (unsent (calls s)) (queue_ s) /\ queue_shutdown s = false /\ drained s = [];
  v_answers : Forall (fun a => exists registered, fst (ChangeLogLevel registered (fst a)) = snd a) (answered s);
  v_state : state_ s = STARTED -> server_up s = true;
  v_created : state_ s = CREATED -> loop_ s = LoopDown /\ calls s = ∅ /\ drained s = [] /\ queue_shutdown s = false
                                   /\ sending s = [] /\ answered s = [] /\ received s = [];
  v_starting : state_ s = STARTING -> loop_ s = LoopDown /\ server_up s = true;
}.

(** While the loop serves, exactly one call waits for a request or has one to process. *)
Definition idle (s : t) : Prop :=
  loop_ s = LoopServing -> queue_shutdown s = false ->
  (length (waiting s) + length (List.filter (open_tag (calls s)) (queue_ s)) = 1)%nat.

Definition inv (s : t) : Prop := inv0 s /\ idle s.

Lemma inv_make : inv make.
Proof. split; [|done]. split; cbn; try done; try (by constructor). intros n [? H]. by rewrite lookup_empty in H. Qed.

(** Tags whose calls did not change. *)
Lemma filter_frame (f : gmap nat ServerCall -> nat * bool -> bool) m m' l :
  (forall a b e, a !! fst e = b !! fst e -> f a e = f b e) ->
  (forall e, e ∈ l -> m' !! fst e = m !! fst e) -> List.filter (f m') l = List.filter (f m) l.
Proof. intros Hf Hm. apply filter_ext_in. intros e He. apply Hf, Hm. by apply list_elem_of_In. Qed.

Lemma accepted_local a b e : a !! fst e = b !! fst e -> accepted a e = accepted b e.
Proof. unfold accepted. by intros ->. Qed.
Lemma open_local a b e : a !! fst e = b !! fst e -> open_tag a e = open_tag b e.
Proof. unfold open_tag. by intros ->. Qed.

Lemma requests_frame m m' l : (forall e, e ∈ l -> m' !! fst e = m !! fst e) -> requests m' l = requests m l.
Proof. intros H. apply map_ext_in. intros e He. rewrite H; [done|]. by apply list_elem_of_In. Qed.

Lemma tag_ok_frame m m' l : (forall e, e ∈ l -> m' !! fst e = m !! fst e) -> Forall (tag_ok m) l -> Forall (tag_ok m') l.
Proof.
  intros H Hl. apply Forall_forall. intros e He. pose proof (proj1 (Forall_forall _ _) Hl e He) as Ht.
  unfold tag_ok, st in *. by rewrite H.
Qed.

Lemma unsent_frame m m' l : (forall e, e ∈ l -> m' !! fst e = m !! fst e) -> Forall (unsent m) l -> Forall (unsent m') l.
Proof.
  intros H Hl. apply Forall_forall. intros e He. pose proof (proj1 (Forall_forall _ _) Hl e He) as Ht.
  unfold unsent, st in *. by rewrite H.
Qed.

Lemma st_frame m m' x l : (forall n, n ∈ l -> m' !! n = m !! n) -> Forall (fun n => st m n = Some x) l ->
  Forall (fun n => st m' n = Some x) l.
Proof.
  intros H Hl. apply Forall_forall. intros n Hn. unfold st. rewrite H by done. exact (proj1 (Forall_forall _ _) Hl n Hn).
Qed.

Lemma st_lookup m n x : st m n = Some x -> exists c, m !! n = Some c /\ status_ c = x.
Proof. unfold st. destruct (m !! n) as [c|]; [|done]. intros [= <-]. eauto. Qed.

Lemma filter_In_sub {A} (f : A -> bool) l e : e ∈ List.filter f l -> e ∈ l.
Proof. rewrite !list_elem_of_In, filter_In. tauto. Qed.

(** A tag of a processed call is neither open nor accepted. *)
Lemma finished_tag m n b : st m n = Some FINISH -> accepted m (n, b) = false /\ open_tag m (n, b) = false.
Proof. intros H. apply st_lookup in H as (c & Hc & Hs). unfold open_tag, accepted. cbn. rewrite Hc, Hs. by destruct b. Qed.
Lemma waiting_tag m n b : st m n = Some PROCESS -> accepted m (n, b) = b /\ open_tag m (n, b) = true.
Proof. intros H. apply st_lookup in H as (c & Hc & Hs). unfold open_tag, accepted. cbn. rewrite Hc, Hs. by destruct b. Qed.

Lemma open_nil_unprocessed m l : List.filter (open_tag m) l = [] -> List.filter (accepted m) l = [].
Proof.
  intros H. destruct (List.filter (accepted m) l) as [|e k] eqn:E; [done|].
  assert (He : e ∈ List.filter (accepted m) l) by (rewrite E; left).
  apply list_elem_of_In, filter_In in He as [H1 H2].
  assert (He : e ∈ List.filter (open_tag m) l).
  { apply list_elem_of_In, filter_In. split; [done|]. unfold accepted in H2. by apply andb_true_iff in H2 as [_ H2]. }
  rewrite H in He. by apply not_elem_of_nil in He.
Qed.

Lemma new_ServerCall_spec s :
  queue_shutdown s = false ->
  exists m', new_ServerCall s
      = Some (mk (state_ s) (loop_ s) (server_up s) false (S (created s)) m'
                (if server_up s then waiting s ++ [created s] else waiting s) (sending s)
                (if server_up s then queue_ s else queue_ s ++ [(created s, false)]) (received s) (answered s) (drained s))
    /\ m' = <[created s := mkServerCall PROCESS TRACE]> (calls s).
Proof.
  intros Hq. unfold new_ServerCall, proceed_create. cbn [queue_shutdown server_up calls created]. rewrite Hq.
  rewrite alter_insert_eq. destruct (server_up s); eexists; split; reflexivity.
Qed.

(** Creating a call when none waits. *)
Lemma inv_new s s' :
  inv0 s -> loop_ s = LoopUp \/ loop_ s = LoopServing ->
  waiting s = [] -> List.filter (open_tag (calls s)) (queue_ s) = [] ->
  new_ServerCall s = Some s' -> inv (set_loop LoopServing s').
Proof.
  intros Hs Hl Hw Ho E. destruct (queue_shutdown s) eqn:Eq.
  { unfold new_ServerCall, proceed_create in E. cbn [queue_shutdown] in E. by rewrite Eq in E. }
  destruct (new_ServerCall_spec s Eq) as (m' & E' & ->). rewrite E in E'. injection E' as ->. clear E.
  destruct Hs as [H1 H2 H3 H4 H5 H6 H7 H8 H9 H10 H11 H12 H13 H14]. set (c := created s).
  assert (Hc : forall n, is_Some (calls s !! n) -> n <> c) by (intros n Hn; apply H5 in Hn; unfold c; lia).
  assert (Hst : forall n x, st (calls s) n = Some x -> n <> c).
  { intros n x Hx. apply st_lookup in Hx as (k & Hk & _). apply Hc. eauto. }
  set (m' := <[c := mkServerCall PROCESS TRACE]> (calls s)).
  assert (Hne : forall n, n <> c -> m' !! n = calls s !! n) by (intros n Hn; unfold m'; by rewrite lookup_insert_ne).
  assert (Hmc : st m' c = Some PROCESS) by (unfold st, m'; by rewrite lookup_insert_eq).
  assert (Hq : forall e, e ∈ queue_ s -> fst e <> c).
  { intros e He. pose proof (proj1 (Forall_forall _ _) H4 e He) as [X|X]; by apply Hst in X. }
  assert (Hsn : forall n, n ∈ sending s -> n <> c).
  { intros n Hn. eapply Hst. exact (proj1 (Forall_forall _ _) H3 n Hn). }
  assert (Hfq : forall e, e ∈ queue_ s -> m' !! fst e = calls s !! fst e) by (intros e He; apply Hne; by apply Hq).
  assert (Hacc : List.filter (accepted m') (queue_ s) = []).
  { rewrite (filter_frame accepted (calls s) m' _ accepted_local Hfq). by apply open_nil_unprocessed. }
  assert (Hopen : List.filter (open_tag m') (queue_ s) = []).
  { by rewrite (filter_frame open_tag (calls s) m' _ open_local Hfq). }
  assert (Hu0 : unprocessed s = []) by (unfold unprocessed; by apply open_nil_unprocessed).
  assert (Hnc : c ∉ map fst (queue_ s) ++ sending s).
  { rewrite not_elem_of_app. split; [|intros Hn; by apply Hsn in Hn]. intros Hin.
    apply list_elem_of_fmap in Hin as (e & -> & He). by apply Hq in He. }
  rewrite Hw in *. cbn [app] in H1. destruct (server_up s) eqn:Eu.
  - split; [|intros _ _; cbn; rewrite Hopen; done].
    split; cbn [set_loop waiting queue_ sending calls created loop_ queue_shutdown received answered server_up state_ drained unprocessed]; try done.
    + cbn. apply NoDup_cons. done.
    + by constructor.
    + eapply st_frame; [|exact H3]. intros n Hn. by apply Hne, Hsn.
    + by eapply tag_ok_frame.
    + intros n Hn. destruct (decide (n = c)) as [->|Hd]; [unfold c; lia|]. rewrite Hne in Hn by done. apply H5 in Hn. lia.
    + by intros [? | ?].
    + rewrite H7, Hu0. unfold unprocessed. cbn. by rewrite Hacc.
    + intros _. destruct (H10 eq_refl) as (Hf & ? & ?). split_and!; try done. by eapply unsent_frame.
    + intros X. destruct (H13 X) as [X1 _]. rewrite X1 in Hl. by destruct Hl.
    + intros X. destruct (H14 X) as [X1 _]. rewrite X1 in Hl. by destruct Hl.
  - split.
    2: { intros _ _. cbn. rewrite List.filter_app, Hopen. cbn. by rewrite (proj2 (waiting_tag m' c false Hmc)). }
    split; cbn [set_loop waiting queue_ sending calls created loop_ queue_shutdown received answered server_up state_ drained unprocessed]; try done.
    + cbn. rewrite map_app. cbn. rewrite <- app_assoc. cbn. rewrite <- Permutation_middle. apply NoDup_cons. done.
    + eapply st_frame; [|exact H3]. intros n Hn. by apply Hne, Hsn.
    + apply Forall_app. split; [by eapply tag_ok_frame|]. constructor; [|done]. by left.
    + intros n Hn. destruct (decide (n = c)) as [->|Hd]; [unfold c; lia|]. rewrite Hne in Hn by done. apply H5 in Hn. lia.
    + by intros [? | ?].
    + rewrite H7, Hu0. unfold unprocessed. cbn. rewrite List.filter_app, Hacc. done.
    + intros X. destruct (H13 X) as [X1 _]. rewrite X1 in Hl. by destruct Hl.
    + intros X. destruct (H14 X) as [X1 _]. rewrite X1 in Hl. by destruct Hl.
Qed.

(** The loop has processed the call [n] at the head of the queue, all but the new call. *)
Definition answer_state (registered : bool) (n : nat) (r : ChangeLogLevelRequest_Level) (l : list (nat * bool)) (s : t) : t :=
  mk (state_ s) (loop_ s) (server_up s) (queue_shutdown s) (created s) (alter (set_status FINISH) n (calls s))
     (waiting s) (sending s ++ [n]) l (received s) (answered s ++ [(r, fst (ChangeLogLevel registered r))]) (drained s).

Lemma proceed_process registered n c l s :
  calls s !! n = Some c -> status_ c = PROCESS -> (n < created s)%nat -> queue_shutdown s = false ->
  proceed registered n (set_queue l s) = new_ServerCall (answer_state registered n (request_ c) l s).
Proof.
  intros Hc Hs Hn Hq. unfold proceed. cbn [calls set_queue]. rewrite Hc. cbn [mbind option_bind]. rewrite Hs.
  destruct (new_ServerCall_spec (set_queue l s) Hq) as (m1 & -> & ->).
  destruct (new_ServerCall_spec (answer_state registered n (request_ c) l s) Hq) as (m2 & -> & ->).
  cbn [mbind option_bind]. unfold answer_state.
  destruct (ChangeLogLevel registered (request_ c)) as [[status remark] effects] eqn:E.
  cbn [state_ loop_ server_up queue_shutdown created calls waiting sending queue_ received answered drained set_queue fst].
  rewrite alter_insert_ne by lia. done.
Qed.

Lemma inv_answer registered n c l s :
  inv s -> loop_ s = LoopServing -> queue_shutdown s = false -> queue_ s = (n, true) :: l ->
  calls s !! n = Some c -> status_ c = PROCESS ->
  inv0 (answer_state registered n (request_ c) l s) /\ waiting s = []
  /\ List.filter (open_tag (alter (set_status FINISH) n (calls s))) l = [].
Proof.
  intros [[H1 H2 H3 H4 H5 H6 H7 H8 H9 H10 H11 H12 H13 H14] Hi] Hl Hq Eq Hc Hst.
  specialize (Hi Hl Hq). rewrite Eq in *. cbn [map fst] in *.
  assert (HP : st (calls s) n = Some PROCESS) by (unfold st; by rewrite Hc, <- Hst).
  destruct (waiting_tag (calls s) n true HP) as [Ha Ho]. cbn [List.filter] in Hi. rewrite Ho in Hi. cbn [length] in Hi.
  assert (Hw : waiting s = []) by (destruct (waiting s); [done|cbn in Hi; lia]).
  assert (Hol : List.filter (open_tag (calls s)) l = []) by (destruct (List.filter _ l); [done|cbn in Hi; lia]).
  rewrite Hw in *. cbn [app] in H1. apply NoDup_cons in H1 as [Hn H1]. rewrite not_elem_of_app in Hn. destruct Hn as [Hnl Hns].
  set (m' := alter (set_status FINISH) n (calls s)).
  assert (Hne : forall k, k <> n -> m' !! k = calls s !! k) by (intros k Hk; unfold m'; by rewrite lookup_alter_ne).
  assert (Hfl : forall e, e ∈ l -> m' !! fst e = calls s !! fst e).
  { intros e He. apply Hne. intros <-. apply Hnl. apply list_elem_of_fmap. by exists e. }
  assert (Hal : List.filter (accepted m') l = []).
  { rewrite (filter_frame accepted (calls s) m' _ accepted_local Hfl). by apply open_nil_unprocessed. }
  apply Forall_cons in H4 as [_ H4]. split_and!; [|done|by rewrite (filter_frame open_tag (calls s) m' _ open_local Hfl)].
  split; cbn [answer_state waiting queue_ sending calls created loop_ queue_shutdown received answered server_up state_ drained];
    rewrite ?Hw; fold m'; try done.
  - cbn. rewrite app_assoc. rewrite (Permutation_app_comm _ [n]). cbn. apply NoDup_cons. split; [|done].
    by rewrite not_elem_of_app.
  - apply Forall_app. split.
    + eapply st_frame; [|exact H3]. intros k Hk. apply Hne. by intros ->.
    + constructor; [|done]. unfold st, m'. by rewrite lookup_alter_eq, Hc.
  - by eapply tag_ok_frame.
  - intros k Hk. destruct (decide (k = n)) as [->|Hd]; [apply H5; eauto|]. apply H5. by rewrite <- Hne.
  - rewrite Hl. by intros [? | ?].
  - rewrite H7. unfold unprocessed, answer_state. cbn [queue_ calls]. fold m'. rewrite Eq. cbn [List.filter]. rewrite Ha.
    rewrite (open_nil_unprocessed (calls s) l Hol), map_app, Hal. cbn. rewrite Hc. by rewrite app_nil_r.
  - intros X. congruence.
  - intros X. destruct (H10 X) as (Hf & ? & ?). apply Forall_cons in Hf as [_ Hf]. split_and!; try done. by eapply unsent_frame.
  - apply Forall_app. split; [done|]. constructor; [|done]. by exists registered.
  - intros X. destruct (H13 X) as [X1 _]. congruence.
Qed.

Lemma inv_next registered s s' : inv s -> loop_next registered s = Some s' -> inv s'.
Proof.
  intros Hs. unfold loop_next. destruct (loop_ s) eqn:El; try done.
  destruct (queue_ s) as [|[n ok] l] eqn:Eq.
  { destruct (queue_shutdown s) eqn:E; [|done]. intros [= <-].
    destruct Hs as [[H1 H2 H3 H4 H5 H6 H7 H8 H9 H10 H11 H12 H13 H14] _]. split; [|done].
    split; cbn; try done; try (by intros [? | ?]).
    - intros X. destruct (H13 X). congruence.
    - intros X. destruct (H14 X). congruence. }
  pose proof Hs as [[H1 H2 H3 H4 H5 H6 H7 H8 H9 H10 H11 H12 H13 H14] Hi]. rewrite Eq in *. cbn [map fst app] in *.
  pose proof H4 as Ht. apply Forall_cons in Ht as [Ht Htl]. unfold tag_ok in Ht. cbn [fst snd] in Ht.
  assert (Hnd : NoDup (waiting s ++ map fst l ++ sending s)).
  { rewrite <- Permutation_middle in H1. by apply NoDup_cons in H1 as [_ H1]. }
  destruct ok; cbn [negb].
  - destruct Ht as [HP|HF].
    + apply st_lookup in HP as (c & Hc & Hst).
      assert (Hq : queue_shutdown s = false).
      { destruct (queue_shutdown s) eqn:E; [|done]. destruct (H8 eq_refl) as (Hu & _). unfold unprocessed in Hu.
        rewrite Eq in Hu. cbn [List.filter] in Hu.
        rewrite (proj1 (waiting_tag (calls s) n true ltac:(unfold st; by rewrite Hc, <- Hst))) in Hu. done. }
      rewrite (proceed_process registered n c l s Hc Hst (H5 n ltac:(eauto)) Hq). intros E.
      destruct (inv_answer registered n c l s Hs El Hq Eq Hc Hst) as (Ha & Hw & Ho).
      pose proof (inv_new _ s' Ha (or_intror El) Hw Ho E) as X.
      destruct (new_ServerCall_spec (answer_state registered n (request_ c) l s) Hq) as (m' & E' & _).
      rewrite E in E'. injection E' as ->. cbn [answer_state loop_] in X |- *. by rewrite El in *.
    + pose proof (st_lookup _ _ _ HF) as (c & Hc & Hst). destruct (finished_tag _ _ true HF) as [Hacc Hopen].
      unfold proceed. cbn [calls set_queue]. rewrite Hc. cbn [mbind option_bind]. rewrite Hst. intros [= <-].
      rewrite <- Permutation_middle in H1. apply NoDup_cons in H1 as [Hn _]. rewrite !not_elem_of_app in Hn. destruct Hn as (Hn1 & Hn2 & Hn3).
      set (m' := delete n (calls s)).
      assert (Hne : forall k, k <> n -> m' !! k = calls s !! k) by (intros k Hk; unfold m'; by rewrite lookup_delete_ne).
      assert (Hfl : forall e, e ∈ l -> m' !! fst e = calls s !! fst e).
      { intros e He. apply Hne. intros <-. apply Hn2, list_elem_of_fmap. by exists e. }
      assert (Hu : unprocessed s = List.filter (accepted m') l).
      { unfold unprocessed. rewrite Eq. cbn [List.filter]. rewrite Hacc. symmetry. by apply filter_frame; [apply accepted_local|]. }
      split.
      2: { intros X Y. cbn [loop_ queue_shutdown waiting queue_ calls set_queue] in X, Y |- *. specialize (Hi El Y). rewrite Eq in Hi. cbn [List.filter] in Hi. rewrite Hopen in Hi.
           fold m'. by rewrite (filter_frame open_tag (calls s) m' _ open_local Hfl). }
      split; cbn [set_queue waiting queue_ sending calls created loop_ queue_shutdown received answered server_up state_ drained unprocessed];
        fold m'; try done.
      * eapply st_frame; [|exact H2]. intros k Hk. apply Hne. by intros ->.
      * eapply st_frame; [|exact H3]. intros k Hk. apply Hne. by intros ->.
      * by eapply tag_ok_frame.
      * intros k Hk. apply H5. destruct (decide (k = n)) as [->|Hd]; [eauto|]. by rewrite <- Hne.
      * rewrite El. by intros [? | ?].
      * rewrite H7, Hu. unfold unprocessed. cbn. f_equal. symmetry. apply requests_frame. intros e He. apply Hfl. by eapply filter_In_sub.
      * intros X. destruct (H8 X) as (Y & ? & ?). rewrite Hu in Y. done.
      * intros X. destruct (H10 X) as (Hf & ? & ?). apply Forall_cons in Hf as [_ Hf]. split_and!; try done. by eapply unsent_frame.
      * intros X. destruct (H13 X). congruence.
  - intros [= <-].
    assert (Hacc : accepted (calls s) (n, false) = false) by done.
    assert (Hu : unprocessed s = List.filter (accepted (calls s)) l).
    { unfold unprocessed. rewrite Eq. cbn [List.filter]. by rewrite Hacc. }
    split; [|done].
    split; cbn [set_loop set_queue waiting queue_ sending calls created loop_ queue_shutdown received answered server_up state_ drained]; try done.
    + by intros [? | ?].
    + rewrite H7, Hu. done.
    + intros X. destruct (H8 X) as (Y & ? & ?). rewrite Hu in Y. done.
    + intros X. destruct (H10 X) as (Hf & ? & ?). by apply Forall_cons in Hf as [_ Hf].
    + intros X. destruct (H13 X) as (Y & _). congruence.
    + intros X. destruct (H14 X) as (Y & _). congruence.
Qed.

Ltac start_inv :=
  split; cbn [set_state set_loop set_server set_queue waiting queue_ sending calls created loop_ queue_shutdown received
              answered server_up state_ drained unprocessed]; try done; try (by intros [? | ?]).

Lemma inv_arrive r s s' : inv s -> arrive r s = Some s' -> inv s'.
Proof.
  intros [[H1 H2 H3 H4 H5 H6 H7 H8 H9 H10 H11 H12 H13 H14] Hi]. unfold arrive.
  destruct (waiting s) as [|n l] eqn:Ew; [done|]. destruct (server_up s) eqn:Eu; [|done]. intros [= <-].
  apply Forall_cons in H2 as [HP H2]. pose proof (st_lookup _ _ _ HP) as (c & Hc & Hst).
  cbn [app] in H1. apply NoDup_cons in H1 as [Hn H1]. rewrite !not_elem_of_app in Hn. destruct Hn as (Hn1 & Hn2 & Hn3).
  set (m' := alter _ n (calls s)).
  assert (Hmn : m' !! n = Some (mkServerCall PROCESS r)) by (unfold m'; rewrite lookup_alter_eq, Hc; cbn; by rewrite Hst).
  assert (Hne : forall k, k <> n -> m' !! k = calls s !! k) by (intros k Hk; unfold m'; by rewrite lookup_alter_ne).
  assert (Hfl : forall e, e ∈ queue_ s -> m' !! fst e = calls s !! fst e).
  { intros e He. apply Hne. intros <-. apply Hn2, list_elem_of_fmap. by exists e. }
  assert (HP' : st m' n = Some PROCESS) by (unfold st; by rewrite Hmn).
  destruct (waiting_tag m' n true HP') as [Ha Ho].
  split.
  - start_inv.
    + rewrite map_app. cbn. rewrite <- app_assoc. cbn. rewrite <- !Permutation_middle. rewrite app_assoc.
      rewrite app_assoc in H1. apply NoDup_cons. split; [|done]. rewrite !not_elem_of_app. tauto.
    + eapply st_frame; [|exact H2]. intros k Hk. apply Hne. by intros ->.
    + eapply st_frame; [|exact H3]. intros k Hk. apply Hne. by intros ->.
    + apply Forall_app. split; [by eapply tag_ok_frame|]. constructor; [by left|done].
    + intros k Hk. apply H5. destruct (decide (k = n)) as [->|Hd]; [eauto|]. by rewrite <- Hne.
    + intros X. destruct (H6 X). done.
    + rewrite map_app, H7. unfold unprocessed. cbn [queue_ calls]. rewrite List.filter_app. cbn [List.filter]. rewrite Ha.
      rewrite (filter_frame accepted (calls s) m' _ accepted_local Hfl). unfold requests. rewrite map_app. cbn. rewrite Hmn. cbn.
      rewrite <- app_assoc. f_equal. f_equal. symmetry. apply (requests_frame (calls s) m'). intros e He. apply Hfl.
      by eapply filter_In_sub.
    + intros X. destruct (H8 X) as (_ & _ & ?). congruence.
    + intros X. destruct (H10 eq_refl) as (Hf & ? & ?). split_and!; try done. apply Forall_app.
      split; [by eapply unsent_frame|]. by constructor.
    + intros X. destruct (H13 X) as (E1 & E2 & _). rewrite E2 in Hc. by rewrite lookup_empty in Hc.
  - intros X Y. cbn [loop_ queue_shutdown waiting queue_ calls] in *. specialize (Hi X Y). rewrite Ew in Hi. cbn [length] in Hi.
    rewrite List.filter_app. cbn [List.filter]. fold m'. rewrite Ho, length_app. cbn [length].
    rewrite (filter_frame open_tag (calls s) m' _ open_local Hfl). lia.
Qed.

Lemma inv_sent k ok s s' : inv s -> sent k ok s = Some s' -> inv s'.
Proof.
  intros [[H1 H2 H3 H4 H5 H6 H7 H8 H9 H10 H11 H12 H13 H14] Hi]. unfold sent.
  destruct (sending s !! k) as [n|] eqn:E; [|done]. cbn. intros [= <-].
  assert (HF : st (calls s) n = Some FINISH) by exact (proj1 (Forall_forall _ _) H3 n (list_elem_of_lookup_2 _ _ _ E)).
  destruct (finished_tag _ _ ok HF) as [Ha Ho]. pose proof (delete_Permutation _ _ _ E) as HD.
  split.
  - start_inv.
    + rewrite map_app. cbn. rewrite <- app_assoc. cbn. by rewrite <- HD.
    + apply Forall_forall. intros x Hx. apply (proj1 (Forall_forall _ _) H3). by eapply elem_of_delete.
    + apply Forall_app. split; [done|]. constructor; [|done]. by right.
    + intros X. destruct (H6 X) as (_ & _ & Y). by rewrite Y in E.
    + rewrite H7. unfold unprocessed. cbn [queue_ calls]. rewrite List.filter_app. cbn [List.filter]. by rewrite Ha, app_nil_r.
    + intros X. destruct (H8 X) as (_ & Y & _). by rewrite Y in E.
    + intros X. destruct (H10 X) as (Hf & ? & ?). split_and!; try done. apply Forall_app. split; [done|]. constructor; [by intros _|done].
    + intros X. destruct (H13 X) as (_ & _ & _ & _ & Y & _). by rewrite Y in E.
  - intros X Y. cbn [loop_ queue_shutdown waiting queue_ calls] in *. specialize (Hi X Y).
    rewrite List.filter_app. cbn [List.filter]. by rewrite Ho, app_nil_r.
Qed.

Lemma inv_stop_server s s' : inv s -> stop_server s = Some s' -> inv s'.
Proof.
  intros [[H1 H2 H3 H4 H5 H6 H7 H8 H9 H10 H11 H12 H13 H14] Hi]. unfold stop_server. destruct (decide _) as [Es|]; [|done].
  intros [= <-].
  assert (Hm : map fst (map (fun n => (n, false)) (waiting s)) = waiting s) by (rewrite map_map; apply map_id).
  assert (Ha : List.filter (accepted (calls s)) (map (fun n => (n, false)) (waiting s)) = []).
  { clear. induction (waiting s) as [|n l IH]; cbn; [done|]. exact IH. }
  assert (Ho : List.filter (open_tag (calls s)) (map (fun n => (n, false)) (waiting s)) = map (fun n => (n, false)) (waiting s)).
  { clear -H2. induction H2 as [|n l Hn _ IH]; cbn [map List.filter]; [done|].
    rewrite (proj2 (waiting_tag (calls s) n false Hn)). by f_equal. }
  split.
  - start_inv; try congruence.
    + rewrite map_app, Hm. cbn. by rewrite (Permutation_app_comm (map fst _)), <- app_assoc.
    + apply Forall_app. split; [done|]. apply Forall_forall. intros e He. apply list_elem_of_fmap in He as (n & -> & Hn).
      left. exact (proj1 (Forall_forall _ _) H2 n Hn).
    + intros X. destruct (H6 X) as (-> & -> & ?). done.
    + rewrite H7. unfold unprocessed. cbn [queue_ calls]. by rewrite List.filter_app, Ha, app_nil_r.
    + intros X. destruct (H8 X) as (Y & ? & ?). unfold unprocessed in *. cbn [queue_ calls].
      by rewrite List.filter_app, Ha, app_nil_r.
  - intros X Y. cbn [loop_ queue_shutdown waiting queue_ calls] in *. specialize (Hi X Y).
    rewrite List.filter_app, Ho, length_app, length_map. cbn. lia.
Qed.

Lemma admin_inv_step a s s' : inv s -> step a s = Some s' -> inv s'.
Proof.
  intros Hs. pose proof Hs as [[H1 H2 H3 H4 H5 H6 H7 H8 H9 H10 H11 H12 H13 H14] Hi].
  destruct a as [| | |registered|r|k ok| | | | |]; cbn [step];
    [| | |by apply inv_next|by apply inv_arrive|by apply inv_sent| |by apply inv_stop_server| | |].
  - unfold start. destruct (decide _) as [Es|]; [|done]. intros [= <-]. destruct (H13 Es) as (E1 & E2 & E3 & E4 & E5 & E6 & E7).
    destruct (H6 (or_introl E1)) as (W1 & W2 & W3). split; [|intros X; cbn in X; congruence].
    start_inv; try congruence; rewrite ?W1, ?W2, ?E1; done.
  - unfold loop_up. destruct (decide _) as [Es|]; [|done]. intros [= <-]. destruct (H14 Es) as (E1 & E2).
    destruct (H6 (or_introl E1)) as (W1 & W2 & W3). split; [|intros X; cbn in X; congruence].
    start_inv; try congruence.
  - unfold loop_first. destruct (loop_ s) eqn:El; try done. destruct (H6 (or_intror eq_refl)) as (W1 & W2 & W3).
    destruct (new_ServerCall s) as [s1|] eqn:E; [|done]. cbn. intros [= <-].
    apply (inv_new s s1); [exact (proj1 Hs)|by left|done|by rewrite W2|done].
  - unfold stop_begin. destruct (decide _) as [Es|]; [|done]. intros [= <-]. split; [|exact Hi]. start_inv; try congruence.
  - unfold stop_queue. destruct (_ && _) eqn:Eb; [|done]. intros [= <-]. rewrite !andb_true_iff, negb_true_iff, !bool_decide_eq_true in Eb.
    destruct Eb as [[[Es Eu] Ep] Ese]. split; [|intros _ X; cbn in X; congruence].
    start_inv; try congruence. intros _. by rewrite H9.
  - unfold stop_drain. destruct (queue_ s) as [|[n ok] l] eqn:Eq; [done|]. destruct (queue_shutdown s) eqn:Esd; [|done].
    intros [= <-]. destruct (H8 eq_refl) as (Y & Z & U).
    assert (Yl : List.filter (accepted (calls s)) l = []).
    { unfold unprocessed in Y. rewrite Eq in Y. cbn [List.filter] in Y. by destruct (accepted _ _). }
    split; [|intros _ X; cbn in X; congruence].
    start_inv.
    + cbn in H1. rewrite <- Permutation_middle in H1. by apply NoDup_cons in H1 as [_ H1].
    + by apply Forall_cons in H4 as [_ H4].
    + intros X. destruct (H6 X) as (_ & ? & _). done.
    + rewrite H7, Y. unfold unprocessed. cbn [queue_ calls]. by rewrite Yl.
    + intros X. congruence.
    + intros X. destruct (H13 X) as (_ & _ & _ & ? & _). congruence.
  - unfold stop_end. destruct (_ && _) eqn:Eb; [|done]. intros [= <-]. split; [|exact Hi]. start_inv; try congruence.
Qed.

Lemma admin_inv_run l s s' : inv s -> run l s = Some s' -> inv s'.
Proof.
  revert s. induction l as [|a l IH]; intros s Hs; cbn [run]; [by intros [= <-]|].
  destruct (step a s) as [s1|] eqn:E; cbn; [|done]. apply IH. by eapply admin_inv_step.
Qed.

Lemma open_accepted m l :
  Forall (tag_ok m) l -> Forall (unsent m) l -> List.filter (open_tag m) l = List.filter (accepted m) l.
Proof.
  intros Ht Hu. apply filter_ext_in. intros [n b] He. apply list_elem_of_In in He.
  pose proof (proj1 (Forall_forall _ _) Ht _ He) as [HP|HF].
  - destruct (waiting_tag m n b HP) as [-> ->]. destruct b; [done|]. pose proof (proj1 (Forall_forall _ _) Hu _ He eq_refl) as X.
    cbn in X, HP. congruence.
  - by destruct (finished_tag m n b HF) as [-> ->].
Qed.

(** *** While every response is sent, the loop goes on *)
Definition sent_ok (a : action) : Prop := match a with Sent _ ok => ok = true | _ => True end.

Definition serves_on (s : t) : Prop :=
  server_up s = true -> Forall (fun e => snd e = true) (queue_ s) /\ loop_ s <> LoopEnded.

Lemma new_serves_on s s' :
  new_ServerCall s = Some s' ->
  server_up s' = server_up s /\ loop_ s' = loop_ s /\ (server_up s = true -> queue_ s' = queue_ s).
Proof.
  unfold new_ServerCall, proceed_create. cbn. destruct (queue_shutdown s); [done|]. destruct (server_up s) eqn:E; intros [= <-]; by split_and!.
Qed.

Lemma next_serves_on registered s s' : inv s -> serves_on s -> loop_next registered s = Some s' -> serves_on s'.
Proof.
  intros [[_ _ _ _ _ _ _ _ _ H10 _ _ _ _] _] Hs. unfold loop_next. destruct (loop_ s) eqn:El; try done.
  destruct (queue_ s) as [|[n ok] l] eqn:Eq.
  { destruct (queue_shutdown s) eqn:Eq'; [|done]. intros [= <-] X. destruct (H10 X) as (_ & ? & _). congruence. }
  assert (Hup : server_up s = true -> ok = true /\ Forall (fun e => snd e = true) l).
  { intros X. destruct (Hs X) as [Hf _]. rewrite Eq in Hf. by apply Forall_cons in Hf. }
  destruct ok; cbn [negb]; [|intros [= <-] X; cbn in X; by destruct (Hup X)].
  unfold proceed. cbn [calls set_queue]. destruct (calls s !! n) as [c|]; [|done]. cbn [mbind option_bind]. destruct (status_ c).
  - unfold proceed_create. cbn. destruct (queue_shutdown s); [done|]. destruct (server_up s) eqn:Eu; intros [= <-]; [|done].
    intros _. destruct (Hup eq_refl). split; [done|]. cbn. by rewrite El.
  - destruct (new_ServerCall (set_queue l s)) as [s1|] eqn:En; [|done]. cbn [mbind option_bind].
    destruct (new_serves_on _ _ En) as (E1 & E2 & E3). cbn in E1, E2, E3. destruct (ChangeLogLevel _ _) as [[? ?] ?]. intros [= <-].
    intros X. cbn in X |- *. rewrite E1 in X. rewrite (E3 X), E2, El. destruct (Hup X). done.
  - intros [= <-] X. cbn in X |- *. destruct (Hup X). split; [done|]. by rewrite El.
Qed.

Lemma serves_on_step a s s' : sent_ok a -> inv s -> serves_on s -> step a s = Some s' -> serves_on s'.
Proof.
  intros Ha Hi Hs. pose proof Hi as [[H1 H2 H3 H4 H5 H6 H7 H8 H9 H10 H11 H12 H13 H14] _].
  destruct a as [| | |registered|r|k ok| | | | |]; cbn [step].
  - unfold start. destruct (decide _) as [Es|]; [|done]. intros [= <-] _. destruct (H13 Es) as (E1 & _).
    destruct (H6 (or_introl E1)) as (_ & W & _). cbn. rewrite W, E1. by split.
  - unfold loop_up. destruct (decide _) as [Es|]; [|done]. intros [= <-] X. cbn in X |- *. by destruct (Hs X).
  - unfold loop_first. destruct (loop_ s); try done. destruct (new_ServerCall s) as [s1|] eqn:E; [|done]. intros [= <-] X.
    destruct (new_serves_on _ _ E) as (E1 & _ & E3). cbn in X |- *. rewrite E1 in X. rewrite (E3 X). by destruct (Hs X).
  - by apply next_serves_on.
  - unfold arrive. destruct (waiting s); [done|]. destruct (server_up s) eqn:Eu; [|done]. intros [= <-] X. cbn in X |- *.
    destruct (Hs Eu) as [Hf ?]. split; [|done]. apply Forall_app. split; [done|by constructor].
  - unfold sent. destruct (sending s !! k); [|done]. cbn in Ha. subst ok. intros [= <-] X. cbn in X |- *.
    destruct (Hs X) as [Hf ?]. split; [|done]. apply Forall_app. split; [done|by constructor].
  - unfold stop_begin. destruct (decide _); [|done]. by intros [= <-].
  - unfold stop_server. destruct (decide _); [|done]. by intros [= <-] X.
  - unfold stop_queue. destruct (_ && _); [|done]. by intros [= <-] X.
  - unfold stop_drain. destruct (queue_ s) as [|[n ok] l] eqn:Eq; [done|]. destruct (queue_shutdown s) eqn:Esd; [|done].
    intros [= <-] X. cbn in X. destruct (H10 X) as (_ & ? & _). congruence.
  - unfold stop_end. destruct (_ && _); [|done]. by intros [= <-].
Qed.

Lemma serves_on_run l s s' : Forall sent_ok l -> inv s -> serves_on s -> run l s = Some s' -> serves_on s'.
Proof.
  revert s. induction l as [|a l IH]; intros s Hl Hi Hs; cbn [run]; [by intros [= <-]|].
  apply Forall_cons in Hl as [Ha Hl]. destruct (step a s) as [s1|] eqn:E; cbn; [|done].
  apply IH; [done|by eapply admin_inv_step|by eapply serves_on_step].
Qed.

(** C36: the admin server in every interleaving of its thread, gRPC and [stop]: while it is
    started and its loop serves, exactly one call waits for the next request or holds one
    to process, so a request is always accepted or about to be; the requests received are,
    in order, those answered and then those accepted and not processed; each is answered
    once, by the service; and the loop never fails on a tag of the queue.  As long as every
    response could be sent, the loop does not end while the server is started.  (A response
    that could not be sent ends it: [dead_call_ends_loop].) *)
Theorem admin_serves l s :
  run l make = Some s ->
  (state_ s = STARTED -> loop_ s = LoopServing -> (length (waiting s) + length (unprocessed s) = 1)%nat)
  /\ map Some (received s) = map (fun a => Some (fst a)) (answered s) ++ requests (calls s) (unprocessed s)
  /\ Forall (fun a => exists registered, fst (ChangeLogLevel registered (fst a)) = snd a) (answered s)
  /\ (loop_ s = LoopServing -> queue_ s <> [] -> forall registered, is_Some (loop_next registered s))
  /\ (Forall sent_ok l -> state_ s = STARTED -> loop_ s <> LoopEnded).
Proof.
  intros Hr. pose proof (admin_inv_run l make s inv_make Hr) as Hs.
  pose proof Hs as [[H1 H2 H3 H4 H5 H6 H7 H8 H9 H10 H11 H12 H13 H14] Hi]. split_and!; [|exact H7|exact H11| |].
  - intros X Y. destruct (H10 (H12 X)) as (Hf & Hq & _). specialize (Hi Y Hq). by rewrite (open_accepted _ _ H4 Hf) in Hi.
  - intros El Hne registered. unfold loop_next. rewrite El. destruct (queue_ s) as [|[n ok] rest] eqn:Eq; [done|].
    destruct ok; cbn [negb]; [|done]. apply Forall_cons in H4 as [[HP|HF] _].
    + cbn [fst] in HP. apply st_lookup in HP as (c & Hc & Hst).
      assert (Hq : queue_shutdown s = false).
      { destruct (queue_shutdown s) eqn:E; [|done]. destruct (H8 eq_refl) as (Hu & _). unfold unprocessed in Hu.
        rewrite Eq in Hu. cbn [List.filter] in Hu.
        rewrite (proj1 (waiting_tag (calls s) n true ltac:(unfold st; by rewrite Hc, <- Hst))) in Hu. done. }
      rewrite (proceed_process registered n c rest s Hc Hst (H5 n ltac:(eauto)) Hq).
      destruct (new_ServerCall_spec (answer_state registered n (request_ c) rest s) Hq) as (m' & -> & _). done.
    + cbn [fst] in HF. apply st_lookup in HF as (c & Hc & Hst). unfold proceed. cbn [calls set_queue]. rewrite Hc.
      cbn [mbind option_bind]. by rewrite Hst.
  - intros Hl X. by apply (serves_on_run l make s Hl inv_make (fun X : false = true => match Bool.diff_false_true X with end) Hr), H12.
Qed.

Definition example_requests : list action :=
  [Start; LoopStarts; LoopFirst; Arrive DEBUG; LoopNext true; Arrive WARN; Sent 0 true; LoopNext true].

Lemma admin_serves_witness :
  exists s, run example_requests make = Some s
    /\ answered s = [(DEBUG, (StatusOK, "OK"%string)); (WARN, (StatusOK, "OK"%string))]
    /\ (length (waiting s) + length (unprocessed s) = 1)%nat.
Proof.
  destruct (run example_requests make) as [s|] eqn:E; [|vm_compute in E; discriminate].
  assert (Hs : (state_ s, loop_ s, answered s)
               = (STARTED, LoopServing, [(DEBUG, (StatusOK, "OK"%string)); (WARN, (StatusOK, "OK"%string))])).
  { transitivity (match run example_requests make with Some x => (state_ x, loop_ x, answered x) | None => (CREATED, LoopDown, []) end);
      [by rewrite E|vm_compute; reflexivity]. }
  injection Hs as H1 H2 H3. exists s. split; [reflexivity|]. split; [exact H3|].
  exact (proj1 (admin_serves example_requests s E) H1 H2).
Defined.

(** The client of the first request is gone when its response is sent: the tag of [Finish]
    comes back as not ok, the loop ends, and a later request is accepted and never answered
    although the server is started. *)
Lemma dead_call_ends_loop :
  (s ← run [Start; LoopStarts; LoopFirst; Arrive DEBUG; LoopNext true; Sent 0 false; LoopNext true; Arrive WARN] make;
   Some (state_ s, loop_ s, received s, map fst (answered s), loop_next true s))
  = Some (STARTED, LoopEnded, [DEBUG; WARN], [DEBUG], None).
Proof. vm_compute. reflexivity. Qed.

(** [STARTED] is stored before the first call is created: a [stop] in between shuts the
    queue down under the loop, which then registers its call on it. *)
Lemma stop_races_with_start :
  (s ← run [Start; LoopStarts; StopBegin; StopServer; StopQueue] make; Some (loop_ s, new_ServerCall s))
  = Some (LoopUp, None).
Proof. vm_compute. reflexivity. Qed.

(** The calls left in the queue when the server stops are not deleted. *)
Lemma stop_leaks_call :
  (s ← run [Start; LoopStarts; LoopFirst; StopBegin; StopServer; StopQueue; LoopNext true; StopEnd] make;
   Some (state_ s, calls s !! 0%nat))
  = Some (STOPPED, Some (mkServerCall PROCESS TRACE)).
Proof. vm_compute. reflexivity. Qed.
End AdminServer.
