(* ===== verification/Tracing.v ===== *)
(** * Tracing: the trace-parent header and the exporter of spans.

    [TracingUtility] (client/TracingUtility.cpp): a span context printed as a W3C
    trace-parent header and read back.  The header of that class is not part of the
    repository, so its constants are parameters; so is [ToLowerBase16] of the tracing
    library.  [OtlpExporter], [ExportClient] and [OtlpExporterHandler]
    (tracing/exporters/): the clients kept for the collector hosts, the translation of
    spans, the choice of a client and the life of the polling thread.

    [None] is undefined behaviour or a failed assertion. *)

From S2P Require Import Prelude Types MixAll Config.

(** A character of a [std::string] by index: the terminator follows the last one. *)
Definition char_at (s : string) (i : nat) : option Ascii.ascii :=
  if decide (i = String.length s) then Some Ascii.zero else String.get i s.

Lemma char_at_app p c r : char_at (p +:+ String c r) (String.length p) = Some c.
Proof.
  unfold char_at. rewrite str_length_app. cbn [String.length]. rewrite decide_False by lia.
  induction p as [|a p IH]; cbn; done.
Qed.

Lemma substring_app p s n : String.substring (String.length p) n (p +:+ s) = String.substring 0 n s.
Proof. induction p as [|a p IH]; cbn; [done|exact IH]. Qed.

Lemma substring_prefix p s : String.substring 0 (String.length p) (p +:+ s) = p.
Proof. induction p as [|a p IH]; cbn; [by destruct s|by rewrite IH]. Qed.

Lemma substring_all s : String.substring 0 (String.length s) s = s.
Proof. by rewrite <- (str_app_nil_r s) at 2; rewrite substring_prefix. Qed.

Lemma insert_middle {A} (l : list A) x y k i : i = length l -> <[i := y]> (l ++ x :: k) = l ++ y :: k.
Proof. intros ->. induction l as [|a l IH]; [done|]. cbn. by f_equal. Qed.

Module TracingUtility.

Record SpanContext := mk_context {
  trace_id : list Z;
  span_id : list Z;
  trace_flags : Z;
  is_remote : bool;
}.

(** [SpanContext(false, false)] *)
Definition INVALID : SpanContext := mk_context (replicate 16 0) (replicate 8 0) 0 false.

Definition INVALID_TRACE_ID : string := "00000000000000000000000000000000".
Definition INVALID_SPAN_ID : string := "0000000000000000".

Definition code (c : Ascii.ascii) : Z := Z.of_N (Ascii.N_of_ascii c).

(** The result type is [uint8_t]: the [-1] of the last branch is 255. *)
Definition hexToInt (c : Ascii.ascii) : Z :=
  if (48 <=? code c) && (code c <=? 57) then code c - 48
  else if (97 <=? code c) && (code c <=? 102) then code c - 97 + 10
  else if (65 <=? code c) && (code c <=? 70) then code c - 65 + 10
  else u8 (-1).

(** The loop from index [i] with [n] characters to go. *)
Fixpoint generateHexFromString_loop (s : string) (bytes n i : nat) (buf : list Z) : option (list Z) :=
  match n with
  | O => Some buf
  | S n' =>
      c ← char_at s i;
      let tmp := hexToInt c in
      if tmp <? 0 then Some (replicate (bytes / 2) 0 ++ drop (bytes / 2) buf)
      else
        b ← buf !! (i / 2)%nat;
        let b' := if Nat.even i then u8 (tmp * 16) else u8 (b + tmp) in
        generateHexFromString_loop s bytes n' (S i) (<[(i / 2)%nat := b']> buf)
  end.

Definition generateHexFromString (s : string) (bytes : nat) (buf : list Z) : option (list Z) :=
  generateHexFromString_loop s bytes bytes 0 buf.

Definition isValidHex (s : string) : bool :=
  str_forallb (fun i => ((48 <=? code i) && (code i <=? 57)) || ((97 <=? code i) && (code i <=? 102))) s.

Definition generateTraceFlagsFromString (flags : string) : option Z :=
  if (2 <? String.length flags)%nat then Some 0
  else
    c1 ← char_at flags 0;
    c2 ← char_at flags 1;
    let tmp1 := hexToInt c1 in
    let tmp2 := hexToInt c2 in
    if (tmp1 <? 0) || (tmp2 <? 0) then Some 0 else Some (u8 (tmp1 * 16 + tmp2)).

(** The constants of the missing header, and the printer of the tracing library. *)
Record HeaderLayout := {
  kHeaderElementLengths : nat -> nat;
  kHeaderSize : nat;
  kTraceIdBytes : nat;
  kSpanIdBytes : nat;
  ToLowerBase16 : list Z -> string;
}.

Section Header.

Context (h : HeaderLayout).
(** What the two local buffers hold before they are written. *)
Variables (garbage16 garbage8 : list Z).

Abbreviation kVersion := (kHeaderElementLengths h 0).
Abbreviation kTraceId := (kHeaderElementLengths h 1).
Abbreviation kSpanId := (kHeaderElementLengths h 2).

Definition generateTraceIdFromString (s : string) : option (list Z) :=
  generateHexFromString s kTraceId (take (kTraceIdBytes h / 2) garbage16).

Definition generateSpanIdFromString (s : string) : option (list Z) :=
  generateHexFromString s kSpanId (take (kSpanIdBytes h / 2) garbage8).

Definition injectSpanContextToTraceParent (ctx : SpanContext) : string :=
  ("00-" +:+ ToLowerBase16 h (trace_id ctx) +:+ "-" +:+ ToLowerBase16 h (span_id ctx)
     +:+ "-" +:+ ToLowerBase16 h [trace_flags ctx])%string.

Definition is_dash (s : string) (i : nat) : bool := bool_decide (char_at s i = Some "-"%char).

Definition extractContextFromTraceParent (s : string) : option SpanContext :=
  if negb (String.length s =? kHeaderSize h)%nat || negb (is_dash s kVersion)
     || negb (is_dash s (kVersion + kTraceId + 1)) || negb (is_dash s (kVersion + kTraceId + kSpanId + 2))
  then Some INVALID
  else
    let version := String.substring 0 kVersion s in
    let trace_id := String.substring (kVersion + 1) kTraceId s in
    let span_id := String.substring (kVersion + kTraceId + 2) kSpanId s in
    let from := (kVersion + kTraceId + kSpanId + 3)%nat in
    let trace_flags := String.substring from (String.length s - from) s in
    if bool_decide (version = "ff"%string) || bool_decide (trace_id = INVALID_TRACE_ID)
       || bool_decide (span_id = INVALID_SPAN_ID)
    then Some INVALID
    else if negb (isValidHex version) || negb (isValidHex trace_id) || negb (isValidHex span_id)
            || negb (isValidHex trace_flags)
    then Some INVALID
    else
      trace_id_obj ← generateTraceIdFromString trace_id;
      span_id_obj ← generateSpanIdFromString span_id;
      trace_flags_obj ← generateTraceFlagsFromString trace_flags;
      Some (mk_context trace_id_obj span_id_obj trace_flags_obj true).

End Header.

(** The lower-case hexadecimal form: two digits a byte, the high half first. *)
Definition lower_digit (d : Z) : Ascii.ascii :=
  Ascii.ascii_of_N (Z.to_N (if d <? 10 then 48 + d else 87 + d)).

Fixpoint lower_base16 (l : list Z) : string :=
  match l with
  | [] => ""
  | b :: l' => String (lower_digit (b / 16)) (String (lower_digit (b mod 16)) (lower_base16 l'))
  end.

Lemma length_lower_base16 l : String.length (lower_base16 l) = (2 * length l)%nat.
Proof. induction l as [|b l IH]; cbn [lower_base16 String.length length]; lia. Qed.

(** *** Reading pairs of digits *)

Definition pair_byte (p : Ascii.ascii * Ascii.ascii) : Z := u8 (u8 (hexToInt p.1 * 16) + hexToInt p.2).

Fixpoint of_pairs (l : list (Ascii.ascii * Ascii.ascii)) : string :=
  match l with [] => "" | (a, b) :: l' => String a (String b (of_pairs l')) end.

Lemma length_of_pairs l : String.length (of_pairs l) = (2 * length l)%nat.
Proof. induction l as [|[a b] l IH]; cbn [of_pairs String.length length]; lia. Qed.

Lemma pairs_of s n : String.length s = (2 * n)%nat -> exists l, s = of_pairs l /\ length l = n.
Proof.
  revert s. induction n as [|n IH]; intros s Hs.
  - exists []. destruct s; [done|cbn in Hs; lia].
  - destruct s as [|a [|b s]]; [cbn in Hs; lia..|].
    destruct (IH s) as (l & -> & Hl); [cbn in Hs; lia|]. exists ((a, b) :: l). cbn. by rewrite Hl.
Qed.

Lemma hexToInt_nonneg c : (hexToInt c <? 0) = false.
Proof. apply Z.ltb_ge. unfold hexToInt. repeat case_match; unfold u8; [lia..|]. by compute. Qed.

Lemma generate_loop_pairs bytes l : forall pre acc tail,
  String.length pre = (2 * length acc)%nat -> length tail = length l ->
  generateHexFromString_loop (pre +:+ of_pairs l) bytes (2 * length l) (2 * length acc) (acc ++ tail)
  = Some (acc ++ map pair_byte l).
Proof.
  induction l as [|[a b] l IH]; intros pre acc tail Hp Ht.
  - destruct tail; [|done]. cbn. by rewrite app_nil_r.
  - destruct tail as [|x tail]; [done|]. injection Ht as Ht.
    replace (2 * length ((a, b) :: l))%nat with (S (S (2 * length l))) by (cbn; lia).
    cbn [of_pairs generateHexFromString_loop]. rewrite <- Hp, char_at_app. cbn [mbind option_bind].
    rewrite hexToInt_nonneg, Hp.
    replace (2 * length acc / 2)%nat with (length acc) by (rewrite Nat.mul_comm, Nat.div_mul; lia).
    rewrite list_lookup_middle by done. cbn [mbind option_bind].
    replace (Nat.even (2 * length acc)) with true by (by rewrite Nat.even_mul).
    rewrite insert_middle by done.
    replace (pre +:+ String a (String b (of_pairs l)))%string
      with ((pre +:+ String a "") +:+ String b (of_pairs l))%string by (by rewrite str_app_assoc).
    assert (Hp' : String.length (pre +:+ String a "") = S (2 * length acc)) by (rewrite str_length_app; cbn; lia).
    rewrite <- Hp' at 1. rewrite char_at_app. cbn [mbind option_bind]. rewrite hexToInt_nonneg.
    replace (S (2 * length acc) / 2)%nat with (length acc)
      by (rewrite <- Nat.add_1_r, Nat.mul_comm, Nat.div_add_l; cbn; lia).
    rewrite list_lookup_middle by done. cbn [mbind option_bind].
    replace (Nat.even (S (2 * length acc))) with false
      by (rewrite Nat.even_succ, <- Nat.negb_even, Nat.even_mul; done).
    rewrite insert_middle by done.
    replace ((pre +:+ String a "") +:+ String b (of_pairs l))%string
      with ((pre +:+ String a (String b "")) +:+ of_pairs l)%string by (by rewrite !str_app_assoc).
    replace (S (S (2 * length acc))) with (2 * length (acc ++ [pair_byte (a, b)]))%nat
      by (rewrite length_app; cbn; lia).
    change (acc ++ ?y :: tail) with (acc ++ [pair_byte (a, b)] ++ tail). rewrite app_assoc, IH.
    + rewrite <- app_assoc. done.
    + rewrite str_length_app, length_app. cbn. lia.
    + done.
Qed.

Lemma generate_pairs bytes l garbage :
  bytes = (2 * length l)%nat -> (length l <= length garbage)%nat ->
  generateHexFromString (of_pairs l) bytes (take (bytes / 2) garbage) = Some (map pair_byte l).
Proof.
  intros -> Hg. unfold generateHexFromString.
  replace (2 * length l / 2)%nat with (length l) by (rewrite Nat.mul_comm, Nat.div_mul; lia).
  apply (generate_loop_pairs (2 * length l) l "" [] (take (length l) garbage)); [done|].
  apply firstn_length_le, Hg.
Qed.

(** *** Digits *)

Definition valid_char (c : Ascii.ascii) : bool :=
  ((48 <=? code c) && (code c <=? 57)) || ((97 <=? code c) && (code c <=? 102)).

Lemma ascii_forall (P : Ascii.ascii -> bool) c :
  forallb (fun b => P (Ascii.ascii_of_N (Z.to_N b))) (seqZ 0 256) = true -> P c = true.
Proof.
  intros H. pose proof (byte_forall _ (code c) H) as Hc. cbv beta in Hc. unfold code in Hc.
  rewrite N2Z.id, Ascii.ascii_N_embedding in Hc. apply Hc. pose proof (Ascii.N_ascii_bounded c). lia.
Qed.

Lemma valid_char_digit c :
  valid_char c = true -> 0 <= hexToInt c < 16 /\ lower_digit (hexToInt c) = c.
Proof.
  intros H. pose proof (ascii_forall (fun c => bool_decide
    (valid_char c = true -> 0 <= hexToInt c < 16 /\ lower_digit (hexToInt c) = c)) c) as Hc.
  cbv beta in Hc. rewrite bool_decide_eq_true in Hc. by apply Hc; [vm_compute|].
Qed.

Lemma digits_of_byte b :
  MixAll.is_byte b ->
  valid_char (lower_digit (b / 16)) = true /\ valid_char (lower_digit (b mod 16)) = true
  /\ pair_byte (lower_digit (b / 16), lower_digit (b mod 16)) = b.
Proof.
  intros H. pose proof (byte_forall (fun b => bool_decide
    (valid_char (lower_digit (b / 16)) = true /\ valid_char (lower_digit (b mod 16)) = true
     /\ pair_byte (lower_digit (b / 16), lower_digit (b mod 16)) = b)) b) as Hb.
  cbv beta in Hb. rewrite bool_decide_eq_true in Hb. by apply Hb; [vm_compute|].
Qed.

Definition digits (b : Z) : Ascii.ascii * Ascii.ascii := (lower_digit (b / 16), lower_digit (b mod 16)).

Lemma lower_base16_pairs l : lower_base16 l = of_pairs (map digits l).
Proof. induction l as [|b l IH]; cbn; congruence. Qed.

Lemma pair_byte_digits l : Forall MixAll.is_byte l -> map pair_byte (map digits l) = l.
Proof.
  induction 1 as [|b l Hb _ IH]; [done|]. cbn [map]. rewrite IH. f_equal. by apply digits_of_byte.
Qed.

Lemma isValidHex_lower l : Forall MixAll.is_byte l -> isValidHex (lower_base16 l) = true.
Proof.
  induction 1 as [|b l Hb _ IH]; [done|]. destruct (digits_of_byte b Hb) as (H1 & H2 & _).
  change (valid_char (lower_digit (b / 16)) && (valid_char (lower_digit (b mod 16)) && isValidHex (lower_base16 l)) = true).
  by rewrite H1, H2.
Qed.

Lemma lower_base16_pair_byte l :
  isValidHex (of_pairs l) = true ->
  lower_base16 (map pair_byte l) = of_pairs l /\ Forall MixAll.is_byte (map pair_byte l).
Proof.
  induction l as [|[a b] l IH]; [by split; [|constructor]|].
  change (isValidHex (of_pairs ((a, b) :: l))) with (valid_char a && (valid_char b && isValidHex (of_pairs l))).
  rewrite !andb_true_iff. intros (Ha & Hb & Hl).
  destruct (IH Hl) as [E1 E2]. apply valid_char_digit in Ha as [Ha Ea], Hb as [Hb Eb].
  assert (pair_byte (a, b) = hexToInt a * 16 + hexToInt b) as E.
  { unfold pair_byte, u8. cbn [fst snd]. rewrite Zplus_mod_idemp_l. apply Z.mod_small. lia. }
  cbn [map lower_base16 of_pairs]. rewrite E1, E, Z.div_add_l, Z.div_small by lia.
  rewrite (Z.add_comm (_ * 16)), Z_mod_plus_full, Z.mod_small, Z.add_0_r, Ea, Eb by lia.
  split; [done|]. constructor; [unfold MixAll.is_byte; lia|done].
Qed.

Lemma lower_base16_zeros l n :
  Forall MixAll.is_byte l -> lower_base16 l = lower_base16 (replicate n 0) -> l = replicate n 0.
Proof.
  intros Hl E. rewrite <- (pair_byte_digits l Hl). rewrite lower_base16_pairs in E.
  rewrite (lower_base16_pairs (replicate n 0)) in E.
  assert (Hinj : forall x y, of_pairs x = of_pairs y -> x = y).
  { induction x as [|[a b] x IH]; intros [|[c d] y]; cbn; [done..|]. intros [= -> -> H]. by rewrite (IH y H). }
  rewrite (Hinj _ _ E). apply pair_byte_digits. by apply Forall_replicate.
Qed.

(** *** The header as a whole *)

(** The layout of the W3C recommendation, which the tracing library documents. *)
Class W3C (h : HeaderLayout) : Prop := {
  version_length : kHeaderElementLengths h 0 = 2%nat;
  trace_id_length : kHeaderElementLengths h 1 = 32%nat;
  span_id_length : kHeaderElementLengths h 2 = 16%nat;
  header_size : kHeaderSize h = 55%nat;
  trace_id_bytes : kTraceIdBytes h = 32%nat;
  span_id_bytes : kSpanIdBytes h = 16%nat;
  base16_lower : forall l, ToLowerBase16 h l = lower_base16 l;
}.

Definition traceparent (v t p f : string) : string :=
  (v +:+ String "-" (t +:+ String "-" (p +:+ String "-" f)))%string.

Definition header_rejected (v t p f : string) : bool :=
  (bool_decide (v = "ff"%string) || bool_decide (t = INVALID_TRACE_ID) || bool_decide (p = INVALID_SPAN_ID))
  || (negb (isValidHex v) || negb (isValidHex t) || negb (isValidHex p) || negb (isValidHex f)).

Lemma is_dash_app i p r : i = String.length p -> is_dash (p +:+ String "-" r) i = true.
Proof. intros ->. unfold is_dash. by rewrite char_at_app. Qed.

Lemma substring_at i n p x r :
  i = String.length p -> n = String.length x -> String.substring i n (p +:+ (x +:+ r)) = x.
Proof. intros -> ->. by rewrite substring_app, substring_prefix. Qed.

Lemma traceparent_shape v t p f :
  String.length v = 2%nat -> String.length t = 32%nat -> String.length p = 16%nat -> String.length f = 2%nat ->
  let s := traceparent v t p f in
  (String.length s = 55%nat /\ is_dash s 2 = true /\ is_dash s 35 = true /\ is_dash s 52 = true)
  /\ String.substring 0 2 s = v /\ String.substring 3 32 s = t /\ String.substring 36 16 s = p
  /\ String.substring 53 2 s = f.
Proof.
  intros Hv Ht Hp Hf s.
  assert (E2 : s = ((v +:+ "-" +:+ t) +:+ String "-" (p +:+ String "-" f))%string) by (by rewrite !str_app_assoc).
  assert (E3 : s = ((v +:+ "-" +:+ t +:+ "-" +:+ p) +:+ String "-" f)%string) by (by rewrite !str_app_assoc).
  assert (E4 : s = ((v +:+ "-" +:+ t +:+ "-" +:+ p +:+ "-") +:+ (f +:+ ""))%string)
    by (by rewrite !str_app_assoc, str_app_nil_r).
  assert (E5 : s = ((v +:+ "-" +:+ t +:+ "-") +:+ (p +:+ String "-" f))%string) by (by rewrite !str_app_assoc).
  assert (E6 : s = ((v +:+ "-") +:+ (t +:+ String "-" (p +:+ String "-" f)))%string) by (by rewrite !str_app_assoc).
  repeat split.
  - rewrite E3. rewrite !str_length_app, Hv, Ht, Hp. cbn [String.length]. by rewrite Hf.
  - by apply is_dash_app.
  - rewrite E2. apply is_dash_app. by rewrite !str_length_app, Hv, Ht.
  - rewrite E3. apply is_dash_app. by rewrite !str_length_app, Hv, Ht, Hp.
  - by apply (substring_at 0 2 "" v).
  - rewrite E6. apply substring_at; [by rewrite str_length_app, Hv|done].
  - rewrite E5. apply substring_at; [by rewrite !str_length_app, Hv, Ht|done].
  - rewrite E4. apply substring_at; [by rewrite !str_length_app, Hv, Ht, Hp|done].
Qed.

Lemma flags_of_pair pf : generateTraceFlagsFromString (of_pairs [pf]) = Some (pair_byte pf).
Proof.
  destruct pf as [a b]. unfold generateTraceFlagsFromString. cbn [of_pairs String.length].
  change (2 <? 2)%nat with false. cbn [char_at String.length]. cbv iota.
  change (char_at _ 0) with (Some a). change (char_at _ 1) with (Some b). cbn [mbind option_bind].
  rewrite !hexToInt_nonneg. cbn [orb]. unfold pair_byte, u8. cbn [fst snd]. by rewrite Zplus_mod_idemp_l.
Qed.

Lemma extract_traceparent h `{!W3C h} g16 g8 v lt lp pf :
  String.length v = 2%nat -> length lt = 16%nat -> length lp = 8%nat -> length g16 = 16%nat -> length g8 = 8%nat ->
  extractContextFromTraceParent h g16 g8 (traceparent v (of_pairs lt) (of_pairs lp) (of_pairs [pf]))
  = Some (if header_rejected v (of_pairs lt) (of_pairs lp) (of_pairs [pf]) then INVALID
          else mk_context (map pair_byte lt) (map pair_byte lp) (pair_byte pf) true).
Proof.
  intros Hv Ht Hp Hg16 Hg8. unfold extractContextFromTraceParent, generateTraceIdFromString, generateSpanIdFromString.
  rewrite !version_length, !trace_id_length, !span_id_length, !header_size, !trace_id_bytes, !span_id_bytes.
  pose proof (generate_pairs 32 lt g16 ltac:(lia) ltac:(lia)) as G1.
  pose proof (generate_pairs 16 lp g8 ltac:(lia) ltac:(lia)) as G2.
  pose proof (length_of_pairs lt) as Lt. pose proof (length_of_pairs lp) as Lp. rewrite Ht in Lt. rewrite Hp in Lp.
  pose proof (flags_of_pair pf) as G3. pose proof (length_of_pairs [pf]) as Lf. cbn [length] in Lf.
  destruct (traceparent_shape v (of_pairs lt) (of_pairs lp) (of_pairs [pf]) Hv Lt Lp Lf)
    as ((Hs & D1 & D2 & D3) & S1 & S2 & S3 & S4).
  revert Hs D1 D2 D3 S1 S2 S3 S4 G3. generalize (of_pairs [pf]) as f. intros f.
  generalize (traceparent v (of_pairs lt) (of_pairs lp) f) as s. intros s Hs D1 D2 D3 S1 S2 S3 S4 G3.
  rewrite Hs. cbn [Nat.add Nat.sub]. rewrite D1, D2, D3, S1, S2, S3, S4, G1, G2, G3.
  change (55 =? 55)%nat with true. cbn [negb orb mbind option_bind].
  unfold header_rejected. destruct (_ || _ || bool_decide _); [done|]. cbn [orb]. by destruct (_ || _).
Qed.

Lemma split_string i s : (i <= String.length s)%nat -> exists p r, s = (p +:+ r)%string /\ String.length p = i.
Proof.
  revert s. induction i as [|i IH]; intros s Hi; [by exists "", s|].
  destruct s as [|a s]; cbn in Hi; [lia|]. destruct (IH s) as (p & r & -> & <-); [lia|]. by exists (String a p), r.
Qed.

Lemma split_dash i s :
  (i < String.length s)%nat -> is_dash s i = true ->
  exists p r, s = (p +:+ String "-" r)%string /\ String.length p = i.
Proof.
  intros Hi Hd. destruct (split_string i s) as (p & r & -> & <-); [lia|].
  rewrite str_length_app in Hi. destruct r as [|c r]; [cbn in Hi; lia|].
  apply bool_decide_eq_true in Hd. rewrite char_at_app in Hd. injection Hd as ->. by exists p, r.
Qed.

Lemma is_dash_drop p c r i : is_dash (p +:+ String c r) (String.length p + S i) = is_dash r i.
Proof.
  unfold is_dash, char_at. rewrite str_length_app. cbn [String.length].
  assert (E : String.get (String.length p + S i) (p +:+ String c r) = String.get i r).
  { induction p as [|a p IH]; [done|exact IH]. }
  rewrite E. by repeat case_decide; try lia.
Qed.

Lemma traceparent_of s :
  String.length s = 55%nat -> is_dash s 2 = true -> is_dash s 35 = true -> is_dash s 52 = true ->
  exists v t p f, s = traceparent v t p f /\ String.length v = 2%nat /\ String.length t = 32%nat
    /\ String.length p = 16%nat /\ String.length f = 2%nat.
Proof.
  intros Hs D1 D2 D3. destruct (split_dash 2 s) as (v & r1 & -> & Hv); [lia|done|].
  rewrite str_length_app in Hs. cbn [String.length] in Hs.
  replace 35%nat with (String.length v + 33)%nat in D2 by lia.
  replace 52%nat with (String.length v + 50)%nat in D3 by lia. rewrite is_dash_drop in D2, D3.
  destruct (split_dash 32 r1) as (t & r2 & -> & Ht); [lia|done|].
  rewrite str_length_app in Hs. cbn [String.length] in Hs.
  replace 49%nat with (String.length t + 17)%nat in D3 by lia. rewrite is_dash_drop in D3.
  destruct (split_dash 16 r2) as (p & f & -> & Hp); [lia|done|].
  rewrite str_length_app in Hs. cbn [String.length] in Hs.
  exists v, t, p, f. by repeat split; try lia.
Qed.

Record well_formed (ctx : SpanContext) : Prop := {
  wf_trace_id : length (trace_id ctx) = 16%nat /\ Forall MixAll.is_byte (trace_id ctx);
  wf_span_id : length (span_id ctx) = 8%nat /\ Forall MixAll.is_byte (span_id ctx);
  wf_flags : MixAll.is_byte (trace_flags ctx);
}.

Section RoundTrip.

Context (h : HeaderLayout) `{!W3C h} (g16 g8 : list Z).
Hypotheses (Hg16 : length g16 = 16%nat) (Hg8 : length g8 = 8%nat).

Lemma inject_traceparent ctx :
  injectSpanContextToTraceParent h ctx
  = traceparent "00" (lower_base16 (trace_id ctx)) (lower_base16 (span_id ctx)) (lower_base16 [trace_flags ctx]).
Proof. unfold injectSpanContextToTraceParent. by rewrite !base16_lower. Qed.

Lemma extract_inject ctx :
  well_formed ctx -> trace_id ctx <> replicate 16 0 -> span_id ctx <> replicate 8 0 ->
  extractContextFromTraceParent h g16 g8 (injectSpanContextToTraceParent h ctx)
  = Some (mk_context (trace_id ctx) (span_id ctx) (trace_flags ctx) true).
Proof.
  intros [[Lt Bt] [Lp Bp] Bf] Nt Np. rewrite inject_traceparent.
  assert (R : header_rejected "00" (lower_base16 (trace_id ctx)) (lower_base16 (span_id ctx))
    (lower_base16 [trace_flags ctx]) = false).
  { unfold header_rejected. rewrite !isValidHex_lower by (done || by constructor).
    rewrite !bool_decide_eq_false_2; [done|..].
    - by intros E; apply (lower_base16_zeros _ 8) in E.
    - by intros E; apply (lower_base16_zeros _ 16) in E.
    - done. }
  rewrite !lower_base16_pairs in *. change (map digits [trace_flags ctx]) with [digits (trace_flags ctx)] in *.
  rewrite extract_traceparent, R, !pair_byte_digits; rewrite ?length_map; try done.
  do 2 f_equal. by apply digits_of_byte.
Qed.

Lemma extract_total s :
  exists ctx, extractContextFromTraceParent h g16 g8 s = Some ctx
  /\ (ctx = INVALID
      \/ well_formed ctx /\ is_remote ctx = true
         /\ exists v rest, s = (v +:+ rest)%string /\ String.length v = 2%nat /\ v <> "ff"%string
            /\ injectSpanContextToTraceParent h ctx = ("00" +:+ rest)%string).
Proof.
  destruct (decide (String.length s = 55%nat /\ is_dash s 2 = true /\ is_dash s 35 = true /\ is_dash s 52 = true))
    as [(Hs & D1 & D2 & D3)|Hn].
  - destruct (traceparent_of s Hs D1 D2 D3) as (v & t & p & f & -> & Hv & Ht & Hp & Hf).
    destruct (pairs_of t 16 Ht) as (lt & -> & Lt). destruct (pairs_of p 8 Hp) as (lp & -> & Lp).
    destruct (pairs_of f 1 Hf) as ([|pf [|]] & -> & Lf); [done| |done].
    rewrite extract_traceparent by done. eexists. split; [done|].
    destruct (header_rejected _ _ _ _) eqn:R; [by left|right].
    unfold header_rejected in R. rewrite !orb_false_iff, !negb_false_iff, !bool_decide_eq_false in R.
    destruct R as [[[Nv _] _] [[[_ Vt] Vp] Vf]].
    destruct (lower_base16_pair_byte _ Vt) as [Et Bt]. destruct (lower_base16_pair_byte _ Vp) as [Ep Bp].
    destruct (lower_base16_pair_byte _ Vf) as [Ef Bf]. split_and!; [|done|].
    + split; cbn [trace_id span_id trace_flags]; rewrite ?length_map; [done..|]. by inversion Bf.
    + exists v. eexists. split_and!; [done..|]. rewrite inject_traceparent. cbn [trace_id span_id trace_flags].
      change [pair_byte pf] with (map pair_byte [pf]). rewrite Et, Ep, Ef. done.
  - exists INVALID. split; [|by left]. unfold extractContextFromTraceParent.
    rewrite !version_length, !trace_id_length, !span_id_length, !header_size.
    destruct (_ || _ || _ || _) eqn:E; [done|]. exfalso. apply Hn.
    rewrite !orb_false_iff, !negb_false_iff, Nat.eqb_eq in E.
    destruct E as [[[E1 E2] E3] E4]. by split_and!.
Qed.

(** A span context with non-zero identifiers, printed as a trace-parent header, is read
    back as it was (marked remote); and reading any string never leaves a buffer: it
    gives the invalid context, or a well-formed remote context that prints as the string
    read, up to the two characters of its version. *)
Theorem trace_parent_roundtrip :
  (forall ctx, well_formed ctx -> trace_id ctx <> replicate 16 0 -> span_id ctx <> replicate 8 0 ->
   extractContextFromTraceParent h g16 g8 (injectSpanContextToTraceParent h ctx)
   = Some (mk_context (trace_id ctx) (span_id ctx) (trace_flags ctx) true))
  /\ forall s, exists ctx, extractContextFromTraceParent h g16 g8 s = Some ctx
  /\ (ctx = INVALID
      \/ well_formed ctx /\ is_remote ctx = true
         /\ exists v rest, s = (v +:+ rest)%string /\ String.length v = 2%nat /\ v <> "ff"%string
            /\ injectSpanContextToTraceParent h ctx = ("00" +:+ rest)%string).
Proof. split; [exact extract_inject|exact extract_total]. Qed.

End RoundTrip.

Definition w3c : HeaderLayout :=
  Build_HeaderLayout (fun i => match i with 0 => 2 | 1 => 32 | 2 => 16 | _ => 2 end)%nat 55 32 16 lower_base16.

#[global] Instance w3c_layout : W3C w3c.
Proof. by split. Qed.

Lemma trace_parent_roundtrip_witness :
  extractContextFromTraceParent w3c (replicate 16 7) (replicate 8 7)
    "00-0102030405060708090a0b0c0d0e0f10-0102030405060708-01"
  = Some (mk_context (seqZ 1 16) (seqZ 1 8) 1 true).
Proof.
  apply (proj1 (trace_parent_roundtrip w3c (replicate 16 7) (replicate 8 7) eq_refl eq_refl)
    (mk_context (seqZ 1 16) (seqZ 1 8) 1 false)).
  - assert (H : forall n m, Forall MixAll.is_byte (seqZ n m) <-> forallb (fun b => (0 <=? b) && (b <? 256)) (seqZ n m) = true).
    { intros n m. rewrite forallb_forall, Forall_forall. unfold MixAll.is_byte.
      setoid_rewrite list_elem_of_In. setoid_rewrite andb_true_iff.
      setoid_rewrite Z.leb_le. setoid_rewrite Z.ltb_lt. done. }
    split; cbn [trace_id span_id trace_flags]; [split; [done|by apply H]..|]. unfold MixAll.is_byte; lia.
  - by vm_compute.
  - by vm_compute.
Defined.

(** The result of [hexToInt] is unsigned, so the test for a character that is not a digit never
    fires: flags of such characters are read as a number. *)
Lemma bad_flags_accepted : generateTraceFlagsFromString "zz" = Some 239.
Proof. reflexivity. Qed.

End TracingUtility.

(** ** The exporter *)

Module OtlpExporter.

Inductive TraceMode := OFF | DEBUG | GRPC.

(** [mode_] and [hosts_]; the client manager and the configuration are arguments below. *)
Record t := mk {
  hosts_ : list string;
  mode_ : TraceMode;
}.

Definition make : t := mk [] OFF.
Definition updateHosts (e : t) (hosts : list string) : t := mk hosts (mode_ e).
Definition traceMode (e : t) (mode : TraceMode) : t := mk (hosts_ e) mode.

(** *** The spans of OpenCensus, as its accessors give them; times are nanoseconds. *)
Inductive AttributeValue := kString (s : string) | kInt (z : Z) | kBool (b : bool).

Record Annotation := {
  an_timestamp : Z;
  an_description : string;
  an_attributes : list (string * AttributeValue);
}.

Record LinkData := {
  li_trace_id : list Z;
  li_span_id : list Z;
  li_attributes : list (string * AttributeValue);
}.

Record SpanData := {
  sd_trace_id : list Z;
  sd_span_id : list Z;
  sd_parent_span_id : list Z;
  sd_name : string;
  sd_start_time : Z;
  sd_end_time : Z;
  sd_message_events : list Z;
  sd_message_events_dropped : Z;
  sd_annotations : list Annotation;
  sd_annotations_dropped : Z;
  sd_links : list LinkData;
  sd_num_attributes_dropped : Z;
  sd_attributes : list (string * AttributeValue);
  sd_ok : bool;
  sd_error_message : string;
}.

(** *** The messages of OpenTelemetry *)
Record KeyValue := { key : string; value : option AttributeValue }.
Record Event := { ev_time : Z; ev_attributes : list KeyValue }.
Record Link := { ln_trace_id : string; ln_span_id : string; ln_attributes : list KeyValue }.
Inductive StatusCode := STATUS_CODE_UNSET | STATUS_CODE_OK | STATUS_CODE_ERROR.
Inductive SpanKind := SPAN_KIND_UNSPECIFIED | SPAN_KIND_CLIENT.

Record Span := mk_span {
  sp_trace_id : string;
  sp_span_id : string;
  sp_parent_span_id : string;
  sp_name : string;
  sp_start : Z;
  sp_end : Z;
  sp_kind : SpanKind;
  sp_dropped_events_count : Z;
  sp_events : list Event;
  sp_links : list Link;
  sp_dropped_links_count : Z;
  sp_attributes : list KeyValue;
  sp_code : StatusCode;
  sp_message : string;
}.

Definition set_start (v : Z) (s : Span) : Span :=
  mk_span (sp_trace_id s) (sp_span_id s) (sp_parent_span_id s) (sp_name s) v (sp_end s) (sp_kind s)
    (sp_dropped_events_count s) (sp_events s) (sp_links s) (sp_dropped_links_count s) (sp_attributes s)
    (sp_code s) (sp_message s).

Definition add_event (e : Event) (s : Span) : Span :=
  mk_span (sp_trace_id s) (sp_span_id s) (sp_parent_span_id s) (sp_name s) (sp_start s) (sp_end s) (sp_kind s)
    (sp_dropped_events_count s) (sp_events s ++ [e]) (sp_links s) (sp_dropped_links_count s) (sp_attributes s)
    (sp_code s) (sp_message s).

Definition set_dropped_events_count (n : Z) (s : Span) : Span :=
  mk_span (sp_trace_id s) (sp_span_id s) (sp_parent_span_id s) (sp_name s) (sp_start s) (sp_end s) (sp_kind s)
    (u32 n) (sp_events s) (sp_links s) (sp_dropped_links_count s) (sp_attributes s) (sp_code s) (sp_message s).

(** *** Arithmetic in [double]

    An integer rounded to 53 significant bits, ties to even. *)
Definition nearest_even (n d : Z) : Z :=
  let q := n / d in
  let r := n mod d in
  if 2 * r <? d then q else if d <? 2 * r then q + 1 else if Z.even q then q else q + 1.

Definition round53 (z : Z) : Z :=
  if Z.abs z <? 2 ^ 53 then z
  else let ulp := 2 ^ (Z.log2 (Z.abs z) - 52) in Z.sgn z * (nearest_even (Z.abs z) ulp * ulp).

(** [int_value() * 1e6] stored in a [uint64]: undefined out of its range. *)
Definition times_1e6 (v : Z) : option Z :=
  let x := round53 (round53 v * 1000000) in
  if (0 <=? x) && (x <? 2 ^ 64) then Some x else None.

Section Export.

(** [ToHex] of the identifiers of OpenCensus. *)
Variable ToHex : list Z -> string.

Definition SPAN_ANNOTATION_AWAIT_CONSUMPTION : string := "__await_consumption".
Definition SPAN_ANNOTATION_ATTR_START_TIME : string := "__start_time".

Definition new_item (span : SpanData) : Span :=
  mk_span (ToHex (sd_trace_id span)) (ToHex (sd_span_id span)) (ToHex (sd_parent_span_id span))
    (c_str (sd_name span)) (u64 (sd_start_time span)) (u64 (sd_end_time span)) SPAN_KIND_CLIENT
    0 [] [] 0 [] STATUS_CODE_UNSET "".

(** The events built for the message events are never attached. *)
Definition export_message_events (span : SpanData) (item : Span) : Span :=
  if bool_decide (sd_message_events span = []) then item
  else set_dropped_events_count (sd_message_events_dropped span) item.

(** The assertion on the type of the attribute is that of a debug build. *)
Fixpoint adjust_start (attrs : list (string * AttributeValue)) (item : Span) : option Span :=
  match attrs with
  | [] => Some item
  | (k, v) :: attrs' =>
      if bool_decide (k = SPAN_ANNOTATION_ATTR_START_TIME) then
        match v with
        | kInt z => x ← times_1e6 z; adjust_start attrs' (set_start x item)
        | _ => None
        end
      else adjust_start attrs' item
  end.

(** The value of an annotation's attribute is allocated and dropped. *)
Definition annotation_event (a : Annotation) : Event :=
  {| ev_time := u64 (an_timestamp a);
     ev_attributes := map (fun kv => {| key := kv.1; value := None |}) (an_attributes a) |}.

Fixpoint export_annotations_loop (l : list Annotation) (item : Span) : option Span :=
  match l with
  | [] => Some item
  | a :: l' =>
      if bool_decide (an_description a = SPAN_ANNOTATION_AWAIT_CONSUMPTION) then
        item ← adjust_start (an_attributes a) item;
        export_annotations_loop l' item
      else export_annotations_loop l' (add_event (annotation_event a) item)
  end.

Definition export_annotations (span : SpanData) (item : Span) : option Span :=
  if bool_decide (sd_annotations span = []) then Some item
  else
    item ← export_annotations_loop (sd_annotations span) item;
    Some (set_dropped_events_count (sd_annotations_dropped span) item).

Definition export_link (l : LinkData) : Link :=
  {| ln_trace_id := ToHex (li_trace_id l); ln_span_id := ToHex (li_span_id l);
     ln_attributes := map (fun kv => {| key := kv.1; value := Some kv.2 |}) (li_attributes l) |}.

(** Links, the count of dropped links, attributes (their values dropped) and status. *)
Definition export_rest (span : SpanData) (item : Span) : Span :=
  mk_span (sp_trace_id item) (sp_span_id item) (sp_parent_span_id item) (sp_name item) (sp_start item)
    (sp_end item) (sp_kind item) (sp_dropped_events_count item) (sp_events item)
    (sp_links item ++ map export_link (sd_links span))
    (u32 (sd_num_attributes_dropped span))
    (sp_attributes item ++ map (fun kv => {| key := kv.1; value := None |}) (sd_attributes span))
    (if sd_ok span then STATUS_CODE_OK else STATUS_CODE_ERROR)
    (if sd_ok span then sp_message item else sd_error_message span).

Definition export_span (span : SpanData) : option Span :=
  item ← export_annotations span (export_message_events span (new_item span));
  Some (export_rest span item).

(** *** The handler *)

Abbreviation ClientMap := (list (string * nat)).

(** [flat_hash_map::emplace] of a new key: where the entry lands in the iteration order, and
    what happens to the others, is the container's choice. *)
Variable emplace : ClientMap -> string * nat -> ClientMap.

(** [clients_map_] in iteration order, each client named by its number of creation;
    [round_robin_] is that of the exporting thread. *)
Record Handler := mk_handler {
  clients_map_ : ClientMap;
  created : nat;
  round_robin_ : Z;
}.

Definition make_handler : Handler := mk_handler [] 0 0.

Definition has_host (hosts : list string) (h : string) : bool := bool_decide (h ∈ hosts).

(** The first loop of [syncExportClients]: the iterator moves twice a turn. *)
Fixpoint sync_erase (hosts : list string) (m : ClientMap) : option ClientMap :=
  match m with
  | [] => Some []
  | [_] => None
  | x :: y :: m' =>
      tail ← sync_erase hosts m';
      Some ((if has_host hosts x.1 then [x] else []) ++ y :: tail)
  end.

Definition contains (m : ClientMap) (h : string) : bool := bool_decide (h ∈ m.*1).

(** The second loop; [manager] says whether the client manager is still there. *)
Fixpoint sync_add (manager : bool) (hosts : list string) (m : ClientMap) (n : nat) : ClientMap * nat :=
  match hosts with
  | [] => (m, n)
  | h :: hosts' =>
      if negb (contains m h) && manager then sync_add manager hosts' (emplace m (h, n)) (S n)
      else sync_add manager hosts' m n
  end.

Definition syncExportClients (exporter : option t) (manager : bool) (s : Handler) : option Handler :=
  match exporter with
  | None => Some s
  | Some exp =>
      m ← sync_erase (hosts_ exp) (clients_map_ s);
      let '(m, n) := sync_add manager (hosts_ exp) m (created s) in
      Some (mk_handler m n (round_robin_ s))
  end.

Inductive effect :=
  | LogSpan (start_time end_time : Z) (name : string)
  | LogAttribute (description : string) (attr : string) (v : AttributeValue)
  | LogNoClient
  | StartCall (client : nat) (remote_address : string) (deadline : Z) (metadata : Metadata) (request : list Span).

Definition debug_span (span : SpanData) : list effect :=
  LogSpan (sd_start_time span) (sd_end_time span) (c_str (sd_name span))
    :: concat (map (fun a => map (fun kv => LogAttribute (c_str (an_description a)) kv.1 kv.2) (an_attributes a))
                 (sd_annotations span)).

(** [ExportClient::asyncExport]: the queue is gone when its handler is. *)
Definition asyncExport (queue_alive : bool) (client : nat) (remote_address : string) (deadline : Z)
    (metadata : Metadata) (request : list Span) : list effect :=
  if queue_alive then [StartCall client remote_address deadline metadata request] else [].

(** [metadata] is what [Signature::sign] fills in; [now] is in milliseconds. *)
Definition Export (exporter : option t) (manager : bool) (metadata : Metadata) (now : Z)
    (spans : list SpanData) (s : Handler) : option (Handler * list effect) :=
  match exporter with
  | None => Some (s, [])
  | Some exp =>
      match mode_ exp with
      | OFF => Some (s, [])
      | DEBUG => Some (s, concat (map debug_span spans))
      | GRPC =>
          s ← syncExportClients exporter manager s;
          if bool_decide (clients_map_ s = []) then Some (s, [LogNoClient])
          else
            let client_index := round_robin_ s mod zlen (clients_map_ s) in
            let s' := mk_handler (clients_map_ s) (created s) (u32 (round_robin_ s + 1)) in
            client ← at_ (clients_map_ s) client_index;
            request ← mapM export_span spans;
            Some (s', asyncExport true client.2 client.1 (now + 3000) metadata request)
      end
  end.

(** A run of exports by one thread: each batch with the metadata and the time of its call. *)
Fixpoint exports (exporter : option t) (manager : bool) (batches : list (Metadata * Z * list SpanData))
    (s : Handler) : option (Handler * list effect) :=
  match batches with
  | [] => Some (s, [])
  | (md, now, spans) :: batches' =>
      '(s, e1) ← Export exporter manager md now spans s;
      '(s, e2) ← exports exporter manager batches' s;
      Some (s, e1 ++ e2)
  end.

(** *** The clients follow the hosts *)

Lemma sync_erase_known hosts m :
  Nat.even (length m) = true -> Forall (fun x => x.1 ∈ hosts) m -> sync_erase hosts m = Some m.
Proof.
  induction m as [m IH] using (induction_ltof1 _ (@length _)). destruct m as [|x [|y m]]; intros He Hm; [done..|].
  cbn [sync_erase]. inversion_clear Hm as [|?? Hx Hm']. inversion_clear Hm' as [|?? Hy Hm''].
  rewrite IH; [|unfold ltof; cbn; lia|done|done]. cbn [mbind option_bind].
  unfold has_host. by rewrite bool_decide_eq_true_2.
Qed.

Lemma sync_erase_odd hosts m : Nat.odd (length m) = true -> sync_erase hosts m = None.
Proof.
  induction m as [m IH] using (induction_ltof1 _ (@length _)). destruct m as [|x [|y m]]; intros Ho; [done..|].
  cbn [sync_erase]. rewrite IH; [done|unfold ltof; cbn; lia|done].
Qed.

Lemma sync_add_known manager hosts m n : hosts ⊆ m.*1 -> sync_add manager hosts m n = (m, n).
Proof.
  induction hosts as [|h hosts IH]; intros Hs; [done|]. cbn [sync_add].
  unfold contains. rewrite bool_decide_eq_true_2 by (apply Hs; constructor). cbn [negb andb].
  apply IH. intros x Hx. apply Hs. by constructor.
Qed.

Hypothesis emplace_spec : forall m x, emplace m x ≡ₚ x :: m.

Lemma sync_add_new hosts : forall m n,
  NoDup hosts -> (forall h, h ∈ hosts -> h ∉ m.*1) -> (sync_add true hosts m n).1.*1 ≡ₚ m.*1 ++ hosts.
Proof.
  induction hosts as [|h hosts IH]; intros m n Hd Hn; [by rewrite app_nil_r|].
  inversion_clear Hd as [|?? Hh Hd']. cbn [sync_add].
  unfold contains. rewrite bool_decide_eq_false_2 by (apply Hn; constructor). cbn [negb andb].
  rewrite IH; [|done|].
  - rewrite emplace_spec. cbn. by rewrite Permutation_middle.
  - intros x Hx. rewrite emplace_spec. cbn. rewrite not_elem_of_cons. split; [by intros ->|].
    apply Hn. by constructor.
Qed.

(** The handler once it has a client for every host. *)
Definition settled (exp : t) (s : Handler) : Prop :=
  (clients_map_ s).*1 ≡ₚ hosts_ exp.

Lemma settled_length exp s : settled exp s -> length (clients_map_ s) = length (hosts_ exp).
Proof. intros H. rewrite <- (length_fmap fst). by rewrite H. Qed.

Lemma sync_settled exp manager s :
  settled exp s -> Nat.even (length (hosts_ exp)) = true -> syncExportClients (Some exp) manager s = Some s.
Proof.
  intros H He. unfold syncExportClients. rewrite sync_erase_known.
  - cbn [mbind option_bind]. rewrite sync_add_known; [by destruct s|]. intros x. by rewrite H.
  - by rewrite (settled_length exp).
  - apply Forall_forall. intros x Hx. rewrite <- H. apply list_elem_of_fmap. by exists x.
Qed.

Lemma sync_first exp rr :
  NoDup (hosts_ exp) ->
  exists s, syncExportClients (Some exp) true (mk_handler [] 0 rr) = Some s /\ settled exp s /\ round_robin_ s = rr.
Proof.
  intros Hd. unfold syncExportClients. cbn [sync_erase clients_map_ created round_robin_ mbind option_bind].
  pose proof (sync_add_new (hosts_ exp) [] 0 Hd) as H. destruct (sync_add _ _ _ _) as [m n].
  eexists. split; [done|]. split; [|done]. unfold settled. cbn. apply H. intros h _. apply not_elem_of_nil.
Qed.

(** An export after [syncExportClients] has run: one call, to the client whose turn it is. *)
Lemma export_settled exp md now spans request s0 s :
  mode_ exp = GRPC -> hosts_ exp <> [] -> 0 <= round_robin_ s ->
  syncExportClients (Some exp) true s0 = Some s -> settled exp s -> mapM export_span spans = Some request ->
  exists client, at_ (clients_map_ s) (round_robin_ s mod zlen (hosts_ exp)) = Some client
  /\ Export (Some exp) true md now spans s0
     = Some (mk_handler (clients_map_ s) (created s) (u32 (round_robin_ s + 1)),
             [StartCall client.2 client.1 (now + 3000) md request]).
Proof.
  intros Hm Hh Hr Hs Hse Hq. pose proof (settled_length _ _ Hse) as Hl.
  assert (zlen (clients_map_ s) = zlen (hosts_ exp)) as Hz by (unfold zlen; by rewrite Hl).
  pose proof (zlen_pos _ Hh) as Hp.
  destruct (at_lt_is_Some (clients_map_ s) (round_robin_ s mod zlen (hosts_ exp))) as [client Hc].
  { rewrite Hz. by apply Z.mod_pos_bound. }
  exists client. split; [done|]. unfold Export. rewrite Hm, Hs. cbn [mbind option_bind].
  rewrite bool_decide_eq_false_2 by (intros E; rewrite E in Hl; by destruct (hosts_ exp)).
  rewrite Hz, Hc. cbn [mbind option_bind]. by rewrite Hq.
Qed.

(** What the calls of a run must be, from the clients and the counter it starts with. *)
Definition rotates (exp : t) (order : ClientMap) (rr : Z) (batches : list (Metadata * Z * list SpanData))
    (effs : list effect) : Prop :=
  length effs = length batches
  /\ forall k md now spans, batches !! k = Some (md, now, spans) ->
     exists client request, mapM export_span spans = Some request
     /\ at_ order (u32 (rr + Z.of_nat k) mod zlen (hosts_ exp)) = Some client
     /\ effs !! k = Some (StartCall client.2 client.1 (now + 3000) md request).

Lemma rotates_cons exp order rr md now spans request client batches effs :
  0 <= rr < 2 ^ 32 -> mapM export_span spans = Some request ->
  at_ order (rr mod zlen (hosts_ exp)) = Some client ->
  rotates exp order (u32 (rr + 1)) batches effs ->
  rotates exp order rr ((md, now, spans) :: batches)
    ([StartCall client.2 client.1 (now + 3000) md request] ++ effs).
Proof.
  intros Hr Hq Hc [Hl H]. split; [cbn; by rewrite Hl|].
  intros [|k] md' now' spans' Hk; cbn in Hk.
  - injection Hk as <- <- <-. exists client, request. rewrite Z.add_0_r, u32_small by done. done.
  - destruct (H k md' now' spans' Hk) as (c & q & H1 & H2 & H3). exists c, q. split_and!; [done| |done].
    rewrite u32_add_l in H2. rewrite <- H2. do 3 f_equal. lia.
Qed.

Lemma exports_settled exp : forall batches s,
  mode_ exp = GRPC -> hosts_ exp <> [] -> Nat.even (length (hosts_ exp)) = true -> 0 <= round_robin_ s < 2 ^ 32 ->
  settled exp s -> Forall (fun b => is_Some (mapM export_span b.2)) batches ->
  exists s' effs, exports (Some exp) true batches s = Some (s', effs)
  /\ clients_map_ s' = clients_map_ s /\ rotates exp (clients_map_ s) (round_robin_ s) batches effs.
Proof.
  intros batches. induction batches as [|[[md now] spans] batches IH]; intros s Hm Hh He Hr Hs Hb.
  - exists s, []. split_and!; [done..|]. split; [done|]. intros k ???. by rewrite lookup_nil.
  - inversion_clear Hb as [|?? [request Hq] Hb'].
    destruct (export_settled exp md now spans request s s) as (client & Hc & HE);
      [done..|lia|by apply sync_settled|done|done|].
    destruct (IH (mk_handler (clients_map_ s) (created s) (u32 (round_robin_ s + 1)))) as (s' & effs & H1 & H2 & H3);
      [done..|apply u32_range|done|done|].
    exists s', (StartCall client.2 client.1 (now + 3000) md request :: effs). split_and!; [|done|].
    + cbn [exports]. rewrite HE. cbn [mbind option_bind]. by rewrite H1.
    + by apply (rotates_cons exp (clients_map_ s) (round_robin_ s) md now spans request client batches effs).
Qed.

(** With an even number of distinct collector hosts, a fresh handler in GRPC mode exports every
    batch, however many there are: it keeps exactly one client per host, and the [k]-th
    batch is one call, carrying the spans of the batch in order with the metadata given
    and a deadline of three seconds, to the client whose turn it is under the 32-bit
    round-robin counter. *)
Theorem exports_rotate (exp : t) (rr : Z) (batches : list (Metadata * Z * list SpanData)) :
  mode_ exp = GRPC -> hosts_ exp <> [] -> NoDup (hosts_ exp) -> Nat.even (length (hosts_ exp)) = true ->
  0 <= rr < 2 ^ 32 -> batches <> [] -> Forall (fun b => is_Some (mapM export_span b.2)) batches ->
  exists s' effs, exports (Some exp) true batches (mk_handler [] 0 rr) = Some (s', effs)
  /\ (clients_map_ s').*1 ≡ₚ hosts_ exp /\ rotates exp (clients_map_ s') rr batches effs.
Proof.
  intros Hm Hh Hd He Hr Hne Hb. destruct batches as [|[[md now] spans] batches]; [done|].
  inversion_clear Hb as [|?? [request Hq] Hb'].
  destruct (sync_first exp rr Hd) as (s & H1 & Hs & <-).
  destruct (export_settled exp md now spans request (mk_handler [] 0 (round_robin_ s)) s)
    as (client & Hc & HE); [done..|lia|done|done|done|].
  destruct (exports_settled exp batches (mk_handler (clients_map_ s) (created s) (u32 (round_robin_ s + 1))))
    as (s' & effs & H2 & H3 & H4); [done..|apply u32_range|done|done|].
  exists s', (StartCall client.2 client.1 (now + 3000) md request :: effs). rewrite H3. split_and!; [|done|].
  - cbn [exports]. rewrite HE. cbn [mbind option_bind]. by rewrite H2.
  - by apply (rotates_cons exp (clients_map_ s) (round_robin_ s) md now spans request client batches effs).
Qed.

End Export.

Definition sample_span (name : string) : SpanData :=
  {| sd_trace_id := seqZ 1 16; sd_span_id := seqZ 1 8; sd_parent_span_id := replicate 8 0; sd_name := name;
     sd_start_time := 5; sd_end_time := 9; sd_message_events := []; sd_message_events_dropped := 0;
     sd_annotations := [{| an_timestamp := 7; an_description := "__await_consumption";
       an_attributes := [("__start_time"%string, kInt 1620000000123)] |}];
     sd_annotations_dropped := 0; sd_links := []; sd_num_attributes_dropped := 0;
     sd_attributes := [("topic"%string, kString "t")]; sd_ok := true; sd_error_message := "" |}.

Lemma exports_rotate_witness :
  exists s' effs,
    exports TracingUtility.lower_base16 (fun m x => m ++ [x]) (Some (mk ["a"; "b"]%string GRPC)) true
      (replicate 5 (∅, 0, [sample_span "s"])) (mk_handler [] 0 (2 ^ 32 - 1)) = Some (s', effs)
    /\ (clients_map_ s').*1 ≡ₚ ["a"; "b"]%string /\ length effs = 5%nat.
Proof.
  destruct (exports_rotate TracingUtility.lower_base16 (fun m x => m ++ [x])
    (fun m x => symmetry (Permutation_cons_append m x))
    (mk ["a"; "b"]%string GRPC) (2 ^ 32 - 1) (replicate 5 (∅, 0, [sample_span "s"])))
    as (s' & effs & H1 & H2 & H3 & _).
  - done.
  - done.
  - cbn. apply NoDup_cons_2; [|apply NoDup_singleton]. by rewrite list_elem_of_singleton.
  - done.
  - lia.
  - done.
  - apply Forall_replicate. cbn [snd]. vm_compute. by eexists.
  - exists s', effs. exact (conj H1 (conj H2 H3)).
Defined.

(** With one host the second export increments the end iterator of the map. *)
Lemma second_export_undefined ToHex spans :
  exports ToHex (fun m x => m ++ [x]) (Some (mk ["a"]%string GRPC)) true
    [(∅, 0, []); (∅, 0, spans)] make_handler = None.
Proof. reflexivity. Qed.

(** With an even number of clients, a client of a host that is gone survives when the loop skips it. *)
Lemma stale_client_kept emplace :
  syncExportClients emplace (Some (mk ["a"]%string GRPC)) false
    (mk_handler [("a"%string, 0%nat); ("b"%string, 1%nat)] 2 0)
  = Some (mk_handler [("a"%string, 0%nat); ("b"%string, 1%nat)] 2 0).
Proof. reflexivity. Qed.

(** The exported span does not depend on the values of the span's attributes, only on their keys. *)
Lemma attribute_values_lost ToHex span attrs :
  attrs.*1 = (sd_attributes span).*1 ->
  export_span ToHex span
  = export_span ToHex
      {| sd_trace_id := sd_trace_id span; sd_span_id := sd_span_id span;
         sd_parent_span_id := sd_parent_span_id span; sd_name := sd_name span;
         sd_start_time := sd_start_time span; sd_end_time := sd_end_time span;
         sd_message_events := sd_message_events span;
         sd_message_events_dropped := sd_message_events_dropped span;
         sd_annotations := sd_annotations span; sd_annotations_dropped := sd_annotations_dropped span;
         sd_links := sd_links span; sd_num_attributes_dropped := sd_num_attributes_dropped span;
         sd_attributes := attrs; sd_ok := sd_ok span; sd_error_message := sd_error_message span |}.
Proof.
  intros E. unfold export_span, export_annotations, export_message_events, export_rest. cbn.
  assert (H : forall l : list (string * AttributeValue),
    map (fun kv => {| key := kv.1; value := None |}) l = map (fun k => {| key := k; value := None |}) l.*1).
  { intros l. change (l.*1) with (map fst l). by rewrite map_map. }
  rewrite !H, E. done.
Qed.

(** *** The start of a consumption *)

Lemma nearest_even_close n d : 0 < d -> 2 * Z.abs (nearest_even n d * d - n) <= d.
Proof.
  intros Hd. unfold nearest_even. pose proof (Z.div_mod n d ltac:(lia)). pose proof (Z.mod_pos_bound n d Hd).
  destruct (Z.ltb_spec (2 * (n mod d)) d); [nia|]. destruct (Z.ltb_spec d (2 * (n mod d))); [nia|].
  destruct (Z.even _); nia.
Qed.

Lemma round53_close z : 0 <= z < 2 ^ 61 -> Z.abs (round53 z - z) <= 128.
Proof.
  intros Hz. unfold round53. rewrite (Z.abs_eq z) by lia. destruct (Z.ltb_spec z (2 ^ 53)) as [|Hb]; [lia|].
  set (d := 2 ^ (Z.log2 z - 52)).
  assert (0 < d <= 2 ^ 8) as Hd.
  { assert (53 <= Z.log2 z) by (apply Z.log2_le_pow2; lia). assert (Z.log2 z < 61) by (apply Z.log2_lt_pow2; lia).
    split; [apply Z.pow_pos_nonneg; lia|]. apply Z.pow_le_mono_r; lia. }
  rewrite Z.sgn_pos by lia. pose proof (nearest_even_close z d ltac:(lia)). lia.
Qed.

Definition plausible (v : Z) : Prop := 0 <= v < 2 ^ 41.

Lemma times_1e6_close v : plausible v -> exists x, times_1e6 v = Some x /\ Z.abs (x - v * 1000000) <= 128.
Proof.
  intros Hv. unfold plausible in Hv. unfold times_1e6.
  assert (round53 v = v) as -> by (unfold round53; rewrite (proj2 (Z.ltb_lt _ _)) by lia; done).
  assert (0 <= v * 1000000 < 2 ^ 61 - 128) as Hb by lia. pose proof (round53_close (v * 1000000) ltac:(lia)) as Hc.
  assert (0 <= round53 (v * 1000000)) as Hn.
  { unfold round53. case_match; [lia|]. rewrite Z.sgn_pos, Z.mul_1_l by lia.
    apply Z.mul_nonneg_nonneg; [|apply Z.pow_nonneg; lia]. unfold nearest_even.
    assert (0 <= Z.abs (v * 1000000) / 2 ^ (Z.log2 (Z.abs (v * 1000000)) - 52)) by (apply Z_div_nonneg_nonneg; lia).
    repeat case_match; lia. }
  eexists. rewrite (proj2 (Z.leb_le _ _)), (proj2 (Z.ltb_lt _ _)) by lia. done.
Qed.

(** The start times a span carries in its special annotations, in the order they are applied. *)
Definition is_await (a : Annotation) : bool := bool_decide (an_description a = SPAN_ANNOTATION_AWAIT_CONSUMPTION).

Definition start_attrs (attrs : list (string * AttributeValue)) : list AttributeValue :=
  (List.filter (fun kv => bool_decide (kv.1 = SPAN_ANNOTATION_ATTR_START_TIME)) attrs).*2.

Definition start_values (l : list Annotation) : list AttributeValue :=
  concat (map (fun a => start_attrs (an_attributes a)) (List.filter is_await l)).

Definition good_start (v : AttributeValue) : Prop :=
  match v with kInt z => plausible z | _ => False end.

(** The start an exported span should have: the last of these, else the span's own. *)
Definition start_ok (dflt : Z) (vs : list AttributeValue) (x : Z) : Prop :=
  match last vs with
  | Some (kInt v) => Z.abs (x - v * 1000000) <= 128
  | Some _ => False
  | None => x = dflt
  end.

Lemma start_ok_app dflt vs ws x y : start_ok dflt vs x -> start_ok x ws y -> start_ok dflt (vs ++ ws) y.
Proof.
  unfold start_ok. rewrite last_app. destruct (last ws) as [w|] eqn:E; [done|]. intros H ->. exact H.
Qed.

Lemma adjust_start_ok attrs : forall item, Forall good_start (start_attrs attrs) ->
  exists x, adjust_start attrs item = Some (set_start x item) /\ start_ok (sp_start item) (start_attrs attrs) x.
Proof.
  induction attrs as [|[k v] attrs IH]; intros item Hg; [by exists (sp_start item); destruct item|].
  cbn [adjust_start]. unfold start_attrs in *. cbn [List.filter fst] in *.
  destruct (bool_decide (k = _)); [|by apply IH]. cbn [fmap list_fmap snd] in *.
  inversion_clear Hg as [|?? Hv Hg']. destruct v as [|z|]; [done| |done].
  destruct (times_1e6_close z Hv) as (x & -> & Hx). cbn [mbind option_bind].
  destruct (IH (set_start x item) Hg') as (y & -> & Hy). exists y. split; [done|].
  by apply (start_ok_app _ [kInt z] _ x y).
Qed.

Lemma annotations_loop_ok l : forall item, Forall good_start (start_values l) ->
  exists item', export_annotations_loop l item = Some item'
  /\ sp_events item' = sp_events item ++ map annotation_event (List.filter (fun a => negb (is_await a)) l)
  /\ sp_name item' = sp_name item /\ sp_trace_id item' = sp_trace_id item
  /\ start_ok (sp_start item) (start_values l) (sp_start item').
Proof.
  induction l as [|a l IH]; intros item Hg; [exists item; by rewrite app_nil_r|].
  cbn [export_annotations_loop]. fold (is_await a). unfold start_values in *. cbn [List.filter] in *.
  destruct (is_await a); cbn [negb map concat] in *.
  - apply Forall_app in Hg as [Ha Hg]. destruct (adjust_start_ok _ item Ha) as (x & -> & Hx).
    cbn [mbind option_bind]. destruct (IH (set_start x item) Hg) as (item' & -> & He & Hn & Ht & Hs).
    exists item'. split_and!; [done..|]. by apply (start_ok_app _ _ _ x).
  - destruct (IH (add_event (annotation_event a) item) Hg) as (item' & -> & He & Hn & Ht & Hs).
    exists item'. split_and!; [done| |done..]. rewrite He. cbn. by rewrite <- app_assoc.
Qed.

(** Exporting a span whose special annotations carry times before 2039 always succeeds; the
    exported span has one event for each other annotation, in order, and starts at the
    last of those times, within 128 nanoseconds of it (the product is rounded to a
    [double]), or where the span itself starts when it carries none. *)
Theorem exported_span ToHex span :
  Forall good_start (start_values (sd_annotations span)) ->
  exists item, export_span ToHex span = Some item
  /\ sp_events item = map annotation_event (List.filter (fun a => negb (is_await a)) (sd_annotations span))
  /\ sp_name item = c_str (sd_name span) /\ sp_trace_id item = ToHex (sd_trace_id span)
  /\ start_ok (u64 (sd_start_time span)) (start_values (sd_annotations span)) (sp_start item).
Proof.
  intros Hg. set (item0 := export_message_events span (new_item ToHex span)).
  assert (sp_events item0 = [] /\ sp_name item0 = c_str (sd_name span) /\ sp_trace_id item0 = ToHex (sd_trace_id span)
    /\ sp_start item0 = u64 (sd_start_time span)) as (He0 & Hn0 & Ht0 & Hs0).
  { unfold item0, export_message_events. by case_match. }
  destruct (annotations_loop_ok _ item0 Hg) as (item & E & He & Hn & Ht & Hs).
  rewrite He0 in He. rewrite Hn0 in Hn. rewrite Ht0 in Ht. rewrite Hs0 in Hs.
  unfold export_span, export_annotations. fold item0. destruct (sd_annotations span) as [|a l] eqn:Ea.
  - injection E as <-. eexists. split_and!; done.
  - rewrite bool_decide_eq_false_2 by done. rewrite E. cbn [mbind option_bind]. eexists. by split_and!.
Qed.

Lemma exported_span_witness :
  exists item, export_span TracingUtility.lower_base16 (sample_span "s") = Some item
  /\ sp_events item = [] /\ Z.abs (sp_start item - 1620000000123000000) <= 128.
Proof.
  destruct (exported_span TracingUtility.lower_base16 (sample_span "s")) as (item & H1 & H2 & _ & _ & H3).
  - repeat constructor. all: by vm_compute.
  - exists item. exact (conj H1 (conj H2 H3)).
Defined.

End OtlpExporter.

(** ** The polling thread of the handler

    [start] spawns the thread and waits, without a predicate, for the signal the thread gives
    first; [shutdown] sets [stopped_] and joins.  A wait or a signal happens under
    [start_mtx_] and is one step; a wake-up without a signal is not modelled. *)
Module HandlerThread.

Inductive starter := Idle | Spawned | Waiting | Returned | Joining | Closed.
Inductive poller := Unborn | Begin | Loop | InNext | Quit.

#[global] Instance starter_eq_dec : EqDecision starter.
Proof. solve_decision. Defined.

(** [queue] holds the finished calls, [completed] those whose [onCompletion] ran.  Nothing
    shuts the completion queue down. *)
Record t := mk {
  caller : starter;
  thread : poller;
  stopped_ : bool;
  queue : list nat;
  completed : list nat;
}.

Definition make : t := mk Idle Unborn false [] [].

Inductive event :=
  | Spawn | Wait (* OtlpExporterHandler::start *)
  | Signal | Test | Next (* OtlpExporterHandler::poll *)
  | StopBegin | Join (* OtlpExporterHandler::shutdown *)
  | CallDone (tag : nat).

Definition start_spawn (s : t) : option t :=
  match caller s with
  | Idle => Some (mk Spawned Begin (stopped_ s) (queue s) (completed s))
  | _ => None
  end.

Definition start_wait (s : t) : option t :=
  match caller s with
  | Spawned => Some (mk Waiting (thread s) (stopped_ s) (queue s) (completed s))
  | _ => None
  end.

Definition poll_signal (s : t) : option t :=
  match thread s with
  | Begin =>
      Some (mk (if decide (caller s = Waiting) then Returned else caller s) Loop (stopped_ s) (queue s) (completed s))
  | _ => None
  end.

Definition poll_test (s : t) : option t :=
  match thread s with
  | Loop => Some (mk (caller s) (if stopped_ s then Quit else InNext) (stopped_ s) (queue s) (completed s))
  | _ => None
  end.

(** [Next] blocks on an empty queue that has not been shut down. *)
Definition poll_next (s : t) : option t :=
  match thread s, queue s with
  | InNext, tag :: q => Some (mk (caller s) InNext (stopped_ s) q (completed s ++ [tag]))
  | _, _ => None
  end.

Definition shutdown_begin (s : t) : option t :=
  match caller s with
  | Returned => Some (mk Joining (thread s) true (queue s) (completed s))
  | _ => None
  end.

Definition shutdown_join (s : t) : option t :=
  match caller s, thread s with
  | Joining, Quit => Some (mk Closed Quit (stopped_ s) (queue s) (completed s))
  | _, _ => None
  end.

Definition step (e : event) (s : t) : option t :=
  match e with
  | Spawn => start_spawn s
  | Wait => start_wait s
  | Signal => poll_signal s
  | Test => poll_test s
  | Next => poll_next s
  | StopBegin => shutdown_begin s
  | Join => shutdown_join s
  | CallDone tag => Some (mk (caller s) (thread s) (stopped_ s) (queue s ++ [tag]) (completed s))
  end.

Fixpoint run (l : list event) (s : t) : option t :=
  match l with [] => Some s | e :: l' => s' ← step e s; run l' s' end.

Definition arrivals (l : list event) : list nat :=
  concat (map (fun e => match e with CallDone tag => [tag] | _ => [] end) l).

Lemma run_ind (P : t -> Prop) :
  (forall e s s', P s -> step e s = Some s' -> P s') -> forall l s s', P s -> run l s = Some s' -> P s'.
Proof.
  intros Hstep l. induction l as [|e l IH]; cbn [run]; intros s s' Hs.
  - by intros [= <-].
  - destruct (step e s) as [s1|] eqn:E; [|done]. cbn [mbind option_bind]. apply IH. by eapply Hstep.
Qed.

(** Run a step on a state given by its fields. *)
Ltac step_cases :=
  cbn; unfold start_spawn, start_wait, poll_signal, poll_test, poll_next, shutdown_begin, shutdown_join;
  cbn; repeat (case_match || case_decide); intros [= <-]; cbn.

Lemma poller_step_conserves e s s' :
  step e s = Some s' -> completed s' ++ queue s' = completed s ++ queue s ++ arrivals [e].
Proof.
  destruct s as [c p b q d], e; step_cases; rewrite ?app_nil_r, <- ?app_assoc; done.
Qed.

Lemma conserves l : forall s s', run l s = Some s' -> completed s' ++ queue s' = completed s ++ queue s ++ arrivals l.
Proof.
  induction l as [|e l IH]; cbn [run]; intros s s'.
  - intros [= <-]. by rewrite app_nil_r.
  - destruct (step e s) as [s1|] eqn:E; [|done]. cbn [mbind option_bind]. intros H.
    rewrite (IH _ _ H), app_assoc, (poller_step_conserves _ _ _ E), <- !app_assoc. do 2 f_equal.
    unfold arrivals. cbn. by rewrite app_nil_r.
Qed.

(** The thread exists only once [start] has been called. *)
Lemma idle_unborn l s s' :
  (caller s = Idle -> thread s = Unborn) -> run l s = Some s' -> caller s' = Idle -> thread s' = Unborn.
Proof.
  apply (run_ind (fun s => caller s = Idle -> thread s = Unborn)). intros e [c p b q d] s1 Hc. cbn in *.
  destruct e; step_cases; intuition congruence.
Qed.

(** A thread in [Next] stays there. *)
Definition polling (s : t) : Prop := thread s = InNext /\ caller s <> Idle /\ caller s <> Closed.

Lemma in_next_stays l s s' : polling s -> run l s = Some s' -> polling s'.
Proof.
  apply (run_ind polling). intros e [c p b q d] s1 (Hp & Hc & Hi). cbn in *. subst p. unfold polling.
  destruct e; step_cases; intuition congruence.
Qed.

(** A caller that waits after the signal waits for good. *)
Definition missed (s : t) : Prop :=
  (caller s = Spawned \/ caller s = Waiting) /\ thread s <> Unborn /\ thread s <> Begin.

Lemma missed_stays l s s' : missed s -> run l s = Some s' -> missed s'.
Proof.
  apply (run_ind missed). intros e [c p b q d] s1 (Hc & Hp & Hp'). cbn in *. unfold missed.
  destruct e; step_cases; intuition congruence.
Qed.

(** The life of the exporter's polling thread.  Every finished export call is completed
    exactly once, in the order of the queue, and none while none has finished; [start] returns
    when the caller waits before the thread signals, and never when the thread signals
    first; and once the thread is in [Next], no schedule lets [shutdown] return, because
    nothing shuts the queue down. *)
Theorem handler_thread l s :
  run l make = Some s ->
  completed s ++ queue s = arrivals l
  /\ (caller s = Waiting -> thread s = Begin -> exists s', run [Signal] s = Some s' /\ caller s' = Returned)
  /\ (missed s -> forall l' s', run l' s = Some s' -> caller s' <> Returned)
  /\ (thread s = InNext -> caller s <> Closed ->
      forall l' s', run l' s = Some s' -> caller s' <> Closed).
Proof.
  intros H. split_and!.
  - exact (conserves l make s H).
  - intros Hc Hp. unfold run, step, poll_signal. rewrite Hp, Hc. cbn. by eexists.
  - intros Hm l' s' H'. apply (missed_stays _ _ _ Hm) in H' as ([->| ->] & _); done.
  - intros Hp Hc l' s' H'. assert (caller s <> Idle) as Hi by (intros E; by rewrite (idle_unborn l make s) in Hp).
    by apply (in_next_stays _ _ _ (conj Hp (conj Hi Hc))) in H' as (_ & _ & ?).
Qed.

Lemma handler_thread_witness :
  exists s, run [Spawn; Signal; CallDone 4; Test; Next; Wait] make = Some s
  /\ caller s = Waiting /\ completed s ++ queue s = [4%nat]
  /\ forall l' s', run l' s = Some s' -> caller s' <> Returned.
Proof.
  eexists. split; [reflexivity|]. split; [reflexivity|].
  destruct (handler_thread [Spawn; Signal; CallDone 4; Test; Next; Wait] _ eq_refl) as (H1 & _ & H3 & _).
  split; [exact H1|]. apply H3. split; [by right|done].
Defined.

End HandlerThread.
