(* ===== verification/Spans.v ===== *)
(** * Spans: what the producer and the standard consume service record of their work.

    [sendImpl] and [endTransaction0] (rocketmq/ProducerImpl.cpp), the callbacks of
    rocketmq/SendCallbacks.cpp and [ConsumeStandardMessageService::consumeTask] start spans of
    the tracing library, fill them and end them.  Here the operations on spans are recorded in
    order, between the remote calls and the calls of the listener of [Producer] and
    [ConsumeService]; forgetting them gives back the operations of those files.  The tracing
    library is the parameter [Tracer]; a span is named by a number, [base] onwards. *)

From S2P Require Import Prelude Types Message MixAll Proto Route Config Codec ClientManager ClientImpl.
From S2P Require Import ProcessQueue ConsumeService Producer Tracing.

Abbreviation AttributeValue := OtlpExporter.AttributeValue.
Abbreviation kString := OtlpExporter.kString.
Abbreviation kInt := OtlpExporter.kInt.

(** ** The names of MixAll.cpp *)
Definition SPAN_NAME_SEND_MESSAGE : string := "SendMessage".
Definition SPAN_NAME_END_TRANSACTION : string := "EndTransaction".
Definition SPAN_NAME_AWAIT_CONSUMPTION : string := "AwaitingConsumption".
Definition SPAN_NAME_CONSUME_MESSAGE : string := "ConsumeMessage".
Definition SPAN_ATTRIBUTE_ACCESS_KEY : string := "ak".
Definition SPAN_ATTRIBUTE_ARN : string := "setResourceNamespace".
Definition SPAN_ATTRIBUTE_KEYS : string := "keys".
Definition SPAN_ATTRIBUTE_DELIVERY_TIMESTAMP : string := "deliveryTimestamp".
Definition SPAN_ATTRIBUTE_TOPIC : string := "topic".
Definition SPAN_ATTRIBUTE_GROUP : string := "group".
Definition SPAN_ATTRIBUTE_MESSAGE_ID : string := "msgId".
Definition SPAN_ATTRIBUTE_TAG : string := "tags".
Definition SPAN_ATTRIBUTE_HOST : string := "host".
Definition SPAN_ATTRIBUTE_ATTEMPT_TIME : string := "attempt".
Definition SPAN_ATTRIBUTE_TRANSACTION_RESOLUTION : string := "commitAction".
Definition SPAN_ATTRIBUTE_AVAILABLE_TIMESTAMP : string := "availableTimestamp".
Definition SPAN_ATTRIBUTE_BATCH_SIZE : string := "batchSize".
Definition MESSAGE_KEY_SEPARATOR : Ascii.ascii := " "%char.

(** ** The tracing library *)

(** [context n parent] is the context of span [n], started with that remote parent or as a
    root; [FormatTime] prints a time in nanoseconds since the epoch. *)
Class Tracer := {
  SpanContext : Type;
  IsValid : SpanContext -> bool;
  FromTraceParentHeader : string -> SpanContext;
  ToTraceParentHeader : SpanContext -> string;
  context : nat -> option SpanContext -> SpanContext;
  trace_id : SpanContext -> list Z;
  FormatTime : Z -> string;
}.

(** What the library documents: a started span has a valid context, a remote parent hands its
    trace on, and a header that was printed from a context is read back as that context. *)
Class TracerLaws (T : Tracer) : Prop := {
  started_valid : forall n parent, IsValid (context n parent) = true;
  child_trace : forall n parent, trace_id (context n (Some parent)) = trace_id parent;
  header_roundtrip : forall c, IsValid c = true -> FromTraceParentHeader (ToTraceParentHeader c) = c;
}.

Inductive StatusCode := OK | UNKNOWN | ABORTED | INTERNAL.

(** ** The record of the operations on spans *)
Section spans.
Context {T : Tracer}.

(** [always] says that the sampler that takes every span is given. *)
Inductive span_event :=
  | Start (id : nat) (name : string) (parent : option SpanContext) (always : bool)
  | AddAttribute (id : nat) (key : string) (value : AttributeValue)
  | AddAnnotation (id : nat) (description : string) (attributes : list (string * AttributeValue))
  | SetStatus (id : nat) (status : StatusCode)
  | End (id : nat).

(** A span that was started; a blank span, on which every operation is empty, is [None]. *)
Record Span := mkSpan { number : nat; span_context : SpanContext }.

(** The parent named by a trace-parent header, when the header is valid. *)
Definition remote_parent (header : string) : option SpanContext :=
  let c := FromTraceParentHeader header in if IsValid c then Some c else None.

Definition StartSpan (id : nat) (name header : string) (always : bool) : Span * span_event :=
  let parent := remote_parent header in
  (mkSpan id (context id parent), Start id name parent always).

Definition attributes (id : nat) (l : list (string * AttributeValue)) : list span_event :=
  map (fun kv => AddAttribute id kv.1 kv.2) l.

(** [SetStatus] and [End]. *)
Definition finish (status : StatusCode) (span : option Span) : list span_event :=
  match span with
  | None => []
  | Some x => [SetStatus (number x) status; End (number x)]
  end.

(** The keys in one string. *)
Definition joined_keys (m : MQMessage.t) : AttributeValue :=
  kString (str_join MESSAGE_KEY_SEPARATOR (MQMessage.getKeys m)).

(** *** A log of span operations among others *)

Definition erase {A} (l : list (span_event + A)) : list A :=
  omap (fun x => match x with inl _ => None | inr a => Some a end) l.
Definition span_log {A} (l : list (span_event + A)) : list span_event :=
  omap (fun x => match x with inl x => Some x | inr _ => None end) l.

(** The discipline of the library: a span is used between its start and its end only, and is
    started and ended once.  The state is the spans under way and those ended. *)
Definition monitor (x : span_event) (st : gset nat * gset nat) : option (gset nat * gset nat) :=
  let '(running, ended) := st in
  match x with
  | Start id _ _ _ =>
      if bool_decide (id ∈ running ∪ ended) then None else Some ({[id]} ∪ running, ended)
  | AddAttribute id _ _ | AddAnnotation id _ _ | SetStatus id _ =>
      if bool_decide (id ∈ running) then Some st else None
  | End id => if bool_decide (id ∈ running) then Some (running ∖ {[id]}, {[id]} ∪ ended) else None
  end.

Fixpoint monitors (l : list span_event) (st : gset nat * gset nat) : option (gset nat * gset nat) :=
  match l with
  | [] => Some st
  | x :: l' => st ← monitor x st; monitors l' st
  end.

(** *** Lemmas of the log *)

Lemma erase_app {A} (l k : list (span_event + A)) : erase (l ++ k) = erase l ++ erase k.
Proof. apply omap_app. Qed.
Lemma span_log_app {A} (l k : list (span_event + A)) : span_log (l ++ k) = span_log l ++ span_log k.
Proof. apply omap_app. Qed.
Lemma erase_cons {A} (a : A) (l : list (span_event + A)) : erase (inr a :: l) = a :: erase l.
Proof. done. Qed.
Lemma erase_inl {A} (l : list span_event) : erase (A := A) (map inl l) = [].
Proof. induction l; [done|exact IHl]. Qed.
Lemma erase_inr {A} (l : list A) : erase (map inr l) = l.
Proof. induction l as [|a l IH]; [done|]. apply (f_equal (cons a)), IH. Qed.
Lemma span_log_inl {A} (l : list span_event) : span_log (A := A) (map inl l) = l.
Proof. induction l as [|a l IH]; [done|]. apply (f_equal (cons a)), IH. Qed.
Lemma span_log_inr {A} (l : list A) : span_log (map inr l) = [].
Proof. induction l; [done|exact IHl]. Qed.

Lemma span_log_around {A} (l k : list span_event) (a : A) : span_log (map inl l ++ inr a :: map inl k) = l ++ k.
Proof. rewrite span_log_app, span_log_inl. f_equal. exact (span_log_inl k). Qed.

Lemma monitors_app l k st : monitors (l ++ k) st = st' ← monitors l st; monitors k st'.
Proof.
  revert st. induction l as [|x l IH]; intros st; [done|]. cbn [app monitors].
  destruct (monitor x st); [apply IH|done].
Qed.

Lemma monitors_attributes id l running ended :
  id ∈ running -> monitors (attributes id l) (running, ended) = Some (running, ended).
Proof.
  intros H. induction l as [|kv l IH]; [done|]. cbn. by rewrite bool_decide_eq_true_2.
Qed.

Lemma monitors_start id name parent always running ended l :
  id ∉ running -> id ∉ ended ->
  monitors (Start id name parent always :: l) (running, ended) = monitors l ({[id]} ∪ running, ended).
Proof. intros H1 H2. cbn. rewrite bool_decide_eq_false_2 by set_solver. done. Qed.

Lemma monitors_status id status running ended l :
  id ∈ running -> monitors (SetStatus id status :: l) (running, ended) = monitors l (running, ended).
Proof. intros H. cbn. by rewrite bool_decide_eq_true_2. Qed.

Lemma monitors_annotation id d attrs running ended l :
  id ∈ running -> monitors (AddAnnotation id d attrs :: l) (running, ended) = monitors l (running, ended).
Proof. intros H. cbn. by rewrite bool_decide_eq_true_2. Qed.

Lemma monitors_end id running ended l :
  id ∈ running -> monitors (End id :: l) (running, ended) = monitors l (running ∖ {[id]}, {[id]} ∪ ended).
Proof. intros H. cbn. by rewrite bool_decide_eq_true_2. Qed.

Lemma monitors_finish id status c running ended :
  id ∈ running ->
  monitors (finish status (Some (mkSpan id c))) (running, ended) = Some (running ∖ {[id]}, {[id]} ∪ ended).
Proof. intros H. unfold finish. cbn [number]. by rewrite monitors_status, monitors_end. Qed.

(** A span that is started, filled and ended again. *)
Lemma monitors_whole id name parent always l status c running ended :
  id ∉ running -> id ∉ ended ->
  monitors (Start id name parent always :: attributes id l ++ finish status (Some (mkSpan id c))) (running, ended)
  = Some (running, {[id]} ∪ ended).
Proof.
  intros H1 H2. rewrite monitors_start, monitors_app, monitors_attributes by set_solver. cbn [mbind option_bind].
  rewrite monitors_finish by set_solver. do 2 f_equal. set_solver.
Qed.

End spans.

#[export] Hint Rewrite @erase_app @span_log_app @erase_inl @erase_inr @span_log_inl @span_log_inr : rmq.

(** ** The producer *)
Module ProducerSpans.
Import ProducerImpl RetrySendCallback.
Section producer.
Context {T : Tracer}.
(** The clock, the answers and the rest as in [Producer] (the headers of [trace_header] are
    computed here); the access key the provider gives; the first span of the send. *)
Context (e : Env) (s : ProducerImpl.t) (access_key : string) (base : nat).

(** The attributes of attempt [k] of a message. *)
Definition send_attributes (m : MQMessage.t) (k : Z) : list (string * AttributeValue) :=
  [(SPAN_ATTRIBUTE_ACCESS_KEY, kString access_key);
   (SPAN_ATTRIBUTE_ARN, kString (resource_namespace_ s));
   (SPAN_ATTRIBUTE_TOPIC, kString (MQMessage.getTopic m));
   (SPAN_ATTRIBUTE_MESSAGE_ID, kString (MQMessage.getMsgId m));
   (SPAN_ATTRIBUTE_GROUP, kString (group_name_ s));
   (SPAN_ATTRIBUTE_TAG, kString (MQMessage.getTags m))]
  ++ (if bool_decide (MQMessage.getKeys m = []) then [] else [(SPAN_ATTRIBUTE_KEYS, joined_keys m)])
  ++ [(SPAN_ATTRIBUTE_ATTEMPT_TIME, kInt (1 + k)); (SPAN_ATTRIBUTE_HOST, kString (hostname e))]
  ++ (if bool_decide (MQMessage.deliveryTimestamp m = 0) then []
      else [(SPAN_ATTRIBUTE_DELIVERY_TIMESTAMP, kString (FormatTime (MQMessage.deliveryTimestamp m)))]).

(** [RetrySendCallback] with its span. *)
Record Callback := mkCallback { callback : RetrySendCallback.t; span : option Span }.

Definition make (message : MQMessage.t) (max_attempt_times : Z) (candidates : list MQMessageQueue.t) : Callback :=
  mkCallback (RetrySendCallback.make message max_attempt_times candidates) None.

Definition span_number (k : Z) : nat := (base + Z.to_nat k)%nat.

Definition sendImpl (x : Callback)
    : option (error_code + (string * rmq.SendMessageRequest * Callback * list span_event)) :=
  let cb := callback x in
  let mq := default MQMessageQueue.empty (messageQueue cb) in
  let target := MQMessageQueue.service_address_ mq in
  if str_empty target then Some (inl BadGateway)
  else
    let k := attempt_times_ cb in
    let request := wrapSendMessageRequest e k (message_ cb) mq s in
    let '(span, started) := StartSpan (span_number k) SPAN_NAME_SEND_MESSAGE (MQMessage.traceContext (message_ cb)) true in
    if negb (credentialsProvider s) then None
    else
      let header := ToTraceParentHeader (span_context span) in
      Some (inr (target, request,
                 mkCallback (RetrySendCallback.mk (MQMessage.set_traceContext header (message_ cb)) k
                               (max_attempt_times_ cb) (candidates_ cb) header) (Some span),
                 started :: attributes (span_number k) (send_attributes (message_ cb) k))).

(** The operations of one send: those on spans on the left. *)
Abbreviation trace := (list (span_event + event)).

Definition onSuccess (r : SendResult.t) (x : Callback) : trace :=
  map inl (finish OK (span x)) ++ [inr (Complete (inr (RetrySendCallback.onSuccess r (callback x))))].

Fixpoint attempts (fuel : nat) (x : Callback) : option trace :=
  match fuel with
  | O => None
  | S fuel' =>
      let fail ec (x : Callback) :=
        rest ← match onFailure (alive e (attempt_times_ (callback x))) ec (callback x) with
               | inl ec => Some [inr (Complete (inl ec))]
               | inr cb => attempts fuel' (mkCallback cb (span x))
               end;
        Some (map inl (finish INTERNAL (span x)) ++ rest) in
      started ← sendImpl x;
      match started with
      | inl ec => fail ec x
      | inr (target, request, x, opened) =>
          rest ← match answer e (attempt_times_ (callback x)) with
                 | inl ec => fail ec x
                 | inr r => Some (onSuccess r x)
                 end;
          Some (map inl opened ++ inr (CallSend target request) :: rest)
      end
  end.

Definition send0 (message : MQMessage.t) (queues : list MQMessageQueue.t) (max_attempt_times : Z) : option trace :=
  if negb (validate message) then Some [inr (Complete (inl BadRequest))]
  else if bool_decide (queues = []) then Some [inr (Complete (inl NotFound))]
  else if max_attempt_times <=? 0 then Some [inr (Complete (inl BadConfiguration))]
  else attempts (Z.to_nat max_attempt_times) (make message max_attempt_times queues).

(** [endTransaction0], its span around the call. *)
Definition endTransaction0 (target message_id transaction_id : string) (resolution : TransactionState)
    (trace_context : string) (ec : error_code) : option (list (span_event + end_call) * bool) :=
  let '(span, started) := StartSpan base SPAN_NAME_END_TRANSACTION trace_context true in
  '(c, ok) ← ProducerImpl.endTransaction0 target message_id transaction_id resolution ec s;
  Some (inl started
        :: map inl (attributes base
             [(SPAN_ATTRIBUTE_ACCESS_KEY, kString access_key);
              (SPAN_ATTRIBUTE_ARN, kString (resource_namespace_ s));
              (SPAN_ATTRIBUTE_GROUP, kString (group_name_ s));
              (SPAN_ATTRIBUTE_MESSAGE_ID, kString message_id);
              (SPAN_ATTRIBUTE_HOST, kString (hostname e));
              (SPAN_ATTRIBUTE_TRANSACTION_RESOLUTION,
               kString (match resolution with COMMIT => "commit" | ROLLBACK => "rollback" end))])
        ++ inr c
        :: map inl (if ec_bool ec
                    then [SetStatus base ABORTED; AddAnnotation base (ErrorCategory_message (ErrorCode_value ec)) [];
                          End base]
                    else finish OK (Some span)), ok).

(** *** The spans of a send *)
Section attempts.
Context (message : MQMessage.t) (queues : list MQMessageQueue.t) (max : Z).

Definition no_address (k : Z) : bool := str_empty (MQMessageQueue.service_address_ (attempt_queue queues k)).

(** The trace context of the message when attempt [k] begins: that of the message given, or
    of the last attempt that started a span. *)
Fixpoint header_before (k : nat) : string :=
  match k with
  | O => MQMessage.traceContext message
  | S k' =>
      if no_address (Z.of_nat k') then header_before k'
      else ToTraceParentHeader (context (base + k') (remote_parent (header_before k')))
  end.

Definition attempt_parent (k : Z) : option SpanContext := remote_parent (header_before (Z.to_nat k)).
Definition attempt_span (k : Z) : Span := mkSpan (span_number k) (context (span_number k) (attempt_parent k)).

(** The span the callback object holds when attempt [k] begins. *)
Fixpoint held (k : nat) : option Span :=
  match k with
  | O => None
  | S k' => if no_address (Z.of_nat k') then held k' else Some (attempt_span (Z.of_nat k'))
  end.

(** The surroundings in which [Producer] sees this send. *)
Definition headers : Env :=
  mkEnv (hostname e) (clock e) (fresh_id e) (fun k => ToTraceParentHeader (span_context (attempt_span k)))
    (answer e) (alive e) (deflate e) (hash e).

Definition attempt_status (k : Z) : StatusCode := match answer e k with inl _ => INTERNAL | inr _ => OK end.

(** What attempt [k] does up to the end of its span. *)
Definition attempt_trace (k : Z) : trace :=
  if no_address k then map inl (finish INTERNAL (held (Z.to_nat k)))
  else map inl (Start (span_number k) SPAN_NAME_SEND_MESSAGE (attempt_parent k) true
                  :: attributes (span_number k) (send_attributes message k))
       ++ map inr (attempt_call headers s message queues k)
       ++ map inl (finish (attempt_status k) (Some (attempt_span k))).

(** A callback object at attempt [k] of this send. *)
Definition in_step (k : Z) (x : Callback) : Prop :=
  attempt_times_ (callback x) = k /\ 0 <= k < max /\ candidates_ (callback x) = queues
  /\ max_attempt_times_ (callback x) = max
  /\ message_ (callback x) = MQMessage.set_traceContext (header_before (Z.to_nat k)) (MQMessage.copy message)
  /\ span x = held (Z.to_nat k).

Hypothesis provided : credentialsProvider s = true.
Hypothesis Hne : queues <> [].
Hypothesis Hmax : max < 2 ^ 31.

Lemma in_step_queue k x : in_step k x -> default MQMessageQueue.empty (messageQueue (callback x)) = attempt_queue queues k.
Proof. intros (Ek & _ & Ec & _). unfold messageQueue. by rewrite Ec, Ek, bool_decide_eq_false_2 by done. Qed.

Lemma set_traceContext_twice h h' m : MQMessage.set_traceContext h (MQMessage.set_traceContext h' m) = MQMessage.set_traceContext h m.
Proof. by destruct m as [[? ? [] ?] ? ?]. Qed.

Lemma set_traceContext_same m : MQMessage.set_traceContext (MQMessage.traceContext m) m = m.
Proof. by destruct m as [[? ? [] ?] ? ?]. Qed.

Lemma get_traceContext h m : MQMessage.traceContext (MQMessage.set_traceContext h m) = h.
Proof. by destruct m as [[? ? [] ?] ? ?]. Qed.

Lemma copy_traced_payload h : same_payload (MQMessage.set_traceContext h (MQMessage.copy message)) message.
Proof. by apply set_traceContext_payload. Qed.

Lemma copy_traced_attributes h k : send_attributes (MQMessage.set_traceContext h (MQMessage.copy message)) k = send_attributes message k.
Proof. by destruct message as [[? ? [] ?] ? ?]. Qed.

Lemma headers_request k m mq : wrapSendMessageRequest headers k m mq s = wrapSendMessageRequest e k m mq s.
Proof. done. Qed.

Lemma span_number_nat n : span_number (Z.of_nat n) = (base + n)%nat.
Proof. unfold span_number. by rewrite Nat2Z.id. Qed.

(** One step further: after an attempt that failed, with or without a span of its own. *)
Lemma in_step_next k x :
  in_step k x -> no_address k = true -> k + 1 < max ->
  in_step (k + 1) (mkCallback (set_attempt (k + 1) (callback x)) (span x)).
Proof.
  intros (Ek & Hk & Ec & Em & Eg & Eh) Ha Hm. unfold in_step. cbn [callback span set_attempt attempt_times_ candidates_ max_attempt_times_ message_].
  replace (Z.to_nat (k + 1)) with (S (Z.to_nat k)) by lia. cbn [header_before held].
  rewrite Z2Nat.id, Ha by lia. split_and!; try done; lia.
Qed.

Lemma in_step_opened k x :
  in_step k x -> no_address k = false -> k + 1 < max ->
  let header := ToTraceParentHeader (span_context (attempt_span k)) in
  in_step (k + 1)
    (mkCallback (set_attempt (k + 1) (RetrySendCallback.mk (MQMessage.set_traceContext header (message_ (callback x))) k
                   (max_attempt_times_ (callback x)) (candidates_ (callback x)) header)) (Some (attempt_span k))).
Proof.
  intros (Ek & Hk & Ec & Em & Eg & Eh) Ha Hm. unfold in_step. cbn [callback span set_attempt attempt_times_ candidates_ max_attempt_times_ message_].
  replace (Z.to_nat (k + 1)) with (S (Z.to_nat k)) by lia. cbn [header_before held].
  rewrite Z2Nat.id, Ha, Eg, set_traceContext_twice by lia. split_and!; try done; lia.
Qed.

(** [sendImpl] at attempt [k], in closed form and as [Producer] sees it. *)
Lemma sendImpl_step k x :
  in_step k x ->
  let header := ToTraceParentHeader (span_context (attempt_span k)) in
  let cb := RetrySendCallback.mk (MQMessage.set_traceContext header (message_ (callback x))) k
              (max_attempt_times_ (callback x)) (candidates_ (callback x)) header in
  let target := MQMessageQueue.service_address_ (attempt_queue queues k) in
  let request := wrapSendMessageRequest e k message (attempt_queue queues k) s in
  sendImpl x = Some (if no_address k then inl BadGateway
                     else inr (target, request, mkCallback cb (Some (attempt_span k)),
                               Start (span_number k) SPAN_NAME_SEND_MESSAGE (attempt_parent k) true
                                 :: attributes (span_number k) (send_attributes message k)))
  /\ ProducerImpl.sendImpl headers s (callback x)
     = Some (if no_address k then inl BadGateway else inr (target, request, cb)).
Proof.
  intros Hx header cb target request. pose proof Hx as (Ek & Hk & Ec & Em & Eg & Eh).
  unfold sendImpl, ProducerImpl.sendImpl. rewrite (in_step_queue k x Hx), Ek, provided. fold (no_address k) target.
  destruct (no_address k); [done|]. cbn [negb].
  rewrite headers_request, (wrap_ext e s k (message_ (callback x)) message) by (rewrite Eg; apply copy_traced_payload).
  unfold StartSpan. rewrite Eg, get_traceContext, copy_traced_attributes. fold (attempt_parent k).
  unfold cb, header. by rewrite Eg.
Qed.

(** The shape of the attempts [k .. n-1]. *)
Definition traced (k n : Z) (tr : trace) : Prop :=
  k < n <= max
  /\ tr = concat (map attempt_trace (seqZ k (n - k))) ++ [inr (Complete (attempt_outcome headers queues (n - 1)))]
  /\ (forall j, k <= j < n - 1 -> is_failure (attempt_outcome headers queues j))
  /\ (is_failure (attempt_outcome headers queues (n - 1)) -> n = max \/ alive e (n - 1) = false).

Lemma traced_last k :
  k < max -> (is_failure (attempt_outcome headers queues k) -> k + 1 = max \/ alive e k = false) ->
  traced k (k + 1) (attempt_trace k ++ [inr (Complete (attempt_outcome headers queues k))]).
Proof.
  intros Hk Hend. unfold traced. replace (k + 1 - 1) with k by lia. rewrite seqZ_first by lia.
  replace (k + 1 - (k + 1)) with 0 by lia. cbn [seqZ map concat Z.to_nat seq fmap list_fmap].
  split_and!; try done; [lia..| |lia]. by rewrite app_nil_r.
Qed.

Lemma traced_retry k n tr :
  is_failure (attempt_outcome headers queues k) -> traced (k + 1) n tr -> traced k n (attempt_trace k ++ tr).
Proof.
  intros Hf (Hn & -> & H1 & H2). unfold traced. rewrite (seqZ_first k) by lia. cbn [map concat].
  split_and!; [lia|lia|by rewrite app_assoc| |done].
  intros j Hj. destruct (decide (j = k)) as [->|]; [done|apply H1; lia].
Qed.

(** The end of a failed attempt, in both readings: the send is over, or the next attempt is
    in step. *)
Lemma failed_step k ec x :
  attempt_times_ x = k -> 0 <= k < max -> candidates_ x = queues -> max_attempt_times_ x = max ->
  onFailure (alive e k) ec x = inl ec /\ (k + 1 = max \/ alive e k = false)
  \/ onFailure (alive e k) ec x = inr (set_attempt (k + 1) x) /\ k + 1 < max.
Proof.
  intros Ek Hk Ec Em. unfold onFailure. cbn [set_attempt attempt_times_ max_attempt_times_ candidates_].
  rewrite Ek, Ec, Em, i32_small by lia. destruct (Z.leb_spec max (k + 1)); [left; split; [done|lia]|].
  destruct (alive e k); cbn [negb]; [|left; split; [done|by right]].
  rewrite bool_decide_eq_false_2 by done. by right.
Qed.

Lemma attempts_traced fuel k x :
  in_step k x -> (Z.to_nat (max - k) <= fuel)%nat ->
  exists n tr, attempts fuel x = Some tr /\ traced k n tr
    /\ ProducerImpl.attempts headers s fuel (callback x) = Some (erase tr).
Proof.
  revert k x. induction fuel as [|fuel IH]; intros k x Hx Hf; pose proof Hx as (Ek & Hk & Ec & Em & Eg & Eh); [lia|].
  destruct (sendImpl_step k x Hx) as [E1 E2]. cbn [attempts ProducerImpl.attempts]. rewrite E1, E2. clear E1 E2.
  cbn [mbind option_bind]. pose proof (traced_last k ltac:(lia)) as Hlast. pose proof (traced_retry k) as Hretry.
  pose proof (in_step_next k x Hx) as Hn1. pose proof (in_step_opened k x Hx) as Hn2.
  unfold attempt_outcome, attempt_trace, attempt_call in Hlast, Hretry. fold (no_address k) in Hlast, Hretry.
  destruct (no_address k).
  - rewrite Ek, Eh in *. change (alive headers) with (alive e).
    destruct (failed_step k BadGateway (callback x) Ek Hk Ec Em) as [[-> Hend]|[-> Hk1]].
    + exists (k + 1). eexists. split; [done|]. split; [by apply Hlast|]. by autorewrite with rmq.
    + destruct (IH (k + 1) _ (Hn1 eq_refl Hk1)) as (n & tr & -> & Ht & E); [lia|]. cbn [callback] in E. rewrite E.
      exists n. eexists. split; [done|]. split; [by apply Hretry|]. by autorewrite with rmq.
  - cbn [callback attempt_times_ span]. unfold attempt_status in Hlast, Hretry.
    change (answer headers) with (answer e) in *. change (alive headers) with (alive e). set (hd := ToTraceParentHeader (span_context (attempt_span k))) in *.
    set (cb := RetrySendCallback.mk _ _ _ _ _) in *.
    destruct (answer e k) as [ec|r].
    + destruct (failed_step k ec cb eq_refl Hk Ec Em) as [[-> Hend]|[-> Hk1]].
      * exists (k + 1). eexists. split; [done|].
        split; [specialize (Hlast (fun _ => Hend)); rewrite <- !app_assoc in Hlast; exact Hlast|].
        autorewrite with rmq. cbn [mbind option_bind]. done.
      * assert (Hn : in_step (k + 1) (mkCallback (set_attempt (k + 1) cb) (Some (attempt_span k)))) by exact (Hn2 eq_refl Hk1).
        destruct (IH (k + 1) _ Hn) as (n & tr & -> & Ht & E); [lia|]. cbn [callback] in E. rewrite E.
        exists n. eexists. split; [done|]. specialize (Hretry n tr I Ht). rewrite <- !app_assoc in Hretry.
        split; [exact Hretry|]. autorewrite with rmq. done.
    + assert (E : RetrySendCallback.onSuccess r cb
                  = SendResult.set_traceContext hd (SendResult.setMessageQueue (attempt_queue queues k) r)).
      { unfold RetrySendCallback.onSuccess, messageQueue, cb. cbn [span_ candidates_ attempt_times_].
        by rewrite Ec, bool_decide_eq_false_2 by done. }
      exists (k + 1). eexists. split; [done|]. unfold onSuccess. cbn [callback span]. rewrite E.
      specialize (Hlast (fun H => match H with end)). rewrite <- !app_assoc in Hlast. split; [exact Hlast|].
      by autorewrite with rmq.
Qed.

(** A send that reaches its attempts. *)
Lemma send0_traced :
  validate message = true -> 1 <= max ->
  exists n tr, send0 message queues max = Some tr /\ traced 0 n tr
    /\ ProducerImpl.send0 headers s message queues max = Some (erase tr).
Proof.
  intros Hv Hm. unfold send0, ProducerImpl.send0. rewrite Hv, bool_decide_eq_false_2 by done. cbn [negb].
  destruct (Z.leb_spec max 0); [lia|]. apply (attempts_traced _ 0); [|lia].
  unfold in_step. by split_and!; try done; try lia; symmetry; apply (set_traceContext_same (MQMessage.copy message)).
Qed.

(** *** Every candidate has an address *)
Hypothesis addressed : Forall (fun q => str_empty (MQMessageQueue.service_address_ q) = false) queues.

Lemma addressed_attempt k : 0 <= k -> no_address k = false.
Proof.
  intros Hk. unfold no_address, attempt_queue, at_.
  assert (0 <= k mod zlen queues < zlen queues) as Hr by (apply Z.mod_pos_bound; destruct queues; [done|unfold zlen; cbn; lia]).
  destruct (lookup_lt_is_Some_2 queues (Z.to_nat (k mod zlen queues))) as [q Hq]; [unfold zlen in Hr |- *; lia|].
  rewrite Forall_lookup in addressed. specialize (addressed _ _ Hq).
  repeat case_match; try lia; rewrite ?Hq; done.
Qed.

(** A whole attempt. *)
Definition addressed_trace (k : Z) : trace :=
  map inl (Start (span_number k) SPAN_NAME_SEND_MESSAGE (attempt_parent k) true
             :: attributes (span_number k) (send_attributes message k))
  ++ inr (CallSend (MQMessageQueue.service_address_ (attempt_queue queues k))
            (wrapSendMessageRequest e k message (attempt_queue queues k) s))
  :: map inl (finish (attempt_status k) (Some (attempt_span k))).

Lemma attempt_trace_addressed k : 0 <= k -> attempt_trace k = addressed_trace k.
Proof.
  intros Hk. unfold attempt_trace, attempt_call. fold (no_address k). by rewrite addressed_attempt.
Qed.

Lemma addressed_monitored k ended :
  span_number k ∉ ended -> monitors (span_log (addressed_trace k)) (∅, ended) = Some (∅, {[span_number k]} ∪ ended).
Proof.
  intros Hn. unfold addressed_trace. rewrite span_log_around. by apply monitors_whole.
Qed.

Lemma trace_monitored n : forall k ended,
  0 <= k -> (forall j, k <= j -> span_number j ∉ ended) ->
  monitors (span_log (concat (map addressed_trace (seqZ k (Z.of_nat n))))) (∅, ended)
  = Some (∅, list_to_set (map span_number (seqZ k (Z.of_nat n))) ∪ ended).
Proof.
  induction n as [|n IH]; intros k ended Hk He.
  - cbn. do 2 f_equal. set_solver.
  - rewrite Nat2Z.inj_succ, seqZ_cons by lia. rewrite Z.pred_succ. cbn [map concat].
    rewrite span_log_app, monitors_app, addressed_monitored by (apply He; lia). cbn [mbind option_bind].
    rewrite IH; [|lia|].
    + do 2 f_equal. cbn [list_to_set]. set_solver.
    + intros j Hj. rewrite not_elem_of_union, not_elem_of_singleton. split; [unfold span_number; lia|apply He; lia].
Qed.

(** *** The chain of the spans *)
Context {L : TracerLaws T}.

Lemma attempt_chained k : 0 <= k -> attempt_parent (k + 1) = Some (span_context (attempt_span k)).
Proof.
  intros Hk. unfold attempt_parent at 1. replace (Z.to_nat (k + 1)) with (S (Z.to_nat k)) by lia.
  cbn [header_before]. rewrite Z2Nat.id, addressed_attempt by lia. unfold remote_parent at 1.
  by rewrite header_roundtrip, started_valid by apply started_valid.
Qed.

Lemma attempt_same_trace k : 0 <= k -> trace_id (span_context (attempt_span k)) = trace_id (span_context (attempt_span 0)).
Proof.
  revert k. apply natlike_ind; [done|]. intros k Hk IH. rewrite <- IH. unfold attempt_span at 1. cbn [span_context].
  rewrite <- Z.add_1_r, attempt_chained by done. apply child_trace.
Qed.

End attempts.

(** C23: the spans of a send.  When every candidate has an address, each attempt is one span of
    its own that is started before the remote call and ended after its completion, [OK] exactly
    for the attempt that succeeds; no span is used outside its start and end, none stays open,
    none is ended twice; the span of a retry is a child of the span of the attempt before it,
    so that all belong to one trace; and without the spans the send is the one of [Producer]. *)
Theorem send_spans {L : TracerLaws T} message queues max :
  credentialsProvider s = true -> validate message = true -> queues <> [] -> 1 <= max < 2 ^ 31 ->
  Forall (fun q => str_empty (MQMessageQueue.service_address_ q) = false) queues ->
  exists n tr, 1 <= n <= max /\ send0 message queues max = Some tr
    /\ tr = concat (map (addressed_trace message queues) (seqZ 0 n))
            ++ [inr (Complete (attempt_outcome (headers message queues) queues (n - 1)))]
    /\ ProducerImpl.send0 (headers message queues) s message queues max = Some (erase tr)
    /\ monitors (span_log tr) (∅, ∅) = Some (∅, list_to_set (map span_number (seqZ 0 n)))
    /\ (forall k, 1 <= k < n -> attempt_parent message queues k = Some (span_context (attempt_span message queues (k - 1))))
    /\ (forall k, 0 <= k < n -> trace_id (span_context (attempt_span message queues k))
                              = trace_id (span_context (attempt_span message queues 0))).
Proof.
  intros Hp Hv Hq Hm Ha.
  destruct (send0_traced message queues max) as (n & tr & H1 & (Hn & Et & _) & H2); [done|done|lia|done|lia|].
  rewrite Z.sub_0_r in Et.
  assert (Et' : tr = concat (map (addressed_trace message queues) (seqZ 0 n))
                ++ [inr (Complete (attempt_outcome (headers message queues) queues (n - 1)))]).
  { rewrite Et. do 2 f_equal. apply map_ext_in. intros k [Hk _]%list_elem_of_In%elem_of_seqZ.
    by apply attempt_trace_addressed. }
  exists n, tr. split_and!; [lia|lia|done|done|done| | |].
  - rewrite Et', span_log_app. cbn [span_log omap list_omap]. rewrite app_nil_r.
    replace n with (Z.of_nat (Z.to_nat n)) by lia.
    rewrite (trace_monitored message queues max); try done; [do 2 f_equal; set_solver|lia].
  - intros k Hk. replace k with (k - 1 + 1) at 1 by lia. apply attempt_chained; [done..|lia].
  - intros k Hk. apply attempt_same_trace; [done..|lia].
Qed.

(** The end of a transaction is one span around the call, ended once the answer is there, with
    the status of the flag that is returned. *)
Lemma end_transaction_span target message_id transaction_id resolution trace_context ec :
  credentialsProvider s = true ->
  exists tr ok, endTransaction0 target message_id transaction_id resolution trace_context ec = Some (tr, ok)
    /\ (c ← ProducerImpl.endTransaction0 target message_id transaction_id resolution ec s; Some ([c.1], c.2))
       = Some (erase tr, ok)
    /\ monitors (span_log tr) (∅, ∅) = Some (∅, {[base]})
    /\ SetStatus base (if ok then OK else ABORTED) ∈ span_log tr.
Proof.
  intros Hp. unfold endTransaction0, ProducerImpl.endTransaction0, StartSpan. rewrite Hp. cbn [negb mbind option_bind].
  set (attrs := attributes base _). set (status := match ec_bool ec with true => _ | false => _ end).
  set (tr := map inl (Start base SPAN_NAME_END_TRANSACTION (remote_parent trace_context) true :: attrs)
             ++ inr (mkEndCall target (rmq.mkEndTransactionRequest rmq.Resource_default message_id transaction_id
                                         (wire_resolution resolution) rmq.CLIENT "")
                       (ClientConfigImpl.io_timeout_ (ClientImpl.config (client s)))) :: map inl status).
  exists tr, (negb (ec_bool ec)). split; [done|]. split.
  { unfold tr. rewrite erase_app, erase_inl. cbn [app]. apply (f_equal (fun l => Some (_ :: l, negb (ec_bool ec)))). symmetry. exact (erase_inl status). }
  unfold tr. rewrite span_log_around. split; [|apply elem_of_app; right; unfold status; destruct (ec_bool ec); left].
  cbn [app]. rewrite monitors_start, monitors_app by set_solver. unfold attrs. rewrite monitors_attributes by set_solver.
  unfold status. cbn [mbind option_bind].
  destruct (ec_bool ec); [|rewrite monitors_finish by set_solver; do 2 f_equal; set_solver].
  rewrite monitors_status, monitors_annotation, monitors_end by set_solver. cbn [monitors]. do 2 f_equal; set_solver.
Qed.

(** The trace context is not part of the request, whatever the message and its spans. *)
Lemma trace_context_not_sent k message mq :
  rmq.trace_context (rmq.system_attribute (rmq.send_message (wrapSendMessageRequest e k message mq s))) = ""%string.
Proof. done. Qed.

End producer.
End ProducerSpans.

(** ** The standard consume service *)
Module ConsumerSpans.
Import ConsumeStandardMessageService.
Section consumer.
Context {T : Tracer}.
Context (c : ConsumerView) (service : ConsumeMessageService.t) (access_key hostname : string) (base : nat).

(** The attributes both spans of a message carry. *)
Definition message_attributes (m : MQMessage.t) : list (string * AttributeValue) :=
  [(SPAN_ATTRIBUTE_ACCESS_KEY, kString access_key);
   (SPAN_ATTRIBUTE_ARN, kString (view_namespace c));
   (SPAN_ATTRIBUTE_TOPIC, kString (MQMessage.getTopic m));
   (SPAN_ATTRIBUTE_MESSAGE_ID, kString (MQMessage.getMsgId m));
   (SPAN_ATTRIBUTE_GROUP, kString (view_group_name c));
   (SPAN_ATTRIBUTE_TAG, kString (MQMessage.getTags m));
   (SPAN_ATTRIBUTE_KEYS, joined_keys m);
   (SPAN_ATTRIBUTE_ATTEMPT_TIME, kInt (MQMessage.getDeliveryAttempt m));
   (SPAN_ATTRIBUTE_AVAILABLE_TIMESTAMP, kString (FormatTime (MQMessage.getStoreTimestamp m * 1000000)));
   (SPAN_ATTRIBUTE_HOST, kString hostname)].

(** [absl::ToInt64Milliseconds]: towards zero, and no further than the type goes. *)
Definition ToInt64Milliseconds (ns : Z) : Z := Z.max (- 2 ^ 63) (Z.min (2 ^ 63 - 1) (Z.quot ns 1000000)).

(** The wait of one message, from its decoding to now. *)
Definition await_span (id : nat) (m : MQMessage.t) : list span_event :=
  let '(span, started) := StartSpan id SPAN_NAME_AWAIT_CONSUMPTION (MQMessage.traceContext m) true in
  started :: attributes id (message_attributes m)
  ++ [AddAnnotation id OtlpExporter.SPAN_ANNOTATION_AWAIT_CONSUMPTION
        [(OtlpExporter.SPAN_ANNOTATION_ATTR_START_TIME, kInt (ToInt64Milliseconds (MessageAccessor.decodedTimestamp m)))];
      End id].

(** The start of the consumption of one message of a batch. *)
Definition consume_span (batch_size : Z) (id : nat) (m : MQMessage.t) : Span * list span_event :=
  let '(span, started) := StartSpan id SPAN_NAME_CONSUME_MESSAGE (MQMessage.traceContext m) false in
  (span, started :: attributes id (message_attributes m ++ [(SPAN_ATTRIBUTE_BATCH_SIZE, kInt batch_size)])).

Fixpoint await_spans (id : nat) (msgs : list MQMessage.t) : list span_event :=
  match msgs with
  | [] => []
  | m :: msgs' => await_span id m ++ await_spans (S id) msgs'
  end.

Fixpoint consume_spans (batch_size : Z) (id : nat) (msgs : list MQMessage.t) : list Span * list span_event :=
  match msgs with
  | [] => ([], [])
  | m :: msgs' =>
      let '(span, opened) := consume_span batch_size id m in
      let '(spans, rest) := consume_spans batch_size (S id) msgs' in
      (span :: spans, opened ++ rest)
  end.

Definition consume_status (status : ConsumeMessageResult) : StatusCode :=
  match status with SUCCESS => OK | FAILURE => UNKNOWN end.

(** [consumeTask] with its spans, while consumer and process queue are alive. *)
Definition consumeTask (status : ConsumeMessageResult) (msgs : list MQMessage.t) (q : ProcessQueueImpl.t)
    : option (list (span_event + consume_effect) * ProcessQueueImpl.t) :=
  match msgs with
  | [] => Some ([], q)
  | m :: _ =>
      let permits := match ConsumeMessageService.rateLimiter (MQMessage.getTopic m) service with
                     | Some _ => replicate (length msgs) AcquirePermit
                     | None => []
                     end in
      if negb (view_credentials_provider c) then None
      else
        let awaited := await_spans base msgs in
        let '(spans, opened) := consume_spans (zlen msgs) (base + length msgs) msgs in
        let closed := concat (map (fun span => finish (consume_status status) (Some span)) spans) in
        let '(effects, q) :=
          match messageModel c with
          | CLUSTERING => settle c status msgs q
          | BROADCASTING =>
              (match ProcessQueueImpl.committedOffset q with
               | Some o => [UpdateOffset (ProcessQueueImpl.message_queue_ q) o]
               | None => []
               end, q)
          end in
        Some (map inr permits ++ map inl awaited ++ map inl opened ++ inr (Consumed msgs status)
                :: map inl closed ++ map inr effects, q)
  end.

(** *** Properties *)

Definition ids (from : nat) (msgs : list MQMessage.t) : gset nat := list_to_set (seq from (length msgs)).

Lemma ids_cons from m msgs : ids from (m :: msgs) = {[from]} ∪ ids (S from) msgs.
Proof. done. Qed.

Lemma elem_of_ids j from msgs : j ∈ ids from msgs <-> (from <= j < from + length msgs)%nat.
Proof. unfold ids. by rewrite elem_of_list_to_set, elem_of_seq. Qed.

Lemma await_span_monitored id m running ended :
  id ∉ running -> id ∉ ended -> monitors (await_span id m) (running, ended) = Some (running, {[id]} ∪ ended).
Proof.
  intros H1 H2. unfold await_span, StartSpan. rewrite monitors_start, monitors_app, monitors_attributes by set_solver.
  cbn [mbind option_bind]. rewrite monitors_annotation, monitors_end by set_solver. cbn [monitors].
  do 2 f_equal. set_solver.
Qed.

Lemma await_spans_monitored msgs : forall id running ended,
  (forall j, (id <= j)%nat -> j ∉ running /\ j ∉ ended) ->
  monitors (await_spans id msgs) (running, ended) = Some (running, ids id msgs ∪ ended).
Proof.
  induction msgs as [|m msgs IH]; intros id running ended H; [cbn; do 2 f_equal; set_solver|].
  cbn [await_spans]. rewrite monitors_app, await_span_monitored by (apply H; lia). cbn [mbind option_bind].
  rewrite IH, ids_cons; [do 2 f_equal; set_solver|]. intros j Hj. destruct (H j) as [Hr He]; [lia|].
  split; [done|]. rewrite not_elem_of_union, not_elem_of_singleton. split; [lia|done].
Qed.

Lemma consume_spans_monitored b msgs : forall id running ended spans opened,
  consume_spans b id msgs = (spans, opened) -> (forall j, (id <= j)%nat -> j ∉ running /\ j ∉ ended) ->
  map number spans = seq id (length msgs) /\ monitors opened (running, ended) = Some (ids id msgs ∪ running, ended).
Proof.
  induction msgs as [|m msgs IH]; intros id running ended spans opened E H.
  { injection E as <- <-. split; [done|]. cbn. do 2 f_equal. set_solver. }
  cbn [consume_spans] in E. unfold consume_span, StartSpan in E.
  set (attrs := message_attributes m ++ _) in E. clearbody attrs.
  destruct (consume_spans b (S id) msgs) as [spans' rest] eqn:Er. injection E as <- <-.
  destruct (IH (S id) ({[id]} ∪ running) ended spans' rest Er) as [Hn Hm].
  { intros j Hj. destruct (H j) as [Hr He]; [lia|]. rewrite not_elem_of_union, not_elem_of_singleton. split_and!; [lia|done..]. }
  destruct (H id) as [Hr He]; [lia|]. cbn [map number length seq]. rewrite Hn. split; [done|].
  cbn [app]. rewrite monitors_start, monitors_app, monitors_attributes by set_solver. cbn [mbind option_bind].
  rewrite Hm, ids_cons. do 2 f_equal. set_solver.
Qed.

Lemma closed_monitored status spans : forall ended,
  NoDup (map number spans) ->
  monitors (concat (map (fun span => finish status (Some span)) spans)) (list_to_set (map number spans), ended)
  = Some (∅, list_to_set (map number spans) ∪ ended).
Proof.
  induction spans as [|[id x] spans IH]; intros ended Hd; [cbn; do 2 f_equal; set_solver|].
  cbn [map number] in Hd. apply NoDup_cons in Hd as [Hn Hd]. cbn [map number concat list_to_set].
  rewrite monitors_app, monitors_finish by set_solver. cbn [mbind option_bind].
  replace (({[id]} ∪ list_to_set (map number spans)) ∖ {[id]}) with (list_to_set (map number spans) : gset nat).
  - rewrite IH by done. do 2 f_equal. set_solver.
  - apply set_eq. intros j. rewrite elem_of_difference, elem_of_union, elem_of_singleton, !elem_of_list_to_set. set_solver.
Qed.

Lemma closed_status status spans id st :
  SetStatus id st ∈ concat (map (fun span => finish status (Some span)) spans)
  <-> st = status /\ id ∈ map number spans.
Proof.
  induction spans as [|[n x] spans IH]; cbn [map concat number]; [set_solver|].
  rewrite elem_of_app, IH, elem_of_cons. unfold finish. cbn [number]. rewrite !elem_of_cons, elem_of_nil. naive_solver.
Qed.


(** *** The wait of a message, exported *)

(** The annotations a log puts on a span. *)
Definition annotations_of (id : nat) (l : list span_event) : list (string * list (string * AttributeValue)) :=
  omap (fun x => match x with AddAnnotation n d attrs => if decide (n = id) then Some (d, attrs) else None | _ => None end) l.

Lemma annotations_of_attributes id l k : annotations_of id (attributes id l ++ k) = annotations_of id k.
Proof. induction l as [|kv l IH]; [done|exact IH]. Qed.

(** The span of a wait, as the tracing library hands it to the exporter with the annotations
    that were put on it, is exported as a span that starts when the message was decoded (to the
    millisecond, and within the 128 nanoseconds of the exporter's arithmetic), not when the
    span itself was started. *)
Theorem await_exported ToHex id m (span : OtlpExporter.SpanData) :
  map (fun a => (OtlpExporter.an_description a, OtlpExporter.an_attributes a)) (OtlpExporter.sd_annotations span)
    = annotations_of id (await_span id m) ->
  0 <= MessageAccessor.decodedTimestamp m < 2 ^ 60 ->
  exists item, OtlpExporter.export_span ToHex span = Some item
    /\ OtlpExporter.sp_events item = []
    /\ - 128 <= MessageAccessor.decodedTimestamp m - OtlpExporter.sp_start item < 1000000 + 128.
Proof.
  intros Ha Hd. unfold await_span, StartSpan in Ha.
  change (annotations_of id (?x :: ?l)) with (annotations_of id l) in Ha. rewrite annotations_of_attributes in Ha.
  unfold annotations_of in Ha. cbn [omap list_omap] in Ha. rewrite decide_True in Ha by done.
  set (t := MessageAccessor.decodedTimestamp m) in *.
  assert (Ht : ToInt64Milliseconds t = t / 1000000) by (unfold ToInt64Milliseconds; rewrite Z.quot_div_nonneg by lia; pose proof (Z.div_pos t 1000000); pose proof (Z.div_lt_upper_bound t 1000000 (2 ^ 60)); lia).
  rewrite Ht in Ha. destruct (OtlpExporter.sd_annotations span) as [|a [|b l]] eqn:Es; [done| |done].
  injection Ha as Hdesc Hattr.
  assert (Hv : OtlpExporter.start_values (OtlpExporter.sd_annotations span) = [kInt (t / 1000000)]).
  { rewrite Es. unfold OtlpExporter.start_values. cbn [List.filter]. unfold OtlpExporter.is_await.
    rewrite Hdesc, bool_decide_eq_true_2 by done. cbn [map concat]. by rewrite Hattr. }
  assert (Hf : List.filter (fun a => negb (OtlpExporter.is_await a)) (OtlpExporter.sd_annotations span) = []).
  { rewrite Es. cbn [List.filter]. unfold OtlpExporter.is_await. by rewrite Hdesc, bool_decide_eq_true_2. }
  destruct (OtlpExporter.exported_span ToHex span) as (item & H1 & H2 & _ & _ & H3).
  { rewrite Hv. constructor; [|constructor]. unfold OtlpExporter.good_start, OtlpExporter.plausible.
    split; [apply Z.div_pos; lia|apply Z.div_lt_upper_bound; lia]. }
  exists item. rewrite Hf in H2. split; [done|]. split; [done|]. rewrite Hv in H3. unfold OtlpExporter.start_ok in H3.
  cbn [last] in H3. pose proof (Z.div_mod t 1000000). pose proof (Z.mod_pos_bound t 1000000). lia.
Qed.

End consumer.
End ConsumerSpans.

(** ** A tracer that meets the laws *)

(** The header is the context itself; its first character names the trace. *)
Definition first_char (s : string) : Ascii.ascii := match s with String a _ => a | EmptyString => "r"%char end.

Definition plain_tracer : Tracer :=
  {| SpanContext := string;
     IsValid := fun c => negb (str_empty c);
     FromTraceParentHeader := fun h => h;
     ToTraceParentHeader := fun c => c;
     context := fun n parent => String (match parent with Some p => first_char p | None => "r"%char end) (to_string (Z.of_nat n));
     trace_id := fun c => [Z.of_N (Ascii.N_of_ascii (first_char c))];
     FormatTime := to_string |}.

#[export] Instance plain_tracer_laws : TracerLaws plain_tracer.
Proof. by split. Qed.

Definition failing_env : Env :=
  mkEnv (hostname example_env) (clock example_env) (fresh_id example_env) (trace_header example_env)
    (fun _ => inl ServiceUnavailable) (alive example_env) (deflate example_env) (hash example_env).

Lemma send_spans_witness :
  let queues := TopicPublishInfo.getMessageQueueList example_publish in
  exists n tr, 1 <= n <= 3
    /\ ProducerSpans.send0 (T := plain_tracer) failing_env example_producer "ak" 5 example_outgoing queues 3 = Some tr
    /\ monitors (span_log tr) (∅, ∅) = Some (∅, list_to_set (map (ProducerSpans.span_number 5) (seqZ 0 n))).
Proof.
  intros queues.
  destruct (ProducerSpans.send_spans (T := plain_tracer) failing_env example_producer "ak" 5
              example_outgoing queues 3) as (n & tr & H1 & H2 & _ & _ & H3 & _).
  - reflexivity.
  - vm_compute. reflexivity.
  - vm_compute. discriminate.
  - lia.
  - apply (bool_decide_unpack _). vm_compute. exact I.
  - exists n, tr. exact (conj H1 (conj H2 H3)).
Defined.


(** An attempt that finds no address after one that had: the callback still holds the span of
    the earlier attempt and ends it a second time. *)
Lemma span_ended_twice :
  (tr ← ProducerSpans.send0 (T := plain_tracer) failing_env example_producer "ak" 0 example_outgoing
          (take 1 (TopicPublishInfo.getMessageQueueList example_publish) ++ [MQMessageQueue.empty]) 2;
   Some (omap (fun x => match x with End n => Some n | _ => None end) (span_log tr), monitors (span_log tr) (∅, ∅)))
  = Some ([0%nat; 0%nat], None).
Proof. vm_compute. reflexivity. Qed.

(** The identifier on the span is the one the message was made with, not the one the request
    carries. *)
Lemma span_names_other_message :
  (tr ← ProducerSpans.send0 (T := plain_tracer) failing_env example_producer "ak" 0 example_outgoing
          (take 1 (TopicPublishInfo.getMessageQueueList example_publish)) 1;
   Some (omap (fun x => match x with
                        | AddAttribute _ k v => if String.eqb k SPAN_ATTRIBUTE_MESSAGE_ID then Some v else None
                        | _ => None
                        end) (span_log tr),
         omap (fun x => match x with
                        | ProducerImpl.CallSend _ r => Some (rmq.message_id (rmq.system_attribute (rmq.send_message r)))
                        | _ => None
                        end) (erase tr)))
  = Some ([kString "id"], ["0"%string]).
Proof. vm_compute. reflexivity. Qed.
