(* ===== verification/OpenSSL.v ===== *)
(** * The shims for old versions of OpenSSL (client/include/OpenSSLCompatible.h), and the
    certificate check of the client (client/include/TlsHelper.h).

    The shims move ownership around: a [set0] function takes over the numbers it is given
    and frees the ones it replaces, a [get0] function lends what the object keeps, and the
    constructors and destructors of contexts and methods allocate and free.  The heap is
    explicit: a map from addresses to blocks.  A computation is a state and error monad over
    it; [None] is a block that is freed twice or used after it was freed.  A null pointer is
    [None] of type [ptr].  What the allocator returns is an argument: a fresh address, or
    null when memory runs out. *)

From S2P Require Import Prelude.

Module OpenSSL.

(** ** The heap *)
Abbreviation ptr := (option nat).

(** [EVP_MD_CTX] and [HMAC_CTX] blocks are opaque but for the contexts an HMAC context
    points to. *)
Record RSA_METHOD := mkMethod {
  meth_name : ptr;
  rsa_priv_enc : ptr;
  rsa_priv_dec : ptr;
  meth_finish : ptr;
}.

Inductive block :=
  | Number (bits : Z)
  | Text (s : string)
  | Method (m : RSA_METHOD)
  | Zeroed
  | MdCtx
  | HmacCtx (i_ctx o_ctx md_ctx : ptr).

Abbreviation heap := (gmap nat block).
Definition M (A : Type) : Type := heap -> option (A * heap).

#[export] Instance M_ret : MRet M := fun A a h => Some (a, h).
#[export] Instance M_bind : MBind M := fun A B f m h => match m h with Some (a, h') => f a h' | None => None end.

Definition crash {A} : M A := fun _ => None.
Definition load (p : ptr) : M block :=
  fun h => match p with Some a => match h !! a with Some b => Some (b, h) | None => None end | None => None end.
Definition store (p : ptr) (b : block) : M unit :=
  fun h => match p with Some a => if bool_decide (is_Some (h !! a)) then Some ((), <[a := b]> h) else None | None => None end.

(** Freeing a null pointer does nothing. *)
Definition OPENSSL_free (p : ptr) : M unit :=
  fun h => match p with
           | None => Some ((), h)
           | Some a => if bool_decide (is_Some (h !! a)) then Some ((), delete a h) else None
           end.
Definition BN_free (p : ptr) : M unit := OPENSSL_free p.
Definition BN_clear_free (p : ptr) : M unit := OPENSSL_free p.

Definition OPENSSL_malloc (a : ptr) (b : block) : M ptr :=
  fun h => match a with
           | None => Some (None, h)
           | Some p => if bool_decide (is_Some (h !! p)) then None else Some (Some p, <[p := b]> h)
           end.
Definition OPENSSL_zalloc (a : ptr) : M ptr := OPENSSL_malloc a Zeroed.

Definition OPENSSL_strdup (a : ptr) (s : ptr) : M ptr :=
  match s with
  | None => mret None
  | Some _ => b ← load s; match b with Text t => OPENSSL_malloc a (Text t) | _ => crash end
  end.

Definition BN_num_bits (p : ptr) : M Z := b ← load p; match b with Number n => mret n | _ => crash end.

(** ** The objects *)
Record RSA := mkRSA { n : ptr; e : ptr; d : ptr; p : ptr; q : ptr; dmp1 : ptr; dmq1 : ptr; iqmp : ptr }.
Record DSA := mkDSA { dsa_p : ptr; dsa_q : ptr; dsa_g : ptr; dsa_pub_key : ptr; dsa_priv_key : ptr }.
(** [DSA_SIG] and [ECDSA_SIG] have the same fields. *)
Record SIG := mkSIG { sig_r : ptr; sig_s : ptr }.
Record DH := mkDH { dh_p : ptr; dh_q : ptr; dh_g : ptr; length_ : Z; dh_pub_key : ptr; dh_priv_key : ptr }.

Definition is_null (x : ptr) : bool := bool_decide (x = None).

(** [if (x != NULL) { BN_free(field); field = x; }] *)
Definition set0 (field x : ptr) : M ptr :=
  if is_null x then mret field else BN_free field ≫= fun _ => mret x.

(** [if (out != NULL) *out = field]: a slot is where the result goes, if anywhere. *)
Abbreviation slot := (option ptr).
Definition get0 (field : ptr) (out : slot) : slot := match out with Some _ => Some field | None => None end.

(** ** RSA *)
Definition RSA_set0_key (r : RSA) (n' e' d' : ptr) : M (bool * RSA) :=
  if (is_null (n r) && is_null n') || (is_null (e r) && is_null e') then mret (false, r)
  else
    x ← set0 (n r) n';
    y ← set0 (e r) e';
    z ← set0 (d r) d';
    mret (true, mkRSA x y z (p r) (q r) (dmp1 r) (dmq1 r) (iqmp r)).

Definition RSA_set0_factors (r : RSA) (p' q' : ptr) : M (bool * RSA) :=
  if (is_null (p r) && is_null p') || (is_null (q r) && is_null q') then mret (false, r)
  else
    x ← set0 (p r) p';
    y ← set0 (q r) q';
    mret (true, mkRSA (n r) (e r) (d r) x y (dmp1 r) (dmq1 r) (iqmp r)).

Definition RSA_set0_crt_params (r : RSA) (dmp1' dmq1' iqmp' : ptr) : M (bool * RSA) :=
  if (is_null (dmp1 r) && is_null dmp1') || (is_null (dmq1 r) && is_null dmq1') || (is_null (iqmp r) && is_null iqmp')
  then mret (false, r)
  else
    x ← set0 (dmp1 r) dmp1';
    y ← set0 (dmq1 r) dmq1';
    z ← set0 (iqmp r) iqmp';
    mret (true, mkRSA (n r) (e r) (d r) (p r) (q r) x y z).

Definition RSA_get0_key (r : RSA) (a b c : slot) : slot * slot * slot := (get0 (n r) a, get0 (e r) b, get0 (d r) c).
Definition RSA_get0_factors (r : RSA) (a b : slot) : slot * slot := (get0 (p r) a, get0 (q r) b).
Definition RSA_get0_crt_params (r : RSA) (a b c : slot) : slot * slot * slot :=
  (get0 (dmp1 r) a, get0 (dmq1 r) b, get0 (iqmp r) c).

Definition RSA_bits (r : RSA) : M Z := BN_num_bits (n r).

(** [pkey.rsa] is a union: what it holds is told by [type]. *)
Definition EVP_PKEY_RSA : Z := 6.
Record EVP_PKEY := mkPKEY { type : Z; pkey : ptr }.
Definition EVP_PKEY_get0_RSA (k : EVP_PKEY) : ptr := if negb (type k =? EVP_PKEY_RSA) then None else pkey k.

(** ** DSA and the signatures *)
Definition DSA_get0_pqg (d : DSA) (a b c : slot) : slot * slot * slot := (get0 (dsa_p d) a, get0 (dsa_q d) b, get0 (dsa_g d) c).
Definition DSA_set0_pqg (d : DSA) (p' q' g' : ptr) : M (bool * DSA) :=
  if (is_null (dsa_p d) && is_null p') || (is_null (dsa_q d) && is_null q') || (is_null (dsa_g d) && is_null g')
  then mret (false, d)
  else
    x ← set0 (dsa_p d) p';
    y ← set0 (dsa_q d) q';
    z ← set0 (dsa_g d) g';
    mret (true, mkDSA x y z (dsa_pub_key d) (dsa_priv_key d)).

Definition DSA_get0_key (d : DSA) (a b : slot) : slot * slot := (get0 (dsa_pub_key d) a, get0 (dsa_priv_key d) b).
Definition DSA_set0_key (d : DSA) (pub_key priv_key : ptr) : M (bool * DSA) :=
  if is_null (dsa_pub_key d) && is_null pub_key then mret (false, d)
  else
    x ← set0 (dsa_pub_key d) pub_key;
    y ← set0 (dsa_priv_key d) priv_key;
    mret (true, mkDSA (dsa_p d) (dsa_q d) (dsa_g d) x y).

Definition DSA_SIG_get0 (sig : SIG) (a b : slot) : slot * slot := (get0 (sig_r sig) a, get0 (sig_s sig) b).
Definition DSA_SIG_set0 (sig : SIG) (r s : ptr) : M (bool * SIG) :=
  if is_null r || is_null s then mret (false, sig)
  else
    _ ← BN_clear_free (sig_r sig);
    _ ← BN_clear_free (sig_s sig);
    mret (true, mkSIG r s).

Definition ECDSA_SIG_get0 (sig : SIG) (a b : slot) : slot * slot := (get0 (sig_r sig) a, get0 (sig_s sig) b).
Definition ECDSA_SIG_set0 (sig : SIG) (r s : ptr) : M (bool * SIG) :=
  if is_null r || is_null s then mret (false, sig)
  else
    _ ← BN_clear_free (sig_r sig);
    _ ← BN_clear_free (sig_s sig);
    mret (true, mkSIG r s).

(** ** DH *)
Definition DH_get0_pqg (dh : DH) (a b c : slot) : slot * slot * slot := (get0 (dh_p dh) a, get0 (dh_q dh) b, get0 (dh_g dh) c).
Definition DH_set0_pqg (dh : DH) (p' q' g' : ptr) : M (bool * DH) :=
  if (is_null (dh_p dh) && is_null p') || (is_null (dh_g dh) && is_null g') then mret (false, dh)
  else
    x ← set0 (dh_p dh) p';
    y ← set0 (dh_q dh) q';
    z ← set0 (dh_g dh) g';
    bits ← (if is_null q' then mret (length_ dh) else BN_num_bits q');
    mret (true, mkDH x y z bits (dh_pub_key dh) (dh_priv_key dh)).

Definition DH_get0_key (dh : DH) (a b : slot) : slot * slot := (get0 (dh_pub_key dh) a, get0 (dh_priv_key dh) b).
Definition DH_set0_key (dh : DH) (pub_key priv_key : ptr) : M (bool * DH) :=
  if is_null (dh_pub_key dh) && is_null pub_key then mret (false, dh)
  else
    x ← set0 (dh_pub_key dh) pub_key;
    y ← set0 (dh_priv_key dh) priv_key;
    mret (true, mkDH (dh_p dh) (dh_q dh) (dh_g dh) (length_ dh) x y).

Definition DH_set_length (dh : DH) (length : Z) : bool * DH :=
  (true, mkDH (dh_p dh) (dh_q dh) (dh_g dh) length (dh_pub_key dh) (dh_priv_key dh)).

(** ** Methods *)
Definition load_method (m : ptr) : M RSA_METHOD := b ← load m; match b with Method x => mret x | _ => crash end.

Definition RSA_meth_dup (a1 a2 : ptr) (meth : ptr) : M ptr :=
  m ← load_method meth;
  ret ← OPENSSL_malloc a1 (Method m);
  if is_null ret then mret None
  else
    name ← OPENSSL_strdup a2 (meth_name m);
    _ ← store ret (Method (mkMethod name (rsa_priv_enc m) (rsa_priv_dec m) (meth_finish m)));
    if is_null name then OPENSSL_free ret ≫= fun _ => mret None else mret ret.

Definition RSA_meth_set1_name (a : ptr) (meth name : ptr) : M bool :=
  tmpname ← OPENSSL_strdup a name;
  if is_null tmpname then mret false
  else
    m ← load_method meth;
    _ ← OPENSSL_free (meth_name m);
    _ ← store meth (Method (mkMethod tmpname (rsa_priv_enc m) (rsa_priv_dec m) (meth_finish m)));
    mret true.

Definition RSA_meth_set_priv_enc (meth f : ptr) : M bool :=
  m ← load_method meth; _ ← store meth (Method (mkMethod (meth_name m) f (rsa_priv_dec m) (meth_finish m))); mret true.
Definition RSA_meth_set_priv_dec (meth f : ptr) : M bool :=
  m ← load_method meth; _ ← store meth (Method (mkMethod (meth_name m) (rsa_priv_enc m) f (meth_finish m))); mret true.
Definition RSA_meth_set_finish (meth f : ptr) : M bool :=
  m ← load_method meth; _ ← store meth (Method (mkMethod (meth_name m) (rsa_priv_enc m) (rsa_priv_dec m) f)); mret true.

Definition RSA_meth_free (meth : ptr) : M unit :=
  if is_null meth then mret ()
  else m ← load_method meth; _ ← OPENSSL_free (meth_name m); OPENSSL_free meth.

(** ** Contexts.  [cleanup] and [reset] are functions of OpenSSL. *)
Section contexts.
Context (EVP_MD_CTX_cleanup hmac_ctx_cleanup : ptr -> M unit) (HMAC_CTX_reset : ptr -> M bool).

Definition EVP_MD_CTX_new (a : ptr) : M ptr := OPENSSL_zalloc a.
Definition EVP_MD_CTX_free (ctx : ptr) : M unit := _ ← EVP_MD_CTX_cleanup ctx; OPENSSL_free ctx.

Definition HMAC_CTX_free (ctx : ptr) : M unit :=
  if is_null ctx then mret ()
  else
    _ ← hmac_ctx_cleanup ctx;
    b ← load ctx;
    match b with
    | HmacCtx i o md => _ ← EVP_MD_CTX_free i; _ ← EVP_MD_CTX_free o; _ ← EVP_MD_CTX_free md; OPENSSL_free ctx
    | _ => crash
    end.

(** The fields of a fresh block are whatever [HMAC_CTX_reset] makes of them. *)
Definition HMAC_CTX_new (a : ptr) (garbage : block) : M ptr :=
  ctx ← OPENSSL_malloc a garbage;
  if is_null ctx then mret None
  else
    ok ← HMAC_CTX_reset ctx;
    if negb ok then _ ← HMAC_CTX_free ctx; mret None else mret ctx.
End contexts.

(** ** The certificate check of the client *)
Module TlsServerAuthorizationChecker.
Definition GRPC_STATUS_OK : Z := 0.
Record TlsServerAuthorizationCheckArg := mkArg { success : Z; status : Z }.

(** The result 0 means that the check was done synchronously. *)
Definition Schedule (arg : option TlsServerAuthorizationCheckArg) : Z * option TlsServerAuthorizationCheckArg :=
  match arg with
  | None => (0, None)
  | Some _ => (0, Some (mkArg 1 GRPC_STATUS_OK))
  end.
End TlsServerAuthorizationChecker.

(** ** Ownership *)

(** The addresses in a list of pointers. *)
Definition addresses (l : list ptr) : list nat := omap id l.

(** The numbers at these addresses are alive, and no address comes twice. *)
Definition owned (h : heap) (l : list nat) : Prop :=
  NoDup l /\ forall a, a ∈ l -> exists bits, h !! a = Some (Number bits).

#[export] Instance owned_proper h : Proper (Permutation ==> iff) (owned h).
Proof. intros l k E. unfold owned. rewrite E. split; intros [H1 H2]; (split; [done|]); intros a; [rewrite <- E|rewrite E]; apply H2. Qed.

Lemma addresses_app l k : addresses (l ++ k) = addresses l ++ addresses k.
Proof. apply omap_app. Qed.

(** What a field is after [set0], and what is freed. *)
Definition kept (x : ptr * ptr) : ptr := if is_null (snd x) then fst x else snd x.
Definition gone (x : ptr * ptr) : list nat := if is_null (snd x) then [] else addresses [fst x].

Definition release (l : list nat) (h : heap) : heap := foldr delete h l.

Lemma release_lookup l h a : release l h !! a = if bool_decide (a ∈ l) then None else h !! a.
Proof.
  induction l as [|b l IH]; cbn; [done|]. destruct (decide (a = b)) as [->|Hne].
  - rewrite lookup_delete_eq, bool_decide_eq_true_2; [done|left].
  - rewrite lookup_delete_ne by done. unfold release in IH. rewrite IH.
    case_bool_decide; case_bool_decide; try done; rewrite elem_of_cons in *; tauto.
Qed.

Lemma release_app l k h : release (l ++ k) h = release k (release l h).
Proof.
  apply map_eq. intros a. rewrite !release_lookup. repeat case_bool_decide; try done; rewrite elem_of_app in *; tauto.
Qed.

(** The fields of an object, each with the argument for it, one after the other. *)
Fixpoint set0s (l : list (ptr * ptr)) : M (list ptr) :=
  match l with [] => mret [] | (field, x) :: l' => y ← set0 field x; k ← set0s l'; mret (y :: k) end.

Lemma set0_spec field x h :
  (forall a, a ∈ gone (field, x) -> is_Some (h !! a)) -> set0 field x h = Some (kept (field, x), release (gone (field, x)) h).
Proof.
  intros Ha. unfold set0, kept, gone in *. cbn [fst snd] in *. destruct (is_null x); [done|].
  destruct field as [a|]; [|done]. cbn. unfold BN_free, OPENSSL_free, mbind, M_bind.
  rewrite bool_decide_eq_true_2 by (apply Ha; left). done.
Qed.

Lemma set0s_spec l h :
  NoDup (concat (map gone l)) -> (forall a, a ∈ concat (map gone l) -> is_Some (h !! a)) ->
  set0s l h = Some (map kept l, release (concat (map gone l)) h).
Proof.
  revert h. induction l as [|[field x] l IH]; intros h Hnd Ha; [done|]. cbn [map concat set0s] in *.
  apply NoDup_app in Hnd as (N1 & N2 & N3). unfold mbind, M_bind. rewrite set0_spec.
  2: { intros a Hin. apply Ha, elem_of_app. by left. }
  rewrite IH; [|done|].
  - cbn. f_equal. f_equal. by rewrite release_app.
  - intros a Hin. rewrite release_lookup, bool_decide_eq_false_2; [apply Ha, elem_of_app; by right|]. intros Hg. by apply (N2 a).
Qed.

(** The numbers that change hands: what the object owned and what it is given are either
    owned by the object afterwards or freed, once. *)
Lemma set0s_owns l rest h :
  owned h (addresses (map fst l) ++ addresses (map snd l) ++ rest) ->
  let h' := release (concat (map gone l)) h in
  set0s l h = Some (map kept l, h') /\ owned h' (addresses (map kept l) ++ rest)
  /\ (forall a, a ∈ concat (map gone l) <-> a ∈ addresses (map fst l) /\ a ∉ addresses (map kept l))
  /\ (forall a, a ∈ addresses (map snd l) -> a ∈ addresses (map kept l)).
Proof.
  intros [Hnd Hlive] h'.
  assert (Hperm : addresses (map fst l) ++ addresses (map snd l) ≡ₚ concat (map gone l) ++ addresses (map kept l)).
  { clear. induction l as [|[f x] l IH]; [done|]. unfold gone, kept in *. cbn in *.
    destruct x as [x|], f as [f|]; cbn in *; rewrite <- ?Permutation_middle, ?IH; try done; solve_Permutation. }
  assert (Hnd' : NoDup (concat (map gone l) ++ addresses (map kept l) ++ rest)).
  { rewrite app_assoc, <- Hperm, <- app_assoc. exact Hnd. }
  assert (Hlive' : forall a, a ∈ concat (map gone l) ++ addresses (map kept l) ++ rest -> exists bits, h !! a = Some (Number bits)).
  { intros a. rewrite app_assoc, <- Hperm, <- app_assoc. apply Hlive. }
  apply NoDup_app in Hnd' as (N1 & N2 & N3).
  assert (Hsnd : forall a, a ∈ addresses (map snd l) -> a ∈ addresses (map kept l)).
  { clear. induction l as [|[f x] l IH]; [done|]. unfold kept, addresses in *. cbn in *. intros a.
    destruct x as [x|]; cbn; [rewrite !elem_of_cons; naive_solver|]. destruct f as [f|]; cbn; [rewrite elem_of_cons|]; eauto. }
  split_and!.
  - apply set0s_spec; [done|]. intros a Ha. destruct (Hlive' a) as [b Hb]; [apply elem_of_app; by left|by eexists].
  - split; [done|]. intros a Ha. unfold h'. rewrite release_lookup, bool_decide_eq_false_2.
    + apply Hlive'. apply elem_of_app. by right.
    + intros Hg. by apply (N2 a).
  - intros a. split.
    + intros Hg. assert (Hk : a ∉ addresses (map kept l)) by (intros Hk; apply (N2 a Hg), elem_of_app; by left).
      split; [|done]. assert (Hin : a ∈ addresses (map fst l) ++ addresses (map snd l)) by (rewrite Hperm; apply elem_of_app; by left).
      apply elem_of_app in Hin as [?|Hin]; [done|]. by apply Hsnd in Hin.
    + intros [Hf Hk]. assert (Hin : a ∈ concat (map gone l) ++ addresses (map kept l)) by (rewrite <- Hperm; apply elem_of_app; by left).
      by apply elem_of_app in Hin as [?|?].
  - exact Hsnd.
Qed.

(** An object that owns numbers. *)
Class Owner (A : Type) := numbers : A -> list ptr.
#[export] Instance RSA_owner : Owner RSA := fun r => [n r; e r; d r; p r; q r; dmp1 r; dmq1 r; iqmp r].
#[export] Instance DSA_owner : Owner DSA := fun d => [dsa_p d; dsa_q d; dsa_g d; dsa_pub_key d; dsa_priv_key d].
#[export] Instance SIG_owner : Owner SIG := fun s => [sig_r s; sig_s s].
#[export] Instance DH_owner : Owner DH := fun dh => [dh_p dh; dh_q dh; dh_g dh; dh_pub_key dh; dh_priv_key dh].

(** A [set0] function either refuses and changes nothing, or the object owns everything it
    was given, and of what it owned before exactly what it no longer owns is freed. *)
Definition transfers {A} `{Owner A} (args : list ptr) (old : A) (h : heap) (result : option (bool * A * heap)) : Prop :=
  exists ok new h', result = Some (ok, new, h')
    /\ if ok : bool then
         owned h' (addresses (numbers new))
         /\ (forall a, a ∈ addresses args -> a ∈ addresses (numbers new))
         /\ (forall a, h' !! a = if bool_decide (a ∈ addresses (numbers old) /\ a ∉ addresses (numbers new)) then None else h !! a)
       else new = old /\ h' = h.

Lemma transfers_intro {A} `{Owner A} l rest (old : A) (f : M (bool * A)) h :
  owned h (addresses (numbers old ++ map snd l)) -> numbers old ≡ₚ map fst l ++ rest ->
  (forall ks h', set0s l h = Some (ks, h') -> ks = map kept l -> owned h' (addresses (ks ++ rest)) ->
     exists new, f h = Some (true, new, h') /\ numbers new ≡ₚ ks ++ rest) ->
  transfers (map snd l) old h (f h).
Proof.
  intros Hown Hold Hf.
  assert (Hadd : forall a b, a ≡ₚ b -> addresses a ≡ₚ addresses b) by (intros a b E; unfold addresses; by rewrite E).
  assert (Hold' : addresses (numbers old ++ map snd l) ≡ₚ addresses (map fst l) ++ addresses (map snd l) ++ addresses rest).
  { rewrite <- !addresses_app. apply Hadd. rewrite Hold. solve_Permutation. }
  rewrite Hold' in Hown. destruct (set0s_owns l (addresses rest) h Hown) as (E & Hown' & Hgone & Hsnd). cbv zeta in *.
  rewrite <- addresses_app in Hown'. destruct (Hf _ _ E eq_refl Hown') as (new & Ef & Hnew).
  exists true, new, (release (concat (map gone l)) h). split; [exact Ef|]. apply Hadd in Hnew.
  assert (Hin : forall a, a ∈ addresses (numbers new) <-> a ∈ addresses (map kept l) \/ a ∈ addresses rest).
  { intros a. by rewrite Hnew, addresses_app, elem_of_app. }
  split; [by rewrite Hnew|]. split; [intros a Ha; apply Hin; left; by apply Hsnd|].
  intros a. rewrite release_lookup.
  assert (Hina : a ∈ addresses (numbers old) <-> a ∈ addresses (map fst l) \/ a ∈ addresses rest).
  { apply Hadd in Hold. by rewrite Hold, addresses_app, elem_of_app. }
  assert (Hrest : a ∈ addresses rest -> a ∉ addresses (map fst l)).
  { intros Hr Hf'. destruct Hown as [Hnd _]. apply NoDup_app in Hnd as (_ & Hd & _). apply (Hd a Hf'), elem_of_app. by right. }
  specialize (Hgone a). specialize (Hin a). repeat case_bool_decide; try done; tauto.
Qed.

(** The functions run their [set0]s one after the other. *)
Ltac run_set0s E :=
  unfold mbind, M_bind, mret, M_ret in *; cbn [set0s] in E; unfold mbind, M_bind, mret, M_ret in E;
  repeat (match type of E with context [match set0 ?x ?y ?h with _ => _ end] => destruct (set0 x y h) as [[? ?]|] eqn:? end;
          [|done]);
  injection E as <- <-.

Lemma RSA_set0_key_transfers r n' e' d' h :
  owned h (addresses (numbers r ++ [n'; e'; d'])) -> transfers [n'; e'; d'] r h (RSA_set0_key r n' e' d' h).
Proof.
  intros Hown. unfold RSA_set0_key. destruct (_ || _); [by exists false, r, h|].
  apply (transfers_intro [(n r, n'); (e r, e'); (d r, d')] [p r; q r; dmp1 r; dmq1 r; iqmp r]); [done|done|].
  intros ks h' E _ _. run_set0s E. eexists. split; [reflexivity|done].
Qed.

Lemma RSA_set0_factors_transfers r p' q' h :
  owned h (addresses (numbers r ++ [p'; q'])) -> transfers [p'; q'] r h (RSA_set0_factors r p' q' h).
Proof.
  intros Hown. unfold RSA_set0_factors. destruct (_ || _); [by exists false, r, h|].
  apply (transfers_intro [(p r, p'); (q r, q')] [n r; e r; d r; dmp1 r; dmq1 r; iqmp r]); [done|cbn; solve_Permutation|].
  intros ks h' E _ _. run_set0s E. eexists. split; [reflexivity|cbn; solve_Permutation].
Qed.

Lemma RSA_set0_crt_params_transfers r a b c h :
  owned h (addresses (numbers r ++ [a; b; c])) -> transfers [a; b; c] r h (RSA_set0_crt_params r a b c h).
Proof.
  intros Hown. unfold RSA_set0_crt_params. destruct (_ || _); [by exists false, r, h|].
  apply (transfers_intro [(dmp1 r, a); (dmq1 r, b); (iqmp r, c)] [n r; e r; d r; p r; q r]); [done|cbn; solve_Permutation|].
  intros ks h' E _ _. run_set0s E. eexists. split; [reflexivity|cbn; solve_Permutation].
Qed.

Lemma DSA_set0_pqg_transfers d a b c h :
  owned h (addresses (numbers d ++ [a; b; c])) -> transfers [a; b; c] d h (DSA_set0_pqg d a b c h).
Proof.
  intros Hown. unfold DSA_set0_pqg. destruct (_ || _); [by exists false, d, h|].
  apply (transfers_intro [(dsa_p d, a); (dsa_q d, b); (dsa_g d, c)] [dsa_pub_key d; dsa_priv_key d]); [done|done|].
  intros ks h' E _ _. run_set0s E. eexists. split; [reflexivity|done].
Qed.

Lemma DSA_set0_key_transfers d a b h :
  owned h (addresses (numbers d ++ [a; b])) -> transfers [a; b] d h (DSA_set0_key d a b h).
Proof.
  intros Hown. unfold DSA_set0_key. destruct (_ && _); [by exists false, d, h|].
  apply (transfers_intro [(dsa_pub_key d, a); (dsa_priv_key d, b)] [dsa_p d; dsa_q d; dsa_g d]); [done|cbn; solve_Permutation|].
  intros ks h' E _ _. run_set0s E. eexists. split; [reflexivity|cbn; solve_Permutation].
Qed.

Lemma DSA_SIG_set0_transfers sig a b h :
  owned h (addresses (numbers sig ++ [a; b])) -> transfers [a; b] sig h (DSA_SIG_set0 sig a b h).
Proof.
  intros Hown. unfold DSA_SIG_set0. destruct a as [a|]; [|by exists false, sig, h]. destruct b as [b|]; [|by exists false, sig, h].
  apply (transfers_intro [(sig_r sig, Some a); (sig_s sig, Some b)] []); [done|done|].
  intros ks h' E -> _. unfold BN_clear_free. cbn in E. unfold mbind, M_bind, mret, M_ret, set0, BN_free in *. cbn in *.
  unfold mbind, M_bind in *. destruct (OPENSSL_free (sig_r sig) h) as [[[] h1]|]; [|done].
  destruct (OPENSSL_free (sig_s sig) h1) as [[[] h2]|]; [|done]. injection E as <-. eexists. split; [reflexivity|done].
Qed.

Lemma ECDSA_SIG_set0_transfers sig a b h :
  owned h (addresses (numbers sig ++ [a; b])) -> transfers [a; b] sig h (ECDSA_SIG_set0 sig a b h).
Proof. exact (DSA_SIG_set0_transfers sig a b h). Qed.

Lemma DH_set0_pqg_transfers dh a b c h :
  owned h (addresses (numbers dh ++ [a; b; c])) -> transfers [a; b; c] dh h (DH_set0_pqg dh a b c h).
Proof.
  intros Hown. unfold DH_set0_pqg. destruct (_ || _); [by exists false, dh, h|].
  apply (transfers_intro [(dh_p dh, a); (dh_q dh, b); (dh_g dh, c)] [dh_pub_key dh; dh_priv_key dh]); [done|done|].
  intros ks h' E Eks Hown'. pose proof E as E2. run_set0s E. destruct b as [b|]; cbn.
  - destruct (proj2 Hown' b) as [bits Hb].
    { injection Eks as _ -> _. unfold kept. cbn. destruct o; cbn; [right; left|left]. }
    unfold BN_num_bits, load, mbind, M_bind. rewrite Hb. eexists. split; [reflexivity|done].
  - eexists. split; [reflexivity|done].
Qed.

Lemma DH_set0_key_transfers dh a b h :
  owned h (addresses (numbers dh ++ [a; b])) -> transfers [a; b] dh h (DH_set0_key dh a b h).
Proof.
  intros Hown. unfold DH_set0_key. destruct (_ && _); [by exists false, dh, h|].
  apply (transfers_intro [(dh_pub_key dh, a); (dh_priv_key dh, b)] [dh_p dh; dh_q dh; dh_g dh]); [done|cbn; solve_Permutation|].
  intros ks h' E _ _. run_set0s E. eexists. split; [reflexivity|cbn; solve_Permutation].
Qed.

(** When a key is set, it is what [RSA_get0_key] hands out: the given component where one was
    given, and the old one otherwise. *)
Lemma RSA_key_roundtrip r n' e' d' h r' h' a b c :
  RSA_set0_key r n' e' d' h = Some (true, r', h') ->
  RSA_get0_key r' (Some a) (Some b) (Some c) = (Some (kept (n r, n')), Some (kept (e r, e')), Some (kept (d r, d'))).
Proof.
  unfold RSA_set0_key. destruct (_ || _); [done|]. unfold mbind, M_bind, mret, M_ret.
  assert (Hk : forall f x h1 y h2, set0 f x h1 = Some (y, h2) -> y = kept (f, x)).
  { intros f x h1 y h2. unfold set0, kept, mbind, M_bind, mret, M_ret. cbn. destruct (is_null x); [by intros [= <- _]|].
    destruct (BN_free f h1) as [[? ?]|]; [|done]. by intros [= <- _]. }
  destruct (set0 (n r) n' h) as [[x h1]|] eqn:E1; [|done]. destruct (set0 (e r) e' h1) as [[y h2]|] eqn:E2; [|done].
  destruct (set0 (d r) d' h2) as [[z h3]|] eqn:E3; [|done]. intros [= <- _]. cbn.
  by rewrite (Hk _ _ _ _ _ E1), (Hk _ _ _ _ _ E2), (Hk _ _ _ _ _ E3).
Qed.

(** A copy of a method owns a name of its own: freeing the copy gives the heap back, and so
    does a copy that runs out of memory on the way. *)
Lemma RSA_meth_dup_free a1 a2 m mm s h :
  h !! m = Some (Method mm) -> meth_name mm = Some s -> (exists t, h !! s = Some (Text t)) ->
  (forall a, a1 = Some a -> h !! a = None) -> (forall a, a2 = Some a -> h !! a = None /\ a1 <> Some a) ->
  exists r h', RSA_meth_dup a1 a2 (Some m) h = Some (r, h') /\ RSA_meth_free r h' = Some ((), h).
Proof.
  intros Hm Hs [t Ht] H1 H2. unfold RSA_meth_dup, load_method, load, mbind, M_bind. rewrite Hm. cbn.
  destruct a1 as [a1|]; cbn; [|by exists None, h]. specialize (H1 a1 eq_refl). rewrite H1.
  rewrite bool_decide_eq_false_2 by (intros [? ?]; done). cbn.
  assert (Hne : forall x b, h !! x = Some b -> x <> a1) by (intros x b E ->; congruence).
  rewrite Hs. unfold OPENSSL_strdup, load, mbind, M_bind. cbn. rewrite lookup_insert_ne by (intros E; by apply (Hne s _ Ht)).
  rewrite Ht. cbn.
  unfold RSA_meth_free, load_method, load, mbind, M_bind, store.
  destruct a2 as [a2|]; cbn.
  - destruct (H2 a2 eq_refl) as [Ha2 Hne2]. rewrite lookup_insert_ne by congruence. rewrite Ha2.
    rewrite bool_decide_eq_false_2 by (intros [? ?]; done). cbn. rewrite lookup_insert_ne, lookup_insert_eq by congruence.
    rewrite bool_decide_eq_true_2 by done. cbn. eexists _, _. split; [reflexivity|]. cbn. rewrite lookup_insert_eq. cbn.
    rewrite lookup_insert_ne, lookup_insert_eq by congruence. rewrite bool_decide_eq_true_2 by done. cbn.
    rewrite lookup_delete_ne, lookup_insert_eq by congruence. rewrite bool_decide_eq_true_2 by done. f_equal. f_equal.
    apply map_eq. intros x. destruct (decide (x = a1)) as [->|H3]; [by rewrite lookup_delete_eq|].
    rewrite lookup_delete_ne by done. destruct (decide (x = a2)) as [->|H4]; [by rewrite lookup_delete_eq|].
    rewrite lookup_delete_ne, !lookup_insert_ne by congruence. done.
  - rewrite lookup_insert_eq, bool_decide_eq_true_2 by done. cbn. rewrite lookup_insert_eq, bool_decide_eq_true_2 by done. cbn.
    eexists _, _. split; [reflexivity|]. cbn. unfold mret, M_ret. f_equal. f_equal. apply map_eq. intros x.
    destruct (decide (x = a1)) as [->|H3]; [by rewrite lookup_delete_eq|]. by rewrite lookup_delete_ne, !lookup_insert_ne.
Qed.
End OpenSSL.
