(* ===== verification/Examples.v ===== *)
(** * The sample programs (src/example/rocketmq).

    What the samples build for themselves: the string generator, the counters of the
    benchmark and their statistics threads, the rate limiter of ExampleAsyncProducer.cpp and the
    custom executor of PushConsumerWithCustomExecutor.cpp.  Threads are step machines; the rest of the samples is a
    sequence of calls of the facades (ProducerFacade, ConsumerFacade). *)

From S2P Require Import Prelude Types RateLimiter.

(** ** randomString *)
Module RandomString.
Section random.
(** [shuffle i] is the [i]-th [std::shuffle]. *)
Context (shuffle : nat -> list Ascii.ascii -> list Ascii.ascii).

Definition alphaNumeric : list Ascii.ascii :=
  String.list_ascii_of_string "0123456789abcdefghijklmnopqrstuvwxyzABCDEFGHIJKLMNOPQRSTUVWXYZ".

(** The loop, with [missing = len - generated]; the fuel is [len]. *)
Fixpoint random_loop (fuel i : nat) (source : list Ascii.ascii) (missing : nat) (result : list Ascii.ascii)
    : option (list Ascii.ascii) :=
  match missing, fuel with
  | O, _ => Some result
  | _, O => None
  | _, S fuel' =>
      let source := shuffle i source in
      let delta := Nat.min missing (length source) in
      random_loop fuel' (S i) source (missing - delta) (result ++ take delta source)
  end.

Definition randomString (len : nat) : option (list Ascii.ascii) := random_loop len 0 alphaNumeric len [].

Lemma random_loop_spec (Hs : forall i l, shuffle i l ≡ₚ l) fuel : forall i source missing result,
  source ≡ₚ alphaNumeric -> (missing <= fuel)%nat ->
  exists l, random_loop fuel i source missing result = Some (result ++ l) /\ length l = missing
    /\ Forall (fun c => c ∈ alphaNumeric) l.
Proof.
  induction fuel as [|fuel IH]; intros i source [|missing] result Hp Hf; try lia;
    [exists []; cbn; by rewrite app_nil_r..|].
  cbn [random_loop]. assert (Hp' : shuffle i source ≡ₚ alphaNumeric) by (by rewrite Hs).
  pose proof (Permutation_length Hp') as Hlen. cbn in Hlen.
  set (delta := Nat.min (S missing) (length (shuffle i source))).
  assert (Hd : (1 <= delta <= S missing)%nat /\ (delta <= length (shuffle i source))%nat) by (unfold delta; lia).
  destruct (IH (S i) (shuffle i source) (S missing - delta)%nat (result ++ take delta (shuffle i source)) Hp') as (l & E & Hl & Ha); [lia|].
  exists (take delta (shuffle i source) ++ l). rewrite E, app_assoc. split; [done|]. split.
  - rewrite length_app, length_take. lia.
  - apply Forall_app. split; [|done]. apply Forall_forall. intros c Hc. rewrite <- Hp'. by apply elem_of_take in Hc as (? & ? & _); eapply list_elem_of_lookup_2.
Qed.

(** The string has the length asked for, and only letters and digits. *)
Theorem randomString_spec (Hs : forall i l, shuffle i l ≡ₚ l) len :
  exists l, randomString len = Some l /\ length l = len /\ Forall (fun c => c ∈ alphaNumeric) l.
Proof. by destruct (random_loop_spec Hs len 0 alphaNumeric len []) as (l & E & H); [|lia|exists l]. Qed.
End random.
End RandomString.

(** ** The counters of the benchmarks *)
Module Counter.

(** [fetched] is the value a statistics thread has loaded and not yet used; [reported] are the values it
    printed, [added] the number of increments. *)
Record t := mk { counter : Z; fetched : option Z; reported : list Z; added : Z }.

Definition make : t := mk 0 None [] 0.

(** [SampleSendCallback::onSuccess] and [onFailure]: [fetch_add]. *)
Definition add (s : t) : t := mk (i32 (counter s + 1)) (fetched s) (reported s) (added s + 1).

Definition load (s : t) : t := mk (counter s) (Some (counter s)) (reported s) (added s).

(** [getAndReset]: the exchange may fail spuriously; the loop then loads again. *)
Definition exchange (spurious : bool) (s : t) : option t :=
  current ← fetched s;
  if (counter s =? current) && negb spurious then Some (mk 0 None (reported s ++ [current]) (added s))
  else Some (mk (counter s) None (reported s) (added s)).

(** The statistics thread of ExampleProducer.cpp: a failed exchange writes the value it saw
    into [cnt], which is printed whether the exchange succeeded or not. *)
Definition exchange_once (spurious : bool) (s : t) : option t :=
  cnt ← fetched s;
  if (counter s =? cnt) && negb spurious then Some (mk 0 None (reported s ++ [cnt]) (added s))
  else Some (mk (counter s) None (reported s ++ [counter s]) (added s)).

Inductive action := Add | Load | Exchange (spurious : bool).

Definition step (exchange : bool -> t -> option t) (a : action) (s : t) : option t :=
  match a with Add => Some (add s) | Load => Some (load s) | Exchange b => exchange b s end.

Fixpoint run (exchange : bool -> t -> option t) (l : list action) (s : t) : option t :=
  match l with [] => Some s | a :: l' => s ← step exchange a s; run exchange l' s end.

Definition total (s : t) : Z := counter s + foldr Z.add 0 (reported s).

Lemma sum_snoc l x : foldr Z.add 0 (l ++ [x]) = foldr Z.add 0 l + x.
Proof. induction l as [|a l IH]; cbn; [lia|]. rewrite IH. lia. Qed.

(** Every increment is reported exactly once by [getAndReset] or still in the counter, in
    every interleaving, as long as the counter does not overflow. *)
Theorem getAndReset_exact l s : forall s0,
  0 <= counter s0 <= added s0 -> total s0 = added s0 ->
  run exchange l s0 = Some s -> added s < 2 ^ 31 -> total s = added s /\ 0 <= counter s.
Proof.
  assert (Hm : forall l s s', run exchange l s = Some s' -> added s <= added s').
  { clear. induction l as [|a l IH]; cbn [run]; intros s s'; [by intros [= <-]|].
    destruct (step exchange a s) as [s1|] eqn:E; [|done]. cbn. intros H. apply IH in H. destruct a; cbn in E.
    - injection E as <-. cbn in H. lia.
    - injection E as <-. done.
    - unfold exchange in E. destruct (fetched s); [|done]. cbn in E. destruct (_ && _); by injection E as <-. }
  induction l as [|a l IH]; intros s0 Hc Ht; cbn [run]; [intros [= <-] _; split; [done|lia]|].
  destruct (step exchange a s0) as [s1|] eqn:E; [|done]. cbn. intros Hr Hb. pose proof (Hm l s1 s Hr) as Hle.
  destruct a; cbn in E.
  - injection E as <-. apply (IH _) in Hr; [done| | |done]; unfold total in *; cbn in *; rewrite i32_small by lia; lia.
  - injection E as <-. by apply (IH _) in Hr.
  - unfold exchange in E. destruct (fetched s0) as [c|]; [|done]. cbn in E.
    destruct (Z.eqb_spec (counter s0) c) as [Hcur|]; [destruct spurious|]; cbn in E; injection E as <-;
      apply (IH _) in Hr; try done; unfold total in *; cbn in *; rewrite ?sum_snoc; lia.
Qed.

(** The other statistics thread counts a message twice when a send completes between its
    load and its exchange. *)
Lemma exchange_once_counts_twice :
  exists s, run exchange_once [Load; Add; Exchange false; Load; Exchange false] make = Some s
    /\ added s = 1 /\ reported s = [1; 1].
Proof. by eexists. Qed.
End Counter.

(** ** The rate limiter of the sample

    It is the limiter of the library with [int] instead of [uint32_t] permits. *)
Module SampleRateLimiter.
Section limiter.
Context (PARTITION : Z).
Import RateLimiter.

Fixpoint spread (r : nat) (step : Z) (l : list Z) : list Z :=
  match r with
  | O => l
  | S r' =>
      let l' := spread r' step l in
      let i := Z.of_nat r' * step in
      wr l' i (i32 (rd l' i + 1))
  end.

Definition make (permit : Z) : t :=
  let avg := Z.quot permit PARTITION in
  let base := replicate (Z.to_nat PARTITION) avg in
  let r := Z.rem permit PARTITION in
  let part := if r =? 0 then base else spread (Z.to_nat r) (Z.quot PARTITION r) base in
  mk part (replicate (Z.to_nat PARTITION) 0) (1000 / PARTITION).

Definition take_permit (i : Z) (s : t) : t :=
  mk (partition_ s) (wr (permits_ s) i (i32 (rd (permits_ s) i - 1))) (interval_ s).

Definition acquire (ms : Z) (s : t) : option t :=
  let idx := slot PARTITION s ms in
  if 0 <? rd (permits_ s) idx then Some (take_permit idx s)
  else match first_avail (permits_ s) (past PARTITION idx 1) with
       | Some i => Some (take_permit i s)
       | None => None
       end.

Definition acquire_wakeup (ms ms' : Z) (s : t) : option t :=
  if 0 <? rd (permits_ s) (slot PARTITION s ms) then Some (take_permit (slot PARTITION s ms') s) else None.

Definition tick (ms : Z) (s : t) : t :=
  let idx := slot PARTITION s ms in
  mk (partition_ s) (wr (permits_ s) idx (rd (partition_ s) idx)) (interval_ s).

(** *** Where the two limiters agree *)
Definition small (l : list Z) : Prop := Forall (fun v => 0 <= v < 2 ^ 31) l.

Lemma small_rd l i : small l -> 0 <= rd l i < 2 ^ 31.
Proof.
  intros H. unfold rd, at_. case_decide; [|cbn; lia]. destruct (l !! Z.to_nat i) as [v|] eqn:E; cbn; [|lia].
  exact (proj1 (Forall_lookup _ _) H _ _ E).
Qed.

Lemma spread_agrees r step l c :
  1 <= step -> (Z.of_nat r - 1) * step < zlen l -> Forall (fun v => 0 <= v <= c) l -> c + Z.of_nat r < 2 ^ 31 ->
  spread r step l = RateLimiter.spread r step l.
Proof.
  induction r as [|r IH]; intros Hs Hl Hv Hc; [done|]. cbn [spread RateLimiter.spread].
  rewrite IH by nia || lia || done.
  destruct (RateLimiter.spread_spec r step l c) as (_ & _ & Hr); [lia|nia|done|lia|].
  set (l' := RateLimiter.spread r step l) in *.
  assert (Hi : 0 <= rd l' (Z.of_nat r * step) <= c + Z.of_nat r).
  { unfold rd, at_. assert (0 <= c) by (destruct l; [unfold zlen in Hl; cbn [length] in Hl; nia|]; inversion Hv; lia).
    case_decide; [|cbn; lia]. destruct (l' !! _) as [v|] eqn:E; cbn; [|lia]. exact (proj1 (Forall_lookup _ _) Hr _ _ E). }
  by rewrite i32_small, u32_small by lia.
Qed.

Context (HP : 2 <= PARTITION <= 1000).

Lemma take_agrees i s : small (permits_ s) -> 0 < rd (permits_ s) i ->
  take_permit i s = RateLimiter.take_permit i s /\ small (permits_ (take_permit i s)).
Proof.
  intros Hs Hi. pose proof (small_rd _ i Hs). unfold take_permit, RateLimiter.take_permit.
  rewrite i32_small, u32_small by lia. split; [done|]. apply RateLimiter.wr_Forall; [done|lia].
Qed.

(** The sample is built like the library's limiter, and as long as no counter is negative it
    grants and refills like it. *)
Theorem sample_limiter_agrees permit ms s :
  (0 <= permit < 2 ^ 30 -> make permit = RateLimiter.make PARTITION permit /\ small (permits_ (make permit)))
  /\ (small (permits_ s) -> acquire ms s = RateLimiter.acquire PARTITION ms s
       /\ match acquire ms s with Some s' => small (permits_ s') | None => True end)
  /\ (small (permits_ s) -> small (partition_ s) -> tick ms s = RateLimiter.tick PARTITION ms s /\ small (permits_ (tick ms s))).
Proof.
  split; [|split].
  - intros Hp. split.
    2: { unfold make, small. cbn. apply Forall_replicate. lia. }
    unfold make, RateLimiter.make. rewrite Z.quot_div_nonneg, Z.rem_mod_nonneg by lia.
    pose proof (Z.mod_pos_bound permit PARTITION ltac:(lia)) as Hm. f_equal.
    destruct (Z.eqb_spec (permit mod PARTITION) 0) as [|Hz]; [done|]. rewrite Z.quot_div_nonneg by lia.
    assert (Hq : 0 <= permit / PARTITION <= permit) by (split; [apply Z.div_pos|apply Z.div_le_upper_bound]; nia).
    apply (spread_agrees _ _ _ (permit / PARTITION)).
    + apply Z.div_le_lower_bound; lia.
    + unfold zlen. rewrite length_replicate. rewrite !Z2Nat.id by lia.
      pose proof (Z.mul_div_le PARTITION (permit mod PARTITION) ltac:(lia)) as Hd.
      assert (1 <= PARTITION / (permit mod PARTITION)) by (apply Z.div_le_lower_bound; lia). nia.
    + apply Forall_replicate. lia.
    + rewrite Z2Nat.id by lia. lia.
  - intros Hs. unfold acquire, RateLimiter.acquire. destruct (Z.ltb_spec 0 (rd (permits_ s) (slot PARTITION s ms))) as [Hi|].
    + destruct (take_agrees _ s Hs Hi) as [-> Hsm]. split; [done|exact Hsm].
    + destruct (first_avail (permits_ s) _) as [i|] eqn:E; [|done]. apply RateLimiter.first_avail_spec in E as [_ Hi].
      destruct (take_agrees _ s Hs Hi) as [-> Hsm]. split; [done|exact Hsm].
  - intros Hs Hp. split; [done|]. apply RateLimiter.wr_Forall; [done|]. by apply small_rd.
Qed.
End limiter.

(** Where the library's counter wraps around, the sample's falls below zero and the slot is
    in debt until its next tick. *)
Lemma sample_wakeup_in_debt :
  let s := tick 10 0 (make 10 10) in
  exists s', acquire_wakeup 10 0 100 s = Some s' /\ RateLimiter.rd (RateLimiter.permits_ s') 1 = -1.
Proof. eexists. split; [vm_compute; reflexivity|]. vm_compute. reflexivity. Qed.
End SampleRateLimiter.

(** ** The custom executor *)
Module ExecutorImpl.

(** The worker is between two turns of the loop, looks for a task, runs one, or waits. *)
Inductive phase := NotStarted | Test | Look | Running (task : nat) | Waiting | Ended.

(** Tasks are named by their number; [begun] are those the worker began, in order;
    [starting] says that a thread is inside [start]. *)
Record t := mk { state_ : State; tasks_ : list nat; worker_ : phase; starting : bool; begun : list nat }.

Definition make : t := mk CREATED [] NotStarted false [].

Definition submit (task : nat) (s : t) : t :=
  if decide (state_ s = STOPPED) then s else mk (state_ s) (tasks_ s ++ [task]) (worker_ s) (starting s) (begun s).

(** [start]: the exchange and the thread, then the store. *)
Definition start_exchange (s : t) : t :=
  let '(ok, st) := compare_exchange_strong (state_ s) CREATED STARTING in
  if ok then mk st (tasks_ s) Test true (begun s) else s.
Definition start_store (s : t) : option t :=
  if starting s then Some (mk STARTED (tasks_ s) (worker_ s) false (begun s)) else None.

(** [stop]: the store, then the join, possible once the worker has ended. *)
Definition stop_store (s : t) : t := mk STOPPED (tasks_ s) (worker_ s) (starting s) (begun s).
Definition stop_join (s : t) : option t := match worker_ s with NotStarted | Ended => Some s | _ => None end.

(** The destructor stops an executor that was started and not stopped; its join is the one of [stop]. *)
Definition destroy_store (s : t) : t :=
  match state_ s with STARTING | STARTED => stop_store s | _ => s end.

(** [loop]: the condition, the look at the vector under the lock, the end of a task, and the
    end of a wait, which times out after three seconds. *)
Definition loop_test (s : t) : option t :=
  match worker_ s with
  | Test => Some (mk (state_ s) (tasks_ s) (if decide (state_ s = STOPPED) then Ended else Look) (starting s) (begun s))
  | _ => None
  end.
Definition loop_look (s : t) : option t :=
  match worker_ s with
  | Look => match last (tasks_ s) with
            | Some f => Some (mk (state_ s) (tasks_ s) (Running f) (starting s) (begun s ++ [f]))
            | None => Some (mk (state_ s) (tasks_ s) Waiting (starting s) (begun s))
            end
  | _ => None
  end.
Definition loop_done (s : t) : option t :=
  match worker_ s with Running _ => Some (mk (state_ s) (tasks_ s) Test (starting s) (begun s)) | _ => None end.
Definition loop_wake (s : t) : option t :=
  match worker_ s with Waiting => Some (mk (state_ s) (tasks_ s) Test (starting s) (begun s)) | _ => None end.

Inductive action :=
  Submit (task : nat) | StartExchange | StartStore | StopStore | StopJoin | DestroyStore | LoopTest | LoopLook | LoopDone | LoopWake.

Definition step (a : action) (s : t) : option t :=
  match a with
  | Submit f => Some (submit f s)
  | StartExchange => Some (start_exchange s)
  | StartStore => start_store s
  | StopStore => Some (stop_store s)
  | StopJoin => stop_join s
  | DestroyStore => Some (destroy_store s)
  | LoopTest => loop_test s
  | LoopLook => loop_look s
  | LoopDone => loop_done s
  | LoopWake => loop_wake s
  end.

Fixpoint run (l : list action) (s : t) : option t :=
  match l with [] => Some s | a :: l' => s ← step a s; run l' s end.

(** *** Properties *)
Definition submitted (l : list action) : list nat := omap (fun a => match a with Submit f => Some f | _ => None end) l.

(** One step: tasks are only ever added, and what is begun is the last one. *)
Lemma executor_step a s s' :
  step a s = Some s' ->
  (exists l, tasks_ s' = tasks_ s ++ l /\ forall f, f ∈ l -> f ∈ submitted [a])
  /\ (begun s' = begun s \/ exists f, begun s' = begun s ++ [f] /\ last (tasks_ s) = Some f /\ tasks_ s' = tasks_ s).
Proof.
  assert (H0 : exists l, tasks_ s = tasks_ s ++ l /\ forall f, f ∈ l -> f ∈ submitted [a]).
  { exists []. rewrite app_nil_r. split; [done|]. by intros f ?%not_elem_of_nil. }
  destruct a; cbn [step].
  - intros [= <-]. unfold submit. destruct (decide _); [by split; [|left]|]. cbn. split; [|by left]. by exists [task].
  - intros [= <-]. unfold start_exchange. destruct (compare_exchange_strong _ _ _) as [[] ?]; (split; [done|by left]).
  - unfold start_store. destruct (starting s); [|done]. intros [= <-]. split; [done|by left].
  - intros [= <-]. split; [done|by left].
  - unfold stop_join. destruct (worker_ s); try done; intros [= <-]; (split; [done|by left]).
  - intros [= <-]. unfold destroy_store. destruct (state_ s); (split; [done|by left]).
  - unfold loop_test. destruct (worker_ s); try done. intros [= <-]. split; [done|by left].
  - unfold loop_look. destruct (worker_ s); try done. destruct (last (tasks_ s)) as [f|] eqn:E; intros [= <-]; (split; [done|]).
    + right. by exists f.
    + by left.
  - unfold loop_done. destruct (worker_ s); try done. intros [= <-]. split; [done|by left].
  - unfold loop_wake. destruct (worker_ s); try done. intros [= <-]. split; [done|by left].
Qed.

(** A task that another one was submitted after never runs (again): whatever happens, what
    the worker begins is the task submitted last or one submitted later. *)
Theorem shadowed_never_runs l : forall s s' f0,
  last (tasks_ s) = Some f0 -> run l s = Some s' ->
  exists new, begun s' = begun s ++ new /\ Forall (fun f => f = f0 \/ f ∈ submitted l) new.
Proof.
  induction l as [|a l IH]; intros s s' f0 Hf; cbn [run]; [intros [= <-]; exists []; by rewrite app_nil_r|].
  destruct (step a s) as [s1|] eqn:E; [|done]. cbn. intros Hr. destruct (executor_step a s s1 E) as [(k & Ek & Hk) Hb].
  assert (Hl : exists f1, last (tasks_ s1) = Some f1 /\ (f1 = f0 \/ f1 ∈ submitted [a])).
  { rewrite Ek. destruct (last k) as [f1|] eqn:Ekl.
    - exists f1. rewrite last_app, Ekl. split; [done|]. right. apply Hk. by eapply last_Some_elem_of.
    - apply last_None in Ekl as ->. exists f0. rewrite app_nil_r. split; [done|by left]. }
  destruct Hl as (f1 & Hf1 & Hor). destruct (IH s1 s' f1 Hf1 Hr) as (new & En & Hn).
  assert (Hsub : forall f, f ∈ submitted [a] \/ f ∈ submitted l -> f ∈ submitted (a :: l)).
  { intros f Hfa. unfold submitted in *. change (a :: l) with ([a] ++ l). rewrite omap_app, elem_of_app. done. }
  assert (Hn' : Forall (fun f => f = f0 \/ f ∈ submitted (a :: l)) new).
  { eapply Forall_impl; [exact Hn|]. intros f [->|Hin]; [|right; apply Hsub; by right].
    destruct Hor as [->|Hin]; [by left|right; apply Hsub; by left]. }
  destruct Hb as [Eb|(f & Eb & Hlast & Et)].
  - exists new. by rewrite En, Eb.
  - exists (f :: new). rewrite En, Eb, <- app_assoc. split; [done|]. constructor; [|done].
    left. congruence.
Qed.

(** A task that was run stays: the worker runs the last one again and again. *)
Theorem executor_repeats n : forall s f,
  worker_ s = Test -> state_ s <> STOPPED -> last (tasks_ s) = Some f ->
  exists l s', submitted l = [] /\ run l s = Some s' /\ begun s' = begun s ++ replicate n f /\ tasks_ s' = tasks_ s.
Proof.
  induction n as [|n IH]; intros s f Hw Hst Hf; [by exists [], s; cbn; rewrite app_nil_r|].
  set (s1 := mk (state_ s) (tasks_ s) Test (starting s) (begun s ++ [f])).
  destruct (IH s1 f) as (l & s' & Hl & Hr & Hb & Ht); [done..|].
  exists (LoopTest :: LoopLook :: LoopDone :: l), s'. split; [exact Hl|]. split.
  - cbn [run step]. unfold loop_test. rewrite Hw. cbn. rewrite decide_False by done. unfold loop_look. cbn. rewrite Hf. exact Hr.
  - rewrite Hb, Ht. cbn. by rewrite <- app_assoc.
Qed.

(** A stop during [start] is undone by the store at its end: the worker goes on, and the join
    of [stop] waits for ever. *)
Lemma start_undoes_stop :
  exists s, run [StartExchange; StopStore; StartStore] make = Some s /\ state_ s = STARTED /\ stop_join s = None.
Proof. by eexists. Qed.
End ExecutorImpl.
